(* ===== verification/_CoqProject ===== *)
-Q . S2P
Prelude.v
Text.v
Numerals.v
Record.v
Merge.v
Extern.v
Crypto.v
Log.v
Keyring.v
Validate.v
Vault.v
Crud.v
Lifecycle.v
VaultInv.v
CrudFacts.v
VaultProps.v
KeyGrowth.v
Typing.v
Backup.v
Handles.v
VaultSamples.v
BackupSamples.v
SshConfig.v
Proto.v
RelayDb.v
Relay.v
RelayFacts.v
RelayProps.v
Setup.v
RelaySamples.v
Sync.v
SyncFacts.v
SyncRound.v
SyncProps.v
Fleet.v
Notify.v
SyncSamples.v
HostileSamples.v
FleetSamples.v
NotifySamples.v
Device.v
DeviceProps.v
Shares.v
Joining.v
Recovery.v
DeviceSamples.v
ShareRemoval.v
SharesSamples.v
JoiningSamples.v
RecoverySamples.v
RemovalSamples.v
Files.v
FilesFacts.v
SshFiles.v
KeyFiles.v
UnitTests.v
VaultTests.v
VaultFiles.v
VaultFilesSamples.v
Cli.v
CliFacts.v
CliProps.v
CliSamples.v
