(* ===== verification/Prelude.v ===== *)
(** * sshvault: a verification development

    sshvault keeps ssh hosts, snippets, port forwards, public keys and, sealed,
    private keys in an encrypted vault on each device, and syncs the vaults of
    a group of devices through a relay that sees only sealed blobs.  This
    library models the program ([src/src/*.rs], all of its files) as functions
    on explicit state and proves what makes it correct.

    ** The program and its parts

    - A vault is an append-only log of sealed record snapshots; its state is
      their merge, field by field, the later clock winning.  Sync exchanges
      frames of the logs; convergence of devices comes from the merge alone.
    - Records are sealed under the current key of a share (a group of devices);
      every rotation appends a key.  A device holds the key lists of its shares
      in a keyring sealed under a key derived from the passphrase.
    - The relay stores entries, devices with their approval, shares and members,
      and answers signed requests; a device is approved, revoked, and receives
      the key list wrapped to its public key.
    - The command line edits the vault, writes the ssh configuration and private
      key files, and drives syncing and the device commands.

    ** Files and the code they model

    Shared: [Prelude] (this file: error monad, list, option and integer lemmas,
    bytes and fixed-size arrays, tactics and hints), [Text] and [Numerals] (the
    parts of Rust's [str] and number formatting in use), [Extern] (third-party
    code as classes of operations with their documented laws, and [Toy]
    instances satisfying them).

    - record.rs: [Record] (clocks, kinds, payloads, serde conversions);
      [Typing] for what merging does to payload types.
    - merge.rs: [Merge].
    - crypto.rs: [Crypto].
    - vault.rs: [Log] (frames, key lists), [Keyring], [Validate], [Vault]
      (storage, clocks, replay, compaction, remote entries), [Crud] (records by
      name, export, import), [Lifecycle] (create, open, re-key); invariant and
      facts in [VaultInv], [CrudFacts], theorems in [VaultProps]; the operations
      that change the keys beside the others in [KeyGrowth]; import after
      export in [Backup]; several processes on one directory in [Handles]; the
      file system calls behind the four files, with crashes, in [VaultFiles].
    - proto.rs: [Proto].  relay.rs: [RelayDb] (tables and SQL statements),
      [Relay] (handlers as programs over statements, and the task behind a
      WebSocket), [RelayFacts], [RelayProps]; [Setup] (migration of a database
      file, and starting on it).
    - sync.rs: [Sync], [SyncFacts], [SyncRound], [SyncProps]; [Fleet] (any
      number of devices in turns); [Notify] joins the daemon to the WebSocket
      task.
    - device.rs: [Device], [DeviceProps]; [Joining] (enrolling a new machine,
      up to its first round), [Recovery] (a vault back from its phrase), [Shares] (creating and granting a share),
      [ShareRemoval] (removing a device from one).
    - sshconfig.rs: [SshConfig] (the texts), [SshFiles] (the calls that write
      them).
    - main.rs: [KeyFiles] (key files), [Cli] (every command), [CliFacts],
      [CliProps].
    - [Files], [FilesFacts]: paths, trees and the calls of [std::fs], with a
      logic of triples over the trees a program passes through.
    - [UnitTests] and [VaultTests]: the unit tests of the sources as programs
      over the model, which they pass; those that run ssh or ssh-keygen are
      left out.
    - [VaultSamples], [BackupSamples], [VaultFilesSamples], [RelaySamples],
      [SyncSamples], [HostileSamples], [FleetSamples], [NotifySamples],
      [DeviceSamples], [JoiningSamples], [RecoverySamples], [SharesSamples],
      [RemovalSamples], [CliSamples]: concrete vaults, relays and machines at which the hypotheses of the theorems hold and the
      functions evaluate.

    ** State and operations

    A method on [&mut self] is a function in the monad [M S E A], from a state
    to the state reached and [Ok] or [Err]; the state reached by a failed run
    is kept, as in the code.  The states are [Disk] (the four files of a vault
    directory) with [Vault] (an open handle), [Relay] (the tables), [Client]
    (a network, a vault and the random draws used), [Fs] (a tree and the trees
    passed), [Machine] and [Shell] (what a command acts on).  Bytes drawn from
    the system and the clock are arguments ([Draw], [InitDraw], [Entropy]).
    Machine integers are [Z] with the wrap-around of a release build written
    out.  Panics are [None] or [Panicked].

    ** What the theorems show

    - Merge: the state does not depend on the order or repetition of snapshots,
      and is the last write of each field; payloads stay well typed.
    - Vault: every sequence of operations, those that add keys included, keeps
      the state equal to the merge of what the keys open in the log, and the log
      only grows; reopening, snapshots and compaction do not change it; clocks
      of one device increase across processes; add, edit and refused operations
      do exactly what they should; an import adds exactly the exported records
      whose names are free.
    - Crashes: at every point of a record operation, of creating a vault, of an
      apply, of writing a key, what is on disk is old, new or reported; two
      windows that are neither are stated as they are.
    - Crypto and log: a wrapped key list opens for the device, the ephemeral key
      and the id it was made for; the log reader
      accepts exactly what the writer writes; a torn append is refused.
    - Relay: revocation is sticky, unauthorised requests change nothing, entries
      are stored once and all visible ones are returned, rotations do not replay;
      the invariants hold under every interleaving of the handlers' statements,
      with failures of the database and clients that hang up;
      starting on a file of any earlier version keeps every row.
    - Sync: a round by a device in good standing succeeds and exchanges
      everything, further rounds are idle; any number of devices that work and
      sync in any order end in the same state.  Against any answers of a relay
      the log, the files, the identity and the secrets of a vault stay in order;
      key lists are not authenticated, and what a relay that makes them up can
      do is stated and executed ([HostileSamples]).  The daemon's backoff is
      bounded, and a listening daemon misses no push.
    - Devices: a machine that enrolls ends with the vault's keys and entries
      once its code is typed; rotation, grants and removals deliver exactly the
      right keys to exactly the right devices, for the vault and for a share;
      recovery restores a vault whose key was never rotated; of one that was
      rotated it restores the key of epoch 0 only ([RecoverySamples]).
    - Configuration and commands: rendered files contain only directives of
      validated fields; an apply implements its specification; private keys are
      never exposed nor written where their record's name could send them;
      commands never lead to a vault whose configuration cannot be written.

    ** Bounds and fuel

    The frame reader and [validate_stack] recurse on the size of their input,
    of which each step consumes a part; [trim_start], [blank] and [words] on the
    length of the text; [create_dir_all] on the depth of the path; [follow] on
    the 40 links the kernel allows.  Theorems on running the relay assume
    [log_small] (a log below 4 GiB, the limit of a frame header) and sequence
    numbers below 2^63; those on clocks a counter below 2^64 - 1.

    ** Not modelled

    - Third-party code: ciphers, key derivation, encodings, SQLite, HTTP,
      WebSockets, TLS and the async runtime.  The first three are classes with
      laws; that a sealed blob opens under one key only ([AeadCommit]) is what
      the code takes for granted of its cipher.  SQLite is the effect of the
      statements in use, HTTP is [Transport]; the broadcast channel is
      [Broadcast]; binding a listener and loading certificates is [Server], of
      unknown effect.
    - Argument parsing (clap attributes), log output, and the debug formatting
      of names in error messages.
    - I/O errors and full disks on the machines of a vault.  (The relay's database
      may fail at any statement.)  Paths on the command line are absolute and their
      directories are not links.
    - Erasing secrets from memory.

    ** Open

    The theorems on several devices speak of one relay and of devices that take
    turns: in [Fleet] a turn is a whole round or operation, elsewhere a request.
    Rounds whose requests interleave are not covered; the handlers' statements
    are ([RelayProps]), and one interleaving of them in which an entry is missed
    is in the findings (relay.rs, pull). *)


From Stdlib Require Import ZArith NArith Lia.
From Stdlib Require Import Strings.String Strings.Ascii.
From Stdlib Require Strings.Byte.
From stdpp Require Export strings countable base tactics option gmap sets list.
From stdpp Require Import fin_maps sorting.

#[global] Open Scope Z_scope.

(* ------------------------------------------------------------------ *)
(** ** Results: Rust's [Result<T, E>] *)

Inductive res (E A : Type) : Type :=
  | Ok (a : A)
  | Err (e : E).
Arguments Ok {E A} _.
Arguments Err {E A} _.

#[export] Instance res_eq_dec `{EqDecision E} `{EqDecision A} : EqDecision (res E A).
Proof. solve_decision. Defined.

Declare Scope res_scope.
Delimit Scope res_scope with res.

Definition res_bind {E A B} (r : res E A) (k : A → res E B) : res E B :=
  match r with Ok a => k a | Err e => Err e end.

(** [ok_or]: an absent value becomes the given error. *)
Definition ok_or {E A} (e : E) (o : option A) : res E A :=
  match o with Some a => Ok a | None => Err e end.

Definition res_map_err {E E' A} (f : E → E') (r : res E A) : res E' A :=
  match r with Ok a => Ok a | Err e => Err (f e) end.

Definition res_ok {E A} (r : res E A) : option A :=
  match r with Ok a => Some a | Err _ => None end.

Notation "'try' x ':=' r 'in' k" := (res_bind r (λ x, k))
  (at level 10, x pattern, r at level 100, k at level 200) : res_scope.

(* ------------------------------------------------------------------ *)
(** ** State and errors: a function [&mut self -> Result<A, E>].  The state
    reached so far survives an error, as in Rust, where nothing is rolled
    back by [?]. *)

Definition M (S E A : Type) : Type := S → S * res E A.

Declare Scope mon_scope.
Delimit Scope mon_scope with mon.

Definition sret {S E A} (a : A) : M S E A := λ s, (s, Ok a).
Definition sfail {S E A} (e : E) : M S E A := λ s, (s, Err e).
Definition sbind {S E A B} (m : M S E A) (k : A → M S E B) : M S E B :=
  λ s, match m s with
       | (s', Ok a) => k a s'
       | (s', Err e) => (s', Err e)
       end.
Definition sget {S E A} (f : S → A) : M S E A := λ s, (s, Ok (f s)).
Definition sput {S E} (f : S → S) : M S E unit := λ s, (f s, Ok tt).
Definition slift {S E A} (r : res E A) : M S E A := λ s, (s, r).
Definition sguard {S E} (b : bool) (e : E) : M S E unit :=
  if b then sret tt else sfail e.

Notation "'do' x '<-' m ';' k" := (sbind m (λ x, k))
  (at level 10, x pattern, m at level 100, k at level 200) : mon_scope.
Notation "'run' m ';' k" := (sbind m (λ _, k))
  (at level 10, m at level 100, k at level 200) : mon_scope.

Definition exec {S E A} (m : M S E A) (s : S) : S := fst (m s).
Definition outcome {S E A} (m : M S E A) (s : S) : res E A := snd (m s).

(* ------------------------------------------------------------------ *)
(** ** Machine integers.  Values are [Z]; the release build wraps. *)

Definition u16_max : Z := 65535.
Definition u32_max : Z := 4294967295.
Definition u64_max : Z := 18446744073709551615.
Definition i64_min : Z := -9223372036854775808.
Definition i64_max : Z := 9223372036854775807.

Definition u32_wrap (z : Z) : Z := z mod 2 ^ 32.
Definition u64_wrap (z : Z) : Z := z mod 2 ^ 64.
Definition i64_wrap (z : Z) : Z := (z + 2 ^ 63) mod 2 ^ 64 - 2 ^ 63.

(* ------------------------------------------------------------------ *)
(** ** Bytes and byte arrays *)

Abbreviation byte := Byte.byte.
Abbreviation bytes := (list Byte.byte).

#[export] Instance byte_eq_dec : EqDecision byte := Byte.byte_eq_dec.
#[export] Program Instance byte_countable : Countable byte :=
  {| encode b := encode (Byte.to_N b);
     decode p := n ← decode p; Byte.of_N n |}.
Next Obligation.
  intros b. cbn beta. rewrite decode_encode. simpl. apply Byte.of_to_N.
Qed.

Definition byte_val (b : byte) : Z := Z.of_N (Byte.to_N b).
Definition byte_of (z : Z) : byte :=
  match Byte.of_N (Z.to_N (z mod 256)) with Some b => b | None => Byte.x00 end.

(** [[u8; n]]: a byte list of length [n]; equality ignores the proof. *)
Definition arr (n : nat) : Type := dsig (λ l : bytes, length l = n).
Definition arr_bytes {n} (a : arr n) : bytes := `a.

(** [<[u8; n]>::try_from(slice)]. *)
Definition try_into (n : nat) (l : bytes) : option (arr n) :=
  match decide (length l = n) with
  | left p => Some (dexist l p)
  | right _ => None
  end.

(** [[b; n]]. *)
Definition arr_fill (n : nat) (b : byte) : arr n :=
  dexist (replicate n b) (length_replicate n b).

(** [u32::to_le_bytes] and [u32::from_le_bytes]. *)
Definition u32_to_le (z : Z) : bytes :=
  [byte_of z; byte_of (z / 2 ^ 8); byte_of (z / 2 ^ 16); byte_of (z / 2 ^ 24)].
Definition u32_from_le (l : bytes) : Z :=
  match l with
  | [b0; b1; b2; b3] =>
      byte_val b0 + 2 ^ 8 * byte_val b1 + 2 ^ 16 * byte_val b2 + 2 ^ 24 * byte_val b3
  | _ => 0
  end.

(* ------------------------------------------------------------------ *)
(** ** [Ord]: Rust's total orders *)

Class Ord (A : Type) := cmp : A → A → comparison.
#[global] Hint Mode Ord ! : typeclass_instances.

Class OrdLaws (A : Type) `{Ord A} : Prop := {
  cmp_eq (x y : A) : cmp x y = Eq ↔ x = y;
  cmp_opp (x y : A) : cmp y x = CompOpp (cmp x y);
  cmp_lt_trans (x y z : A) : cmp x y = Lt → cmp y z = Lt → cmp x z = Lt
}.
#[global] Hint Mode OrdLaws ! - : typeclass_instances.

(** The operators [<], [>=], [<=] and [Ord::max] ([max_by] keeps its second
    argument on ties). *)
Definition ltb {A} `{Ord A} (x y : A) : bool :=
  match cmp x y with Lt => true | _ => false end.
Definition geb {A} `{Ord A} (x y : A) : bool := negb (ltb x y).
Definition leb {A} `{Ord A} (x y : A) : bool := negb (ltb y x).
Definition ord_max {A} `{Ord A} (x y : A) : A := if ltb y x then x else y.

(** Keep the left argument unless the right one's key is strictly larger:
    the shape of every last-writer-wins choice in the program. *)
Definition pick {A K} `{Ord K} (key : A → K) (a b : A) : A :=
  if geb (key a) (key b) then a else b.

#[export] Instance Z_ord : Ord Z := Z.compare.
#[export] Instance byte_ord : Ord byte := λ a b, N.compare (Byte.to_N a) (Byte.to_N b).

Fixpoint list_cmp {A} `{Ord A} (l k : list A) : comparison :=
  match l, k with
  | [], [] => Eq
  | [], _ :: _ => Lt
  | _ :: _, [] => Gt
  | x :: l, y :: k => match cmp x y with Eq => list_cmp l k | c => c end
  end.
#[export] Instance list_ord {A} `{Ord A} : Ord (list A) := list_cmp.
#[export] Instance arr_ord n : Ord (arr n) := λ a b, cmp (arr_bytes a) (arr_bytes b).
#[export] Instance prod_ord {A B} `{Ord A} `{Ord B} : Ord (A * B) :=
  λ p q, match cmp p.1 q.1 with Eq => cmp p.2 q.2 | c => c end.
#[export] Instance option_ord {A} `{Ord A} : Ord (option A) := λ x y,
  match x, y with
  | None, None => Eq
  | None, Some _ => Lt
  | Some _, None => Gt
  | Some a, Some b => cmp a b
  end.
#[export] Instance string_ord : Ord string := λ s t,
  cmp (String.list_byte_of_string s) (String.list_byte_of_string t).

(** An order pulled back along an injection is lawful. *)
Lemma ord_laws_inj {A B} `{Ord A} `{OrdLaws B} (f : A → B) :
  Inj (=) (=) f → (∀ x y, cmp x y = cmp (f x) (f y)) → OrdLaws A.
Proof.
  intros Hinj Hf. split.
  - intros x y. rewrite Hf, cmp_eq. split; [apply Hinj | by intros ->].
  - intros x y. rewrite !Hf. apply cmp_opp.
  - intros x y z. rewrite !Hf. apply cmp_lt_trans.
Qed.

#[export] Instance Z_ord_laws : OrdLaws Z.
Proof.
  split; unfold cmp, Z_ord.
  - apply Z.compare_eq_iff.
  - intros x y. apply Z.compare_antisym.
  - intros x y z. rewrite !Z.compare_lt_iff. lia.
Qed.

Lemma byte_to_N_inj : Inj (=) (=) (λ b : byte, Z.of_N (Byte.to_N b)).
Proof.
  intros a b Hab%N2Z.inj.
  pose proof (Byte.of_to_N a) as Ha. rewrite Hab, Byte.of_to_N in Ha. congruence.
Qed.

#[export] Instance byte_ord_laws : OrdLaws byte.
Proof.
  apply (ord_laws_inj (λ b : byte, Z.of_N (Byte.to_N b)));
    [exact byte_to_N_inj | intros x y; symmetry; apply N2Z.inj_compare].
Qed.

#[export] Instance list_ord_laws {A} `{OrdLaws A} : OrdLaws (list A).
Proof.
  split; unfold cmp, list_ord.
  - intros x. induction x as [|x l IH]; intros [|y k]; simpl; try done.
    destruct (cmp x y) eqn:E.
    + apply cmp_eq in E as ->. rewrite IH. naive_solver.
    + split; [done|]. intros [= -> ->]. by rewrite (proj2 (cmp_eq y y)) in E.
    + split; [done|]. intros [= -> ->]. by rewrite (proj2 (cmp_eq y y)) in E.
  - induction x as [|x l IH]; intros [|y k]; simpl; try done.
    rewrite (cmp_opp x y). destruct (cmp x y); simpl; auto.
  - induction x as [|x l IH]; intros [|y k] [|z m]; simpl; try done.
    destruct (cmp x y) eqn:E1; try done; destruct (cmp y z) eqn:E2; try done.
    + apply cmp_eq in E1 as ->, E2 as ->. rewrite (proj2 (cmp_eq z z)) by done. apply IH.
    + apply cmp_eq in E1 as ->. by rewrite E2.
    + apply cmp_eq in E2 as ->. by rewrite E1.
    + by rewrite (cmp_lt_trans _ _ _ E1 E2).
Qed.

#[export] Instance arr_ord_laws n : OrdLaws (arr n).
Proof.
  apply (ord_laws_inj arr_bytes); [intros a b; apply dsig_eq | done].
Qed.

Lemma list_byte_of_string_inj : Inj (=) (=) String.list_byte_of_string.
Proof.
  intros s t Hst.
  rewrite <-(String.string_of_list_byte_of_string s), Hst.
  apply String.string_of_list_byte_of_string.
Qed.

#[export] Instance string_ord_laws : OrdLaws string.
Proof. apply (ord_laws_inj String.list_byte_of_string); [apply list_byte_of_string_inj | done]. Qed.

#[export] Instance prod_ord_laws {A B} `{OrdLaws A} `{OrdLaws B} : OrdLaws (A * B).
Proof.
  split; unfold cmp, prod_ord.
  - intros [a b] [c d]; simpl. destruct (cmp a c) eqn:E.
    + apply cmp_eq in E as ->. rewrite cmp_eq. naive_solver.
    + split; [done|]. intros [= -> ->]. by rewrite (proj2 (cmp_eq c c)) in E.
    + split; [done|]. intros [= -> ->]. by rewrite (proj2 (cmp_eq c c)) in E.
  - intros [a b] [c d]; simpl. rewrite (cmp_opp a c), (cmp_opp b d).
    by destruct (cmp a c).
  - intros [a b] [c d] [e f]; simpl.
    destruct (cmp a c) eqn:E1; try done; destruct (cmp c e) eqn:E2; try done.
    + apply cmp_eq in E1 as ->, E2 as ->. rewrite (proj2 (cmp_eq e e)) by done.
      apply cmp_lt_trans.
    + apply cmp_eq in E1 as ->. by rewrite E2.
    + apply cmp_eq in E2 as ->. by rewrite E1.
    + by rewrite (cmp_lt_trans _ _ _ E1 E2).
Qed.

#[export] Instance option_ord_laws {A} `{OrdLaws A} : OrdLaws (option A).
Proof.
  split; unfold cmp, option_ord.
  - intros [x|] [y|]; rewrite ?cmp_eq; naive_solver.
  - intros [x|] [y|]; try done. apply cmp_opp.
  - intros [x|] [y|] [z|]; try done. apply cmp_lt_trans.
Qed.

Section ord_facts.
Context {A : Type} `{OrdLaws A}.
Implicit Types x y z : A.

Lemma cmp_refl x : cmp x x = Eq.
Proof. by apply cmp_eq. Qed.

Lemma ltb_irrefl x : ltb x x = false.
Proof. unfold ltb. by rewrite cmp_refl. Qed.

Lemma geb_refl x : geb x x = true.
Proof. unfold geb. by rewrite ltb_irrefl. Qed.

Lemma ltb_lt x y : ltb x y = true ↔ cmp x y = Lt.
Proof. unfold ltb. by destruct (cmp x y). Qed.

Lemma ltb_trans x y z : ltb x y = true → ltb y z = true → ltb x z = true.
Proof. rewrite !ltb_lt. apply cmp_lt_trans. Qed.

Lemma ltb_asym x y : ltb x y = true → ltb y x = false.
Proof. unfold ltb. rewrite (cmp_opp x y). by destruct (cmp x y). Qed.

(** Neither strictly below the other: equal. *)
Lemma ltb_total x y : ltb x y = false → ltb y x = false → x = y.
Proof.
  unfold ltb. rewrite (cmp_opp x y). intros Hx Hy. apply cmp_eq.
  by destruct (cmp x y).
Qed.

Lemma geb_trans x y z : geb x y = true → geb y z = true → geb x z = true.
Proof.
  unfold geb. rewrite !negb_true_iff. intros Hxy Hyz.
  destruct (ltb x z) eqn:Hxz; [|done]. exfalso.
  destruct (ltb y x) eqn:Hyx.
  - pose proof (ltb_trans _ _ _ Hyx Hxz). congruence.
  - pose proof (ltb_total _ _ Hxy Hyx) as ->. congruence.
Qed.

Lemma geb_lt_trans x y z : geb x y = true → ltb z y = true → ltb z x = true.
Proof.
  unfold geb. rewrite negb_true_iff. intros Hxy Hzy.
  destruct (ltb z x) eqn:Hzx; [done|]. exfalso.
  destruct (ltb y x) eqn:Hyx.
  - pose proof (ltb_trans _ _ _ Hzy Hyx). congruence.
  - pose proof (ltb_total _ _ Hxy Hyx) as ->. congruence.
Qed.

Lemma lt_geb_trans x y z : ltb x y = true → geb z y = true → ltb x z = true.
Proof. intros Hxy Hzy. by apply (geb_lt_trans z y x). Qed.

Lemma geb_ltb_trans x y z : geb x y = true → ltb x z = true → ltb y z = true.
Proof.
  intros Hxy Hxz. destruct (ltb y x) eqn:Hyx; [by apply (ltb_trans y x z)|].
  unfold geb in Hxy. rewrite negb_true_iff in Hxy. by rewrite <-(ltb_total _ _ Hxy Hyx).
Qed.

Lemma not_geb x y : geb x y = false ↔ ltb x y = true.
Proof. unfold geb. by rewrite negb_false_iff. Qed.

Lemma ltb_geb x y : ltb x y = true → geb y x = true.
Proof. intros Hxy. unfold geb. by rewrite (ltb_asym _ _ Hxy). Qed.

Lemma ord_max_pick x y : ord_max x y = pick (λ a, a) x y.
Proof.
  unfold ord_max, pick, geb. destruct (ltb x y) eqn:Hxy; simpl.
  - by rewrite (ltb_asym _ _ Hxy).
  - destruct (ltb y x) eqn:Hyx; [done|]. symmetry. by apply ltb_total.
Qed.
End ord_facts.

(** [pick] is associative and idempotent whatever the keys, and commutative
    as soon as equal keys mean equal values. *)
Section pick_facts.
Context {A K : Type} `{OrdLaws K} (key : A → K).
Implicit Types a b c : A.

Lemma pick_idem a : pick key a a = a.
Proof. unfold pick. by rewrite geb_refl. Qed.

Lemma pick_either a b : pick key a b = a ∨ pick key a b = b.
Proof. unfold pick. destruct (geb _ _); auto. Qed.

Lemma pick_comm a b : (key a = key b → a = b) → pick key a b = pick key b a.
Proof.
  intros Hab. unfold pick. destruct (geb (key a) (key b)) eqn:E1.
  - destruct (geb (key b) (key a)) eqn:E2; [|done]. unfold geb in E1, E2.
    rewrite negb_true_iff in E1. rewrite negb_true_iff in E2.
    apply Hab. by apply ltb_total.
  - apply not_geb in E1. by rewrite (ltb_geb _ _ E1).
Qed.

Lemma pick_assoc a b c : pick key (pick key a b) c = pick key a (pick key b c).
Proof.
  unfold pick.
  destruct (geb (key a) (key b)) eqn:Eab, (geb (key b) (key c)) eqn:Ebc.
  - by rewrite ?Eab, (geb_trans _ _ _ Eab Ebc).
  - done.
  - by rewrite ?Eab, ?Ebc.
  - rewrite ?Ebc. apply not_geb in Eab, Ebc.
    pose proof (ltb_trans _ _ _ Eab Ebc) as Hac.
    by rewrite (proj2 (not_geb _ _) Hac).
Qed.

(** The winner's key is an upper bound of both. *)
Lemma pick_key_l a b : geb (key (pick key a b)) (key a) = true.
Proof.
  unfold pick. destruct (geb (key a) (key b)) eqn:E; [apply geb_refl|].
  apply ltb_geb. by apply not_geb.
Qed.
Lemma pick_key_r a b : geb (key (pick key a b)) (key b) = true.
Proof. unfold pick. destruct (geb (key a) (key b)) eqn:E; [done | apply geb_refl]. Qed.
End pick_facts.

Section ord_max_facts.
Context {A : Type} `{OrdLaws A}.
Implicit Types x y z : A.

Lemma ord_max_comm x y : ord_max x y = ord_max y x.
Proof. rewrite !ord_max_pick. by apply pick_comm. Qed.
Lemma ord_max_assoc x y z : ord_max (ord_max x y) z = ord_max x (ord_max y z).
Proof. rewrite !ord_max_pick. apply pick_assoc. Qed.
Lemma ord_max_idem x : ord_max x x = x.
Proof. rewrite ord_max_pick. apply pick_idem. Qed.
Lemma ord_max_ub_l x y : geb (ord_max x y) x = true.
Proof. rewrite ord_max_pick. apply (pick_key_l (λ a, a)). Qed.
Lemma ord_max_ub_r x y : geb (ord_max x y) y = true.
Proof. rewrite ord_max_pick. apply (pick_key_r (λ a, a)). Qed.
Lemma ord_max_either x y : ord_max x y = x ∨ ord_max x y = y.
Proof. unfold ord_max. destruct (ltb y x); auto. Qed.
End ord_max_facts.

Create HintDb ord.
#[export] Hint Resolve cmp_refl ltb_irrefl geb_refl ltb_geb pick_idem ord_max_idem
  ord_max_ub_l ord_max_ub_r pick_key_l pick_key_r : ord.

(* ------------------------------------------------------------------ *)
(** ** [slice::sort_by_key] (a stable sort) *)

Fixpoint insert_by {A K} `{Ord K} (key : A → K) (x : A) (l : list A) : list A :=
  match l with
  | [] => [x]
  | y :: l' => if leb (key x) (key y) then x :: l else y :: insert_by key x l'
  end.
Definition sort_by_key {A K} `{Ord K} (key : A → K) (l : list A) : list A :=
  foldr (insert_by key) [] l.

Lemma filter_ext_in {A} (P Q : A → Prop) `{!∀ x, Decision (P x)} `{!∀ x, Decision (Q x)} (l : list A) :
  (∀ x, x ∈ l → P x ↔ Q x) → filter P l = filter Q l.
Proof.
  induction l as [|x l IH]; intros Hl; [done|]. rewrite !filter_cons.
  assert (Hx : P x ↔ Q x) by (apply Hl; constructor). rewrite IH by (intros y Hy; apply Hl; by constructor).
  do 2 case_decide; naive_solver.
Qed.

Section sort_facts.
Context {A K : Type} `{OrdLaws K} (key : A → K).

Definition key_le (x y : A) : Prop := leb (key x) (key y) = true.

Lemma insert_by_perm x l : insert_by key x l ≡ₚ x :: l.
Proof.
  induction l as [|y l IH]; simpl; [done|]. destruct (leb _ _); [done|].
  rewrite IH. apply Permutation_swap.
Qed.

Lemma sort_by_key_perm l : sort_by_key key l ≡ₚ l.
Proof. induction l as [|x l IH]; simpl; [done|]. by rewrite insert_by_perm, IH. Qed.

Lemma leb_geb_flip (x y : K) : leb x y = geb y x.
Proof. done. Qed.

Lemma insert_by_sorted x l : StronglySorted key_le l → StronglySorted key_le (insert_by key x l).
Proof.
  induction l as [|y l IH]; intros Hl; simpl; [by repeat constructor|].
  apply StronglySorted_inv in Hl as [Hl Hy]. unfold key_le in *.
  destruct (leb (key x) (key y)) eqn:E.
  - constructor; [by constructor|]. constructor; [done|].
    eapply Forall_impl; [exact Hy|]. intros z Hz. simpl in Hz.
    rewrite leb_geb_flip in *. by eapply geb_trans.
  - constructor; [by apply IH|]. rewrite insert_by_perm. constructor; [|done].
    rewrite leb_geb_flip in *. apply not_geb in E. by apply ltb_geb.
Qed.

Lemma sort_by_key_sorted l : StronglySorted key_le (sort_by_key key l).
Proof. induction l as [|x l IH]; simpl; [constructor | by apply insert_by_sorted]. Qed.

(** With distinct keys the sorted list depends only on the elements. *)
Lemma sort_by_key_unique l k :
  (∀ x y, x ∈ l → y ∈ l → key x = key y → x = y) → l ≡ₚ k →
  sort_by_key key l = sort_by_key key k.
Proof.
  intros Hinj Hlk.
  assert (Hs : ∀ l1 l2, l1 ≡ₚ l2 → StronglySorted key_le l1 → StronglySorted key_le l2 →
    (∀ x y, x ∈ l1 → y ∈ l1 → key x = key y → x = y) → l1 = l2).
  { induction l1 as [|x l1 IH]; intros l2 Hp H1 H2 Hx.
    - by apply Permutation_nil_l in Hp.
    - destruct l2 as [|y l2]; [by apply Permutation_nil_r in Hp|].
      apply StronglySorted_inv in H1 as [H1 Hx1], H2 as [H2 Hy2].
      assert (x = y) as ->.
      { assert (Hxin : x ∈ y :: l2) by (rewrite <-Hp; constructor).
        assert (Hyin : y ∈ x :: l1) by (rewrite Hp; constructor).
        apply elem_of_cons in Hxin as [->|Hxin]; [done|].
        pose proof Hyin as Hyin'. apply elem_of_cons in Hyin' as [->|Hyin']; [done|].
        rewrite Forall_forall in Hx1, Hy2.
        specialize (Hx1 _ Hyin'). specialize (Hy2 _ Hxin). unfold key_le, leb in *.
        rewrite negb_true_iff in Hx1, Hy2. apply Hx; [constructor | done |].
        by apply ltb_total. }
      f_equal. apply IH; try done.
      + by apply Permutation_cons_inv in Hp.
      + intros a b Ha Hb. apply Hx; by constructor. }
  apply Hs; try apply sort_by_key_sorted.
  - by rewrite !sort_by_key_perm.
  - intros x y. rewrite !sort_by_key_perm. apply Hinj.
Qed.
End sort_facts.

(* ------------------------------------------------------------------ *)
(** ** Folding a join over a bag of updates *)

(** The step of [HashMap::entry(k).and_modify(|c| *c = op(c, v)).or_insert(v)]. *)
Definition upsert {K V} `{Countable K} (op : V → V → V) (k : K) (v : V)
    (m : gmap K V) : gmap K V :=
  match m !! k with
  | Some cur => <[k := op cur v]> m
  | None => <[k := v]> m
  end.

Section upsert_facts.
Context {K V : Type} `{Countable K} (op : V → V → V).
Implicit Types (m : gmap K V) (k : K) (v w : V).

Lemma lookup_upsert m k v : upsert op k v m !! k =
  Some (match m !! k with Some cur => op cur v | None => v end).
Proof. unfold upsert. destruct (m !! k); by rewrite lookup_insert_eq. Qed.

Lemma lookup_upsert_ne m k k' v : k ≠ k' → upsert op k v m !! k' = m !! k'.
Proof. intros Hk. unfold upsert. destruct (m !! k); by rewrite lookup_insert_ne. Qed.

Context (op_assoc : ∀ u v w, op (op u v) w = op u (op v w)).

Lemma upsert_comm m k1 k2 v1 v2 :
  (k1 = k2 → op v1 v2 = op v2 v1) →
  upsert op k1 v1 (upsert op k2 v2 m) = upsert op k2 v2 (upsert op k1 v1 m).
Proof.
  intros Hv. apply map_eq. intros k.
  destruct (decide (k1 = k2)) as [->|Hne].
  - specialize (Hv eq_refl). destruct (decide (k = k2)) as [->|Hk].
    + rewrite !lookup_upsert. f_equal. destruct (m !! k2); [|done].
      by rewrite !op_assoc, Hv.
    + by rewrite !lookup_upsert_ne by done.
  - destruct (decide (k = k1)) as [->|Hk1].
    { by rewrite lookup_upsert, !(lookup_upsert_ne _ k2 k1), lookup_upsert by done. }
    destruct (decide (k = k2)) as [->|Hk2].
    { by rewrite lookup_upsert, !(lookup_upsert_ne _ k1 k2), lookup_upsert by done. }
    by rewrite !lookup_upsert_ne by done.
Qed.

Lemma upsert_idem m k v : op v v = v → upsert op k v (upsert op k v m) = upsert op k v m.
Proof.
  intros Hv. apply map_eq. intros k'. destruct (decide (k = k')) as [<-|Hk].
  - rewrite !lookup_upsert. f_equal. destruct (m !! k); [|done]. by rewrite op_assoc, Hv.
  - by rewrite !lookup_upsert_ne by done.
Qed.
End upsert_facts.

(** A fold whose steps commute and are idempotent depends only on the set of
    the folded elements: neither order nor duplicates matter. *)
Section fold_set.
Context {A S : Type} `{EqDecision A} (f : S → A → S) (P : A → Prop).
Context (f_comm : ∀ s x y, P x → P y → f (f s x) y = f (f s y) x).
Context (f_idem : ∀ s x, P x → f (f s x) x = f s x).

Lemma foldl_perm l k s : Forall P l → l ≡ₚ k → foldl f s l = foldl f s k.
Proof.
  intros Hl Hp. revert s Hl.
  induction Hp as [|x l k Hp IH|x y l|l1 l2 l3 H1 IH1 H2 IH2]; intros s Hl; simpl.
  - done.
  - apply IH. by inversion Hl.
  - inversion_clear Hl as [|? ? Hy Hl']. inversion_clear Hl'. by rewrite f_comm.
  - rewrite IH1 by done. apply IH2. by rewrite <-H1.
Qed.

Lemma foldl_absorb l s x : Forall P l → x ∈ l → foldl f (f s x) l = foldl f s l.
Proof.
  intros Hl Hx. apply list_elem_of_split in Hx as (l1 & l2 & ->).
  assert (Hp : l1 ++ x :: l2 ≡ₚ x :: l1 ++ l2) by (symmetry; apply Permutation_middle).
  rewrite !(foldl_perm _ _ _ Hl Hp). simpl. f_equal. apply f_idem.
  rewrite Hp in Hl. by inversion Hl.
Qed.

Lemma foldl_remove_dups l s : Forall P l → foldl f s (remove_dups l) = foldl f s l.
Proof.
  revert s. induction l as [|x l IH]; intros s Hl; simpl; [done|].
  inversion_clear Hl as [|? ? Hx Hl'].
  case_decide as Hin; simpl; [|by apply IH].
  rewrite IH by done. symmetry. by apply foldl_absorb.
Qed.

Lemma foldl_same_set l k s :
  Forall P l → (∀ x, x ∈ l ↔ x ∈ k) → foldl f s l = foldl f s k.
Proof.
  intros Hl Hlk. assert (Hk : Forall P k).
  { apply Forall_forall. intros x Hx%Hlk. rewrite Forall_forall in Hl. by apply Hl. }
  rewrite <-(foldl_remove_dups l), <-(foldl_remove_dups k) by done.
  apply foldl_perm.
  - apply Forall_forall. intros x. rewrite elem_of_remove_dups.
    rewrite Forall_forall in Hl. apply Hl.
  - apply NoDup_Permutation; try apply NoDup_remove_dups.
    intros x. by rewrite !elem_of_remove_dups.
Qed.
End fold_set.

(* ------------------------------------------------------------------ *)
(** ** Shared automation *)

(** Split every [res] / [option] / [bool] scrutinee a definition branches on. *)
Ltac case_res :=
  repeat match goal with
  | H : context [match ?x with Ok _ => _ | Err _ => _ end] |- _ => destruct x eqn:?
  | |- context [match ?x with Ok _ => _ | Err _ => _ end] => destruct x eqn:?
  end.

Lemma res_bind_ok {E A B} (r : res E A) (k : A → res E B) b :
  res_bind r k = Ok b ↔ ∃ a, r = Ok a ∧ k a = Ok b.
Proof. destruct r; simpl; naive_solver. Qed.

Lemma sbind_ok {S E A B} (m : M S E A) (k : A → M S E B) s s' b :
  sbind m k s = (s', Ok b) ↔ ∃ s1 a, m s = (s1, Ok a) ∧ k a s1 = (s', Ok b).
Proof. unfold sbind. destruct (m s) as [s1 [a|e]]; naive_solver. Qed.

Lemma sguard_ok {S E} b (e : E) (s s' : S) u :
  sguard b e s = (s', Ok u) ↔ b = true ∧ s' = s.
Proof. unfold sguard, sret, sfail. destruct b, u; naive_solver. Qed.

Lemma elem_of_opt {A} (x : A) (o : option A) : x ∈ option_list o ↔ o = Some x.
Proof.
  destruct o as [y|]; simpl; [rewrite list_elem_of_singleton; naive_solver|].
  split; [by intros ?%not_elem_of_nil | done].
Qed.

Lemma u64_wrap_small z : 0 ≤ z ≤ u64_max → u64_wrap z = z.
Proof. unfold u64_wrap, u64_max. intros Hz. apply Z.mod_small. lia. Qed.

Lemma u64_wrap_range z : 0 ≤ u64_wrap z ≤ u64_max.
Proof.
  unfold u64_wrap, u64_max. pose proof (Z.mod_pos_bound z (2 ^ 64)). lia.
Qed.

Lemma i64_wrap_small z : i64_min ≤ z ≤ i64_max → i64_wrap z = z.
Proof. unfold i64_wrap, i64_min, i64_max. intros Hz. rewrite Z.mod_small; lia. Qed.

Lemma byte_val_range b : 0 ≤ byte_val b < 256.
Proof. unfold byte_val. pose proof (Byte.to_N_bounded b). lia. Qed.

Lemma byte_val_of z : byte_val (byte_of z) = z mod 256.
Proof.
  unfold byte_val, byte_of. pose proof (Z.mod_pos_bound z 256 eq_refl) as Hz.
  destruct (Byte.of_N _) as [b|] eqn:E.
  - apply Byte.to_of_N in E. rewrite E. lia.
  - apply Byte.of_N_None_iff in E. lia.
Qed.

Lemma byte_of_val b : byte_of (byte_val b) = b.
Proof. apply byte_to_N_inj. fold (byte_val (byte_of (byte_val b))) (byte_val b).
  rewrite byte_val_of. apply Z.mod_small, byte_val_range. Qed.

Lemma length_u32_to_le z : length (u32_to_le z) = 4%nat.
Proof. done. Qed.

Lemma u32_le_round z : 0 ≤ z ≤ u32_max → u32_from_le (u32_to_le z) = z.
Proof.
  intros Hz. unfold u32_from_le, u32_to_le, u32_max in *. rewrite !byte_val_of.
  change (2 ^ 8) with 256. change (2 ^ 16) with (256 * 256).
  change (2 ^ 24) with (256 * 256 * 256). rewrite <-!Z.div_div by lia.
  pose proof (Z.div_mod z 256). pose proof (Z.div_mod (z / 256) 256).
  pose proof (Z.div_mod (z / 256 / 256) 256).
  assert (0 ≤ z / 256 / 256 / 256 < 256).
  { rewrite !Z.div_div by lia. split; [apply Z.div_pos | apply Z.div_lt_upper_bound]; lia. }
  rewrite (Z.mod_small (z / 256 / 256 / 256)) by lia. lia.
Qed.

Lemma byte_of_mod z b : z mod 256 = byte_val b → byte_of z = b.
Proof.
  intros Hz. rewrite <-(byte_of_val b), <-Hz. unfold byte_of. by rewrite Z.mod_mod.
Qed.

Lemma u32_le_round' l : length l = 4%nat → u32_to_le (u32_from_le l) = l.
Proof.
  destruct l as [|b0 [|b1 [|b2 [|b3 [|? ?]]]]]; try done. intros _.
  unfold u32_to_le, u32_from_le.
  pose proof (byte_val_range b0). pose proof (byte_val_range b1).
  pose proof (byte_val_range b2). pose proof (byte_val_range b3).
  change (2 ^ 8) with 256. change (2 ^ 16) with 65536. change (2 ^ 24) with 16777216.
  repeat f_equal; apply byte_of_mod; Z.to_euclidean_division_equations; lia.
Qed.

Lemma arr_length {n} (a : arr n) : length (arr_bytes a) = n.
Proof. exact (proj2_dsig a). Qed.

Lemma arr_eq {n} (a b : arr n) : arr_bytes a = arr_bytes b → a = b.
Proof. apply dsig_eq. Qed.

Lemma try_into_bytes {n} (a : arr n) : try_into n (arr_bytes a) = Some a.
Proof.
  unfold try_into. destruct (decide _) as [p|Hn].
  - f_equal. by apply arr_eq.
  - by destruct Hn, (arr_length a).
Qed.

Lemma try_into_Some n l (a : arr n) : try_into n l = Some a ↔ l = arr_bytes a.
Proof.
  split.
  - unfold try_into. destruct (decide _); naive_solver.
  - intros ->. apply try_into_bytes.
Qed.


Create Rewrite HintDb s2.
Create HintDb s2.
#[export] Hint Rewrite @lookup_upsert @try_into_bytes length_u32_to_le @arr_length : s2.
#[export] Hint Resolve u64_wrap_range byte_val_range arr_length : s2.
