(* ===== verification/Text.v ===== *)
(** * Text: the parts of Rust's [str] the program uses

    A [str] is its UTF-8 byte sequence, a [string] here.  The functions are
    the Standard Library's: searching, splitting, trimming (Unicode white
    space, read off its UTF-8 encodings), decimal printing and parsing. *)

From Stdlib Require Import ZArith Lia Ascii String.
From Stdlib Require Import DecimalString DecimalZ.

From S2P Require Import Prelude.

#[local] Open Scope string_scope.
#[local] Open Scope list_scope.
#[local] Open Scope Z_scope.

(** [str::contains] with a string pattern and with a [char] pattern. *)
Fixpoint str_contains (needle s : string) : bool :=
  String.prefix needle s ||
  match s with EmptyString => false | String _ s' => str_contains needle s' end.

Fixpoint has_char (c : ascii) (s : string) : bool :=
  match s with
  | EmptyString => false
  | String d s' => Ascii.eqb c d || has_char c s'
  end.

(** [str::split(c)]: always at least one piece. *)
Fixpoint split_char (c : ascii) (s : string) : list string :=
  match s with
  | EmptyString => [EmptyString]
  | String d s' =>
      if Ascii.eqb c d then EmptyString :: split_char c s'
      else match split_char c s' with
           | p :: ps => String d p :: ps
           | [] => [String d EmptyString]
           end
  end.

(** [slice::join]. *)
Definition join_with (sep : string) (l : list string) : string :=
  match l with
  | [] => EmptyString
  | x :: l => foldl (λ acc y, acc +:+ sep +:+ y) x l
  end.

Definition newline : ascii := ascii_of_nat 10.
Definition carriage : ascii := ascii_of_nat 13.
Definition tab : ascii := ascii_of_nat 9.
Definition dquote : ascii := ascii_of_nat 34.
Definition nl : string := String newline EmptyString.

(** [char::is_whitespace] over UTF-8: the number of bytes of the white-space
    character the string starts with, 0 when it starts with none. *)
Definition ws_prefix (s : string) : nat :=
  match s with
  | EmptyString => 0
  | String a s1 =>
      let na := nat_of_ascii a in
      if ((9 <=? na) && (na <=? 13) || (na =? 32))%nat then 1 else
      match s1 with
      | EmptyString => 0
      | String b s2 =>
          let nb := nat_of_ascii b in
          if ((na =? 194) && ((nb =? 133) || (nb =? 160)))%nat then 2 else
          match s2 with
          | EmptyString => 0
          | String c _ =>
              let nc := nat_of_ascii c in
              if ((na =? 225) && (nb =? 154) && (nc =? 128)
                  || (na =? 226) && (nb =? 128) &&
                     ((128 <=? nc) && (nc <=? 138) || (nc =? 168) || (nc =? 169) || (nc =? 175))
                  || (na =? 226) && (nb =? 129) && (nc =? 159)
                  || (na =? 227) && (nb =? 128) && (nc =? 128))%nat then 3 else 0
          end
      end
  end%nat.

(** [s.chars().any(char::is_whitespace)]. *)
Fixpoint any_whitespace (s : string) : bool :=
  negb (Nat.eqb (ws_prefix s) 0) ||
  match s with EmptyString => false | String _ s' => any_whitespace s' end.

(** [str::trim_start]: drop white-space characters; the length bounds them. *)
Fixpoint trim_start_fuel (fuel : nat) (s : string) : string :=
  match fuel with
  | O => s
  | S fuel =>
      match ws_prefix s with
      | O => s
      | n => trim_start_fuel fuel (String.substring n (String.length s - n) s)
      end
  end.
Definition trim_start (s : string) : string := trim_start_fuel (String.length s) s.

(** [str::trim_end]: [blank n s] says that [s] is white space only. *)
Fixpoint blank_fuel (fuel : nat) (s : string) : bool :=
  match s with
  | EmptyString => true
  | _ => match fuel, ws_prefix s with
         | S fuel, S n => blank_fuel fuel (String.substring (S n) (String.length s - S n) s)
         | _, _ => false
         end
  end.
Fixpoint trim_end (s : string) : string :=
  if blank_fuel (String.length s) s then EmptyString else
  match s with
  | EmptyString => EmptyString
  | String c s' => String c (trim_end s')
  end.
Definition trim (s : string) : string := trim_end (trim_start s).

(** [str::to_lowercase] and [to_ascii_lowercase] agree on ASCII letters. *)
Definition ascii_lower (c : ascii) : ascii :=
  let n := nat_of_ascii c in
  if ((65 <=? n) && (n <=? 90))%nat then ascii_of_nat (n + 32) else c.
Fixpoint to_ascii_lowercase (s : string) : string :=
  match s with
  | EmptyString => EmptyString
  | String c s' => String (ascii_lower c) (to_ascii_lowercase s')
  end.

(** [str::lines]: split at line feeds, drop one carriage return before each,
    and no last empty line. *)
Definition strip_cr (s : string) : string :=
  match String.length s with
  | O => s
  | S n => if String.eqb (String.substring n 1 s) (String carriage EmptyString)
           then String.substring 0 n s else s
  end.
Definition drop_last_empty (l : list string) : list string :=
  match reverse l with
  | EmptyString :: l' => reverse l'
  | _ => l
  end.
Definition lines (s : string) : list string :=
  strip_cr <$> drop_last_empty (split_char newline s).

(** [trim_end_matches(c)]. *)
Fixpoint trim_end_char (c : ascii) (s : string) : string :=
  match s with
  | EmptyString => EmptyString
  | String d s' =>
      match trim_end_char c s' with
      | EmptyString => if Ascii.eqb c d then EmptyString else String d EmptyString
      | t => String d t
      end
  end.

(** [Display] for the integer types. *)
Definition show_int (z : Z) : string := NilZero.string_of_int (Z.to_int z).

(** [str::parse::<uN>]: an optional [+], then decimal digits, at most [max]. *)
Definition digit_val (c : ascii) : option Z :=
  let n := nat_of_ascii c in
  if ((48 <=? n) && (n <=? 57))%nat then Some (Z.of_nat n - 48) else None.
Fixpoint parse_digits (max acc : Z) (s : string) : option Z :=
  match s with
  | EmptyString => Some acc
  | String c s' =>
      match digit_val c with
      | Some d => let v := 10 * acc + d in
                  if v <=? max then parse_digits max v s' else None
      | None => None
      end
  end.
Definition parse_uint (max : Z) (s : string) : option Z :=
  match s with
  | EmptyString => None
  | String c s' =>
      if Ascii.eqb c "+"%char
      then match s' with EmptyString => None | _ => parse_digits max 0 s' end
      else parse_digits max 0 s
  end.

(** [str::as_bytes]; UTF-8 is the representation. *)
Abbreviation as_bytes := String.list_byte_of_string.

(* ------------------------------------------------------------------ *)
(** ** Decimal numbers *)

Lemma show_int_inj : Inj (=) (=) show_int.
Proof.
  intros a b Hab. unfold show_int in Hab.
  assert (Hs : ∀ z, NilZero.int_of_string (NilZero.string_of_int (Z.to_int z)) = Some (Z.to_int z)).
  { intros z. apply NilZero.isi; destruct z; simpl; try done;
      intros [= Hp]; by apply (DecimalPos.Unsigned.to_uint_nonnil p). }
  assert (Hi : Some (Z.to_int a) = Some (Z.to_int b)) by (by rewrite <-!Hs, Hab).
  injection Hi as Hi. by rewrite <-(DecimalZ.of_to a), Hi, DecimalZ.of_to.
Qed.

Lemma show_int_nonempty z : show_int z ≠ EmptyString.
Proof.
  unfold show_int. destruct z as [|p|p]; simpl; try done.
  unfold NilZero.string_of_uint. by destruct (Pos.to_uint p).
Qed.

Lemma str_app_inj (a b c : string) : a +:+ b = a +:+ c → b = c.
Proof. induction a as [|x a IH]; simpl; [done|]. intros [= H]. by apply IH. Qed.

Lemma str_app_assoc (a b c : string) : (a +:+ b) +:+ c = a +:+ b +:+ c.
Proof. induction a as [|x a IH]; [done|]. change (String x ((a +:+ b) +:+ c) = String x (a +:+ b +:+ c)). by rewrite IH. Qed.
Lemma str_app_nil_r (a : string) : a +:+ "" = a.
Proof. induction a as [|x a IH]; [done|]. change (String x (a +:+ "") = String x a). by rewrite IH. Qed.

(* ------------------------------------------------------------------ *)
(** ** Searching *)

Lemma prefix_spec needle s : String.prefix needle s = true ↔ ∃ b, s = needle +:+ b.
Proof.
  revert s. induction needle as [|c needle IH]; intros s; simpl.
  - split; [by exists s | by destruct s].
  - destruct s as [|d s]; [by split; [|intros []]|].
    simpl. destruct (ascii_dec c d) as [->|Hne].
    + rewrite IH. split; intros [b E]; exists b; [by rewrite E | by injection E].
    + split; [done|]. intros [b E]. by injection E.
Qed.

Lemma str_contains_spec needle s :
  str_contains needle s = true ↔ ∃ a b, s = a +:+ needle +:+ b.
Proof.
  induction s as [|c s IH]; cbn [str_contains]; rewrite orb_true_iff, prefix_spec.
  - split; [intros [[b Hb]|?]; [by exists "", b | done]|].
    intros ([|d a] & b & E); [left; by exists b | done].
  - rewrite IH. split.
    + intros [[b E]|(a & b & ->)]; [by exists "", b | by exists (String c a), b].
    + intros ([|d a] & b & E); [left; by exists b|]. right. injection E as -> E. by exists a, b.
Qed.

Lemma has_char_spec c s : has_char c s = true ↔ ∃ a b, s = a +:+ String c b.
Proof.
  induction s as [|d s IH]; simpl.
  - split; [done|]. by intros ([|? ?] & ? & ?).
  - rewrite orb_true_iff, Ascii.eqb_eq, IH. split.
    + intros [->|(a & b & ->)]; [by exists "", s | by exists (String d a), b].
    + intros ([|e a] & b & E); injection E as -> E; [by left|]. right. by exists a, b.
Qed.

Lemma has_char_app c a b : has_char c (a +:+ b) = has_char c a || has_char c b.
Proof. induction a as [|d a IH]; simpl; [done|]. by rewrite IH, orb_assoc. Qed.

Lemma uint_no_newline d : has_char newline (NilEmpty.string_of_uint d) = false.
Proof. induction d; simpl; done. Qed.

Lemma show_int_no_newline z : has_char newline (show_int z) = false.
Proof.
  unfold show_int. destruct (Z.to_int z) as [d|d]; simpl; [destruct d | destruct d]; simpl;
    try done; apply uint_no_newline.
Qed.

Lemma split_char_none c a : has_char c a = false → split_char c a = [a].
Proof.
  induction a as [|x a IH]; [done|]. cbn [has_char split_char]. intros [Hx Ha]%orb_false_iff.
  by rewrite Hx, IH.
Qed.
