(* ===== verification/Numerals.v ===== *)
(** * Numerals: reading back the numbers the program prints

    [Display] of an unsigned integer followed by [trim] and [parse], as the
    daemon does with an announced head. *)

From Stdlib Require Import ZArith Lia Ascii String Decimal DecimalPos DecimalZ DecimalString.
From S2P Require Import Prelude Text.

#[local] Open Scope string_scope.
#[local] Open Scope Z_scope.

(** The value of a numeral read after [acc]. *)
Fixpoint value_after (acc : Z) (d : uint) : Z :=
  match d with
  | Nil => acc
  | D0 d => value_after (10 * acc + 0) d
  | D1 d => value_after (10 * acc + 1) d
  | D2 d => value_after (10 * acc + 2) d
  | D3 d => value_after (10 * acc + 3) d
  | D4 d => value_after (10 * acc + 4) d
  | D5 d => value_after (10 * acc + 5) d
  | D6 d => value_after (10 * acc + 6) d
  | D7 d => value_after (10 * acc + 7) d
  | D8 d => value_after (10 * acc + 8) d
  | D9 d => value_after (10 * acc + 9) d
  end.

Lemma value_after_ge d : ∀ acc, 0 ≤ acc → acc ≤ value_after acc d.
Proof. induction d; intros acc Ha; simpl; [lia|..]; (etransitivity; [|apply IHd; lia]); lia. Qed.

Lemma value_after_pos d : ∀ acc, value_after (Zpos acc) d = Zpos (Pos.of_uint_acc d acc).
Proof. induction d; intros acc; simpl value_after; simpl Pos.of_uint_acc; try done; rewrite <- IHd; f_equal; lia. Qed.

Lemma value_after_zero d : value_after 0 d = Z.of_N (Pos.of_uint d).
Proof. induction d; [done|..]; simpl; [exact IHd|..]; apply (value_after_pos d). Qed.

Lemma parse_digits_cons max acc c k s : digit_val c = Some k → 10 * acc + k ≤ max →
  parse_digits max acc (String c s) = parse_digits max (10 * acc + k) s.
Proof. intros Hc Hm. cbn [parse_digits]. rewrite Hc. cbv zeta. by rewrite (proj2 (Z.leb_le _ _)). Qed.

Lemma parse_digits_numeral max d : ∀ acc, 0 ≤ acc → value_after acc d ≤ max →
  parse_digits max acc (NilEmpty.string_of_uint d) = Some (value_after acc d).
Proof.
  induction d; intros acc Ha Hm; [done|..]; cbn [NilEmpty.string_of_uint value_after] in *;
    (erewrite parse_digits_cons; [apply IHd; [lia | exact Hm] | reflexivity |]);
    (etransitivity; [apply (value_after_ge d); lia | exact Hm]).
Qed.

(** The strings printed: digits, at least one. *)
Definition is_digit (c : ascii) : Prop := is_Some (digit_val c).
Fixpoint digits (s : string) : Prop := match s with "" => True | String c s => is_digit c ∧ digits s end.

Lemma digits_uint d : digits (NilEmpty.string_of_uint d).
Proof. induction d; simpl; try (split; [by eexists | done]). done. Qed.

Lemma digit_not_blank c s : is_digit c → ws_prefix (String c s) = O.
Proof.
  intros [k Hk]. unfold digit_val in Hk. case_match eqn:E; [|done]. apply andb_prop in E as [E1 E2].
  apply Nat.leb_le in E1, E2. unfold ws_prefix. set (n := nat_of_ascii c) in *.
  rewrite (proj2 (Nat.leb_gt n 13)), (proj2 (Nat.eqb_neq n 32)), !(proj2 (Nat.eqb_neq n _)) by lia.
  rewrite andb_false_r. simpl. destruct s as [|b [|c' s]]; reflexivity.
Qed.

Lemma trim_digits s : digits s → trim s = s.
Proof.
  intros Hs. unfold trim.
  assert (trim_start s = s) as ->.
  { destruct s as [|c s]; [done|]. unfold trim_start. cbn [String.length trim_start_fuel]. by rewrite digit_not_blank by apply Hs. }
  induction s as [|c s IH]; [done|]. destruct Hs as [Hc Hs]. cbn [trim_end String.length blank_fuel].
  by rewrite digit_not_blank, IH.
Qed.

Lemma show_nonneg z : 0 ≤ z → ∃ d, show_int z = NilEmpty.string_of_uint d ∧ d ≠ Nil ∧ value_after 0 d = z.
Proof.
  intros Hz. destruct z as [|p|p]; [by exists (D0 Nil)| |lia].
  exists (Pos.to_uint p). pose proof (Unsigned.to_uint_nonnil p) as Hn. split_and!; [|done|].
  - unfold show_int, NilZero.string_of_int, Z.to_int, NilZero.string_of_uint. by destruct (Pos.to_uint p).
  - rewrite value_after_zero. exact (DecimalZ.of_to (Zpos p)).
Qed.

(** What the relay announces, read by the daemon. *)
Lemma parse_shown max z : 0 ≤ z ≤ max → parse_uint max (trim (show_int z)) = Some z.
Proof.
  intros [Hz Hm]. destruct (show_nonneg z Hz) as (d & -> & Hn & <-).
  rewrite trim_digits by apply digits_uint. rewrite <- (parse_digits_numeral max d 0) by (done || lia).
  destruct d; [done | reflexivity..].
Qed.
