(* ===== verification/Record.v ===== *)
(** * Record: the vault data model ([src/src/record.rs])

    Clocks and their order, record kinds, JSON values, the immutable record
    snapshots that fill the log, and the typed payloads with the conversions
    their serde attributes define ([payload], [fields_from_payload]). *)

From Stdlib Require Import ZArith Lia Ascii String.

From S2P Require Import Prelude Text.

#[local] Open Scope string_scope.
#[local] Open Scope list_scope.
#[local] Open Scope Z_scope.

(** [uuid::Uuid]: sixteen bytes, ordered bytewise. *)
Definition Uuid : Type := arr 16.
Definition uuid_nil : Uuid := arr_fill 16 Byte.x00.
#[export] Instance Uuid_eq_dec : EqDecision Uuid := _.
#[export] Instance Uuid_countable : Countable Uuid := _.
#[export] Instance Uuid_ord : Ord Uuid := arr_ord 16.
#[export] Instance Uuid_ord_laws : OrdLaws Uuid := arr_ord_laws 16.

(** Lamport clock with device-id tiebreak; the derived order is lexicographic
    in declaration order. *)
Record Clock := mkClock { lamport : Z; device : Uuid }.
#[export] Instance Clock_eq_dec : EqDecision Clock.
Proof. solve_decision. Defined.
#[export] Instance Clock_ord : Ord Clock := λ a b,
  cmp (lamport a, device a) (lamport b, device b).

Module Kind.
Inductive t := Tombstone | Host | Snippet | PortForward | KeyMeta | PrivateKey | ShareName.
End Kind.
Abbreviation Kind := Kind.t.
#[export] Instance Kind_eq_dec : EqDecision Kind.
Proof. solve_decision. Defined.

(** Derived [Ord] on a field-less enum compares discriminants. *)
Definition kind_index (k : Kind) : Z :=
  match k with
  | Kind.Tombstone => 0 | Kind.Host => 1 | Kind.Snippet => 2 | Kind.PortForward => 3
  | Kind.KeyMeta => 4 | Kind.PrivateKey => 5 | Kind.ShareName => 6
  end.
#[export] Instance Kind_ord : Ord Kind := λ a b, cmp (kind_index a) (kind_index b).

(** [serde_json::Value]; an object is its [BTreeMap], listed in key order. *)
Inductive Value :=
  | JNull
  | JBool (b : bool)
  | JInt (z : Z)
  | JFloat (bits : Z)
  | JString (s : string)
  | JArray (l : list Value)
  | JObject (m : list (string * Value)).

Abbreviation Object := (list (string * Value)).

Fixpoint obj_get (k : string) (m : Object) : option Value :=
  match m with
  | [] => None
  | (k', v) :: m => if decide (k = k') then Some v else obj_get k m
  end.

Fixpoint obj_insert (k : string) (v : Value) (m : Object) : Object :=
  match m with
  | [] => [(k, v)]
  | (k', v') :: m' =>
      match cmp k k' with
      | Lt => (k, v) :: m
      | Eq => (k, v) :: m'
      | Gt => (k', v') :: obj_insert k v m'
      end
  end.

Fixpoint value_tree (v : Value) : gen_tree (bool + Z + Z + string) :=
  match v with
  | JNull => GenNode 0 []
  | JBool b => GenLeaf (inl (inl (inl b)))
  | JInt z => GenLeaf (inl (inl (inr z)))
  | JFloat z => GenLeaf (inl (inr z))
  | JString s => GenLeaf (inr s)
  | JArray l => GenNode 1 (map value_tree l)
  | JObject m => GenNode 2
      (map (λ p, GenNode 3 [GenLeaf (inr p.1); value_tree p.2]) m)
  end.

Fixpoint tree_value (t : gen_tree (bool + Z + Z + string)) : Value :=
  match t with
  | GenLeaf (inl (inl (inl b))) => JBool b
  | GenLeaf (inl (inl (inr z))) => JInt z
  | GenLeaf (inl (inr z)) => JFloat z
  | GenLeaf (inr s) => JString s
  | GenNode 1 l => JArray (map tree_value l)
  | GenNode 2 l => JObject
      (map (λ u, match u with
                 | GenNode _ [GenLeaf (inr k); w] => (k, tree_value w)
                 | _ => (EmptyString, JNull)
                 end) l)
  | _ => JNull
  end.

Section value_induction.
Variable P : Value → Prop.
Hypothesis H_null : P JNull.
Hypothesis H_bool : ∀ b, P (JBool b).
Hypothesis H_int : ∀ z, P (JInt z).
Hypothesis H_float : ∀ z, P (JFloat z).
Hypothesis H_string : ∀ s, P (JString s).
Hypothesis H_array : ∀ l, Forall P l → P (JArray l).
Hypothesis H_object : ∀ m, Forall (λ p, P p.2) m → P (JObject m).

Fixpoint Value_rect' (v : Value) : P v :=
  match v with
  | JNull => H_null
  | JBool b => H_bool b
  | JInt z => H_int z
  | JFloat z => H_float z
  | JString s => H_string s
  | JArray l => H_array l
      ((fix go l : Forall P l :=
          match l with
          | [] => @List.Forall_nil _ P
          | v :: l => @List.Forall_cons _ P v l (Value_rect' v) (go l)
          end) l)
  | JObject m => H_object m
      ((fix go m : Forall (λ p, P p.2) m :=
          match m with
          | [] => @List.Forall_nil _ (λ p, P p.2)
          | p :: m => @List.Forall_cons _ (λ p, P p.2) p m (Value_rect' p.2) (go m)
          end) m)
  end.
End value_induction.

Lemma tree_value_tree v : tree_value (value_tree v) = v.
Proof.
  induction v as [| | | | |l IH|m IH] using Value_rect'; try done; simpl; f_equal.
  - induction IH; simpl; congruence.
  - induction IH as [|[k w] m Hw _ IH]; simpl in *; congruence.
Qed.

#[export] Instance Value_eq_dec : EqDecision Value.
Proof.
  refine (λ v w, cast_if (decide (value_tree v = value_tree w))).
  - abstract (by rewrite <-(tree_value_tree v), e, tree_value_tree).
  - abstract (by intros ->).
Defined.
#[export] Instance Value_countable : Countable Value :=
  inj_countable' value_tree tree_value tree_value_tree.

(** One field of a record with the clock of its last write. *)
Record Field := mkField { value : Value; field_clock : Clock }.
#[export] Instance Field_eq_dec : EqDecision Field.
Proof. solve_decision. Defined.

(** [record::Record], an immutable snapshot. *)
Record Rec := mkRec {
  rec_id : Uuid;
  rec_kind : Kind;
  rec_fields : gmap string Field;
  rec_deleted_at : option Clock;
  rec_clock : Clock;
  rec_device_id : Uuid;
  rec_modified_at : Z;
  rec_share_id : Uuid
}.
#[export] Instance Rec_eq_dec : EqDecision Rec.
Proof. solve_decision. Defined.

(** Codes of the data types; a record's code is the list of its fields'. *)
#[export] Instance Clock_countable : Countable Clock.
Proof.
  by apply (inj_countable' (λ c, (lamport c, device c)) (λ p, mkClock p.1 p.2)); intros [].
Defined.
#[export] Instance Kind_countable : Countable Kind.
Proof.
  apply (inj_countable kind_index (λ n,
    find (λ k, kind_index k =? n) [Kind.Tombstone; Kind.Host; Kind.Snippet; Kind.PortForward;
      Kind.KeyMeta; Kind.PrivateKey; Kind.ShareName])). by intros [].
Defined.
#[export] Instance Field_countable : Countable Field.
Proof.
  by apply (inj_countable' (λ f, (value f, field_clock f)) (λ p, mkField p.1 p.2)); intros [].
Defined.
#[export] Instance Rec_countable : Countable Rec.
Proof.
  apply (inj_countable
    (λ r, [encode (rec_id r); encode (rec_kind r); encode (rec_fields r);
           encode (rec_deleted_at r); encode (rec_clock r); encode (rec_device_id r);
           encode (rec_modified_at r); encode (rec_share_id r)])
    (λ l, match l with
          | [i; k; f; d; c; v; m; s] =>
              i ← decode i; k ← decode k; f ← decode f; d ← decode d; c ← decode c;
              v ← decode v; m ← decode m; s ← decode s; Some (mkRec i k f d c v m s)
          | _ => None
          end)).
  intros []; cbn -[encode decode]. repeat (rewrite decode_encode; cbn -[encode decode]). done.
Defined.

(** A record is deleted iff its tombstone clock beats every field clock. *)
Definition is_deleted (r : Rec) : bool :=
  match rec_deleted_at r with
  | None => false
  | Some d => forallb (λ kf, ltb (field_clock kf.2) d) (map_to_list (rec_fields r))
  end.

(* ------------------------------------------------------------------ *)
(** ** Typed payloads *)

Record Host := mkHost {
  alias : string;
  hostname : option string;
  port : option Z;
  user : option string;
  jump_host : option string;
  identity_file : option string;
  host_tags : list string
}.

Record Snippet := mkSnippet {
  snippet_name : string;
  command : string;
  description : option string;
  snippet_tags : list string
}.

Module ForwardKind.
Inductive t := Local | Remote | Dynamic.
End ForwardKind.
Abbreviation ForwardKind := ForwardKind.t.
#[export] Instance ForwardKind_eq_dec : EqDecision ForwardKind.
Proof. solve_decision. Defined.

Record PortForward := mkPortForward {
  fwd_name : string;
  fwd_kind : ForwardKind;
  spec : string;
  fwd_host : string
}.

Record KeyMeta := mkKeyMeta {
  key_name : string;
  public_key : string;
  fingerprint : option string;
  key_hosts : list string
}.

Record PrivateKey := mkPrivateKey {
  priv_name : string;
  key_pem : string;
  priv_public_key : option string
}.

Record ShareName := mkShareName {
  share_name : string;
  share_id_b64 : string
}.

#[export] Instance Host_eq_dec : EqDecision Host.
Proof. solve_decision. Defined.
#[export] Instance PortForward_eq_dec : EqDecision PortForward.
Proof. solve_decision. Defined.

(** Serialisation of a field: [None] where [skip_serializing_if] skips it. *)
Definition ser_str (s : string) : option Value := Some (JString s).
Definition ser_opt_str (o : option string) : option Value := JString <$> o.
Definition ser_opt_int (o : option Z) : option Value := JInt <$> o.
Definition ser_strs (l : list string) : option Value :=
  match l with [] => None | _ => Some (JArray (JString <$> l)) end.

(** Deserialisation of a field from what the object holds under its name. *)
Definition de_str (o : option Value) : option string :=
  match o with Some (JString s) => Some s | _ => None end.
Definition de_opt_str (o : option Value) : option (option string) :=
  match o with
  | None | Some JNull => Some None
  | Some (JString s) => Some (Some s)
  | _ => None
  end.
Definition de_opt_u16 (o : option Value) : option (option Z) :=
  match o with
  | None | Some JNull => Some None
  | Some (JInt z) => if (0 <=? z) && (z <=? u16_max) then Some (Some z) else None
  | _ => None
  end.
Definition de_strs (o : option Value) : option (list string) :=
  match o with
  | None => Some []
  | Some (JArray l) => mapM (λ v, de_str (Some v)) l
  | _ => None
  end.

(** [#[serde(rename_all = "lowercase")]] on a unit-variant enum: the name as
    a string, or as the key of an object with one null value. *)
Definition forward_kind_str (k : ForwardKind) : string :=
  match k with
  | ForwardKind.Local => "local"
  | ForwardKind.Remote => "remote"
  | ForwardKind.Dynamic => "dynamic"
  end.
Definition parse_forward_kind (s : string) : option ForwardKind :=
  if decide (s = "local") then Some ForwardKind.Local
  else if decide (s = "remote") then Some ForwardKind.Remote
  else if decide (s = "dynamic") then Some ForwardKind.Dynamic
  else None.
Definition de_forward_kind (o : option Value) : option ForwardKind :=
  match o with
  | Some (JString s) => parse_forward_kind s
  | Some (JObject [(s, JNull)]) => parse_forward_kind s
  | _ => None
  end.

(** What [derive(Serialize, Deserialize)] gives a payload struct: its field
    names in declaration order, the serialised fields, and the visitor that
    rebuilds it from the fields found. *)
Class Payload (T : Type) := {
  field_names : list string;
  ser_fields : T → list (option Value);
  de_fields : (string → option Value) → option T;
  payload_wf : T → Prop
}.

Definition to_object {T} `{Payload T} (p : T) : Object :=
  foldr (λ nv m, match nv.2 with Some v => obj_insert nv.1 v m | None => m end)
    [] (zip (field_names (T := T)) (ser_fields p)).
Definition to_value {T} `{Payload T} (p : T) : Value := JObject (to_object p).

(** [serde_json::from_value] for a struct: an object by field name, an array
    positionally, anything else is a type error. *)
Definition from_value {T} `{Payload T} (v : Value) : option T :=
  match v with
  | JObject m => de_fields (λ k, obj_get k m)
  | JArray l =>
      if (length l <=? length (field_names (T := T)))%nat
      then de_fields (λ k, obj_get k (zip (field_names (T := T)) l))
      else None
  | _ => None
  end.

#[export] Instance Host_payload : Payload Host := {|
  field_names := ["alias"; "hostname"; "port"; "user"; "jump_host"; "identity_file"; "tags"];
  ser_fields h := [ser_str (alias h); ser_opt_str (hostname h); ser_opt_int (port h);
    ser_opt_str (user h); ser_opt_str (jump_host h); ser_opt_str (identity_file h);
    ser_strs (host_tags h)];
  de_fields get :=
    a ← de_str (get "alias"); hn ← de_opt_str (get "hostname");
    p ← de_opt_u16 (get "port"); u ← de_opt_str (get "user");
    j ← de_opt_str (get "jump_host"); i ← de_opt_str (get "identity_file");
    t ← de_strs (get "tags"); Some (mkHost a hn p u j i t);
  payload_wf h := match port h with Some p => 0 ≤ p ≤ u16_max | None => True end
|}.

#[export] Instance Snippet_payload : Payload Snippet := {|
  field_names := ["name"; "command"; "description"; "tags"];
  ser_fields s := [ser_str (snippet_name s); ser_str (command s);
    ser_opt_str (description s); ser_strs (snippet_tags s)];
  de_fields get :=
    n ← de_str (get "name"); c ← de_str (get "command");
    d ← de_opt_str (get "description"); t ← de_strs (get "tags");
    Some (mkSnippet n c d t);
  payload_wf _ := True
|}.

#[export] Instance PortForward_payload : Payload PortForward := {|
  field_names := ["name"; "kind"; "spec"; "host"];
  ser_fields f := [ser_str (fwd_name f); ser_str (forward_kind_str (fwd_kind f));
    ser_str (spec f); ser_str (fwd_host f)];
  de_fields get :=
    n ← de_str (get "name"); k ← de_forward_kind (get "kind");
    s ← de_str (get "spec"); h ← de_str (get "host"); Some (mkPortForward n k s h);
  payload_wf _ := True
|}.

#[export] Instance KeyMeta_payload : Payload KeyMeta := {|
  field_names := ["name"; "public_key"; "fingerprint"; "hosts"];
  ser_fields k := [ser_str (key_name k); ser_str (public_key k);
    ser_opt_str (fingerprint k); ser_strs (key_hosts k)];
  de_fields get :=
    n ← de_str (get "name"); p ← de_str (get "public_key");
    f ← de_opt_str (get "fingerprint"); h ← de_strs (get "hosts");
    Some (mkKeyMeta n p f h);
  payload_wf _ := True
|}.

#[export] Instance PrivateKey_payload : Payload PrivateKey := {|
  field_names := ["name"; "key_pem"; "public_key"];
  ser_fields k := [ser_str (priv_name k); ser_str (key_pem k);
    ser_opt_str (priv_public_key k)];
  de_fields get :=
    n ← de_str (get "name"); p ← de_str (get "key_pem");
    q ← de_opt_str (get "public_key"); Some (mkPrivateKey n p q);
  payload_wf _ := True
|}.

#[export] Instance ShareName_payload : Payload ShareName := {|
  field_names := ["name"; "share_id_b64"];
  ser_fields s := [ser_str (share_name s); ser_str (share_id_b64 s)];
  de_fields get :=
    n ← de_str (get "name"); i ← de_str (get "share_id_b64"); Some (mkShareName n i);
  payload_wf _ := True
|}.

(** [Record::payload]: the field map as an object, deserialised. *)
Definition fields_object (m : gmap string Field) : Object :=
  foldr (λ kf o, obj_insert kf.1 (value kf.2) o) [] (map_to_list m).
Definition payload {T} `{Payload T} (r : Rec) : option T :=
  from_value (JObject (fields_object (rec_fields r))).

(** Convert a typed payload into a field map, stamping every field. *)
Definition fields_from_payload {T} `{Payload T} (p : T) (clock : Clock) : gmap string Field :=
  list_to_map ((λ kv, (kv.1, mkField kv.2 clock)) <$> to_object p).

(* ------------------------------------------------------------------ *)
(** ** Orders *)

#[export] Instance Clock_ord_laws : OrdLaws Clock.
Proof.
  apply (ord_laws_inj (λ c, (lamport c, device c))); [|done].
  intros [l d] [l' d']. naive_solver.
Qed.

#[export] Instance Kind_ord_laws : OrdLaws Kind.
Proof. apply (ord_laws_inj kind_index); [|done]. by intros [] []. Qed.

Lemma clock_ltb a b :
  ltb a b = true ↔ lamport a < lamport b ∨ lamport a = lamport b ∧ ltb (device a) (device b) = true.
Proof.
  unfold ltb, cmp at 1, Clock_ord, cmp at 1, prod_ord; simpl.
  unfold cmp at 1, Z_ord. destruct (Z.compare_spec (lamport a) (lamport b)); [|lia..].
  rewrite H. destruct (cmp _ _); naive_solver lia.
Qed.

Lemma clock_lamport_lt a b : lamport a < lamport b → ltb a b = true.
Proof. intros. apply clock_ltb. by left. Qed.

(* ------------------------------------------------------------------ *)
(** ** Objects *)

Lemma obj_get_insert k k' v m :
  obj_get k (obj_insert k' v m) = if decide (k = k') then Some v else obj_get k m.
Proof.
  induction m as [|[k2 v2] m IH]; simpl; [done|].
  destruct (cmp k' k2) eqn:E; simpl.
  - apply cmp_eq in E as ->. by case_decide.
  - done.
  - rewrite IH. repeat case_decide; subst; try done.
    by rewrite cmp_refl in E.
Qed.

Lemma obj_get_fields m k : obj_get k (fields_object m) = value <$> m !! k.
Proof.
  unfold fields_object.
  assert (Hl : ∀ l : list (string * Field), NoDup l.*1 →
    obj_get k (foldr (λ kf o, obj_insert kf.1 (value kf.2) o) [] l)
    = value <$> (list_to_map l : gmap string Field) !! k).
  { induction l as [|[k' f] l IH]; intros Hnd; simpl.
    - by rewrite lookup_empty.
    - rewrite obj_get_insert. apply NoDup_cons in Hnd as [_ Hnd]. rewrite IH by done.
      case_decide as Hk; subst; [by rewrite lookup_insert_eq|].
      by rewrite lookup_insert_ne by congruence. }
  rewrite Hl by apply NoDup_fst_map_to_list. by rewrite list_to_map_to_list.
Qed.

Lemma lookup_fields_from_payload {T} `{Payload T} (p : T) c k :
  fields_from_payload p c !! k = (λ v, mkField v c) <$> obj_get k (to_object p).
Proof.
  unfold fields_from_payload. induction (to_object p) as [|[k' v] m IH]; simpl.
  - by rewrite lookup_empty.
  - case_decide as Hk; subst; [by rewrite lookup_insert_eq|].
    rewrite lookup_insert_ne by congruence. apply IH.
Qed.

(** The serialised field found under a name. *)
Fixpoint ser_get (k : string) (l : list (string * option Value)) : option Value :=
  match l with
  | [] => None
  | (k', v) :: l => if decide (k = k') then v else ser_get k l
  end.

Lemma ser_get_not_in k l : k ∉ l.*1 → ser_get k l = None.
Proof.
  induction l as [|[k' v] l IH]; simpl; [done|].
  intros [Hk Hl]%not_elem_of_cons. by rewrite decide_False, IH.
Qed.

Lemma obj_get_ser k l : NoDup l.*1 →
  obj_get k (foldr (λ nv m, match nv.2 with Some v => obj_insert nv.1 v m | None => m end) [] l)
  = ser_get k l.
Proof.
  induction l as [|[k' v] l IH]; intros Hnd; simpl in *; [done|].
  apply NoDup_cons in Hnd as [Hk Hnd]. destruct v as [v|]; simpl.
  - rewrite obj_get_insert, IH by done. done.
  - rewrite IH by done. case_decide; subst; [by apply ser_get_not_in | done].
Qed.

(* ------------------------------------------------------------------ *)
(** ** Round trips of the typed payloads *)

Class PayloadLaws (T : Type) `{Payload T} : Prop := {
  field_names_nodup : NoDup (field_names (T := T));
  ser_fields_length (p : T) : length (ser_fields p) = length (field_names (T := T));
  de_fields_ext (f g : string → option Value) :
    (∀ k, f k = g k) → de_fields (T := T) f = de_fields g;
  de_ser_fields (p : T) : payload_wf p →
    de_fields (λ k, ser_get k (zip field_names (ser_fields p))) = Some p
}.

Lemma de_ser_str s : de_str (ser_str s) = Some s.
Proof. done. Qed.
Lemma de_ser_opt_str o : de_opt_str (ser_opt_str o) = Some o.
Proof. by destruct o. Qed.
Lemma de_ser_opt_u16 o :
  match o with Some p => 0 ≤ p ≤ u16_max | None => True end →
  de_opt_u16 (ser_opt_int o) = Some o.
Proof.
  destruct o as [p|]; [|done]. simpl. intros [H0 H1].
  by rewrite (proj2 (Z.leb_le _ _) H0), (proj2 (Z.leb_le _ _) H1).
Qed.
Lemma de_opt_u16_range o x : de_opt_u16 o = Some x → match x with Some z => 0 ≤ z ≤ u16_max | None => True end.
Proof.
  destruct o as [[]|]; simpl; try (by intros [= <-]). case_match eqn:E; intros [= <-].
  apply andb_prop in E as [?%Z.leb_le ?%Z.leb_le]. done.
Qed.
Lemma de_ser_strs l : de_strs (ser_strs l) = Some l.
Proof.
  assert (Hm : mapM (λ v, de_str (Some v)) (JString <$> l) = Some l).
  { apply mapM_Some_2, Forall2_fmap_l. by induction l; constructor. }
  destruct l; [done|]. exact Hm.
Qed.
Lemma de_ser_forward_kind k : de_forward_kind (ser_str (forward_kind_str k)) = Some k.
Proof. by destruct k. Qed.

(** Discharges [PayloadLaws] for a derived instance. *)
Ltac payload_laws :=
  split;
  [ apply (bool_decide_unpack _); vm_compute; exact I
  | intros []; reflexivity
  | intros f g Hfg; unfold de_fields; simpl; rewrite ?Hfg; reflexivity
  | intros p Hwf; unfold de_fields; simpl;
    repeat (rewrite ?de_ser_opt_str, ?de_ser_strs, ?de_ser_forward_kind; simpl;
            try (rewrite de_ser_opt_u16 by exact Hwf; simpl));
    destruct p; try match goal with k : ForwardKind |- _ => destruct k end; reflexivity ].

#[export] Instance Host_payload_laws : PayloadLaws Host.
Proof. payload_laws. Qed.
#[export] Instance Snippet_payload_laws : PayloadLaws Snippet.
Proof. payload_laws. Qed.
#[export] Instance PortForward_payload_laws : PayloadLaws PortForward.
Proof. payload_laws. Qed.
#[export] Instance KeyMeta_payload_laws : PayloadLaws KeyMeta.
Proof. payload_laws. Qed.
#[export] Instance PrivateKey_payload_laws : PayloadLaws PrivateKey.
Proof. payload_laws. Qed.
#[export] Instance ShareName_payload_laws : PayloadLaws ShareName.
Proof. payload_laws. Qed.

Section payload_facts.
Context {T : Type} `{PayloadLaws T}.

Lemma obj_get_to_object (p : T) k :
  obj_get k (to_object p) = ser_get k (zip field_names (ser_fields p)).
Proof.
  unfold to_object. apply obj_get_ser.
  rewrite fst_zip by (rewrite ser_fields_length; lia). apply field_names_nodup.
Qed.

Lemma from_to_value (p : T) : payload_wf p → from_value (to_value p) = Some p.
Proof.
  intros Hp. unfold from_value, to_value. rewrite <-(de_ser_fields p Hp).
  apply de_fields_ext, obj_get_to_object.
Qed.

(** Only the values of the fields matter to [payload]. *)
Lemma payload_values (r r' : Rec) :
  (∀ k, value <$> rec_fields r !! k = value <$> rec_fields r' !! k) →
  payload (T := T) r = payload r'.
Proof.
  intros Hv. unfold payload, from_value. apply de_fields_ext.
  intros k. by rewrite !obj_get_fields.
Qed.

Lemma payload_of_fields (p : T) (r : Rec) :
  payload_wf p →
  (∀ k, value <$> rec_fields r !! k = obj_get k (to_object p)) → payload r = Some p.
Proof.
  intros Hp Hr. rewrite <-(from_to_value p Hp). unfold payload, from_value, to_value.
  apply de_fields_ext. intros k. by rewrite obj_get_fields.
Qed.
End payload_facts.

(* ------------------------------------------------------------------ *)
(** ** Deletion *)

Lemma is_deleted_spec r : is_deleted r = true ↔
  ∃ d, rec_deleted_at r = Some d ∧
       ∀ k f, rec_fields r !! k = Some f → ltb (field_clock f) d = true.
Proof.
  unfold is_deleted. destruct (rec_deleted_at r) as [d|]; [|naive_solver].
  rewrite forallb_forall. split.
  - intros Hf. exists d. split; [done|]. intros k f Hk.
    apply (Hf (k, f)), list_elem_of_In, elem_of_map_to_list, Hk.
  - intros (d' & [= <-] & Hf) [k f] Hk%list_elem_of_In%elem_of_map_to_list.
    by apply (Hf k).
Qed.
