(* ===== verification/Merge.v ===== *)
(** * Merge: field-level last-writer-wins ([src/src/merge.rs])

    [merge] joins two snapshots of one record, [merge_all] folds any number of
    them into the current state.  Associativity and idempotence hold for every
    record; commutativity, and with it convergence, holds when a clock names
    one write ([consistent]), which is what the vault's clocks guarantee. *)

From Stdlib Require Import ZArith Lia String.
From S2P Require Import Prelude Text Record.

#[local] Open Scope list_scope.
#[local] Open Scope Z_scope.

(** The loop over [b.fields]: keep ours when its clock is at least theirs. *)
Definition merge_field (fields : gmap string Field) (kf : string * Field) : gmap string Field :=
  match fields !! kf.1 with
  | Some fa => if geb (field_clock fa) (field_clock kf.2) then fields else <[kf.1 := kf.2]> fields
  | None => <[kf.1 := kf.2]> fields
  end.
Definition merge_fields (a b : gmap string Field) : gmap string Field :=
  foldl merge_field a (map_to_list b).

Definition merge (a b : Rec) : Rec :=
  let '(newer, older) := if geb (rec_clock a) (rec_clock b) then (a, b) else (b, a) in
  {| rec_id := rec_id a;
     rec_kind := ord_max (rec_kind a) (rec_kind b);
     rec_fields := merge_fields (rec_fields a) (rec_fields b);
     rec_deleted_at := ord_max (rec_deleted_at a) (rec_deleted_at b);
     rec_clock := rec_clock newer;
     rec_device_id := rec_device_id newer;
     rec_modified_at := ord_max (rec_modified_at newer) (rec_modified_at older);
     rec_share_id := rec_share_id newer |}.

(** One snapshot folded into the state map. *)
Definition merge_step (state : gmap Uuid Rec) (rec : Rec) : gmap Uuid Rec :=
  upsert merge (rec_id rec) rec state.
Definition merge_all (records : list Rec) : gmap Uuid Rec := foldl merge_step ∅ records.

Definition live (r : Rec) : bool :=
  negb (is_deleted r) && negb (bool_decide (rec_kind r = Kind.Tombstone)).

(* ------------------------------------------------------------------ *)
(** ** Fields *)

Definition pick_field : Field → Field → Field := pick field_clock.

(** The field-wise join of two optional fields. *)
Definition join_field (x y : option Field) : option Field :=
  match x, y with
  | Some a, Some b => Some (pick_field a b)
  | Some a, None => Some a
  | None, y => y
  end.

Lemma lookup_merge_field m k f i :
  merge_field m (k, f) !! i = if decide (k = i) then join_field (m !! i) (Some f) else m !! i.
Proof.
  unfold merge_field; simpl. case_decide as Hk; subst.
  - destruct (m !! i) as [fa|] eqn:E; simpl; [|by rewrite lookup_insert_eq].
    unfold pick_field, pick. destruct (geb _ _); [done | by rewrite lookup_insert_eq].
  - destruct (m !! k) as [fa|]; [destruct (geb _ _)|]; by rewrite ?lookup_insert_ne.
Qed.

Lemma lookup_merge_fields a b k : merge_fields a b !! k = join_field (a !! k) (b !! k).
Proof.
  unfold merge_fields. rewrite <-(list_to_map_to_list b) at 2.
  pose proof (NoDup_fst_map_to_list b) as Hnd. revert a Hnd.
  induction (map_to_list b) as [|[k' f] l IH]; intros a Hnd; simpl.
  - rewrite lookup_empty. by destruct (a !! k).
  - apply NoDup_cons in Hnd as [Hk' Hnd]. rewrite IH by done.
    rewrite lookup_merge_field. case_decide as Hk; subst.
    + rewrite lookup_insert_eq, not_elem_of_list_to_map_1 by done.
      by destruct (a !! k).
    + by rewrite lookup_insert_ne.
Qed.

Lemma join_field_assoc x y z : join_field (join_field x y) z = join_field x (join_field y z).
Proof. destruct x, y, z; simpl; try done. f_equal. apply pick_assoc. Qed.

Lemma join_field_idem x : join_field x x = x.
Proof. destruct x; simpl; [|done]. f_equal. apply pick_idem. Qed.

Lemma join_field_comm x y :
  (∀ a b, x = Some a → y = Some b → field_clock a = field_clock b → a = b) →
  join_field x y = join_field y x.
Proof.
  intros Hxy. destruct x as [a|], y as [b|]; simpl; try done.
  f_equal. apply pick_comm. by apply Hxy.
Qed.

Lemma merge_fields_assoc a b c :
  merge_fields (merge_fields a b) c = merge_fields a (merge_fields b c).
Proof. apply map_eq. intros k. rewrite !lookup_merge_fields. apply join_field_assoc. Qed.

Lemma merge_fields_idem a : merge_fields a a = a.
Proof. apply map_eq. intros k. rewrite lookup_merge_fields. apply join_field_idem. Qed.

(** [merge] with the header choice written as one [pick]. *)
Lemma merge_eq a b : merge a b =
  let n := pick rec_clock a b in
  {| rec_id := rec_id a;
     rec_kind := ord_max (rec_kind a) (rec_kind b);
     rec_fields := merge_fields (rec_fields a) (rec_fields b);
     rec_deleted_at := ord_max (rec_deleted_at a) (rec_deleted_at b);
     rec_clock := rec_clock n;
     rec_device_id := rec_device_id n;
     rec_modified_at := ord_max (rec_modified_at a) (rec_modified_at b);
     rec_share_id := rec_share_id n |}.
Proof.
  unfold merge, pick. destruct (geb (rec_clock a) (rec_clock b)); simpl; [done|].
  by rewrite (ord_max_comm (rec_modified_at b)).
Qed.

(** A header field of nested merges is the header field of nested picks. *)
Lemma pick_clock_ext a a' b b' :
  rec_clock a = rec_clock a' → rec_clock b = rec_clock b' →
  ∀ B (g : Rec → B), g a = g a' → g b = g b' →
  g (pick rec_clock a b) = g (pick rec_clock a' b').
Proof. intros Ha Hb B g Hga Hgb. unfold pick. rewrite Ha, Hb. by destruct (geb _ _). Qed.

Lemma Rec_eq (a b : Rec) :
  rec_id a = rec_id b → rec_kind a = rec_kind b → rec_fields a = rec_fields b →
  rec_deleted_at a = rec_deleted_at b → rec_clock a = rec_clock b →
  rec_device_id a = rec_device_id b → rec_modified_at a = rec_modified_at b →
  rec_share_id a = rec_share_id b → a = b.
Proof. destruct a, b; simpl; intros; by subst. Qed.

Lemma merge_assoc_rec a b c : merge (merge a b) c = merge a (merge b c).
Proof.
  assert (Hpick : ∀ B (g : Rec → B),
    (∀ x y, g (merge x y) = g (pick rec_clock x y)) →
    (∀ x y, rec_clock (merge x y) = rec_clock (pick rec_clock x y)) →
    g (pick rec_clock (merge a b) c) = g (pick rec_clock a (merge b c))).
  { intros B g Hg Hc. etransitivity.
    { apply (pick_clock_ext _ (pick rec_clock a b) _ c); auto. }
    rewrite pick_assoc. symmetry. apply (pick_clock_ext _ a _ (pick rec_clock b c)); auto. }
  assert (Hc : ∀ x y, rec_clock (merge x y) = rec_clock (pick rec_clock x y))
    by (intros; by rewrite merge_eq).
  rewrite (merge_eq (merge a b)), (merge_eq a (merge b c)). cbv zeta.
  apply Rec_eq; simpl.
  - by rewrite merge_eq.
  - rewrite !merge_eq. apply ord_max_assoc.
  - rewrite !merge_eq. apply merge_fields_assoc.
  - rewrite !merge_eq. apply ord_max_assoc.
  - apply (Hpick _ rec_clock); auto.
  - apply (Hpick _ rec_device_id); auto. intros; by rewrite merge_eq.
  - rewrite !merge_eq. apply ord_max_assoc.
  - apply (Hpick _ rec_share_id); auto. intros; by rewrite merge_eq.
Qed.

Lemma merge_idem_rec a : merge a a = a.
Proof.
  rewrite merge_eq. rewrite pick_idem, merge_fields_idem, !ord_max_idem. by destruct a.
Qed.

(* ------------------------------------------------------------------ *)
(** ** Consistency: a clock names one write *)

(** What was written: the value of each field write, and the header
    (authoring device, share) of each snapshot, by clock. *)
Record History := mkHistory {
  written : Uuid → string → Clock → Value;
  header : Uuid → Clock → Uuid * Uuid
}.

Definition consistent (W : History) (r : Rec) : Prop :=
  (∀ k f, rec_fields r !! k = Some f → value f = written W (rec_id r) k (field_clock f)) ∧
  (rec_device_id r, rec_share_id r) = header W (rec_id r) (rec_clock r).

Lemma merge_comm_rec W a b :
  rec_id a = rec_id b → consistent W a → consistent W b → merge a b = merge b a.
Proof.
  intros Hid [Hfa Hha] [Hfb Hhb]. rewrite !merge_eq. cbv zeta.
  assert (Hhdr : rec_clock a = rec_clock b →
    rec_device_id a = rec_device_id b ∧ rec_share_id a = rec_share_id b).
  { intros Hc. rewrite Hid, Hc, <-Hhb in Hha. by injection Hha. }
  assert (Hg : ∀ B (g : Rec → B), (rec_clock a = rec_clock b → g a = g b) →
    g (pick rec_clock a b) = g (pick rec_clock b a)).
  { intros B g Hg. unfold pick.
    destruct (geb (rec_clock a) (rec_clock b)) eqn:E1, (geb (rec_clock b) (rec_clock a)) eqn:E2;
      try done; unfold geb in E1, E2; rewrite ?negb_true_iff, ?negb_false_iff in *.
    - apply Hg. by apply ltb_total.
    - rewrite (ltb_asym _ _ E1) in E2. done. }
  apply Rec_eq; simpl; try apply ord_max_comm.
  - done.
  - apply map_eq. intros k. rewrite !lookup_merge_fields. apply join_field_comm.
    intros [v c] [w d] Hv Hw Hcd. simpl in Hcd. subst d.
    apply Hfa in Hv. apply Hfb in Hw. simpl in *. by rewrite Hv, Hw, Hid.
  - by apply (Hg _ rec_clock).
  - apply (Hg _ rec_device_id). by intros []%Hhdr.
  - apply (Hg _ rec_share_id). by intros []%Hhdr.
Qed.

Lemma merge_consistent W a b :
  rec_id a = rec_id b → consistent W a → consistent W b → consistent W (merge a b).
Proof.
  intros Hid [Hfa Hha] [Hfb Hhb]. split.
  - intros k f. rewrite merge_eq; simpl. rewrite lookup_merge_fields.
    destruct (rec_fields a !! k) eqn:Ea, (rec_fields b !! k) eqn:Eb; simpl;
      intros [= <-]; auto; [|by rewrite Hid; auto].
    unfold pick_field. destruct (pick_either field_clock f0 f1) as [->| ->]; auto.
    rewrite Hid; auto.
  - rewrite merge_eq; simpl. destruct (pick_either rec_clock a b) as [->| ->]; auto.
    by rewrite Hid.
Qed.

(* ------------------------------------------------------------------ *)
(** ** Folding *)

Lemma merge_all_nil : merge_all [] = ∅.
Proof. done. Qed.

Lemma merge_all_app l k : merge_all (l ++ k) = foldl merge_step (merge_all l) k.
Proof. apply foldl_app. Qed.

Lemma merge_all_snoc l r : merge_all (l ++ [r]) = merge_step (merge_all l) r.
Proof. by rewrite merge_all_app. Qed.

Lemma merge_step_comm W s a b :
  consistent W a → consistent W b →
  merge_step (merge_step s a) b = merge_step (merge_step s b) a.
Proof.
  intros Ha Hb. unfold merge_step. apply upsert_comm; [apply merge_assoc_rec|].
  intros Hid. by apply (merge_comm_rec W).
Qed.

Lemma merge_step_idem s a : merge_step (merge_step s a) a = merge_step s a.
Proof. apply upsert_idem; [apply merge_assoc_rec | apply merge_idem_rec]. Qed.

Lemma merge_all_same_set W l k :
  Forall (consistent W) l → (∀ r, r ∈ l ↔ r ∈ k) → merge_all l = merge_all k.
Proof.
  intros Hl Hlk. apply (foldl_same_set merge_step (consistent W)); auto.
  - intros. by apply (merge_step_comm W).
  - intros. apply merge_step_idem.
Qed.

Lemma merge_all_some l id m : merge_all l !! id = Some m → rec_id m = id.
Proof.
  revert m. induction l as [|r l IH] using rev_ind; intros m; [done|].
  rewrite merge_all_snoc. unfold merge_step.
  destruct (decide (rec_id r = id)) as [<-|Hne].
  - rewrite lookup_upsert. destruct (merge_all l !! rec_id r) as [cur|] eqn:E;
      intros [= <-]; [|done]. rewrite merge_eq; simpl. by apply IH.
  - rewrite lookup_upsert_ne by done. apply IH.
Qed.

(** The declarative meaning of merging: the snapshots of [id] in [l] and the
    largest key among them. *)
Definition snapshot_of (l : list Rec) (id : Uuid) (r : Rec) : Prop := r ∈ l ∧ rec_id r = id.

Definition largest {K} `{Ord K} (key : Rec → K) (l : list Rec) (id : Uuid) (x : K) : Prop :=
  (∃ r, snapshot_of l id r ∧ x = key r) ∧ ∀ r, snapshot_of l id r → geb x (key r) = true.

(** The last write to field [k] of [id], [None] when no snapshot writes it. *)
Definition last_write (l : list Rec) (id : Uuid) (k : string) (x : option Field) : Prop :=
  (∀ f, x = Some f → ∃ r, snapshot_of l id r ∧ rec_fields r !! k = Some f) ∧
  (∀ r f', snapshot_of l id r → rec_fields r !! k = Some f' →
     ∃ f, x = Some f ∧ geb (field_clock f) (field_clock f') = true).

(** [m] is what the snapshots [l] of record [id] merge to. *)
Definition merged (l : list Rec) (id : Uuid) (m : Rec) : Prop :=
  (∀ k, last_write l id k (rec_fields m !! k)) ∧
  largest rec_deleted_at l id (rec_deleted_at m) ∧
  largest rec_kind l id (rec_kind m) ∧
  largest rec_modified_at l id (rec_modified_at m) ∧
  largest rec_clock l id (rec_clock m) ∧
  ∃ r, snapshot_of l id r ∧ rec_clock m = rec_clock r ∧
       rec_device_id m = rec_device_id r ∧ rec_share_id m = rec_share_id r.

Lemma snapshot_of_snoc l id r x :
  snapshot_of (l ++ [r]) id x ↔ snapshot_of l id x ∨ x = r ∧ rec_id r = id.
Proof. unfold snapshot_of. rewrite elem_of_app, list_elem_of_singleton. naive_solver. Qed.

Lemma largest_snoc {K} `{OrdLaws K} (key : Rec → K) l id r x :
  rec_id r = id → largest key l id x → largest key (l ++ [r]) id (ord_max x (key r)).
Proof.
  intros Hr [(y & Hy & ->) Hx]. split.
  - destruct (ord_max_either (key y) (key r)) as [->| ->];
      [exists y | exists r]; rewrite snapshot_of_snoc; naive_solver.
  - intros z [Hz|[-> _]]%snapshot_of_snoc; [|apply ord_max_ub_r].
    eapply geb_trans; [apply ord_max_ub_l | by apply Hx].
Qed.

Lemma largest_single {K} `{OrdLaws K} (key : Rec → K) l r :
  (∀ x, ¬ snapshot_of l (rec_id r) x) → largest key (l ++ [r]) (rec_id r) (key r).
Proof.
  intros Hl. split.
  - exists r. rewrite snapshot_of_snoc. naive_solver.
  - intros z [Hz%Hl|[-> _]]%snapshot_of_snoc; [done | apply geb_refl].
Qed.

Lemma last_write_snoc l id r k x :
  rec_id r = id → last_write l id k x →
  last_write (l ++ [r]) id k (join_field x (rec_fields r !! k)).
Proof.
  intros Hr [H1 H2]. split.
  - intros f Hf. assert (x = Some f ∨ rec_fields r !! k = Some f) as [Hx|Hx].
    { destruct x as [a|], (rec_fields r !! k) as [b|]; simpl in Hf; simplify_eq; auto.
      unfold pick_field. destruct (pick_either field_clock a b) as [->| ->]; auto. }
    + destruct (H1 _ Hx) as (y & Hy & Hk). exists y. rewrite snapshot_of_snoc. auto.
    + exists r. rewrite snapshot_of_snoc. auto.
  - intros y f' [Hy|[-> _]]%snapshot_of_snoc Hk.
    + destruct (H2 _ _ Hy Hk) as (f & -> & Hf). destruct (rec_fields r !! k) as [b|]; simpl.
      * eexists; split; [done|]. eapply geb_trans; [apply (pick_key_l field_clock) | done].
      * eauto.
    + rewrite Hk. destruct x as [a|]; simpl; eexists; split; try done;
        [apply (pick_key_r field_clock) | apply geb_refl].
Qed.

Lemma last_write_single l r k :
  (∀ x, ¬ snapshot_of l (rec_id r) x) → last_write (l ++ [r]) (rec_id r) k (rec_fields r !! k).
Proof.
  intros Hl. split.
  - intros f Hf. exists r. rewrite snapshot_of_snoc. auto.
  - intros y f' [Hy%Hl|[-> _]]%snapshot_of_snoc Hk; [done|].
    exists f'. split; [done | apply geb_refl].
Qed.

Lemma merged_single l r : (∀ x, ¬ snapshot_of l (rec_id r) x) → merged (l ++ [r]) (rec_id r) r.
Proof.
  intros Hl. split_and!; try by apply largest_single.
  { intros k. by apply last_write_single. }
  exists r. rewrite snapshot_of_snoc. auto.
Qed.

Lemma merged_snoc l id m r : rec_id r = id → merged l id m → merged (l ++ [r]) id (merge m r).
Proof.
  intros Hr (Hf & Hd & Hk & Hm & Hc & y & Hy & Hyc). rewrite merge_eq.
  split_and!; simpl; try by apply largest_snoc.
  - intros k. rewrite lookup_merge_fields. by apply last_write_snoc.
  - apply (largest_snoc rec_clock _ _ r) in Hc; [|done]. rewrite ord_max_pick in Hc.
    unfold pick in *. by destruct (geb (rec_clock m) (rec_clock r)).
  - destruct (pick_either rec_clock m r) as [->| ->]; [exists y | exists r];
      rewrite snapshot_of_snoc; naive_solver.
Qed.

Lemma merged_other l id m r : rec_id r ≠ id → merged l id m → merged (l ++ [r]) id m.
Proof.
  intros Hr. assert (He : ∀ x, snapshot_of (l ++ [r]) id x ↔ snapshot_of l id x).
  { intros x. rewrite snapshot_of_snoc. naive_solver. }
  unfold merged, last_write, largest. by setoid_rewrite He.
Qed.

Lemma merge_all_correct l id :
  match merge_all l !! id with
  | Some m => merged l id m
  | None => ∀ r, ¬ snapshot_of l id r
  end.
Proof.
  induction l as [|r l IH] using rev_ind.
  - rewrite merge_all_nil, lookup_empty. intros r [Hr _]. by apply not_elem_of_nil in Hr.
  - rewrite merge_all_snoc. unfold merge_step. destruct (decide (rec_id r = id)) as [<-|Hne].
    + rewrite lookup_upsert. destruct (merge_all l !! rec_id r) as [m|] eqn:E.
      * by apply merged_snoc.
      * by apply merged_single.
    + rewrite lookup_upsert_ne by done. destruct (merge_all l !! id).
      * by apply merged_other.
      * intros x [Hx|[_ ?]]%snapshot_of_snoc; naive_solver.
Qed.

(* ------------------------------------------------------------------ *)
(** ** Properties *)

(** On snapshots of one record, [merge] is a join: associative and
    idempotent for any snapshots, commutative on snapshots in which a clock
    names one write, and closed under that condition. *)
Theorem merge_semilattice :
  (∀ a b c, merge (merge a b) c = merge a (merge b c)) ∧
  (∀ a, merge a a = a) ∧
  (∀ W a b, rec_id a = rec_id b → consistent W a → consistent W b →
     merge a b = merge b a ∧ consistent W (merge a b)).
Proof.
  split_and!; [exact merge_assoc_rec | exact merge_idem_rec |].
  intros W a b Hid Ha Hb. split; [by eapply merge_comm_rec | by apply merge_consistent].
Qed.

(** C3: convergence.  Two logs holding the same snapshots, in any order and
    with any duplicates, merge to the same state, provided that in them a
    clock names one write. *)
Theorem merge_all_convergent (W : History) (l k : list Rec) :
  Forall (consistent W) l → (∀ r, r ∈ l ↔ r ∈ k) → merge_all l = merge_all k.
Proof. apply merge_all_same_set. Qed.

(** C27: [merge_all] implements its declarative meaning: a record id is in the
    state iff a snapshot of it was delivered, every field of the merged
    record is the last write to it, every written field is present, and the
    deletion mark, kind, clock and header are those of the latest snapshots. *)
Theorem merge_all_refines_merged (l : list Rec) (id : Uuid) :
  match merge_all l !! id with
  | Some m => rec_id m = id ∧ merged l id m
  | None => ∀ r, ¬ snapshot_of l id r
  end.
Proof.
  pose proof (merge_all_correct l id) as H. destruct (merge_all l !! id) eqn:E; [|done].
  split; [by eapply merge_all_some | done].
Qed.

(** A record is deleted in the merged state exactly when some tombstone
    for it beats every field write delivered for it, so no reordering or
    replay of older entries resurrects it, and a later edit does. *)
Theorem merge_all_deleted_iff (l : list Rec) (id : Uuid) :
  (∃ m, merge_all l !! id = Some m ∧ is_deleted m = true) ↔
  ∃ t d, snapshot_of l id t ∧ rec_deleted_at t = Some d ∧
    ∀ r k f, snapshot_of l id r → rec_fields r !! k = Some f → ltb (field_clock f) d = true.
Proof.
  pose proof (merge_all_correct l id) as H. split.
  - intros (m & E & Hd). rewrite E in H. destruct H as (Hf & [(t & Ht & Htd) _] & _).
    apply is_deleted_spec in Hd as (d & Hd & Hall). exists t, d. split_and!; [done|congruence|].
    intros r k f Hr Hk. destruct (Hf k) as [_ H2]. destruct (H2 r f Hr Hk) as (f0 & H0 & Hge).
    eapply geb_ltb_trans; [exact Hge | by eapply Hall].
  - intros (t & d & Ht & Hd & Hall). destruct (merge_all l !! id) as [m|]; [|by apply H in Ht].
    exists m. split; [done|]. destruct H as (Hf & [(y & Hy & Hyd) Hmax] & _).
    apply is_deleted_spec. specialize (Hmax t Ht). rewrite Hd in Hmax.
    destruct (rec_deleted_at m) as [d'|] eqn:Em; [|done].
    exists d'. split; [done|]. intros k f Hk. destruct (Hf k) as [H1 _].
    destruct (H1 f Hk) as (r & Hr & Hrk). specialize (Hall r k f Hr Hrk).
    by apply (lt_geb_trans _ d d').
Qed.

(* ------------------------------------------------------------------ *)
(** ** The convergence theorem at a concrete history *)

Module Sample.
Definition dev (n : Z) : Uuid := arr_fill 16 (byte_of n).
Definition clk (n d : Z) : Clock := mkClock n (dev d).
Definition history : History := {|
  written _ k c := JString (k +:+ show_int (lamport c));
  header _ c := (device c, uuid_nil)
|}.
Definition snap (k : string) (c : Clock) : Rec := {|
  rec_id := dev 7; rec_kind := Kind.Snippet;
  rec_fields := {[ k := mkField (JString (k +:+ show_int (lamport c))) c ]};
  rec_deleted_at := None; rec_clock := c; rec_device_id := device c;
  rec_modified_at := lamport c; rec_share_id := uuid_nil |}.
Definition tomb (c : Clock) : Rec := {|
  rec_id := dev 7; rec_kind := Kind.Tombstone; rec_fields := ∅;
  rec_deleted_at := Some c; rec_clock := c; rec_device_id := device c;
  rec_modified_at := lamport c; rec_share_id := uuid_nil |}.
Definition a : Rec := snap "name"%string (clk 2 0).
Definition b : Rec := snap "command"%string (clk 3 1).
Definition t : Rec := tomb (clk 3 0).
End Sample.

Lemma snap_consistent k c : consistent Sample.history (Sample.snap k c).
Proof.
  split; [|done]. intros k' f. simpl. destruct (decide (k = k')) as [<-|Hk].
  - rewrite lookup_singleton_eq. by intros [= <-].
  - by rewrite lookup_singleton_ne.
Qed.

Lemma merge_all_convergent_witness :
  merge_all [Sample.a; Sample.b; Sample.t] = merge_all [Sample.t; Sample.b; Sample.a; Sample.b].
Proof.
  apply (merge_all_convergent Sample.history).
  - repeat apply Forall_cons_2; [apply snap_consistent..|split; [done|done]|apply Forall_nil_2].
  - intros r. rewrite !elem_of_cons. naive_solver.
Defined.

Example live_edit_survives_older_tombstone :
  option_map is_deleted (merge_all [Sample.a; Sample.b; Sample.t] !! Sample.dev 7) = Some false.
Proof. vm_compute. reflexivity. Qed.

Example later_tombstone_deletes :
  option_map live (merge_all [Sample.tomb (Sample.clk 4 0); Sample.a; Sample.b] !! Sample.dev 7)
  = Some false.
Proof. vm_compute. reflexivity. Qed.
