(* ===== verification/Extern.v ===== *)
(** * Extern: the third-party code the program calls

    The crates behind the vault (chacha20poly1305, hkdf, x25519-dalek,
    ed25519-dalek, argon2, bip39, sha2, base64, rmp-serde, serde_json) and the
    channels of tokio are not part of the repository.  Each is a class of operations, which the
    components take as parameters, with its documented behaviour as a separate
    class of laws.  The [Toy] module gives concrete functions that satisfy the
    laws, so that the theorems resting on them can be run. *)

From Stdlib Require Import ZArith Lia Ascii String.
From S2P Require Import Prelude Text.

#[local] Open Scope list_scope.
#[local] Open Scope Z_scope.

Definition Secret32 : Type := arr 32.
Definition Nonce : Type := arr 24.
Definition PubKey : Type := arr 32.
Definition Sig : Type := arr 64.
#[export] Instance Secret32_eq_dec : EqDecision Secret32 := _.
#[export] Instance PubKey_eq_dec : EqDecision PubKey := _.
#[export] Instance PubKey_countable : Countable PubKey := _.

(** XChaCha20-Poly1305: ciphertext and tag. *)
Class Aead := {
  aead_encrypt : Secret32 → Nonce → bytes (* aad *) → bytes → bytes;
  aead_decrypt : Secret32 → Nonce → bytes (* aad *) → bytes → option bytes
}.
Class AeadLaws `{Aead} : Prop := {
  aead_round k n aad m : aead_decrypt k n aad (aead_encrypt k n aad m) = Some m;
  aead_tag k n aad m : (16 ≤ length (aead_encrypt k n aad m))%nat;
  aead_sound k n aad ct m : aead_decrypt k n aad ct = Some m → ct = aead_encrypt k n aad m
}.

(** A ciphertext authenticates under the key it was made with and no other:
    what lets a reader find the key of a log entry by trying them all. *)
Class AeadCommit `{Aead} : Prop :=
  aead_commit : ∀ k k' n aad m m', aead_decrypt k' n aad (aead_encrypt k n aad m) = Some m' → k' = k.

(** HKDF-SHA256 without salt, expanded to 32 bytes (never too long). *)
Class Hkdf := hkdf32 : bytes (* ikm *) → bytes (* info *) → Secret32.

Class X25519 := {
  x_public : Secret32 → PubKey;
  x_dh : Secret32 → PubKey → Secret32
}.
Class X25519Laws `{X25519} : Prop :=
  x_dh_comm a b : x_dh a (x_public b) = x_dh b (x_public a).

Class Ed25519 := {
  ed_public : Secret32 → PubKey;
  ed_sign : Secret32 → bytes → Sig;
  ed_valid_key : PubKey → bool;
  ed_verify : PubKey → bytes → Sig → bool
}.
Class Ed25519Laws `{Ed25519} : Prop := {
  ed_public_valid sk : ed_valid_key (ed_public sk) = true;
  ed_sign_verify sk m : ed_verify (ed_public sk) m (ed_sign sk m) = true
}.

(** Argon2id into 32 bytes; [None] on parameters or a salt it refuses. *)
Class Argon2 := argon2id : bytes (* password *) → bytes (* salt *) → Z → Z → Z → option Secret32.

(** BIP39: the phrase of 32 bytes of entropy, and the seed of a phrase. *)
Class Bip39 := {
  mnemonic_from_entropy : arr 32 → string;
  mnemonic_seed : string → option (arr 64)
}.
Class Bip39Laws `{Bip39} : Prop :=
  mnemonic_valid e : is_Some (mnemonic_seed (trim (mnemonic_from_entropy e))).

Class Sha256 := sha256 : bytes → arr 32.

(** The base64 STANDARD engine is canonical: one text per byte string. *)
Class Base64 := {
  b64_encode : bytes → string;
  b64_decode : string → option bytes
}.
Class Base64Laws `{Base64} : Prop := {
  b64_round b : b64_decode (b64_encode b) = Some b;
  b64_canonical s b : b64_decode s = Some b → b64_encode b = s;
  b64_empty : b64_encode [] = ""%string
}.

(** MessagePack of one type (rmp-serde). *)
Class MsgPack (A : Type) := {
  mp_encode : A → bytes;
  mp_decode : bytes → option A
}.
#[global] Hint Mode MsgPack ! : typeclass_instances.
Class MsgPackLaws (A : Type) `{MsgPack A} : Prop :=
  mp_round (a : A) : mp_decode (mp_encode a) = Some a.

(** JSON text of one type (serde_json). *)
Class JsonText (A : Type) := {
  json_to_string : A → string;
  json_from_str : string → option A
}.
#[global] Hint Mode JsonText ! : typeclass_instances.
Class JsonTextLaws (A : Type) `{JsonText A} : Prop :=
  json_round (a : A) : json_from_str (json_to_string a) = Some a.

(** Iteration over a [HashMap]: every entry once, in an order of the map's own. *)
Class HashOrder := hash_values : ∀ {A : Type}, gmap (arr 16) A → list A.
Class HashOrderLaws `{HashOrder} : Prop :=
  hash_values_perm : ∀ {A : Type} (m : gmap (arr 16) A), hash_values m ≡ₚ (map_to_list m).*2.

(** A receiver of a broadcast channel (tokio) of some capacity: what it gets
    when the channel has carried some values, the first few of them received.
    Values come in order; one that has been pushed out by newer ones is an
    error. *)
Inductive Recv := Received (value : Z) | Lagged | Waiting.
Class Broadcast := recv : nat (* capacity *) → list Z → nat (* received *) → Recv.
Class BroadcastLaws `{Broadcast} : Prop := {
  recv_received cap sent i x : recv cap sent i = Received x → sent !! i = Some x;
  recv_waiting cap sent i : recv cap sent i = Waiting → (length sent ≤ i)%nat;
  recv_retained cap sent i x :
    sent !! i = Some x → (length sent - i ≤ cap)%nat → recv cap sent i = Received x
}.

(* ------------------------------------------------------------------ *)
(** ** Concrete functions satisfying the laws *)

Module Toy.
Definition strip_suffix (suf l : bytes) : option bytes :=
  let n := (length l - length suf)%nat in
  if bool_decide (drop n l = suf) then Some (take n l) else None.

Definition tag (k : Secret32) (n : Nonce) (aad : bytes) : bytes :=
  arr_bytes k ++ arr_bytes n ++ aad.

#[export] Instance aead : Aead := {|
  aead_encrypt k n aad m := m ++ tag k n aad;
  aead_decrypt k n aad ct := strip_suffix (tag k n aad) ct
|}.

Definition fit (n : nat) (l : bytes) : arr n :=
  match try_into n (resize n Byte.x00 l) with Some a => a | None => arr_fill n Byte.x00 end.

#[export] Instance hkdf : Hkdf := λ ikm info, fit 32 (reverse info ++ ikm).

#[export] Instance x25519 : X25519 := {|
  x_public k := k;
  x_dh a b := fit 32 (zip_with (λ x y, byte_of (byte_val x + byte_val y)) (arr_bytes a) (arr_bytes b))
|}.

#[export] Instance ed25519 : Ed25519 := {|
  ed_public k := k;
  ed_sign k m := fit 64 (arr_bytes k ++ m);
  ed_valid_key _ := true;
  ed_verify k m s := bool_decide (s = fit 64 (arr_bytes k ++ m))
|}.

#[export] Instance argon2 : Argon2 := λ pw salt m t p, Some (fit 32 (pw ++ salt)).

#[export] Instance bip39 : Bip39 := {|
  mnemonic_from_entropy _ := "abandon"%string;
  mnemonic_seed s := Some (fit 64 (String.list_byte_of_string s))
|}.

#[export] Instance sha : Sha256 := fit 32.

#[export] Instance base64 : Base64 := {|
  b64_encode := String.string_of_list_byte;
  b64_decode s := Some (String.list_byte_of_string s)
|}.

(** A [Countable] type as bytes: the binary digits of its code, eight to a byte,
    with a stop bit after the last. *)
Fixpoint pos_bits (p : positive) : list bool :=
  match p with xH => [] | xO p => false :: pos_bits p | xI p => true :: pos_bits p end.
Fixpoint bits_pos (l : list bool) : positive :=
  match l with [] => xH | false :: l => xO (bits_pos l) | true :: l => xI (bits_pos l) end.

Definition last_byte (l : list bool) : byte :=
  match resize 8 false (l ++ [true]) with
  | [a; b; c; d; e; f; g; h] => Byte.of_bits (a, (b, (c, (d, (e, (f, (g, h)))))))
  | _ => Byte.x00
  end.
Fixpoint pack (l : list bool) : bytes :=
  match l with
  | a :: b :: c :: d :: e :: f :: g :: h :: l => Byte.of_bits (a, (b, (c, (d, (e, (f, (g, h))))))) :: pack l
  | l => [last_byte l]
  end.

Definition byte_bits (x : byte) : list bool :=
  let '(a, (b, (c, (d, (e, (f, (g, h))))))) := Byte.to_bits x in [a; b; c; d; e; f; g; h].
(** What precedes the last [true]. *)
Fixpoint before_stop (l : list bool) : list bool :=
  match l with
  | [] => []
  | b :: l => if existsb id l then b :: before_stop l else []
  end.
Fixpoint unpack (l : bytes) : list bool :=
  match l with [] => [] | [x] => before_stop (byte_bits x) | x :: l => byte_bits x ++ unpack l end.

Definition pos_bytes (p : positive) : bytes := pack (pos_bits p).
Definition bytes_pos (l : bytes) : positive := bits_pos (unpack l).

#[export] Instance msgpack {A} `{Countable A} : MsgPack A := {|
  mp_encode a := pos_bytes (encode a);
  mp_decode l := decode (bytes_pos l)
|}.
#[export] Instance json_text {A} `{Countable A} : JsonText A := {|
  json_to_string a := String.string_of_list_byte (pos_bytes (encode a));
  json_from_str s := decode (bytes_pos (String.list_byte_of_string s))
|}.

#[export] Instance hash_order : HashOrder := λ A m, (map_to_list m).*2.

#[export] Instance broadcast : Broadcast := λ cap sent i,
  match sent !! i with
  | Some x => if decide (length sent - i ≤ cap)%nat then Received x else Lagged
  | None => Waiting
  end.

#[export] Instance aead_laws : AeadLaws.
Proof.
  split; simpl.
  - intros k n aad m. unfold strip_suffix. rewrite length_app, Nat.add_sub.
    by rewrite drop_app_length, bool_decide_eq_true_2, take_app_length.
  - intros k n aad m. unfold tag. rewrite !length_app, arr_length. lia.
  - intros k n aad ct m. unfold strip_suffix. case_bool_decide as Hd; [|done].
    intros [= <-]. rewrite <-Hd at 2. by rewrite take_drop.
Qed.

#[export] Instance aead_commit_toy : AeadCommit.
Proof.
  intros k k' n aad m m'. simpl. unfold strip_suffix. case_bool_decide as Hd; [|done]. intros _.
  rewrite drop_app_length' in Hd.
  - unfold tag in Hd. apply app_inj_1 in Hd as [Hd _]; [|by rewrite !arr_length].
    symmetry. by apply arr_eq.
  - unfold tag. rewrite !length_app, !arr_length. lia.
Qed.

#[export] Instance x25519_laws : X25519Laws.
Proof.
  intros a b; simpl. f_equal. unfold Secret32, PubKey in *.
  generalize (arr_bytes a) (arr_bytes b). intros l.
  induction l as [|x l IH]; intros [|y k]; simpl; try done.
  by rewrite Z.add_comm, IH.
Qed.

#[export] Instance ed25519_laws : Ed25519Laws.
Proof. split; simpl; [done|]. intros. by apply bool_decide_eq_true_2. Qed.

#[export] Instance bip39_laws : Bip39Laws.
Proof. intros e. simpl. eauto. Qed.

#[export] Instance base64_laws : Base64Laws.
Proof.
  split; simpl.
  - intros b. by rewrite String.list_byte_of_string_of_list_byte.
  - intros s b [= <-]. apply String.string_of_list_byte_of_string.
  - done.
Qed.

Lemma bits_pos_bits p : bits_pos (pos_bits p) = p.
Proof. induction p; simpl; congruence. Qed.

Lemma byte_bits_of a b c d e f g h :
  byte_bits (Byte.of_bits (a, (b, (c, (d, (e, (f, (g, h)))))))) = [a; b; c; d; e; f; g; h].
Proof. unfold byte_bits. by rewrite Byte.to_bits_of_bits. Qed.

Lemma pack_cons l : ∃ x k, pack l = x :: k.
Proof. do 8 (destruct l as [|? l]; [by eexists _, _|]). by eexists _, _. Qed.

Lemma unpack_pack n : ∀ l, (length l ≤ n)%nat → unpack (pack l) = l.
Proof.
  induction n as [|n IH]; intros l Hl; [destruct l; [done | simpl in Hl; lia]|].
  destruct l as [|a l]; [done|].
  destruct l as [|b l]; [by destruct a|].
  destruct l as [|c l]; [by destruct a, b|].
  destruct l as [|d l]; [by destruct a, b, c|].
  destruct l as [|e l]; [by destruct a, b, c, d|].
  destruct l as [|f l]; [by destruct a, b, c, d, e|].
  destruct l as [|g l]; [by destruct a, b, c, d, e, f|].
  destruct l as [|h l]; [by destruct a, b, c, d, e, f, g|].
  change (pack _) with (Byte.of_bits (a, (b, (c, (d, (e, (f, (g, h))))))) :: pack l).
  destruct (pack_cons l) as (x & k & E). pose proof (IH l) as Hl'. rewrite E in *. cbn [unpack] in *.
  rewrite byte_bits_of. rewrite Hl'; [done | simpl in Hl; lia].
Qed.

Lemma bytes_pos_bytes p : bytes_pos (pos_bytes p) = p.
Proof. unfold bytes_pos, pos_bytes. rewrite (unpack_pack (length (pos_bits p))) by done. apply bits_pos_bits. Qed.

#[export] Instance msgpack_laws {A} `{Countable A} : MsgPackLaws A.
Proof. intros a; simpl. by rewrite bytes_pos_bytes, decode_encode. Qed.

#[export] Instance json_text_laws {A} `{Countable A} : JsonTextLaws A.
Proof.
  intros a; simpl.
  by rewrite String.list_byte_of_string_of_list_byte, bytes_pos_bytes, decode_encode.
Qed.

#[export] Instance hash_order_laws : HashOrderLaws.
Proof. intros A m. unfold hash_values, hash_order. reflexivity. Qed.

#[export] Instance broadcast_laws : BroadcastLaws.
Proof.
  split; unfold recv, broadcast; intros cap sent i.
  - intros x. destruct (sent !! i); [|done]. case_decide; [by intros [= ->] | done].
  - destruct (sent !! i) eqn:E; [by case_decide | by intros _; apply lookup_ge_None_1].
  - intros x -> Hi. by rewrite decide_True.
Qed.
End Toy.
