(* ===== verification/Crypto.v ===== *)
(** * Crypto: key derivation, sealing and wrapping ([src/src/crypto.rs])

    Every function that draws from [OsRng] takes the bytes drawn as arguments.
    An HKDF expansion to 32 bytes cannot fail, so the [CryptoError::Kdf] of an
    expansion is unreachable and does not appear. *)

From Stdlib Require Import ZArith Lia String.
From S2P Require Import Prelude Text Extern.

#[local] Open Scope string_scope.
#[local] Open Scope list_scope.
#[local] Open Scope Z_scope.

Definition NONCE_LEN : nat := 24.
Definition ARGON2_M_KIB : Z := 64 * 1024.
Definition ARGON2_T : Z := 3.
Definition ARGON2_P : Z := 1.

Module CryptoError.
Inductive t := Decrypt | BadPhrase | Kdf | Malformed.
End CryptoError.
Abbreviation CryptoError := CryptoError.t.
#[export] Instance CryptoError_eq_dec : EqDecision CryptoError.
Proof. solve_decision. Defined.

(** Keys deterministically derived from the recovery phrase. *)
Record PhraseKeys := mkPhraseKeys { vault_key : Secret32; recovery_signing : Secret32 }.

(** Per-device secrets. *)
Record DeviceKeys := mkDeviceKeys { x25519 : Secret32; ed25519 : Secret32 }.

(** The HKDF info string of an epoch; epoch 0 keeps the original one. *)
Definition vault_key_info (epoch : Z) : string :=
  if epoch =? 0 then "sshvault/v1/vault-key"
  else "sshvault/v1/vault-key/" +:+ show_int epoch.

Section crypto.
Context `{Aead} `{Hkdf} `{X25519} `{Argon2} `{Bip39}.
#[local] Open Scope res_scope.

Definition seed_from_phrase (phrase : string) : res CryptoError (arr 64) :=
  ok_or CryptoError.BadPhrase (mnemonic_seed (trim phrase)).

Definition keys_from_phrase (phrase : string) : res CryptoError PhraseKeys :=
  try seed := seed_from_phrase phrase in
  Ok {| vault_key := hkdf32 (arr_bytes seed) (as_bytes (vault_key_info 0));
        recovery_signing := hkdf32 (arr_bytes seed) (as_bytes "sshvault/v1/recovery-auth") |}.

Definition vault_key_at_epoch (phrase : string) (epoch : Z) : res CryptoError Secret32 :=
  try seed := seed_from_phrase phrase in
  Ok (hkdf32 (arr_bytes seed) (as_bytes (vault_key_info epoch))).

(** [None] stands for the panic of [expect]. *)
Definition new_phrase (entropy : arr 32) : option (string * PhraseKeys) :=
  let phrase := mnemonic_from_entropy entropy in
  match keys_from_phrase phrase with
  | Ok keys => Some (phrase, keys)
  | Err _ => None
  end.

Definition derive_kek (passphrase salt : bytes) (m_kib t p : Z) : res CryptoError Secret32 :=
  ok_or CryptoError.Kdf (argon2id passphrase salt m_kib t p).

(** [nonce(24) || ciphertext+tag]. *)
Definition seal (nonce : Nonce) (key : Secret32) (plaintext aad : bytes) : bytes :=
  arr_bytes nonce ++ aead_encrypt key nonce aad plaintext.

Definition open (key : Secret32) (blob aad : bytes) : res CryptoError bytes :=
  if (length blob <? NONCE_LEN + 16)%nat then Err CryptoError.Malformed
  else
    let '(nonce, ct) := (take NONCE_LEN blob, drop NONCE_LEN blob) in
    match try_into NONCE_LEN nonce with
    | Some n => ok_or CryptoError.Decrypt (aead_decrypt key n aad ct)
    | None => Err CryptoError.Malformed
    end.

(** Both public keys bind the wrap key to one (ephemeral, recipient) pair. *)
Definition wrap_key_from_shared (shared : Secret32) (eph_pub recipient_pub : PubKey) : Secret32 :=
  hkdf32 (arr_bytes shared)
    (as_bytes "sshvault/v1/vk-wrap" ++ arr_bytes eph_pub ++ arr_bytes recipient_pub).

(** [eph_pub(32) || nonce(24) || ciphertext+tag]. *)
Definition wrap_vault_key (eph : Secret32) (nonce : Nonce) (payload : bytes)
    (recipient_pub : PubKey) (recipient_device_id : bytes) : bytes :=
  let eph_pub := x_public eph in
  let shared := x_dh eph recipient_pub in
  let wrap_key := wrap_key_from_shared shared eph_pub recipient_pub in
  arr_bytes eph_pub ++ seal nonce wrap_key payload recipient_device_id.

Definition unwrap_vault_key (device_secret : Secret32) (blob device_id : bytes)
    : res CryptoError bytes :=
  if (length blob <? 32 + NONCE_LEN + 16)%nat then Err CryptoError.Malformed
  else
    match try_into 32 (take 32 blob) with
    | None => Err CryptoError.Malformed
    | Some eph_pub =>
        let my_pub := x_public device_secret in
        let shared := x_dh device_secret eph_pub in
        let wrap_key := wrap_key_from_shared shared eph_pub my_pub in
        open wrap_key (drop 32 blob) device_id
    end.

(** The secrets drawn for [new_device_keys]. *)
Definition new_device_keys (x e : Secret32) : DeviceKeys := mkDeviceKeys x e.

(* ---------------------------------------------------------------- *)
(** ** Sealing *)

Section sealing.
Context `{!AeadLaws}.

Lemma length_seal n k m aad : (NONCE_LEN + 16 ≤ length (seal n k m aad))%nat.
Proof.
  unfold seal, NONCE_LEN. rewrite length_app, arr_length.
  pose proof (aead_tag k n aad m). lia.
Qed.

(** [open] accepts exactly the sealed blobs of its key and context. *)
Lemma open_iff k blob aad m :
  open k blob aad = Ok m ↔ ∃ n, blob = seal n k m aad.
Proof.
  unfold open. split.
  - destruct (Nat.ltb_spec (length blob) (NONCE_LEN + 16)) as [|Hl]; [done|].
    destruct (try_into NONCE_LEN (take NONCE_LEN blob)) as [n|] eqn:En; [|done].
    destruct (aead_decrypt _ _ _ _) as [m'|] eqn:Ed; simpl; [|done].
    intros [= ->]. exists n. unfold seal. apply try_into_Some in En.
    change NONCE_LEN with 24%nat in *. apply aead_sound in Ed.
    by rewrite <-En, <-Ed, take_drop.
  - intros (n & ->). pose proof (length_seal n k m aad).
    destruct (Nat.ltb_spec (length (seal n k m aad)) (NONCE_LEN + 16)) as [|_]; [lia|].
    unfold seal. change NONCE_LEN with 24%nat in *.
    rewrite take_app_length', drop_app_length' by (symmetry; apply arr_length).
    by rewrite try_into_bytes, aead_round.
Qed.

Lemma open_seal n k m aad : open k (seal n k m aad) aad = Ok m.
Proof. apply open_iff. eauto. Qed.

Lemma length_wrap e n payload pub id :
  (32 + NONCE_LEN + 16 ≤ length (wrap_vault_key e n payload pub id))%nat.
Proof.
  unfold wrap_vault_key. rewrite length_app, arr_length.
  pose proof (length_seal n (wrap_key_from_shared (x_dh e pub) (x_public e) pub) payload id). lia.
Qed.

Lemma unwrap_iff sk blob id m :
  unwrap_vault_key sk blob id = Ok m ↔
  ∃ (eph_pub : PubKey) n, blob = arr_bytes eph_pub ++
    seal n (wrap_key_from_shared (x_dh sk eph_pub) eph_pub (x_public sk)) m id.
Proof.
  unfold unwrap_vault_key. split.
  - destruct (Nat.ltb_spec (length blob) (32 + NONCE_LEN + 16)) as [|Hl]; [done|].
    destruct (try_into 32 (take 32 blob)) as [e|] eqn:Ee; [|done].
    intros (n & Hn)%open_iff. exists e, n. apply try_into_Some in Ee.
    by rewrite <-Ee, <-Hn, take_drop.
  - intros (e & n & ->).
    set (k := wrap_key_from_shared _ _ _). pose proof (length_seal n k m id).
    destruct (Nat.ltb_spec (length (arr_bytes e ++ seal n k m id)) (32 + NONCE_LEN + 16))
      as [Hl|_]; [rewrite length_app, arr_length in Hl; lia|].
    rewrite take_app_length', drop_app_length' by (symmetry; apply arr_length).
    rewrite try_into_bytes. apply open_seal.
Qed.

Lemma unwrap_wrap `{!X25519Laws} e n payload sk id :
  unwrap_vault_key sk (wrap_vault_key e n payload (x_public sk) id) id = Ok payload.
Proof.
  apply unwrap_iff. exists (x_public e), n. unfold wrap_vault_key.
  by rewrite (x_dh_comm e sk).
Qed.
End sealing.
End crypto.

Lemma vault_key_info_inj_epochs a b :
  0 ≤ a → 0 ≤ b → vault_key_info a = vault_key_info b → a = b.
Proof.
  intros Ha Hb. unfold vault_key_info.
  destruct (Z.eqb_spec a 0) as [->|Ha0], (Z.eqb_spec b 0) as [->|Hb0]; intros E; [done|..].
  - apply (str_app_inj "sshvault/v1/vault-key") in E. done.
  - apply (str_app_inj "sshvault/v1/vault-key" _ "") in E. done.
  - apply str_app_inj in E. by apply show_int_inj in E.
Qed.

(* ------------------------------------------------------------------ *)
(** ** Properties *)

(** [open] accepts a blob exactly when it is a [seal] of the returned
    plaintext under the same key and the same associated data: sealing round
    trips, and nothing else is ever returned as plaintext. *)
Theorem open_accepts_exactly_seals `{AeadLaws} (k : Secret32) (blob aad m : bytes) :
  open k blob aad = Ok m ↔ ∃ n, blob = seal n k m aad.
Proof. apply open_iff. Qed.

(** The info of a wrap key tells both public keys. *)
Lemma wrap_info_inj (label : bytes) (e p e' p' : PubKey) :
  label ++ arr_bytes e ++ arr_bytes p = label ++ arr_bytes e' ++ arr_bytes p' → e = e' ∧ p = p'.
Proof.
  intros E%app_inv_head. apply app_inj_1 in E as [E1 E2]; [|by rewrite !arr_length].
  split; by apply arr_eq.
Qed.

(** C29: a key list wrapped for a device is recovered by that device.  Whatever
    a device unwraps was sealed in the context of its id under the HKDF of its
    own shared secret with the label, the ephemeral key in the blob and its own
    public key.  A wrapped list put under another ephemeral key, or given to
    another device, opens there only if HKDF gives one key for two different
    infos, since the infos of different pairs of public keys differ. *)
Theorem wrap_round_trip_and_binding `{AeadLaws} `{!AeadCommit} `{Hkdf} `{X25519Laws} (sk : Secret32) (id : bytes) :
  let info (e p : PubKey) := as_bytes "sshvault/v1/vk-wrap" ++ arr_bytes e ++ arr_bytes p in
  let key shared e p := hkdf32 (arr_bytes shared) (info e p) in
  (∀ eph n payload, unwrap_vault_key sk (wrap_vault_key eph n payload (x_public sk) id) id = Ok payload) ∧
  (∀ blob m, unwrap_vault_key sk blob id = Ok m →
     ∃ (eph_pub : PubKey) n, blob = arr_bytes eph_pub ++
       seal n (key (x_dh sk eph_pub) eph_pub (x_public sk)) m id) ∧
  (∀ eph n payload pub (eph_pub : PubKey) m,
     unwrap_vault_key sk (arr_bytes eph_pub ++ drop 32 (wrap_vault_key eph n payload pub id)) id = Ok m →
     m = payload ∧
     (eph_pub = x_public eph ∧ x_public sk = pub ∨
      info eph_pub (x_public sk) ≠ info (x_public eph) pub ∧
      key (x_dh sk eph_pub) eph_pub (x_public sk) = key (x_dh eph pub) (x_public eph) pub)).
Proof.
  intros info key. split_and!; [intros; apply unwrap_wrap | intros blob m; apply unwrap_iff|].
  intros eph n payload pub eph_pub m (e & n' & E)%unwrap_iff.
  unfold wrap_vault_key in E. rewrite drop_app_length' in E by (symmetry; apply arr_length).
  apply app_inj_1 in E as [Ee E]; [|by rewrite !arr_length]. apply arr_eq in Ee as <-.
  unfold seal in E. apply app_inj_1 in E as [En E]; [|by rewrite !arr_length]. apply arr_eq in En as <-.
  pose proof (aead_round (wrap_key_from_shared (x_dh sk eph_pub) eph_pub (x_public sk)) n id m) as Hr.
  rewrite <- E in Hr. pose proof (aead_commit _ _ _ _ _ _ Hr) as Hk. rewrite Hk, aead_round in Hr.
  injection Hr as ->. split; [done|].
  destruct (decide (info eph_pub (x_public sk) = info (x_public eph) pub)) as [Hi|Hi].
  - left. by eapply wrap_info_inj.
  - right. by split.
Qed.

(** The epochs of a vault have pairwise different HKDF info strings, the
    epoch-0 key is the key of the phrase itself, and a phrase just generated
    always derives its keys. *)
Theorem epoch_keys_of_phrase `{Hkdf} `{Bip39Laws} :
  (∀ a b, 0 ≤ a ≤ u32_max → 0 ≤ b ≤ u32_max → vault_key_info a = vault_key_info b → a = b) ∧
  (∀ phrase, vault_key_at_epoch phrase 0 = res_bind (keys_from_phrase phrase) (λ k, Ok (vault_key k))) ∧
  (∀ e, ∃ keys, new_phrase e = Some (mnemonic_from_entropy e, keys) ∧
     keys_from_phrase (mnemonic_from_entropy e) = Ok keys).
Proof.
  split_and!.
  - intros a b Ha Hb. apply vault_key_info_inj_epochs; lia.
  - intros phrase. unfold vault_key_at_epoch, keys_from_phrase. by destruct (seed_from_phrase phrase).
  - intros e. destruct (mnemonic_valid e) as [s Hs].
    unfold new_phrase, keys_from_phrase, seed_from_phrase. rewrite Hs; simpl. eauto.
Qed.

(** The properties at the concrete functions of [Toy]. *)
Import Toy.

Lemma open_accepts_exactly_seals_witness :
  open (arr_fill 32 Byte.x07) (seal (arr_fill 24 Byte.x01) (arr_fill 32 Byte.x07)
    [Byte.x61; Byte.x62] [Byte.x00]) [Byte.x00] = Ok [Byte.x61; Byte.x62].
Proof.
  apply (open_accepts_exactly_seals (arr_fill 32 Byte.x07)). by exists (arr_fill 24 Byte.x01).
Defined.

Lemma wrap_round_trip_and_binding_witness :
  unwrap_vault_key (arr_fill 32 Byte.x07)
    (wrap_vault_key (arr_fill 32 Byte.x09) (arr_fill 24 Byte.x01) [Byte.x61]
       (x_public (arr_fill 32 Byte.x07)) [Byte.x00]) [Byte.x00] = Ok [Byte.x61].
Proof. apply (wrap_round_trip_and_binding (arr_fill 32 Byte.x07) [Byte.x00]). Defined.

Lemma epoch_keys_of_phrase_witness :
  ∃ keys, new_phrase (arr_fill 32 Byte.x07) = Some ("abandon"%string, keys) ∧
    vault_key_at_epoch "abandon" 0 = Ok (vault_key keys).
Proof.
  destruct epoch_keys_of_phrase as (_ & Hzero & Hnew).
  destruct (Hnew (arr_fill 32 Byte.x07)) as (keys & Hn & Hk).
  exists keys. split; [exact Hn|]. rewrite Hzero. change "abandon"%string with (mnemonic_from_entropy (arr_fill 32 Byte.x07)).
  rewrite Hk. reflexivity.
Defined.

Example open_rejects_short : open (arr_fill 32 Byte.x07) [Byte.x00] [] = Err CryptoError.Malformed.
Proof. reflexivity. Qed.
