(* ===== verification/Log.v ===== *)
(** * Log: the framing of [log.bin] and of epoch key lists ([src/src/vault.rs])

    A frame is [u32 len || entry_id(16) || blob].  [parse_frames] is the
    reader's loop over a byte offset; its fuel is the length of the data, of
    which every iteration consumes at least twenty bytes.  The theorems say
    that the reader and the writer are inverse, and what a torn append does. *)

From Stdlib Require Import ZArith Lia String.
From S2P Require Import Prelude Text Record Crypto.

#[local] Open Scope string_scope.
#[local] Open Scope list_scope.
#[local] Open Scope Z_scope.

(** [VaultError]; a path or the text of an inner error is dropped. *)
Module VaultError.
Inductive t :=
  | AlreadyExists
  | NotFound
  | Crypto (e : CryptoError)
  | Io
  | Corrupt (what : string)
  | Duplicate (kind name : string)
  | NoSuchRecord (kind name : string)
  | PrivateKeyMaterial (what : string)
  | InvalidField (field reason : string).
End VaultError.
Abbreviation VaultError := VaultError.t.
#[export] Instance VaultError_eq_dec : EqDecision VaultError.
Proof. solve_decision. Defined.

(** A raw log frame: entry id and sealed blob. *)
Abbreviation RawEntry := (arr 16 * bytes)%type.

(** [&data[off..off + n]]. *)
Definition slice (data : bytes) (off n : nat) : bytes := take n (drop off data).

(** The frame [write_frame_inner] appends; [as u32] truncates. *)
Definition frame (entry_id : arr 16) (blob : bytes) : bytes :=
  u32_to_le (u32_wrap (16 + Z.of_nat (length blob))) ++ arr_bytes entry_id ++ blob.

Fixpoint parse_loop (fuel : nat) (data : bytes) (off : nat) (out : list RawEntry)
    : res VaultError (list RawEntry) :=
  if (off + 4 <=? length data)%nat then
    match fuel with
    | O => Err (VaultError.Corrupt "out of fuel")
    | S fuel =>
        let len := Z.to_nat (u32_from_le (slice data off 4)) in
        let off := (off + 4)%nat in
        if (len <? 16)%nat || (length data <? off + len)%nat
        then Err (VaultError.Corrupt "truncated log frame")
        else
          match try_into 16 (slice data off 16) with
          | Some id =>
              let blob := slice data (off + 16) (len - 16) in
              parse_loop fuel data (off + len) (out ++ [(id, blob)])
          | None => Err (VaultError.Corrupt "unreachable: slice of 16 bytes")
          end
    end
  else if (off =? length data)%nat then Ok out
  else Err (VaultError.Corrupt "trailing bytes in log").

Definition parse_frames (data : bytes) : res VaultError (list RawEntry) :=
  parse_loop (length data) data 0 [].

(** [list.chunks_exact(32)] as arrays. *)
Fixpoint chunks32 (fuel : nat) (l : bytes) : list (arr 32) :=
  match fuel with
  | O => []
  | S fuel =>
      match try_into 32 (take 32 l) with
      | Some k => k :: chunks32 fuel (drop 32 l)
      | None => []
      end
  end.

Definition split_key_list (l : bytes) : res VaultError (list (arr 32)) :=
  if (match l with [] => true | _ => false end) || negb (length l mod 32 =? 0)%nat
  then Err (VaultError.Corrupt "malformed vault key list")
  else Ok (chunks32 (length l) l).

(** The concatenation a share's keys are wrapped as. *)
Definition join_key_list (keys : list (arr 32)) : bytes := concat (arr_bytes <$> keys).

(* ------------------------------------------------------------------ *)
(** ** Frames *)

Definition frames_bytes (fs : list RawEntry) : bytes := concat ((λ f, frame f.1 f.2) <$> fs).

(** A frame whose length fits the [u32] header. *)
Definition frame_fits (f : RawEntry) : Prop := 16 + Z.of_nat (length f.2) ≤ u32_max.

Lemma frames_bytes_app fs gs : frames_bytes (fs ++ gs) = frames_bytes fs ++ frames_bytes gs.
Proof. unfold frames_bytes. by rewrite fmap_app, concat_app. Qed.

Lemma frames_bytes_snoc fs id blob :
  frames_bytes (fs ++ [(id, blob)]) = frames_bytes fs ++ frame id blob.
Proof. rewrite frames_bytes_app. unfold frames_bytes at 2. simpl. by rewrite app_nil_r. Qed.

Lemma length_frame id blob : length (frame id blob) = (20 + length blob)%nat.
Proof. unfold frame. rewrite !length_app, length_u32_to_le, arr_length. lia. Qed.

Lemma frame_header id blob : frame_fits (id, blob) →
  Z.to_nat (u32_from_le (take 4 (frame id blob))) = (16 + length blob)%nat.
Proof.
  unfold frame_fits, frame. simpl snd. intros Hf.
  rewrite take_app_length' by done.
  rewrite u32_le_round; unfold u32_wrap; rewrite Z.mod_small; unfold u32_max in *; lia.
Qed.

Lemma slice_drop data off n : slice data off n = take n (drop off data).
Proof. done. Qed.

Lemma take_prefix {A} n (l k : list A) : (n ≤ length l)%nat → take n (l ++ k) = take n l.
Proof. intros Hn. by apply take_app_le. Qed.

(** The reader on data whose rest from [off] starts with a well-formed frame. *)
Lemma parse_loop_frame fuel data off out id blob rest :
  frame_fits (id, blob) → drop off data = frame id blob ++ rest → (off ≤ length data)%nat →
  parse_loop (S fuel) data off out =
  parse_loop fuel data (off + length (frame id blob)) (out ++ [(id, blob)]).
Proof.
  intros Hfit Hd Hoff.
  assert (Hlen : (length data = off + (20 + length blob + length rest))%nat).
  { pose proof (f_equal length Hd) as Hl. rewrite length_drop, length_app, length_frame in Hl. lia. }
  cbn [parse_loop]. destruct (Nat.leb_spec (off + 4) (length data)) as [_|]; [|lia].
  rewrite slice_drop, Hd, (take_prefix 4) by (rewrite length_frame; lia).
  rewrite (frame_header _ _ Hfit).
  destruct (Nat.ltb_spec (16 + length blob) 16) as [|_]; [lia|].
  destruct (Nat.ltb_spec (length data) (off + 4 + (16 + length blob))) as [|_]; [lia|]. cbn [orb].
  assert (Hd4 : drop (off + 4) data = arr_bytes id ++ blob ++ rest).
  { rewrite <-drop_drop, Hd. unfold frame. by rewrite <-!app_assoc. }
  unfold slice. rewrite Hd4, (take_app_length' (arr_bytes id)) by (by rewrite arr_length).
  rewrite try_into_bytes.
  assert (Hd20 : drop (off + 4 + 16) data = blob ++ rest).
  { rewrite <-drop_drop, Hd4. by rewrite drop_app_length' by (by rewrite arr_length). }
  rewrite Hd20. replace (16 + length blob - 16)%nat with (length blob) by lia.
  rewrite take_app_length, length_frame. f_equal. lia.
Qed.

Lemma parse_loop_frames fs : ∀ fuel data off out,
  Forall frame_fits fs → (off ≤ length data)%nat → drop off data = frames_bytes fs →
  (length fs ≤ fuel)%nat → parse_loop fuel data off out = Ok (out ++ fs).
Proof.
  induction fs as [|[id blob] fs IH]; intros fuel data off out Hfit Hoff Hd Hfuel.
  - assert (Hlen : off = length data).
    { apply (f_equal length) in Hd. rewrite length_drop in Hd. simpl in Hd. lia. }
    rewrite app_nil_r. destruct fuel; cbn [parse_loop]; subst;
      (destruct (Nat.leb_spec (length data + 4) (length data)) as [|_]; [lia|]);
      by rewrite Nat.eqb_refl.
  - inversion_clear Hfit as [|? ? Hf Hfit']. destruct fuel as [|fuel]; [simpl in Hfuel; lia|].
    change (frames_bytes ((id, blob) :: fs)) with (frame id blob ++ frames_bytes fs) in Hd.
    rewrite (parse_loop_frame _ _ _ _ id blob (frames_bytes fs)) by done.
    pose proof (f_equal length Hd) as Hl. rewrite length_drop, length_app in Hl.
    rewrite IH; [by rewrite <-app_assoc | done | lia | | simpl in Hfuel; lia].
    by rewrite <-drop_drop, Hd, drop_app_length.
Qed.

Lemma length_frames_bytes fs : (length fs ≤ length (frames_bytes fs))%nat.
Proof.
  induction fs as [|[id blob] fs IH]; [done|].
  change (frames_bytes ((id, blob) :: fs)) with (frame id blob ++ frames_bytes fs).
  rewrite length_app, length_frame. simpl. lia.
Qed.

Lemma parse_frames_bytes fs : Forall frame_fits fs → parse_frames (frames_bytes fs) = Ok fs.
Proof.
  intros Hfit. unfold parse_frames. rewrite (parse_loop_frames fs); try done; [lia|].
  apply length_frames_bytes.
Qed.

Lemma u32_from_le_range l : 0 ≤ u32_from_le l ≤ u32_max.
Proof.
  unfold u32_from_le, u32_max. destruct l as [|b0 [|b1 [|b2 [|b3 [|? ?]]]]]; try lia.
  pose proof (byte_val_range b0). pose proof (byte_val_range b1).
  pose proof (byte_val_range b2). pose proof (byte_val_range b3). lia.
Qed.

(** Whatever the reader accepts is a sequence of well-formed frames. *)
Lemma parse_loop_sound fuel data : ∀ off out fs,
  (off ≤ length data)%nat → parse_loop fuel data off out = Ok fs →
  ∃ gs, fs = out ++ gs ∧ drop off data = frames_bytes gs ∧ Forall frame_fits gs.
Proof.
  induction fuel as [|fuel IH]; intros off out fs Hoff; cbn [parse_loop].
  - destruct (Nat.leb_spec (off + 4) (length data)) as [|Hlt]; [done|].
    destruct (Nat.eqb_spec off (length data)) as [->|]; [|done].
    intros [= <-]. exists []. rewrite app_nil_r, drop_all. auto.
  - destruct (Nat.leb_spec (off + 4) (length data)) as [Hle|Hlt].
    2: { destruct (Nat.eqb_spec off (length data)) as [->|]; [|done].
         intros [= <-]. exists []. rewrite app_nil_r, drop_all. auto. }
    set (len := Z.to_nat (u32_from_le (slice data off 4))).
    destruct (Nat.ltb_spec len 16) as [|H16]; [done|].
    destruct (Nat.ltb_spec (length data) (off + 4 + len)) as [|Hin]; [done|]. cbn [orb].
    destruct (try_into 16 _) as [id|] eqn:Eid; [|done].
    intros (gs & -> & Hgs & Hfit)%IH; [|lia].
    exists ((id, slice data (off + 4 + 16) (len - 16)) :: gs). split_and!.
    + by rewrite <-app_assoc.
    + change (frames_bytes ((id, slice data (off + 4 + 16) (len - 16)) :: gs)) with
        (frame id (slice data (off + 4 + 16) (len - 16)) ++ frames_bytes gs).
      rewrite <-Hgs. unfold frame. apply try_into_Some in Eid. rewrite <-Eid.
      assert (Hlb : length (slice data (off + 4 + 16) (len - 16)) = (len - 16)%nat).
      { unfold slice. rewrite length_take, length_drop. lia. }
      rewrite Hlb. replace (16 + Z.of_nat (len - 16)) with (u32_from_le (slice data off 4)).
      2: { pose proof (u32_from_le_range (slice data off 4)). unfold len. lia. }
      unfold u32_wrap. rewrite Z.mod_small.
      2: { pose proof (u32_from_le_range (slice data off 4)). unfold u32_max in *. lia. }
      rewrite u32_le_round' by (unfold slice; rewrite length_take, length_drop; lia).
      unfold slice. rewrite <-!app_assoc.
      rewrite <-(take_drop 4 (drop off data)) at 1. f_equal. rewrite drop_drop.
      rewrite <-(take_drop 16 (drop (off + 4) data)) at 1. f_equal. rewrite drop_drop.
      rewrite <-(take_drop (len - 16) (drop (off + 4 + 16) data)) at 1. f_equal.
      rewrite drop_drop. f_equal. lia.
    + constructor; [|done]. unfold frame_fits. simpl snd. unfold slice.
      rewrite length_take, length_drop.
      pose proof (u32_from_le_range (slice data off 4)). unfold len in *. lia.
Qed.

Lemma parse_frames_iff data fs :
  parse_frames data = Ok fs ↔ data = frames_bytes fs ∧ Forall frame_fits fs.
Proof.
  split.
  - intros (gs & -> & Hd & Hf)%parse_loop_sound; [|lia]. by rewrite drop_0 in Hd.
  - intros [-> Hf]. by apply parse_frames_bytes.
Qed.

(** Appending a frame to a readable log. *)
Lemma parse_frames_append data fs id blob :
  parse_frames data = Ok fs → frame_fits (id, blob) →
  parse_frames (data ++ frame id blob) = Ok (fs ++ [(id, blob)]).
Proof.
  intros [-> Hf]%parse_frames_iff Hb. apply parse_frames_iff.
  split; [by rewrite frames_bytes_snoc | apply Forall_app; auto].
Qed.

Lemma frames_bytes_inj fs gs :
  Forall frame_fits fs → Forall frame_fits gs → frames_bytes fs = frames_bytes gs → fs = gs.
Proof.
  intros Hf%parse_frames_bytes Hg%parse_frames_bytes E. rewrite E, Hg in Hf. by injection Hf.
Qed.

(** Two frame sequences one of which is a proper prefix of the other, in bytes. *)
Lemma frames_bytes_prefix fs gs rest :
  Forall frame_fits fs → Forall frame_fits gs →
  frames_bytes gs = frames_bytes fs ++ rest → ∃ hs, gs = fs ++ hs ∧ rest = frames_bytes hs.
Proof.
  revert gs. induction fs as [|[id blob] fs IH]; intros gs Hf Hg E; [by exists gs|].
  inversion_clear Hf as [|? ? Hf1 Hf2].
  change (frames_bytes ((id, blob) :: fs)) with (frame id blob ++ frames_bytes fs) in E.
  destruct gs as [|[id' blob'] gs].
  { apply (f_equal length) in E. rewrite !length_app, length_frame in E. simpl in E. lia. }
  inversion_clear Hg as [|? ? Hg1 Hg2].
  change (frames_bytes ((id', blob') :: gs)) with (frame id' blob' ++ frames_bytes gs) in E.
  rewrite <-app_assoc in E.
  assert (Hb : length blob = length blob').
  { pose proof (f_equal (take 4) E) as H4.
    rewrite !take_prefix in H4 by (rewrite length_frame; lia).
    pose proof (frame_header _ _ Hf1) as Ha. pose proof (frame_header _ _ Hg1) as Hb.
    rewrite H4 in Hb. lia. }
  apply app_inj_1 in E as [E1 E2]; [|rewrite !length_frame; lia].
  assert (id' = id ∧ blob' = blob) as [-> ->].
  { unfold frame in E1. rewrite Hb in E1. apply app_inv_head in E1.
    apply app_inj_1 in E1 as [Ei ->]; [|by rewrite !arr_length]. split; [by apply arr_eq | done]. }
  destruct (IH gs Hf2 Hg2 E2) as (hs & -> & ->). by exists hs.
Qed.

(* ------------------------------------------------------------------ *)
(** ** Key lists *)

Lemma length_join_key_list keys : length (join_key_list keys) = (32 * length keys)%nat.
Proof.
  induction keys as [|k keys IH]; [done|].
  change (join_key_list (k :: keys)) with (arr_bytes k ++ join_key_list keys).
  rewrite length_app, IH, arr_length. simpl. lia.
Qed.

Lemma chunks32_join keys : ∀ fuel, (length keys < fuel)%nat → chunks32 fuel (join_key_list keys) = keys.
Proof.
  induction keys as [|k keys IH]; intros [|fuel] Hf; try (simpl in Hf; lia); [done|].
  change (join_key_list (k :: keys)) with (arr_bytes k ++ join_key_list keys).
  cbn [chunks32]. rewrite take_app_length', drop_app_length' by (by rewrite arr_length).
  rewrite try_into_bytes. f_equal. apply IH. simpl in Hf. lia.
Qed.

Lemma split_join_key_list keys :
  keys ≠ [] → split_key_list (join_key_list keys) = Ok keys.
Proof.
  intros Hk. unfold split_key_list. pose proof (length_join_key_list keys) as Hl.
  assert (Hpos : (0 < length keys)%nat) by (destruct keys; simpl; [done | lia]).
  destruct (join_key_list keys) as [|b l] eqn:E; [simpl in Hl; lia|].
  rewrite <-E in *. cbn [orb]. rewrite Hl at 1.
  rewrite (Nat.mul_comm 32), Nat.Div0.mod_mul. cbn [Nat.eqb negb].
  f_equal. apply chunks32_join. lia.
Qed.

Lemma split_key_list_sound l keys :
  split_key_list l = Ok keys → l = join_key_list keys ∧ keys ≠ [].
Proof.
  unfold split_key_list. destruct l as [|b l]; [done|].
  set (d := b :: l). destruct (Nat.eqb_spec (length d mod 32) 0) as [Hm|]; [|done].
  cbn [orb]. intros [= <-].
  assert (Hn : ∀ n fuel (x : bytes), length x = (32 * n)%nat → (n ≤ fuel)%nat →
    x = join_key_list (chunks32 fuel x)).
  { induction n as [|n IH]; intros fuel x Hx Hf.
    - apply nil_length_inv in Hx as ->. by destruct fuel.
    - destruct fuel as [|fuel]; [lia|]. cbn [chunks32].
      destruct (try_into 32 (take 32 x)) as [k|] eqn:Ek.
      + change (join_key_list (k :: ?c)) with (arr_bytes k ++ join_key_list c).
        apply try_into_Some in Ek. rewrite <-IH, <-Ek; [by rewrite take_drop | | lia].
        rewrite length_drop. lia.
      + unfold try_into in Ek. case_decide as Hd; [done|]. destruct Hd. rewrite length_take. lia. }
  apply Nat.Lcm0.mod_divide in Hm as [n Hn'].
  assert (Hd : d = join_key_list (chunks32 (length d) d)) by (apply (Hn n); lia).
  split; [exact Hd|]. intros E. change (chunks32 (length d) d = []) in E. by rewrite E in Hd.
Qed.

(* ------------------------------------------------------------------ *)
(** ** Properties *)

(** C28: the log reader accepts exactly the concatenations of frames written
    by [write_frame], and returns the frames themselves: reading inverts
    writing, and nothing that is not a sequence of whole frames is accepted. *)
Theorem parse_frames_exact (data : bytes) (fs : list RawEntry) :
  parse_frames data = Ok fs ↔ data = frames_bytes fs ∧ Forall frame_fits fs.
Proof. apply parse_frames_iff. Qed.

(** A torn append (a proper, non-empty prefix of a frame at the end of a
    readable log) makes the whole log unreadable: the reader reports
    corruption instead of returning the frames before the tear. *)
Lemma parse_frames_torn (fs : list RawEntry) (id : arr 16) (blob : bytes) (n : nat) :
  Forall frame_fits fs → frame_fits (id, blob) → (0 < n < length (frame id blob))%nat →
  ∃ what, parse_frames (frames_bytes fs ++ take n (frame id blob)) = Err (VaultError.Corrupt what).
Proof.
  intros Hfs Hf Hn.
  assert (Herr : ∀ fuel data off out e, parse_loop fuel data off out = Err e →
    ∃ what, e = VaultError.Corrupt what).
  { induction fuel as [|fuel IH]; intros data off out e; cbn [parse_loop];
      repeat case_match; naive_solver. }
  destruct (parse_frames _) as [gs|e] eqn:E; [|apply Herr in E as [what ->]; eauto].
  apply parse_frames_iff in E as [E Hg]. exfalso.
  apply eq_sym, frames_bytes_prefix in E as (hs & -> & Hh); [|done..].
  apply Forall_app in Hg as [_ Hg]. destruct hs as [|[id' blob'] hs].
  { apply (f_equal length) in Hh. rewrite length_take, length_frame in Hh. rewrite length_frame in Hn.
    change (length (frames_bytes [])) with 0%nat in Hh. lia. }
  inversion_clear Hg as [|? ? Hg1 Hg2].
  assert (E : frames_bytes [(id, blob)] = frames_bytes ((id', blob') :: hs) ++ drop n (frame id blob)).
  { rewrite <-Hh, take_drop. unfold frames_bytes. simpl. by rewrite app_nil_r. }
  apply frames_bytes_prefix in E as (rest & Er & Ed); [|by constructor|by constructor].
  destruct hs, rest; simplify_eq. apply (f_equal length) in Ed.
  rewrite length_drop, length_frame in Ed. rewrite length_frame in Hn.
  change (length (frames_bytes [])) with 0%nat in Ed. lia.
Qed.

(** An epoch key list splits into the keys it was joined from, and a list
    that is empty or not a whole number of keys is refused. *)
Theorem split_key_list_exact (l : bytes) (keys : list (arr 32)) :
  split_key_list l = Ok keys ↔ l = join_key_list keys ∧ keys ≠ [].
Proof.
  split; [apply split_key_list_sound|]. intros [-> Hk]. by apply split_join_key_list.
Qed.

Example parse_two_frames : bool_decide
  (parse_frames (frame (arr_fill 16 Byte.x01) [Byte.x02] ++ frame (arr_fill 16 Byte.x03) [])
   = Ok [(arr_fill 16 Byte.x01, [Byte.x02]); (arr_fill 16 Byte.x03, [])]) = true.
Proof. vm_compute. reflexivity. Qed.
