(* ===== verification/Keyring.v ===== *)
(** * Keyring: the per-share epoch keys ([src/src/vault.rs], [Keyring])

    The decrypted keyring, its lookup and update operations, the migration of
    the two legacy layouts ([normalize]), and the invariant they keep: share
    ids are distinct, no key list is empty, and the default share is held. *)

From Stdlib Require Import ZArith Lia String.
From S2P Require Import Prelude Text Record Crypto Log.

#[local] Open Scope string_scope.
#[local] Open Scope list_scope.
#[local] Open Scope Z_scope.

(** Nil share id: the default share every member holds. *)
Definition NIL : arr 16 := arr_fill 16 Byte.x00.

Record ShareKeys := mkShareKeys { sk_id : arr 16; sk_keys : list (arr 32) }.
#[export] Instance ShareKeys_eq_dec : EqDecision ShareKeys.
Proof. solve_decision. Defined.
#[export] Instance ShareKeys_countable : Countable ShareKeys.
Proof.
  by apply (inj_countable' (λ s, (sk_id s, sk_keys s)) (λ p, mkShareKeys p.1 p.2)); intros [].
Defined.

Record Keyring := mkKeyring {
  kr_shares : list ShareKeys;
  kr_vault_keys : list (arr 32);        (* legacy epoch list *)
  kr_vault_key : option (arr 32);       (* legacy single key *)
  kr_x25519_secret : arr 32;
  kr_ed25519_secret : arr 32
}.
#[export] Instance Keyring_eq_dec : EqDecision Keyring.
Proof. solve_decision. Defined.
#[export] Instance Keyring_countable : Countable Keyring.
Proof.
  by apply (inj_countable'
    (λ k, (kr_shares k, kr_vault_keys k, kr_vault_key k, kr_x25519_secret k, kr_ed25519_secret k))
    (λ '(a, b, c, d, e), mkKeyring a b c d e)); intros [].
Defined.

Definition with_shares (shares : list ShareKeys) (k : Keyring) : Keyring :=
  mkKeyring shares (kr_vault_keys k) (kr_vault_key k) (kr_x25519_secret k) (kr_ed25519_secret k).

Definition normalize (self : Keyring) : Keyring :=
  let legacy := kr_vault_keys self in
  let legacy := match kr_vault_key self with
                | Some k => match legacy with [] => [k] | _ => legacy end
                | None => legacy
                end in
  let shares :=
    if negb (match legacy with [] => true | _ => false end)
       && negb (existsb (λ s, bool_decide (sk_id s = NIL)) (kr_shares self))
    then kr_shares self ++ [mkShareKeys NIL legacy]
    else kr_shares self in
  mkKeyring shares [] None (kr_x25519_secret self) (kr_ed25519_secret self).

(** [iter().find]: the first share of that id. *)
Fixpoint find_share (id : arr 16) (l : list ShareKeys) : option ShareKeys :=
  match l with
  | [] => None
  | s :: l => if decide (sk_id s = id) then Some s else find_share id l
  end.
Definition share (self : Keyring) (id : arr 16) : option ShareKeys := find_share id (kr_shares self).

(** Update through [share_mut], or push when the share is absent. *)
Fixpoint update_share (id : arr 16) (f : list (arr 32) → list (arr 32)) (fresh : list (arr 32))
    (l : list ShareKeys) : list ShareKeys :=
  match l with
  | [] => [mkShareKeys id fresh]
  | s :: l => if decide (sk_id s = id) then mkShareKeys (sk_id s) (f (sk_keys s)) :: l
              else s :: update_share id f fresh l
  end.

Definition current_for (self : Keyring) (id : arr 16) : option (arr 32) :=
  s ← share self id; last (sk_keys s).

(** [None] stands for the panic of [expect]. *)
Definition current (self : Keyring) : option (arr 32) := current_for self NIL.

(** [(len - 1) as u32]; 0 for a share not held. *)
Definition share_epoch (self : Keyring) (id : arr 16) : Z :=
  match share self id with
  | Some s => u32_wrap (Z.of_nat (length (sk_keys s)) - 1)
  | None => 0
  end.

Definition share_key_list (self : Keyring) (id : arr 16) : bytes :=
  match share self id with Some s => join_key_list (sk_keys s) | None => [] end.

Definition push_share_key (id : arr 16) (key : arr 32) (self : Keyring) : Keyring :=
  with_shares (update_share id (λ keys, keys ++ [key]) [key] (kr_shares self)) self.

Definition set_share_keys (id : arr 16) (keys : list (arr 32)) (self : Keyring) : Keyring :=
  with_shares (update_share id (λ _, keys) keys (kr_shares self)) self.

Definition has_share (self : Keyring) (id : arr 16) : bool :=
  match share self id with Some _ => true | None => false end.

Definition held_shares (self : Keyring) : list (arr 16) := sk_id <$> kr_shares self.

Definition held_share_epochs (self : Keyring) : list (arr 16 * Z) :=
  (λ s, (sk_id s, u32_wrap (Z.of_nat (length (sk_keys s))))) <$> kr_shares self.

(** The keys in the order [open_entry] tries them. *)
Definition trial_keys (self : Keyring) : list (arr 32) :=
  concat ((λ s, reverse (sk_keys s)) <$> kr_shares self).

(** The in-memory half of [absorb_share_key]: [None] when the list is no news. *)
Definition absorb_keys (id : arr 16) (list : bytes) (self : Keyring)
    : res VaultError (option Keyring) :=
  res_bind (split_key_list list) (λ keys,
    match share self id with
    | Some existing =>
        if (length keys <=? length (sk_keys existing))%nat then Ok None
        else Ok (Some (set_share_keys id keys self))
    | None => Ok (Some (set_share_keys id keys self))
    end).

(* ------------------------------------------------------------------ *)
(** ** The keyring invariant *)

Definition keyring_wf (k : Keyring) : Prop :=
  NoDup (held_shares k) ∧ Forall (λ s, sk_keys s ≠ []) (kr_shares k) ∧
  NIL ∈ held_shares k ∧ kr_vault_keys k = [] ∧ kr_vault_key k = None.

Lemma find_share_in id l s : find_share id l = Some s → s ∈ l ∧ sk_id s = id.
Proof.
  induction l as [|x l IH]; simpl; [done|]. case_decide as Hid.
  - intros [= ->]. split; [constructor | done].
  - intros []%IH. split; [by constructor | done].
Qed.

Lemma find_share_none id l : find_share id l = None ↔ id ∉ sk_id <$> l.
Proof.
  induction l as [|x l IH]; simpl; [split; [by intros _ ?%not_elem_of_nil | done]|].
  rewrite not_elem_of_cons. case_decide as Hid; naive_solver.
Qed.

Lemma find_share_intro l s : NoDup (sk_id <$> l) → s ∈ l → find_share (sk_id s) l = Some s.
Proof.
  induction l as [|x l IH]; simpl; intros Hnd Hs; [by apply not_elem_of_nil in Hs|].
  apply NoDup_cons in Hnd as [Hx Hnd]. apply elem_of_cons in Hs as [->|Hs].
  - by rewrite decide_True.
  - rewrite decide_False; [by apply IH|]. intros E. apply Hx. rewrite E.
    by apply list_elem_of_fmap_2.
Qed.

Lemma find_update_share id id' f fresh l :
  find_share id (update_share id' f fresh l) =
  if decide (id' = id)
  then Some (mkShareKeys id (match find_share id l with Some s => f (sk_keys s) | None => fresh end))
  else find_share id l.
Proof.
  induction l as [|x l IH]; simpl; [by case_decide; subst|].
  destruct (decide (sk_id x = id')) as [Ex|Ex]; simpl; rewrite ?IH; repeat case_decide; congruence.
Qed.

Lemma update_share_ids id f fresh l :
  sk_id <$> update_share id f fresh l =
  (sk_id <$> l) ++ (if decide (id ∈ sk_id <$> l) then [] else [id]).
Proof.
  induction l as [|x l IH]; [done|]. cbn [update_share].
  destruct (decide (sk_id x = id)) as [Ex|Ex]; rewrite !fmap_cons; cbn [sk_id].
  - rewrite decide_True by (rewrite Ex; constructor). by rewrite app_nil_r.
  - rewrite IH. cbn [app]. f_equal. f_equal. apply decide_ext. rewrite elem_of_cons. naive_solver.
Qed.

Lemma update_share_forall (P : ShareKeys → Prop) id f fresh l :
  Forall P l → P (mkShareKeys id fresh) →
  (∀ s, P s → sk_id s = id → P (mkShareKeys id (f (sk_keys s)))) →
  Forall P (update_share id f fresh l).
Proof.
  intros Hl Hfresh Hf. induction Hl as [|x l Hx Hl IH]; simpl; [by constructor|].
  case_decide as Hid; constructor; subst; auto.
Qed.

Lemma update_share_wf id f fresh k :
  keyring_wf k → fresh ≠ [] → (∀ keys, keys ≠ [] → f keys ≠ []) →
  keyring_wf (with_shares (update_share id f fresh (kr_shares k)) k).
Proof.
  intros (Hnd & Hne & Hnil & Hv & Hv') Hfresh Hf. unfold keyring_wf, held_shares in *.
  simpl. rewrite update_share_ids. split_and!; try done.
  - case_decide as Hin; [by rewrite app_nil_r|]. apply NoDup_app. split_and!; [done| |].
    + intros x Hx ->%list_elem_of_singleton. done.
    + apply NoDup_singleton.
  - apply update_share_forall; simpl; auto.
  - apply elem_of_app. by left.
Qed.

Lemma share_push k id id' key :
  share (push_share_key id key k) id' =
  if decide (id = id') then Some (mkShareKeys id' (match share k id' with
                                                  | Some s => sk_keys s ++ [key] | None => [key] end))
  else share k id'.
Proof. unfold share, push_share_key. simpl. apply find_update_share. Qed.

Lemma share_set k id id' keys :
  share (set_share_keys id keys k) id' =
  if decide (id = id') then Some (mkShareKeys id' keys) else share k id'.
Proof.
  unfold share, set_share_keys. simpl. rewrite find_update_share.
  case_decide; [|done]. by destruct (find_share id' _).
Qed.

Lemma push_share_key_wf k id key : keyring_wf k → keyring_wf (push_share_key id key k).
Proof. intros Hk. apply update_share_wf; [done | done |]. by intros [|? ?] ?. Qed.

Lemma set_share_keys_wf k id keys : keyring_wf k → keys ≠ [] → keyring_wf (set_share_keys id keys k).
Proof. intros Hk Hkeys. by apply update_share_wf. Qed.

Lemma normalize_wf_id k : keyring_wf k → normalize k = k.
Proof.
  intros (_ & _ & _ & Hv & Hv'). destruct k; simpl in *. subst. done.
Qed.

Lemma held_has k id : id ∈ held_shares k → has_share k id = true.
Proof.
  intros Hid. unfold has_share, share. destruct (find_share id _) eqn:E; [done|]. by apply find_share_none in E.
Qed.

Lemma current_for_wf k id : keyring_wf k → has_share k id = true → is_Some (current_for k id).
Proof.
  intros (_ & Hne & _) Hh. unfold has_share, current_for in *.
  destruct (share k id) as [s|] eqn:Es; [|done]. simpl.
  apply find_share_in in Es as [Hin _]. rewrite Forall_forall in Hne. specialize (Hne _ Hin).
  apply last_is_Some. done.
Qed.

Lemma absorb_keys_wf k id l k' : keyring_wf k → absorb_keys id l k = Ok (Some k') → keyring_wf k'.
Proof.
  intros Hk. unfold absorb_keys. destruct (split_key_list l) as [keys|] eqn:E; simpl; [|done].
  apply split_key_list_sound in E as [_ Hne].
  destruct (share k id) as [s|]; [case_match; [done|]|]; intros [= <-]; by apply set_share_keys_wf.
Qed.

(** The keys held for a share. *)
Definition keys_of (k : Keyring) (id : arr 16) : list (arr 32) :=
  match share k id with Some s => sk_keys s | None => [] end.

Lemma share_epoch_same k k' id : keys_of k' id = keys_of k id → keys_of k id ≠ [] → share_epoch k' id = share_epoch k id.
Proof.
  unfold keys_of, share_epoch. intros E Hne.
  destruct (share k id) as [a|], (share k' id) as [b|]; [by rewrite E | by rewrite <- E in Hne | done..].
Qed.

Lemma trial_keys_of k key : NoDup (held_shares k) → key ∈ trial_keys k → ∃ id, key ∈ keys_of k id.
Proof.
  unfold keys_of, trial_keys, share. intros Hnd Hk.
  apply list_elem_of_In, in_concat in Hk as (l & Hl & Hk). apply list_elem_of_In, list_elem_of_fmap in Hl as (s & -> & Hs).
  apply list_elem_of_In in Hk. rewrite elem_of_reverse in Hk. exists (sk_id s). by rewrite (find_share_intro _ s Hnd Hs).
Qed.

Lemma trial_keys_in k id key : NoDup (held_shares k) →
  key ∈ keys_of k id → key ∈ trial_keys k.
Proof.
  unfold keys_of, trial_keys. intros Hnd Hk. destruct (share k id) as [s|] eqn:Es.
  - apply find_share_in in Es as [Hs _]. apply list_elem_of_In, in_concat.
    exists (reverse (sk_keys s)). split; apply list_elem_of_In.
    + by apply list_elem_of_fmap_2'  with (x := s).
    + by apply elem_of_reverse.
  - by apply not_elem_of_nil in Hk.
Qed.

(** Pushing a key installs the list with the key at its end. *)
Lemma push_as_set k id key : push_share_key id key k = set_share_keys id (keys_of k id ++ [key]) k.
Proof.
  unfold keys_of, share, push_share_key, set_share_keys. apply (f_equal (λ l, with_shares l k)).
  induction (kr_shares k) as [|x l IH]; [done|]. cbn [update_share find_share].
  case_decide; [done|]. by rewrite IH.
Qed.
(** Keys added to a share leave those tried before among those tried. *)
Lemma trial_keys_more k id keys : NoDup (held_shares k) → keys_of k id ⊆ keys →
  trial_keys k ⊆ trial_keys (set_share_keys id keys k).
Proof.
  unfold trial_keys, keys_of, share, set_share_keys. intros Hnd Hsub key Hk. simpl.
  apply list_elem_of_In, in_concat in Hk as (l & Hl & Hk). apply list_elem_of_In, list_elem_of_fmap in Hl as (s & -> & Hs).
  apply list_elem_of_In, in_concat. apply list_elem_of_In in Hk. rewrite elem_of_reverse in Hk.
  pose proof (find_share_intro _ s Hnd Hs) as Hfind.
  assert (Hin : ∃ t, t ∈ update_share id (λ _, keys) keys (kr_shares k) ∧ key ∈ sk_keys t).
  { pose proof (find_update_share (sk_id s) id (λ _, keys) keys (kr_shares k)) as Hup. rewrite Hfind in Hup.
    case_decide as E.
    - subst id. rewrite Hfind in Hsub. apply find_share_in in Hup as [Hup _]. eexists. split; [exact Hup|]. by apply Hsub.
    - apply find_share_in in Hup as [Hup _]. by exists s. }
  destruct Hin as (t & Ht & Hkt). exists (reverse (sk_keys t)). split; apply list_elem_of_In.
  - by apply list_elem_of_fmap_2' with (x := t).
  - by apply elem_of_reverse.
Qed.

(* ------------------------------------------------------------------ *)
(** ** Properties *)

(** [normalize] clears both legacy layouts, keeps every share already
    present, gives the default share the legacy keys (the epoch list before
    the single key) exactly when it was missing, and is idempotent. *)
Theorem normalize_migrates (k : Keyring) :
  normalize (normalize k) = normalize k ∧
  kr_vault_keys (normalize k) = [] ∧ kr_vault_key (normalize k) = None ∧
  (∀ id, id ≠ NIL → share (normalize k) id = share k id) ∧
  keys_of (normalize k) NIL =
    match share k NIL with
    | Some s => sk_keys s
    | None => match kr_vault_keys k with [] => option_list (kr_vault_key k) | l => l end
    end.
Proof.
  assert (Hsnoc : ∀ id l x, find_share id (l ++ [x]) =
    match find_share id l with Some s => Some s | None => if decide (sk_id x = id) then Some x else None end).
  { intros id l x. induction l as [|y l IH]; simpl; [done|]. destruct (decide (sk_id y = id)); [done | apply IH]. }
  assert (Hex : existsb (λ s, bool_decide (sk_id s = NIL)) (kr_shares k) =
    match share k NIL with Some _ => true | None => false end).
  { unfold share. induction (kr_shares k) as [|s l IH]; simpl; [done|]. rewrite IH.
    case_decide; [by rewrite bool_decide_true | by rewrite bool_decide_false]. }
  split_and!; [done..| |].
  - intros id Hid. unfold share, normalize. simpl. destruct (_ && _); [|done].
    rewrite Hsnoc. simpl. rewrite decide_False by congruence. by destruct (find_share id _).
  - unfold keys_of. unfold normalize, share at 1. simpl. rewrite Hex. unfold share.
    destruct (find_share NIL (kr_shares k)) as [s|] eqn:E; simpl.
    + rewrite andb_false_r, E. done.
    + destruct (kr_vault_keys k) as [|a l], (kr_vault_key k) as [b|]; simpl;
        rewrite ?Hsnoc, ?E; simpl; rewrite ?decide_True by done; done.
Qed.

(** Absorbing a key list for a share never shrinks any share: the list is
    installed exactly when it has more epochs than the one held, other shares
    are untouched, and the keyring stays well formed. *)
Theorem absorb_only_grows (k : Keyring) (id : arr 16) (list : bytes) (news : option Keyring) :
  keyring_wf k → absorb_keys id list k = Ok news →
  ∃ keys, list = join_key_list keys ∧ keys ≠ [] ∧
    match news with
    | Some k' => (length (keys_of k id) < length keys)%nat ∧ keys_of k' id = keys ∧
                 (∀ id', id' ≠ id → share k' id' = share k id') ∧ keyring_wf k'
    | None => (length keys ≤ length (keys_of k id))%nat
    end.
Proof.
  intros Hk Hab. assert (Hwf := absorb_keys_wf k id list).
  unfold absorb_keys in Hab. destruct (split_key_list list) as [keys|] eqn:E; simpl in Hab; [|done].
  apply split_key_list_sound in E as [-> Hne]. exists keys. split_and!; [done..|].
  assert (Hset : ∀ k', k' = set_share_keys id keys k → keys_of k' id = keys ∧
    (∀ id', id' ≠ id → share k' id' = share k id') ∧ keyring_wf k').
  { intros k' ->. unfold keys_of. split_and!; [| |by apply set_share_keys_wf].
    - by rewrite share_set, decide_True.
    - intros id' Hid. by rewrite share_set, decide_False. }
  unfold keys_of at 1. destruct (share k id) as [s|] eqn:Es.
  - destruct (Nat.leb_spec (length keys) (length (sk_keys s))) as [Hle|Hlt]; simplify_eq.
    + unfold keys_of. by rewrite Es.
    + split; [done|]. by apply Hset.
  - simplify_eq. split; [destruct keys; simpl; [done | lia] | by apply Hset].
Qed.

(** Rotating or creating a share appends one epoch: every key held before
    is still held, the new key is the current one, its epoch is one more than
    the last (0 for a new share), and other shares are untouched. *)
Theorem push_share_key_appends (k : Keyring) (id : arr 16) (key : arr 32) :
  keyring_wf k → Z.of_nat (length (keys_of k id)) ≤ u32_max →
  let k' := push_share_key id key k in
  keyring_wf k' ∧ keys_of k' id = keys_of k id ++ [key] ∧ current_for k' id = Some key ∧
  share_epoch k' id = (if has_share k id then share_epoch k id + 1 else 0) ∧
  (∀ id', id' ≠ id → share k' id' = share k id').
Proof.
  intros Hk Hlen k'. assert (Hs : share k' id = Some (mkShareKeys id (keys_of k id ++ [key]))).
  { unfold k', keys_of. rewrite share_push, decide_True by done. by destruct (share k id). }
  split_and!.
  - by apply push_share_key_wf.
  - unfold keys_of at 1. by rewrite Hs.
  - unfold current_for. rewrite Hs. simpl. apply last_snoc.
  - unfold share_epoch at 1. rewrite Hs. simpl. rewrite length_app. simpl.
    unfold share_epoch, has_share, keys_of in *. destruct (share k id) as [s|] eqn:E; simpl; [|done].
    apply find_share_in in E as [Hin _]. destruct Hk as (_ & Hne & _).
    rewrite Forall_forall in Hne. specialize (Hne _ Hin).
    assert (0 < length (sk_keys s))%nat by (destruct (sk_keys s); simpl; [done | lia]).
    unfold u32_wrap, u32_max in *. rewrite !Z.mod_small by lia. lia.
  - intros id' Hid. unfold k'. by rewrite share_push, decide_False.
Qed.

Module SampleKeyring.
Definition key (n : Z) : arr 32 := arr_fill 32 (byte_of n).
Definition kr : Keyring := mkKeyring [mkShareKeys NIL [key 1]] [] None (key 2) (key 3).
End SampleKeyring.

Lemma sample_keyring_wf : keyring_wf SampleKeyring.kr.
Proof.
  split_and!; try done; [apply NoDup_singleton | by constructor | by constructor].
Qed.

Lemma absorb_only_grows_witness :
  ∃ keys, join_key_list [SampleKeyring.key 1; SampleKeyring.key 4] = join_key_list keys ∧ keys ≠ [] ∧
    (1 < length keys)%nat.
Proof.
  destruct (absorb_only_grows SampleKeyring.kr NIL
    (join_key_list [SampleKeyring.key 1; SampleKeyring.key 4])
    (Some (set_share_keys NIL [SampleKeyring.key 1; SampleKeyring.key 4] SampleKeyring.kr)))
    as (keys & H1 & H2 & H3 & _); [exact sample_keyring_wf | |].
  - unfold absorb_keys. rewrite split_join_key_list by done. reflexivity.
  - by exists keys.
Defined.

Lemma push_share_key_appends_witness :
  share_epoch (push_share_key NIL (SampleKeyring.key 4) SampleKeyring.kr) NIL = 1.
Proof.
  destruct (push_share_key_appends SampleKeyring.kr NIL (SampleKeyring.key 4)) as (_ & _ & _ & H & _);
    [exact sample_keyring_wf | unfold u32_max; simpl; lia | exact H].
Defined.
