(* ===== verification/Vault.v ===== *)
(** * Vault: the local encrypted vault ([src/src/vault.rs])

    The vault directory is a [Disk] (the four files, absent or present); an
    open vault is a [Vault] handle.  Methods taking [&mut self] are functions
    on the pair of the two that keep the state reached when they fail.  Bytes
    drawn from the system and the time are arguments.  The advisory file lock
    makes each locked region atomic with respect to other processes; the
    regions are the units of interleaving in [Handles.v]. *)

From Stdlib Require Import ZArith Lia String.
From S2P Require Import Prelude Text Record Merge Extern Crypto Log Keyring Validate.

#[local] Open Scope string_scope.
#[local] Open Scope list_scope.
#[local] Open Scope Z_scope.

Record KdfParams := mkKdfParams { salt_b64 : string; m_kib : Z; kdf_t : Z; kdf_p : Z }.
#[export] Instance KdfParams_eq_dec : EqDecision KdfParams.
Proof. solve_decision. Defined.
#[export] Instance KdfParams_countable : Countable KdfParams.
Proof.
  by apply (inj_countable' (λ k, (salt_b64 k, m_kib k, kdf_t k, kdf_p k))
    (λ '(a, b, c, d), mkKdfParams a b c d)); intros [].
Defined.

(** [meta.json]. *)
Record Meta := mkMeta {
  vault_id : Uuid;
  device_id : Uuid;
  device_name : string;
  kdf : KdfParams;
  x25519_pub_b64 : string;
  ed25519_pub_b64 : string;
  recovery_pub_b64 : string;
  meta_lamport : Z;
  relay_url : option string;
  sync_cursor : Z
}.
#[export] Instance Meta_eq_dec : EqDecision Meta.
Proof. solve_decision. Defined.
#[export] Instance Meta_countable : Countable Meta.
Proof.
  apply (inj_countable
    (λ m, [encode (vault_id m); encode (device_id m); encode (device_name m); encode (kdf m);
           encode (x25519_pub_b64 m); encode (ed25519_pub_b64 m); encode (recovery_pub_b64 m);
           encode (meta_lamport m); encode (relay_url m); encode (sync_cursor m)])
    (λ l, match l with
          | [a; b; c; d; e; f; g; h; i; j] =>
              a ← decode a; b ← decode b; c ← decode c; d ← decode d; e ← decode e;
              f ← decode f; g ← decode g; h ← decode h; i ← decode i; j ← decode j;
              Some (mkMeta a b c d e f g h i j)
          | _ => None
          end)).
  intros []; cbn -[encode decode]. repeat (rewrite decode_encode; cbn -[encode decode]). done.
Defined.

Definition with_lamport (n : Z) (m : Meta) : Meta :=
  mkMeta (vault_id m) (device_id m) (device_name m) (kdf m) (x25519_pub_b64 m)
    (ed25519_pub_b64 m) (recovery_pub_b64 m) n (relay_url m) (sync_cursor m).
Definition with_cursor (n : Z) (m : Meta) : Meta :=
  mkMeta (vault_id m) (device_id m) (device_name m) (kdf m) (x25519_pub_b64 m)
    (ed25519_pub_b64 m) (recovery_pub_b64 m) (meta_lamport m) (relay_url m) n.
Definition with_relay_url (url : string) (m : Meta) : Meta :=
  mkMeta (vault_id m) (device_id m) (device_name m) (kdf m) (x25519_pub_b64 m)
    (ed25519_pub_b64 m) (recovery_pub_b64 m) (meta_lamport m) (Some url) (sync_cursor m).

(** [snapshot.bin]: the fold of a leading prefix of the log. *)
Record Snapshot := mkSnapshot {
  covered : Z;
  snap_shares : list (arr 16 * Z);
  snap_records : list Rec
}.
#[export] Instance Snapshot_eq_dec : EqDecision Snapshot.
Proof. solve_decision. Defined.
#[export] Instance Snapshot_countable : Countable Snapshot.
Proof.
  by apply (inj_countable' (λ s, (covered s, snap_shares s, snap_records s))
    (λ '(a, b, c), mkSnapshot a b c)); intros [].
Defined.

(** The files of the vault directory; [None] is an absent file. *)
Record Disk := mkDisk {
  f_meta : option string;
  f_keyring : option bytes;
  f_log : option bytes;
  f_snapshot : option bytes
}.
Definition set_f_meta (s : string) (d : Disk) : Disk :=
  mkDisk (Some s) (f_keyring d) (f_log d) (f_snapshot d).
Definition set_f_keyring (b : bytes) (d : Disk) : Disk :=
  mkDisk (f_meta d) (Some b) (f_log d) (f_snapshot d).
Definition set_f_log (b : bytes) (d : Disk) : Disk :=
  mkDisk (f_meta d) (f_keyring d) (Some b) (f_snapshot d).
Definition set_f_snapshot (b : bytes) (d : Disk) : Disk :=
  mkDisk (f_meta d) (f_keyring d) (f_log d) (Some b).

(** An open vault. *)
Record Vault := mkVault {
  v_meta : Meta;
  v_keyring : Keyring;
  v_kek : Secret32;
  v_state : gmap Uuid Rec
}.
Definition with_meta (m : Meta) (v : Vault) : Vault :=
  mkVault m (v_keyring v) (v_kek v) (v_state v).
Definition with_keyring (k : Keyring) (v : Vault) : Vault :=
  mkVault (v_meta v) k (v_kek v) (v_state v).
Definition with_state (s : gmap Uuid Rec) (v : Vault) : Vault :=
  mkVault (v_meta v) (v_keyring v) (v_kek v) s.

Abbreviation World := (Disk * Vault)%type.
Abbreviation VM := (M World VaultError).

(** Once the tail past the snapshot grows beyond this, an open compacts. *)
Definition COMPACT_THRESHOLD : Z := 10000.

(** What one append draws: record id, entry id, nonce and the time. *)
Record Draw := mkDraw {
  dr_record_id : Uuid;
  dr_entry_id : arr 16;
  dr_nonce : Nonce;
  dr_now : Z
}.

(** Order-insensitive equality of two [(share_id, epoch_count)] sets. *)
Definition same_epoch_set (a b : list (arr 16 * Z)) : bool :=
  Nat.eqb (length a) (length b) && forallb (λ pair, bool_decide (pair ∈ b)) a.

(** [into_iter().map(|r| (r.id, r)).collect()]: a later duplicate wins. *)
Definition collect_records (l : list Rec) : gmap Uuid Rec :=
  foldl (λ m r, <[rec_id r := r]> m) ∅ l.

(** Merging the fields of an edit: an unchanged value keeps its old clock. *)
Definition edit_fields (old fields : gmap string Field) : gmap string Field :=
  map_imap (λ k f, Some
    match old !! k with
    | Some prev => if bool_decide (value prev = value f)
                   then mkField (value f) (field_clock prev) else f
    | None => f
    end) fields.

Section vault.
Context `{Aead} `{Hkdf} `{X25519} `{Ed25519} `{Argon2} `{Bip39} `{Base64} `{HashOrder}.
Context `{MsgPack Keyring} `{MsgPack Rec} `{MsgPack Snapshot} `{JsonText Meta}.
#[local] Open Scope mon_scope.

(* ---------------------------------------------------------------- *)
(** ** Files *)

Definition disk (f : Disk → Disk) : VM unit := sput (λ w, (f w.1, w.2)).
Definition self (f : Vault → Vault) : VM unit := sput (λ w, (w.1, f w.2)).
Definition read_file {A} (f : Disk → option A) : VM A :=
  do d <- sget fst; slift (ok_or VaultError.Io (f d)).
Definition crypto {A} (r : res CryptoError A) : VM A :=
  slift (res_map_err VaultError.Crypto r).

Definition write_meta : VM unit :=
  do v <- sget snd; disk (set_f_meta (json_to_string (v_meta v))).

Definition write_keyring (nonce : Nonce) : VM unit :=
  do v <- sget snd;
  disk (set_f_keyring (seal nonce (v_kek v) (mp_encode (v_keyring v))
                         (arr_bytes (vault_id (v_meta v))))).

(** Fold the counters of the on-disk metadata into ours; unreadable or
    unparseable metadata is ignored. *)
Definition absorb_disk_meta_in (d : Disk) (m : Meta) : Meta :=
  match s ← f_meta d; json_from_str s with
  | Some disk => with_cursor (Z.max (sync_cursor m) (sync_cursor disk))
                   (with_lamport (Z.max (meta_lamport m) (meta_lamport disk)) m)
  | None => m
  end.
Definition absorb_disk_meta : VM unit :=
  do d <- sget fst; self (λ v, with_meta (absorb_disk_meta_in d (v_meta v)) v).

(** One locked region: absorb, increment, persist. *)
Definition next_clock : VM Clock :=
  run absorb_disk_meta;
  run self (λ v, with_meta (with_lamport (u64_wrap (meta_lamport (v_meta v) + 1)) (v_meta v)) v);
  run write_meta;
  do v <- sget snd;
  sret (mkClock (meta_lamport (v_meta v)) (device_id (v_meta v))).

Definition set_relay_url (url : string) : VM unit :=
  run absorb_disk_meta;
  run self (λ v, with_meta (with_relay_url url (v_meta v)) v);
  write_meta.

Definition set_sync_cursor (cursor : Z) : VM unit :=
  run absorb_disk_meta;
  run self (λ v, with_meta (with_cursor (Z.max (sync_cursor (v_meta v)) cursor) (v_meta v)) v);
  write_meta.

Definition reset_sync_cursor : VM unit :=
  run absorb_disk_meta;
  run self (λ v, with_meta (with_cursor 0 (v_meta v)) v);
  write_meta.

(* ---------------------------------------------------------------- *)
(** ** The log *)

Definition write_frame (entry_id : arr 16) (blob : bytes) : VM unit :=
  do data <- read_file f_log;
  disk (set_f_log (data ++ frame entry_id blob)).

Definition raw_entries : VM (list RawEntry) :=
  do data <- read_file f_log; slift (parse_frames data).

Fixpoint try_keys (keys : list Secret32) (entry_id : arr 16) (blob : bytes)
    : res VaultError (option Rec) :=
  match keys with
  | [] => Ok None
  | key :: keys =>
      match open key blob (arr_bytes entry_id) with
      | Ok plain =>
          match mp_decode plain with
          | Some rec => Ok (Some rec)
          | None => Err (VaultError.Corrupt "log entry")
          end
      | Err _ => try_keys keys entry_id blob
      end
  end.

(** Every share, newest epoch first. *)
Definition open_entry (k : Keyring) (entry_id : arr 16) (blob : bytes)
    : res VaultError (option Rec) := try_keys (trial_keys k) entry_id blob.

(** The records of the frames this keyring opens. *)
Fixpoint open_entries (k : Keyring) (frames : list RawEntry) : res VaultError (list Rec) :=
  match frames with
  | [] => Ok []
  | (id, blob) :: frames =>
      res_bind (open_entry k id blob) (λ o,
      res_bind (open_entries k frames) (λ recs, Ok (option_list o ++ recs)))
  end.

(** The fold of the frames past the snapshot. *)
Fixpoint fold_frames (k : Keyring) (frames : list RawEntry) (state : gmap Uuid Rec)
    : res VaultError (gmap Uuid Rec) :=
  match frames with
  | [] => Ok state
  | (id, blob) :: frames =>
      res_bind (open_entry k id blob) (λ o,
      fold_frames k frames (match o with Some rec => merge_step state rec | None => state end))
  end.

Definition append (record : Rec) (entry_id : arr 16) (nonce : Nonce) : VM unit :=
  let plain := mp_encode record in
  do v <- sget snd;
  do key <- slift (ok_or (VaultError.Corrupt "sealing under a share not held")
                    (current_for (v_keyring v) (rec_share_id record)));
  let blob := seal nonce key plain (arr_bytes entry_id) in
  run write_frame entry_id blob;
  self (λ v, with_state (merge_step (v_state v) record) v).

(** A missing, undecryptable or unparseable snapshot is a cache miss. *)
Definition read_snapshot (d : Disk) (v : Vault) : option Snapshot :=
  sealed ← f_snapshot d;
  match open (v_kek v) sealed (arr_bytes (vault_id (v_meta v))) with
  | Ok plain => mp_decode plain
  | Err _ => None
  end.

Definition write_snapshot (snap : Snapshot) (nonce : Nonce) : VM unit :=
  do v <- sget snd;
  disk (set_f_snapshot (seal nonce (v_kek v) (mp_encode snap) (arr_bytes (vault_id (v_meta v))))).

Definition fold_from_snapshot (k : Keyring) (frames : list RawEntry)
    (snapshot : option Snapshot) : res VaultError (gmap Uuid Rec * nat) :=
  let held := held_share_epochs k in
  let '(state, start) :=
    match snapshot with
    | Some s =>
        if (covered s <=? Z.of_nat (length frames)) && same_epoch_set (snap_shares s) held
        then (collect_records (snap_records s), Z.to_nat (covered s))
        else (∅, 0%nat)
    | None => (∅, 0%nat)
    end in
  res_bind (fold_frames k (drop start frames) state) (λ state, Ok (state, start)).

(** Returns whether a snapshot was written. *)
Definition compact (nonce : Nonce) : VM bool :=
  do frames <- raw_entries;
  do v <- sget snd;
  do records <- slift (open_entries (v_keyring v) frames);
  let state := merge_all records in
  if (length frames <=? size state)%nat
  then run self (with_state state); sret false
  else
    let snapshot := {| covered := Z.of_nat (length frames);
                       snap_shares := held_share_epochs (v_keyring v);
                       snap_records := hash_values state |} in
    run write_snapshot snapshot nonce;
    run self (with_state state);
    sret true.

Definition replay_log (nonce : Nonce) : VM unit :=
  do frames <- raw_entries;
  do d <- sget fst;
  do v <- sget snd;
  let snapshot := read_snapshot d v in
  do sc <- slift (fold_from_snapshot (v_keyring v) frames snapshot);
  run self (with_state (fst sc));
  if (COMPACT_THRESHOLD <? Z.of_nat (length frames - snd sc))
     && (size (fst sc) <? length frames)%nat
  then run compact nonce; sret tt
  else sret tt.

(** Raw frames tagged with the share of the record they hold, nil when
    this device cannot read it. *)
Fixpoint tag_entries (k : Keyring) (frames : list RawEntry)
    : res VaultError (list (RawEntry * Uuid)) :=
  match frames with
  | [] => Ok []
  | (id, blob) :: frames =>
      res_bind (open_entry k id blob) (λ o,
      res_bind (tag_entries k frames) (λ out,
      Ok ((id, blob, match o with Some r => rec_share_id r | None => uuid_nil end) :: out)))
  end.
Definition raw_entries_tagged : VM (list (RawEntry * Uuid)) :=
  do frames <- raw_entries;
  do v <- sget snd;
  slift (tag_entries (v_keyring v) frames).

Definition apply_remote_entry (entry_id : arr 16) (blob : bytes) : VM unit :=
  do v <- sget snd;
  do opened <- slift (open_entry (v_keyring v) entry_id blob);
  run absorb_disk_meta;
  run write_frame entry_id blob;
  run match opened with
      | Some rec =>
          self (λ v,
            let incoming := lamport (rec_clock rec) in
            let v := with_state (merge_step (v_state v) rec) v in
            if meta_lamport (v_meta v) <? incoming
            then with_meta (with_lamport incoming (v_meta v)) v else v)
      | None => sret tt
      end;
  write_meta.
End vault.
