(* ===== verification/Crud.v ===== *)
(** * Crud: records by name, export and import ([src/src/vault.rs])

    Listing and finding live records, adding, editing and removing them, the
    share names, and the plaintext JSON export and import. *)

From Stdlib Require Import ZArith Lia String.
From S2P Require Import Prelude Text Record Merge Extern Crypto Log Keyring Validate Vault.

#[local] Open Scope string_scope.
#[local] Open Scope list_scope.
#[local] Open Scope Z_scope.

(** The predicate of [find]. *)
Definition is_named (kind : Kind) (name_field name : string) (r : Rec) : bool :=
  live r && bool_decide (rec_kind r = kind) &&
  match rec_fields r !! name_field with
  | Some f => bool_decide (value f = JString name)
  | None => false
  end.

(** The outcome of an import: next draw, imported and skipped counts. *)
Abbreviation Tally := (nat * Z * Z)%type.

Section crud.
Context `{Aead} `{Base64} `{HashOrder}.
Context `{MsgPack Rec} `{JsonText Meta}.
#[local] Open Scope mon_scope.

(** All live records of a kind whose payload parses, by id. *)
Definition list_of (T : Type) `{Payload T} (v : Vault) (kind : Kind) : list (Uuid * T) :=
  let out := filter (λ r, live r && bool_decide (rec_kind r = kind) = true) (hash_values (v_state v)) in
  let out := omap (λ r, (λ p, (rec_id r, p)) <$> payload r) out in
  sort_by_key fst out.

Definition find_record (v : Vault) (kind : Kind) (name_field name : string) : option Rec :=
  List.find (is_named kind name_field name) (hash_values (v_state v)).

Definition add_in {T} `{Payload T} (kind : Kind) (name_field name : string) (payload : T)
    (share : Uuid) (draw : Draw) : VM Uuid :=
  run slift (validate_payload kind payload);
  do v <- sget snd;
  run sguard (has_share (v_keyring v) share)
        (VaultError.Corrupt "cannot add to a share this device is not a member of");
  run match find_record v kind name_field name with
      | Some _ => sfail (VaultError.Duplicate (kind_str kind) name)
      | None => sret tt
      end;
  do clock <- next_clock;
  let record := {|
    rec_id := dr_record_id draw;
    rec_kind := kind;
    rec_fields := fields_from_payload payload clock;
    rec_deleted_at := None;
    rec_clock := clock;
    rec_device_id := device_id (v_meta v);
    rec_modified_at := dr_now draw;
    rec_share_id := share |} in
  run append record (dr_entry_id draw) (dr_nonce draw);
  sret (rec_id record).

Definition add {T} `{Payload T} (kind : Kind) (name_field name : string) (payload : T)
    (draw : Draw) : VM Uuid := add_in kind name_field name payload uuid_nil draw.

Definition edit {T} `{Payload T} (kind : Kind) (name_field name : string) (payload : T)
    (draw : Draw) : VM unit :=
  run slift (validate_payload kind payload);
  do v <- sget snd;
  do old <- slift (ok_or (VaultError.NoSuchRecord (kind_str kind) name)
                    (find_record v kind name_field name));
  do clock <- next_clock;
  let fields := edit_fields (rec_fields old) (fields_from_payload payload clock) in
  let record := {|
    rec_id := rec_id old;
    rec_kind := kind;
    rec_fields := fields;
    rec_deleted_at := rec_deleted_at old;
    rec_clock := clock;
    rec_device_id := device_id (v_meta v);
    rec_modified_at := dr_now draw;
    rec_share_id := rec_share_id old |} in
  append record (dr_entry_id draw) (dr_nonce draw).

Definition remove (kind : Kind) (name_field name : string) (draw : Draw) : VM unit :=
  do v <- sget snd;
  do old <- slift (ok_or (VaultError.NoSuchRecord (kind_str kind) name)
                    (find_record v kind name_field name));
  do clock <- next_clock;
  let tomb := {|
    rec_id := rec_id old;
    rec_kind := Kind.Tombstone;
    rec_fields := ∅;
    rec_deleted_at := Some clock;
    rec_clock := clock;
    rec_device_id := device_id (v_meta v);
    rec_modified_at := dr_now draw;
    rec_share_id := rec_share_id old |} in
  append tomb (dr_entry_id draw) (dr_nonce draw).

(* ---------------------------------------------------------------- *)
(** ** Share names *)

Definition share_of_name (sn : ShareName) : option Uuid :=
  b ← b64_decode (share_id_b64 sn); try_into 16 b.

Definition resolve_share (v : Vault) (name : string) : option Uuid :=
  r ← find_record v Kind.ShareName "name" name;
  sn ← payload r; share_of_name sn.

Definition share_names (v : Vault) : list (string * Uuid) :=
  omap (λ p : Uuid * ShareName, (λ id, (share_name p.2, id)) <$> share_of_name p.2)
    (list_of ShareName v Kind.ShareName).

(* ---------------------------------------------------------------- *)
(** ** Export and import *)

Definition export_array (T : Type) `{Payload T} (v : Vault) (kind : Kind) : Value :=
  JArray ((λ p : Uuid * T, to_value p.2) <$> list_of T v kind).

Definition export_json (v : Vault) : Value :=
  JObject (foldr (λ kv m, obj_insert kv.1 kv.2 m) []
    [("version", JInt 1);
     ("hosts", export_array Host v Kind.Host);
     ("snippets", export_array Snippet v Kind.Snippet);
     ("forwards", export_array PortForward v Kind.PortForward);
     ("keys", export_array KeyMeta v Kind.KeyMeta)]).

(** [json.get(key).and_then(as_array)], an empty array otherwise. *)
Definition json_items (json : Value) (key : string) : list Value :=
  match json with
  | JObject m => match obj_get key m with Some (JArray l) => l | _ => [] end
  | _ => []
  end.

(** A duplicate is counted, any other error ends the import. *)
Definition count_add (t : Tally) (m : VM Uuid) : VM Tally :=
  λ w, let '(i, imported, skipped) := t in
       match m w with
       | (w', Ok _) => (w', Ok (S i, imported + 1, skipped))
       | (w', Err (VaultError.Duplicate _ _)) => (w', Ok (S i, imported, skipped + 1))
       | (w', Err e) => (w', Err e)
       end.

Fixpoint import_items {T} `{Payload T} (key : string) (kind : Kind) (name_field : string)
    (name : T → string) (draws : nat → Draw) (items : list Value) (t : Tally) : VM Tally :=
  match items with
  | [] => sret t
  | item :: items =>
      do payload <- slift (ok_or (VaultError.Corrupt ("import " +:+ key)) (from_value item));
      do t <- count_add t (add kind name_field (name payload) payload (draws t.1.1));
      import_items key kind name_field name draws items t
  end.

Definition import_json (json : Value) (draws : nat → Draw) : VM (Z * Z) :=
  do t <- import_items "hosts" Kind.Host "alias" alias draws (json_items json "hosts") (0%nat, 0, 0);
  do t <- import_items "snippets" Kind.Snippet "name" snippet_name draws (json_items json "snippets") t;
  do t <- import_items "forwards" Kind.PortForward "name" fwd_name draws (json_items json "forwards") t;
  do t <- import_items "keys" Kind.KeyMeta "name" key_name draws (json_items json "keys") t;
  sret (t.1.2, t.2).
End crud.
