(* ===== verification/Lifecycle.v ===== *)
(** * Lifecycle: creating, opening and re-keying a vault ([src/src/vault.rs]) *)

From Stdlib Require Import ZArith Lia String.
From S2P Require Import Prelude Text Record Merge Extern Crypto Log Keyring Validate Vault.

#[local] Open Scope string_scope.
#[local] Open Scope list_scope.
#[local] Open Scope Z_scope.

(** What creating a vault draws. *)
Record InitDraw := mkInitDraw {
  in_salt : arr 16;
  in_device_id : Uuid;
  in_nonce : Nonce
}.

Section lifecycle.
Context `{Aead} `{Hkdf} `{X25519} `{Ed25519} `{Argon2} `{Bip39} `{Base64} `{HashOrder}.
Context `{MsgPack Keyring} `{MsgPack Rec} `{MsgPack Snapshot} `{JsonText Meta}.
#[local] Open Scope mon_scope.

(** [derive_kek] of the vault: the salt is stored in base64. *)
Definition vault_kek (meta : Meta) (passphrase : string) : res VaultError Secret32 :=
  res_bind (ok_or (VaultError.Corrupt "kdf salt") (b64_decode (salt_b64 (kdf meta)))) (λ salt,
  res_map_err VaultError.Crypto
    (derive_kek (as_bytes passphrase) salt (m_kib (kdf meta)) (kdf_t (kdf meta)) (kdf_p (kdf meta)))).

Definition create_with_keys (device_name passphrase : string) (id : Uuid)
    (vault_key : Secret32) (recovery_pub : PubKey) (device : DeviceKeys)
    (draw : InitDraw) (d : Disk) : Disk * res VaultError Vault :=
  match f_meta d with
  | Some _ => (d, Err VaultError.AlreadyExists)
  | None =>
      let kdf := {| salt_b64 := b64_encode (arr_bytes (in_salt draw));
                    m_kib := ARGON2_M_KIB; kdf_t := ARGON2_T; kdf_p := ARGON2_P |} in
      let meta := {|
        vault_id := id;
        device_id := in_device_id draw;
        device_name := device_name;
        kdf := kdf;
        x25519_pub_b64 := b64_encode (arr_bytes (x_public (x25519 device)));
        ed25519_pub_b64 := b64_encode (arr_bytes (ed_public (ed25519 device)));
        recovery_pub_b64 := b64_encode (arr_bytes recovery_pub);
        meta_lamport := 0;
        relay_url := None;
        sync_cursor := 0 |} in
      let keyring := {|
        kr_shares := [mkShareKeys NIL [vault_key]];
        kr_vault_keys := [];
        kr_vault_key := None;
        kr_x25519_secret := x25519 device;
        kr_ed25519_secret := ed25519 device |} in
      match vault_kek meta passphrase with
      | Err e => (d, Err e)
      | Ok kek =>
          let vault := mkVault meta keyring kek ∅ in
          let d := fst (exec (write_keyring (in_nonce draw)) (d, vault)) in
          let d := fst (exec write_meta (d, vault)) in
          (set_f_log [] d, Ok vault)
      end
  end.

Definition create (device_name passphrase : string) (id : Uuid) (vault_key : Secret32)
    (recovery_pub : PubKey) (x e : Secret32) (draw : InitDraw) (d : Disk)
    : Disk * res VaultError Vault :=
  create_with_keys device_name passphrase id vault_key recovery_pub (new_device_keys x e) draw d.

(** [None] stands for the panic of [new_phrase]. *)
Definition init (device_name passphrase : string) (entropy : arr 32) (id : Uuid)
    (x e : Secret32) (draw : InitDraw) (d : Disk)
    : option (Disk * res VaultError (Vault * string)) :=
  match new_phrase entropy with
  | None => None
  | Some (phrase, keys) =>
      let recovery_pub := ed_public (recovery_signing keys) in
      let '(d, r) := create device_name passphrase id (vault_key keys) recovery_pub x e draw d in
      Some (d, res_bind r (λ v, Ok (v, phrase)))
  end.

Definition open_vault (passphrase : string) (nonce : Nonce) (d : Disk)
    : Disk * res VaultError Vault :=
  match f_meta d with
  | None => (d, Err VaultError.NotFound)
  | Some text =>
      let keys : res VaultError (Meta * Secret32 * Keyring) :=
        res_bind (ok_or (VaultError.Corrupt "meta.json") (json_from_str text)) (λ meta,
        res_bind (vault_kek meta passphrase) (λ kek,
        res_bind (ok_or VaultError.Io (f_keyring d)) (λ sealed,
        res_bind (res_map_err VaultError.Crypto (open kek sealed (arr_bytes (vault_id meta)))) (λ plain,
        res_bind (ok_or (VaultError.Corrupt "keyring") (mp_decode plain)) (λ keyring,
        Ok (meta, kek, normalize keyring)))))) in
      match keys with
      | Err e => (d, Err e)
      | Ok (meta, kek, keyring) =>
          let '(w, r) := replay_log nonce (d, mkVault meta keyring kek ∅) in
          (w.1, res_bind r (λ _, Ok w.2))
      end
  end.

(** Re-read the metadata and replay the log; the keyring is not re-read. *)
Definition reload (nonce : Nonce) : VM unit :=
  do text <- read_file f_meta;
  do meta <- slift (ok_or (VaultError.Corrupt "meta.json") (json_from_str text));
  run self (with_meta meta);
  replay_log nonce.

(* ---------------------------------------------------------------- *)
(** ** Keys *)

Definition rekey (f : Keyring → Keyring) : VM unit :=
  self (λ v, with_keyring (f (v_keyring v)) v).

Definition set_vault_key (list : bytes) (nonce : Nonce) : VM unit :=
  do entries <- raw_entries;
  run sguard (match entries with [] => true | _ => false end)
        (VaultError.Corrupt "refusing to swap vault key on a non-empty log");
  do keys <- slift (split_key_list list);
  run rekey (set_share_keys NIL keys);
  run rekey (λ k, mkKeyring (kr_shares k) [] None (kr_x25519_secret k) (kr_ed25519_secret k));
  run write_keyring nonce;
  self (with_state ∅).

Definition absorb_share_key (share : Uuid) (list : bytes) (nonce : Nonce) : VM unit :=
  do v <- sget snd;
  do news <- slift (absorb_keys share list (v_keyring v));
  match news with
  | None => sret tt
  | Some k => run rekey (λ _, k); write_keyring nonce
  end.

Definition absorb_vault_key_list (list : bytes) (nonce : Nonce) : VM unit :=
  absorb_share_key uuid_nil list nonce.

Definition epoch (v : Vault) : Z := share_epoch (v_keyring v) NIL.

Definition rotate (phrase : string) (nonce : Nonce) : VM Z :=
  do v <- sget snd;
  let next := u32_wrap (epoch v + 1) in
  do key <- crypto (vault_key_at_epoch phrase next);
  run rekey (push_share_key NIL key);
  run write_keyring nonce;
  sret next.

Definition create_share (id : Uuid) (key : Secret32) (nonce : Nonce) : VM Uuid :=
  run rekey (push_share_key id key);
  run write_keyring nonce;
  sret id.

Definition rotate_share (share : Uuid) (key : Secret32) (nonce : Nonce) : VM Z :=
  do v <- sget snd;
  run sguard (has_share (v_keyring v) share) (VaultError.Corrupt "not a member of this share");
  run rekey (push_share_key share key);
  run write_keyring nonce;
  do v <- sget snd;
  sret (share_epoch (v_keyring v) share).
End lifecycle.
