(* ===== verification/VaultInv.v ===== *)
(** * VaultInv: the invariant of an open vault

    The in-memory state of a vault is the merge of the records its keyring
    opens in the log ([refines]); the files on disk agree with the handle; a
    snapshot, when its key set is the one held, is the merge of the prefix it
    covers.  This file proves that every storage operation keeps it; [Crud.v]
    operations are composed of these in [CrudFacts.v]. *)

From Stdlib Require Import ZArith Lia String.
From S2P Require Import Prelude Text Record Merge Extern Crypto Log Keyring Validate Vault.

#[local] Open Scope string_scope.
#[local] Open Scope list_scope.
#[local] Open Scope Z_scope.

(** ** The records of a log *)

Section open_facts.
Context `{AeadLaws} `{!AeadCommit} `{MsgPackLaws Rec}.

(** One key opens a blob, wherever it is among the keys tried. *)
Lemma open_one_key k k' blob aad plain plain' : open k blob aad = Ok plain → open k' blob aad = Ok plain' → k' = k.
Proof.
  intros (n & ->)%open_iff (n' & E)%open_iff.
  apply app_inj_1 in E as [En E]; [|by rewrite !arr_length]. apply arr_eq in En as ->.
  eapply (aead_commit k k' n' aad plain plain'). rewrite E. apply aead_round.
Qed.

Lemma try_keys_found keys key eid blob plain :
  key ∈ keys → open key blob (arr_bytes eid) = Ok plain →
  try_keys keys eid blob = match mp_decode plain with
    | Some rec => Ok (Some rec) | None => Err (VaultError.Corrupt "log entry") end.
Proof.
  intros Hk Hopen. induction keys as [|k keys IH]; [by apply not_elem_of_nil in Hk|].
  cbn [try_keys]. destruct (open k _ _) as [plain'|] eqn:E.
  - rewrite <- (open_one_key _ _ _ _ _ _ E Hopen) in E. rewrite Hopen in E. by injection E as <-.
  - apply IH. apply elem_of_cons in Hk as [<-|Hk]; [congruence | done].
Qed.

Lemma try_keys_open keys key eid blob plain rec :
  key ∈ keys → open key blob (arr_bytes eid) = Ok plain → mp_decode plain = Some rec →
  try_keys keys eid blob = Ok (Some rec).
Proof. intros Hk Ho Hd. by rewrite (try_keys_found _ _ _ _ _ Hk Ho), Hd. Qed.

(** Keys that open a blob as others do, tried in any order. *)
Lemma try_keys_fresh keys keys' eid blob : keys ⊆ keys' →
  (∀ key plain, key ∈ keys' → open key blob (arr_bytes eid) = Ok plain → key ∈ keys) →
  try_keys keys' eid blob = try_keys keys eid blob.
Proof.
  intros Hsub Hold.
  assert (Hnone : ∀ l, (∀ key plain, key ∈ l → open key blob (arr_bytes eid) ≠ Ok plain) → try_keys l eid blob = Ok None).
  { induction l as [|k l IH]; intros Hl; [done|]. cbn [try_keys]. destruct (open k _ _) as [plain|] eqn:E.
    - destruct (Hl k plain); [constructor | done].
    - apply IH. intros key plain Hin. apply Hl. by constructor. }
  destruct (List.find (λ key, match open key blob (arr_bytes eid) with Ok _ => true | _ => false end) keys) as [key|] eqn:E.
  - apply find_some in E as [Hin Ho]. apply list_elem_of_In in Hin.
    destruct (open key blob (arr_bytes eid)) as [plain|] eqn:Hopen; [|done].
    by rewrite (try_keys_found keys' key _ _ plain), (try_keys_found keys key _ _ plain) by auto.
  - assert (Hno : ∀ key plain, key ∈ keys → open key blob (arr_bytes eid) ≠ Ok plain).
    { intros key plain Hin%list_elem_of_In Ho. eapply find_none in E; [|exact Hin]. by rewrite Ho in E. }
    rewrite (Hnone keys Hno). apply Hnone. intros key plain Hin Ho. by apply (Hno key plain); [eapply Hold|].
Qed.

Lemma try_keys_some keys eid blob rec : try_keys keys eid blob = Ok (Some rec) →
  ∃ key plain, key ∈ keys ∧ open key blob (arr_bytes eid) = Ok plain ∧ mp_decode plain = Some rec.
Proof.
  induction keys as [|k keys IH]; [done|]. cbn [try_keys]. destruct (open k _ _) as [plain|] eqn:E.
  - destruct (mp_decode plain) as [x|] eqn:Ed; [|done]. intros [= ->]. exists k, plain. by split; [constructor|].
  - intros (key & plain & Hin & Hrest)%IH. exists key, plain. by split; [constructor|].
Qed.

Lemma try_keys_seal keys key n rec eid :
  key ∈ keys → try_keys keys eid (seal n key (mp_encode rec) (arr_bytes eid)) = Ok (Some rec).
Proof. intros Hk. eapply try_keys_open; [exact Hk | apply open_seal | apply mp_round]. Qed.

(** More keys open what fewer did. *)
Lemma open_entry_more k k' eid blob rec : trial_keys k ⊆ trial_keys k' →
  open_entry k eid blob = Ok (Some rec) → open_entry k' eid blob = Ok (Some rec).
Proof.
  intros Hsub (key & plain & Hin & Ho & Hd)%try_keys_some. by eapply try_keys_open; [apply Hsub|..].
Qed.

Lemma open_entries_more k k' frames : trial_keys k ⊆ trial_keys k' →
  (∀ f, f ∈ frames → ∃ rec, open_entry k f.1 f.2 = Ok (Some rec)) → open_entries k' frames = open_entries k frames.
Proof.
  intros Hsub. induction frames as [|[id blob] frames IH]; intros Hall; [done|]. cbn [open_entries].
  destruct (Hall (id, blob)) as [rec Ho]; [constructor|]. simpl in Ho.
  rewrite Ho, (open_entry_more _ _ _ _ _ Hsub Ho), IH; [done|]. intros f Hf. apply Hall. by constructor.
Qed.

Lemma open_entry_seal kr id key n rec eid :
  keyring_wf kr → current_for kr id = Some key →
  open_entry kr eid (seal n key (mp_encode rec) (arr_bytes eid)) = Ok (Some rec).
Proof.
  intros (Hnd & _) Hc. apply try_keys_seal. apply (trial_keys_in _ id); [done|].
  unfold current_for, keys_of in *. destruct (share kr id) as [s|]; simpl in *; [|done].
  apply last_Some in Hc as [l ->]. apply elem_of_app. right. by apply list_elem_of_singleton.
Qed.
End open_facts.

Section log_facts.
Context `{Aead} `{MsgPack Rec}.

Lemma open_entries_app kr fs gs rs ss :
  open_entries kr fs = Ok rs → open_entries kr gs = Ok ss →
  open_entries kr (fs ++ gs) = Ok (rs ++ ss).
Proof.
  revert rs. induction fs as [|[id blob] fs IH]; intros rs; simpl; [by intros [= <-]|].
  destruct (open_entry kr id blob) as [o|]; simpl; [|done].
  destruct (open_entries kr fs) as [rs'|]; simpl; [|done]. intros [= <-] Hss.
  rewrite (IH rs') by done. simpl. by rewrite app_assoc.
Qed.

Lemma open_entries_app_inv kr fs gs rs :
  open_entries kr (fs ++ gs) = Ok rs →
  ∃ r1 r2, rs = r1 ++ r2 ∧ open_entries kr fs = Ok r1 ∧ open_entries kr gs = Ok r2.
Proof.
  revert rs. induction fs as [|[id blob] fs IH]; intros rs; simpl; [intros ->; by exists [], rs|].
  destruct (open_entry kr id blob) as [o|]; simpl; [|done].
  destruct (open_entries kr (fs ++ gs)) as [rs'|] eqn:E; simpl; [|done]. intros [= <-].
  destruct (IH rs' eq_refl) as (r1 & r2 & -> & -> & ->). simpl.
  eexists _, _. split_and!; [|done..]. by rewrite app_assoc.
Qed.

Lemma open_entries_snoc kr fs rs id blob o :
  open_entries kr fs = Ok rs → open_entry kr id blob = Ok o →
  open_entries kr (fs ++ [(id, blob)]) = Ok (rs ++ option_list o).
Proof.
  intros Hrs Ho. apply open_entries_app; [done|]. simpl. rewrite Ho. simpl. by rewrite app_nil_r.
Qed.

Lemma open_entries_in k frames recs f :
  open_entries k frames = Ok recs → f ∈ frames → ∃ o, open_entry k f.1 f.2 = Ok o.
Proof.
  revert recs. induction frames as [|[id blob] frames IH]; intros recs; simpl; [by intros _ ?%not_elem_of_nil|].
  destruct (open_entry k id blob) as [o|] eqn:Eo; simpl; [|done].
  destruct (open_entries k frames) as [rs|]; simpl; [|done]. intros _ [->|Hf]%elem_of_cons; eauto.
Qed.

Lemma open_entries_records k frames recs r :
  open_entries k frames = Ok recs → r ∈ recs ↔ ∃ f, f ∈ frames ∧ open_entry k f.1 f.2 = Ok (Some r).
Proof.
  revert recs. induction frames as [|[id blob] frames IH]; intros recs; simpl.
  { intros [= <-]. split; [by intros ?%not_elem_of_nil | by intros (f & ?%not_elem_of_nil & _)]. }
  destruct (open_entry k id blob) as [o|] eqn:Eo; simpl; [|done].
  destruct (open_entries k frames) as [rs|]; simpl; [|done]. intros [= <-].
  rewrite elem_of_app, (IH rs eq_refl), elem_of_opt. split.
  - intros [->|(f & Hf & Hr)]; [exists (id, blob) | exists f]; (split; [|done]); by constructor.
  - intros (f & [->|Hf]%elem_of_cons & Hr); [left | right; eauto]. simpl in Hr. congruence.
Qed.

(** Folding while reading is merging what was read. *)
Lemma fold_frames_open kr fs rs s :
  open_entries kr fs = Ok rs → fold_frames kr fs s = Ok (foldl merge_step s rs).
Proof.
  revert rs s. induction fs as [|[id blob] fs IH]; intros rs s; simpl; [by intros [= <-]|].
  destruct (open_entry kr id blob) as [o|]; simpl; [|done].
  destruct (open_entries kr fs) as [rs'|]; simpl; [|done]. intros [= <-].
  rewrite (IH rs') by done. by destruct o.
Qed.

(** The one error is that of the first frame that opens and does not parse. *)
Lemma try_keys_err keys eid blob e : try_keys keys eid blob = Err e →
  e = VaultError.Corrupt "log entry" ∧
  ∃ key plain, key ∈ keys ∧ open key blob (arr_bytes eid) = Ok plain ∧ mp_decode plain = None (A := Rec).
Proof.
  induction keys as [|k keys IH]; [done|]. cbn [try_keys]. destruct (open k _ _) as [plain|] eqn:E.
  - destruct (mp_decode plain) eqn:Ed; [done|]. intros [= <-]. split; [done|]. exists k, plain. by split; [constructor|].
  - intros (-> & key & plain & Hin & Hrest)%IH. split; [done|]. exists key, plain. by split; [constructor|].
Qed.

Lemma open_entries_err kr fs e : open_entries kr fs = Err e →
  ∃ f, f ∈ fs ∧ open_entry kr f.1 f.2 = Err e.
Proof.
  induction fs as [|[id blob] fs IH]; [done|]. cbn [open_entries].
  destruct (open_entry kr id blob) as [o|e'] eqn:Eo; cbn [res_bind].
  - destruct (open_entries kr fs); cbn [res_bind]; [done|]. intros [= ->].
    destruct IH as (f & Hf & He); [done|]. exists f. by split; [constructor|].
  - intros [= ->]. exists (id, blob). by split; [constructor|].
Qed.

Lemma fold_frames_err kr fs s e : open_entries kr fs = Err e → fold_frames kr fs s = Err e.
Proof.
  revert s. induction fs as [|[id blob] fs IH]; intros s; [done|]. cbn [open_entries fold_frames].
  destruct (open_entry kr id blob) as [o|e']; cbn [res_bind]; [|congruence].
  destruct (open_entries kr fs); cbn [res_bind]; [done|]. intros [= ->]. by apply IH.
Qed.

Lemma open_entries_app_err kr fs gs rs e :
  open_entries kr (fs ++ gs) = Err e → open_entries kr fs = Ok rs → open_entries kr gs = Err e.
Proof.
  intros He Hfs. destruct (open_entries kr gs) as [ss|e'] eqn:Hgs.
  - by rewrite (open_entries_app _ _ _ _ _ Hfs Hgs) in He.
  - apply open_entries_err in He as (f & [Hf|Hf]%elem_of_app & Hopen).
    + destruct (open_entries_in _ _ _ _ Hfs Hf) as [o Ho]. congruence.
    + apply open_entries_err in Hgs as (g & _ & Hg). apply try_keys_err in Hopen as [-> _], Hg as [-> _]. done.
Qed.
End log_facts.

(** The records of a map keyed by their ids, collected in any order. *)
Lemma collect_records_perm (l : list Rec) (m : gmap Uuid Rec) :
  (∀ id r, m !! id = Some r → rec_id r = id) → l ≡ₚ (map_to_list m).*2 → collect_records l = m.
Proof.
  intros Hid Hl.
  assert (Hc : ∀ k s, foldl (λ (m : gmap Uuid Rec) r, <[rec_id r := r]> m) s k =
    list_to_map ((λ r, (rec_id r, r)) <$> reverse k) ∪ s).
  { induction k as [|r k IH]; intros s; simpl; [by rewrite (left_id_L ∅ (∪))|].
    rewrite IH, reverse_cons, fmap_app, list_to_map_app, <-map_union_assoc. f_equal.
    simpl. by rewrite insert_empty, <-insert_union_singleton_l. }
  unfold collect_records. rewrite Hc, (right_id_L ∅ (∪)).
  assert (Hids : (λ r, rec_id r) <$> (map_to_list m).*2 = (map_to_list m).*1).
  { rewrite <-!list_fmap_compose. apply list_fmap_ext. intros i [id r] Hin. simpl.
    apply Hid, elem_of_map_to_list. by eapply list_elem_of_lookup_2. }
  assert (Hp : (λ r, (rec_id r, r)) <$> reverse l ≡ₚ map_to_list m).
  { rewrite reverse_Permutation, Hl, <-list_fmap_compose.
    apply Permutation_refl'. etransitivity; [|apply list_fmap_id].
    apply list_fmap_ext. intros i [id r] Hin. simpl. f_equal.
    apply Hid, elem_of_map_to_list. by eapply list_elem_of_lookup_2. }
  rewrite (list_to_map_proper _ (map_to_list m)); [apply list_to_map_to_list | | done].
  rewrite Hp. apply NoDup_fst_map_to_list.
Qed.

(* ------------------------------------------------------------------ *)
(** ** The invariant *)

Section inv.
Context `{Aead} `{MsgPack Keyring} `{MsgPack Rec} `{MsgPack Snapshot} `{JsonText Meta}.

(** The frames of the log on disk. *)
Definition frames_of (w : World) : list RawEntry :=
  match f_log w.1 with
  | Some data => match parse_frames data with Ok frames => frames | Err _ => [] end
  | None => []
  end.

(** The log holds [frames], of which the keyring opens [recs]. *)
Definition log_holds (w : World) (frames : list RawEntry) (recs : list Rec) : Prop :=
  ∃ data, f_log w.1 = Some data ∧ parse_frames data = Ok frames ∧
          open_entries (v_keyring w.2) frames = Ok recs.

(** The abstract vault is the sequence of records written and received. *)
Definition refines (w : World) (recs : list Rec) : Prop :=
  (∃ frames, log_holds w frames recs) ∧ v_state w.2 = merge_all recs.

(** A snapshot covers no more than there is, and when its key set is the one
    held it is the merge of the prefix it covers. *)
Definition covers (k : Keyring) (frames : list RawEntry) (s : Snapshot) : Prop :=
  0 ≤ covered s ≤ Z.of_nat (length frames) ∧
  (same_epoch_set (snap_shares s) (held_share_epochs k) = true →
   ∃ rs, open_entries k (take (Z.to_nat (covered s)) frames) = Ok rs ∧
         collect_records (snap_records s) = merge_all rs).
Definition snapshot_ok (w : World) : Prop :=
  ∀ s frames recs, read_snapshot w.1 w.2 = Some s → log_holds w frames recs → covers (v_keyring w.2) frames s.

(** No clock in the state is ahead of the device's own counter. *)
Definition clocks_bounded (w : World) : Prop :=
  ∀ id r, v_state w.2 !! id = Some r →
    lamport (rec_clock r) ≤ meta_lamport (v_meta w.2) ∧
    (∀ d, rec_deleted_at r = Some d → lamport d ≤ meta_lamport (v_meta w.2)) ∧
    (∀ k f, rec_fields r !! k = Some f → lamport (field_clock f) ≤ meta_lamport (v_meta w.2)).

Record vault_inv (w : World) : Prop := {
  inv_keyring : keyring_wf (v_keyring w.2);
  inv_meta : f_meta w.1 = Some (json_to_string (v_meta w.2));
  inv_keyfile : ∃ n, f_keyring w.1 = Some (seal n (v_kek w.2) (mp_encode (v_keyring w.2))
                                            (arr_bytes (vault_id (v_meta w.2))));
  inv_log : ∃ recs, refines w recs;
  inv_snapshot : snapshot_ok w;
  inv_lamport : 0 ≤ meta_lamport (v_meta w.2)
}.

(** The log stays below the 4 GiB a frame header can describe. *)
Definition log_small (d : Disk) : Prop :=
  ∀ data, f_log d = Some data → Z.of_nat (length data) ≤ u32_max.
End inv.

(** The log only grows; a grown log that is small was small before. *)
Definition log_ext (w w' : World) : Prop :=
  ∀ data, f_log w.1 = Some data → ∃ more, f_log w'.1 = Some (data ++ more).

Lemma log_ext_small w w' : log_ext w w' → log_small w'.1 → log_small w.1.
Proof.
  intros He Hs data Hd. destruct (He data Hd) as [more Hm]. specialize (Hs _ Hm).
  rewrite length_app in Hs. lia.
Qed.

(** The step of an append on the log, whatever is sealed in the frame. *)
Section frame_step.
Context `{Aead} `{MsgPack Keyring} `{MsgPack Rec} `{MsgPack Snapshot} `{JsonText Meta}.

Lemma log_holds_fun w f1 r1 f2 r2 :
  log_holds w f1 r1 → log_holds w f2 r2 → f1 = f2 ∧ r1 = r2.
Proof.
  intros (d1 & E1 & P1 & O1) (d2 & E2 & P2 & O2).
  rewrite E1 in E2. injection E2 as <-. rewrite P1 in P2. injection P2 as <-.
  rewrite O1 in O2. by injection O2 as <-.
Qed.

Lemma log_small_fits data id blob d :
  log_small d → f_log d = Some (data ++ frame id blob) → frame_fits (id, blob).
Proof.
  intros Hs Hd. specialize (Hs _ Hd). rewrite length_app, length_frame in Hs.
  unfold frame_fits. simpl snd. lia.
Qed.

Lemma log_holds_append w frames recs id blob o data :
  f_log w.1 = Some data → log_holds w frames recs → frame_fits (id, blob) →
  open_entry (v_keyring w.2) id blob = Ok o →
  ∀ v', v_keyring v' = v_keyring w.2 →
  log_holds (set_f_log (data ++ frame id blob) w.1, v')
    (frames ++ [(id, blob)]) (recs ++ option_list o).
Proof.
  intros Hd (d' & Hd' & Hp & Ho) Hfit Hopen v' Hv'. rewrite Hd in Hd'. injection Hd' as <-.
  exists (data ++ frame id blob). split_and!; [done| |].
  - by apply parse_frames_append.
  - simpl. rewrite Hv'. by apply open_entries_snoc.
Qed.

(** Logs and their frames. *)
Lemma frames_of_holds w frames recs : log_holds w frames recs → frames_of w = frames.
Proof. intros (data & Hd & Hp & _). unfold frames_of. by rewrite Hd, Hp. Qed.

Lemma covers_more k frames more s : covers k frames s → covers k (frames ++ more) s.
Proof.
  intros [Hc He]. split; [rewrite length_app; lia|]. intros Hsame. rewrite take_app_le by lia. by apply He.
Qed.

(** A snapshot of a prefix of the log is one of a prefix of a longer log. *)
Lemma snapshot_ok_append w frames recs id blob o data :
  f_log w.1 = Some data → log_holds w frames recs → frame_fits (id, blob) →
  open_entry (v_keyring w.2) id blob = Ok o → snapshot_ok w →
  ∀ d' v', f_log d' = Some (data ++ frame id blob) → f_snapshot d' = f_snapshot w.1 →
    v_keyring v' = v_keyring w.2 → v_kek v' = v_kek w.2 →
    vault_id (v_meta v') = vault_id (v_meta w.2) →
  snapshot_ok (d', v').
Proof.
  intros Hd Hl Hfit Ho Hs d' v' Hd' Hsn Hk Hkek Hid s fs rs Hr Hl'.
  assert (Hr' : read_snapshot w.1 w.2 = Some s).
  { unfold read_snapshot in *. simpl in Hr. by rewrite Hsn, Hkek, Hid in Hr. }
  assert (fs = frames ++ [(id, blob)]) as ->.
  { pose proof (log_holds_append w _ _ id blob o data Hd Hl Hfit Ho v' Hk) as Ha.
    destruct Hl' as (x & Hx & Px & _), Ha as (y & Hy & Py & _). simpl in *. congruence. }
  simpl. rewrite Hk. apply covers_more. by apply (Hs s frames recs).
Qed.
End frame_step.

(* ------------------------------------------------------------------ *)
(** ** What each storage operation does to a vault that satisfies it *)

Section steps.
Context `{AeadLaws} `{!AeadCommit} `{MsgPackLaws Keyring} `{MsgPackLaws Rec}.
Context `{MsgPackLaws Snapshot} `{JsonTextLaws Meta} `{HashOrderLaws}.

Definition set_meta (m : Meta) (w : World) : World :=
  (set_f_meta (json_to_string m) w.1, with_meta m w.2).

Lemma refines_ext w w' recs :
  f_log w'.1 = f_log w.1 → v_keyring w'.2 = v_keyring w.2 → v_state w'.2 = v_state w.2 →
  refines w recs → refines w' recs.
Proof.
  intros Hl Hk Hs [(frames & d & Hd & Hp & Ho) Hst]. split; [|by rewrite Hs].
  exists frames, d. by rewrite Hl, Hk.
Qed.

Lemma inv_set_meta w m :
  vault_inv w → vault_id m = vault_id (v_meta w.2) → 0 ≤ meta_lamport m → vault_inv (set_meta m w).
Proof.
  intros [Hk Hm [n Hf] [recs Hr] Hs Hl] Hid Hm0. split; simpl; try done.
  - exists n. by rewrite Hid.
  - exists recs. by apply (refines_ext w).
  - intros s fs rs Hsn Hh. apply (Hs s fs rs); [|exact Hh].
    unfold read_snapshot in *. simpl in Hsn. by rewrite Hid in Hsn.
Qed.

Lemma absorb_own_meta d m : f_meta d = Some (json_to_string m) → absorb_disk_meta_in d m = m.
Proof.
  intros Hd. unfold absorb_disk_meta_in. rewrite Hd. simpl. rewrite json_round.
  rewrite !Z.max_id. by destruct m.
Qed.

Definition tick (m : Meta) : Meta := with_lamport (u64_wrap (meta_lamport m + 1)) m.

Lemma next_clock_eq w :
  f_meta w.1 = Some (json_to_string (v_meta w.2)) →
  next_clock w = (set_meta (tick (v_meta w.2)) w,
                  Ok (mkClock (meta_lamport (tick (v_meta w.2))) (device_id (v_meta w.2)))).
Proof.
  intros Hm. destruct w as [d v]. simpl in *.
  unfold next_clock, absorb_disk_meta, write_meta, sbind, sget, sput, self, disk, sret; simpl.
  by rewrite absorb_own_meta.
Qed.

Lemma append_eq rec eid n w :
  append rec eid n w =
  match current_for (v_keyring w.2) (rec_share_id rec) with
  | None => (w, Err (VaultError.Corrupt "sealing under a share not held"))
  | Some key =>
      match f_log w.1 with
      | None => (w, Err VaultError.Io)
      | Some data =>
          ((set_f_log (data ++ frame eid (seal n key (mp_encode rec) (arr_bytes eid))) w.1,
            with_state (merge_step (v_state w.2) rec) w.2), Ok tt)
      end
  end.
Proof.
  destruct w as [d v].
  unfold append, write_frame, read_file, sbind, slift, sget, sput, self, disk; simpl.
  destruct (current_for _ _); simpl; [|done]. by destruct (f_log d).
Qed.

(** What a successful append leaves alone. *)
Definition same_but_log (w w' : World) : Prop :=
  f_meta w'.1 = f_meta w.1 ∧ f_keyring w'.1 = f_keyring w.1 ∧ f_snapshot w'.1 = f_snapshot w.1 ∧
  v_meta w'.2 = v_meta w.2 ∧ v_keyring w'.2 = v_keyring w.2 ∧ v_kek w'.2 = v_kek w.2.

Lemma inv_extend w w' recs id blob o data :
  vault_inv w → refines w recs → same_but_log w w' → f_log w.1 = Some data →
  f_log w'.1 = Some (data ++ frame id blob) → frame_fits (id, blob) →
  open_entry (v_keyring w.2) id blob = Ok o →
  v_state w'.2 = match o with Some r => merge_step (v_state w.2) r | None => v_state w.2 end →
  refines w' (recs ++ option_list o) ∧ vault_inv w'.
Proof.
  intros [Hk Hm [n Hf] _ Hs Hl0] [(frames & Hl) Hst] (E1 & E2 & E3 & E4 & E5 & E6) Hd Hd' Hfit Ho Hst'.
  assert (Hr' : refines w' (recs ++ option_list o)).
  { split.
    - exists (frames ++ [(id, blob)]).
      destruct (log_holds_append w frames recs id blob o data Hd Hl Hfit Ho (w'.2) E5)
        as (x & Hx & Hp & Hop). exists x. split_and!; try done. simpl in Hx. by rewrite Hd'.
    - rewrite Hst', Hst. destruct o; simpl; [by rewrite merge_all_snoc | by rewrite app_nil_r]. }
  split; [done|]. destruct w' as [d' v']. simpl in *. split; simpl; try congruence.
  - exists n. congruence.
  - eauto.
  - apply (snapshot_ok_append w frames recs id blob o data); try done. congruence.
Qed.

Lemma inv_append w w' recs rec eid n r :
  vault_inv w → refines w recs → append rec eid n w = (w', r) → log_small w'.1 →
  match r with
  | Ok _ => vault_inv w' ∧ refines w' (recs ++ [rec]) ∧ same_but_log w w' ∧
            v_state w'.2 = merge_step (v_state w.2) rec
  | Err _ => w' = w
  end.
Proof.
  intros Hinv Href. rewrite append_eq. destruct (current_for _ _) as [key|] eqn:Ek; [|naive_solver].
  destruct (f_log w.1) as [data|] eqn:Ed; [|naive_solver]. intros [= <- <-] Hsm. simpl in Hsm.
  destruct (inv_extend w (set_f_log (data ++ frame eid (seal n key (mp_encode rec) (arr_bytes eid))) w.1,
    with_state (merge_step (v_state w.2) rec) w.2) recs eid
    (seal n key (mp_encode rec) (arr_bytes eid)) (Some rec) data) as [Hr Hi]; try done.
  - by eapply log_small_fits.
  - eapply open_entry_seal; [apply Hinv | exact Ek].
Qed.

(** The metadata after a remote entry has been observed. *)
Definition observe (o : option Rec) (m : Meta) : Meta :=
  match o with
  | Some r => if meta_lamport m <? lamport (rec_clock r)
              then with_lamport (lamport (rec_clock r)) m else m
  | None => m
  end.
Definition merge_opt (s : gmap Uuid Rec) (o : option Rec) : gmap Uuid Rec :=
  match o with Some r => merge_step s r | None => s end.

Lemma apply_remote_eq eid blob w :
  f_meta w.1 = Some (json_to_string (v_meta w.2)) →
  apply_remote_entry eid blob w =
  match open_entry (v_keyring w.2) eid blob with
  | Err e => (w, Err e)
  | Ok o =>
      match f_log w.1 with
      | None => (w, Err VaultError.Io)
      | Some data =>
          (set_meta (observe o (v_meta w.2))
             (set_f_log (data ++ frame eid blob) w.1, with_state (merge_opt (v_state w.2) o) w.2),
           Ok tt)
      end
  end.
Proof.
  intros Hm. destruct w as [d v]. simpl in *.
  unfold apply_remote_entry, absorb_disk_meta, write_frame, write_meta, read_file, sbind, slift,
    sget, sput, self, disk, sret; simpl.
  destruct (open_entry _ _ _) as [o|]; simpl; [|done].
  assert (Hself : with_meta (absorb_disk_meta_in d (v_meta v)) v = v).
  { rewrite absorb_own_meta by done. by destruct v. }
  rewrite Hself. destruct (f_log d) as [data|]; simpl; [|done].
  destruct o as [r|]; simpl; [|by destruct v].
  destruct (_ <? _); [done | by destruct v].
Qed.

Lemma inv_apply_remote w w' recs eid blob r :
  vault_inv w → refines w recs → apply_remote_entry eid blob w = (w', r) → log_small w'.1 →
  match r with
  | Ok _ => ∃ o, open_entry (v_keyring w.2) eid blob = Ok o ∧
            vault_inv w' ∧ refines w' (recs ++ option_list o) ∧
            v_state w'.2 = merge_opt (v_state w.2) o ∧
            v_meta w'.2 = observe o (v_meta w.2) ∧ v_keyring w'.2 = v_keyring w.2
  | Err _ => w' = w
  end.
Proof.
  intros Hinv Href. rewrite apply_remote_eq by apply Hinv.
  destruct (open_entry _ _ _) as [o|e] eqn:Eo; [|naive_solver].
  destruct (f_log w.1) as [data|] eqn:Ed; [|naive_solver]. intros [= <- <-] Hsm. simpl in Hsm.
  exists o. split; [done|].
  set (w1 := (set_f_log (data ++ frame eid blob) w.1, with_state (merge_opt (v_state w.2) o) w.2)).
  destruct (inv_extend w w1 recs eid blob o data) as [Hr Hi]; try done.
  { by eapply log_small_fits. }
  split_and!; try done.
  - apply inv_set_meta; [done | |].
    + unfold observe. destruct o; [case_match|]; done.
    + pose proof (inv_lamport _ Hi). unfold observe. simpl in *.
      destruct o as [r|]; [|done]. destruct (Z.ltb_spec (meta_lamport (v_meta w.2)) (lamport (rec_clock r)));
        simpl; lia.
Qed.

(* ---------------------------------------------------------------- *)
(** ** Compaction and replay *)

Lemma compact_eq w frames recs n :
  log_holds w frames recs →
  compact n w =
  let state := merge_all recs in
  let v' := with_state state w.2 in
  if (length frames <=? size state)%nat then ((w.1, v'), Ok false)
  else ((set_f_snapshot (seal n (v_kek w.2) (mp_encode
           {| covered := Z.of_nat (length frames);
              snap_shares := held_share_epochs (v_keyring w.2);
              snap_records := hash_values state |}) (arr_bytes (vault_id (v_meta w.2)))) w.1, v'),
        Ok true).
Proof.
  intros (data & Hd & Hp & Ho). destruct w as [d v]. simpl in *.
  unfold compact, raw_entries, read_file, write_snapshot, sbind, slift, sget, sput, self, disk, sret.
  simpl. rewrite Hd. simpl. rewrite Hp. simpl. rewrite Ho. simpl.
  by destruct (_ <=? _)%nat.
Qed.

(** What compaction and replay leave alone: all but the snapshot and the state. *)
Definition same_but_cache (w w' : World) : Prop :=
  f_meta w'.1 = f_meta w.1 ∧ f_keyring w'.1 = f_keyring w.1 ∧ f_log w'.1 = f_log w.1 ∧
  v_meta w'.2 = v_meta w.2 ∧ v_keyring w'.2 = v_keyring w.2 ∧ v_kek w'.2 = v_kek w.2.

Lemma compact_frame n w w' r : compact n w = (w', r) → same_but_cache w w'.
Proof.
  destruct w as [d v]. unfold compact, raw_entries, read_file, write_snapshot, sbind, slift, sget, sput, self, disk, sret.
  simpl. destruct (f_log d) as [data|] eqn:Ed; simpl; [|by intros [= <- <-]].
  destruct (parse_frames data) as [frames|]; simpl; [|by intros [= <- <-]].
  destruct (open_entries _ frames) as [recs|]; simpl; [|by intros [= <- <-]].
  destruct (_ <=? _)%nat; by intros [= <- <-].
Qed.

Lemma replay_frame n w w' r : replay_log n w = (w', r) → same_but_cache w w'.
Proof.
  destruct w as [d v]. unfold replay_log, raw_entries, read_file, sbind, slift, sget, sput, self, sret.
  simpl. destruct (f_log d) as [data|]; simpl; [|by intros [= <- <-]].
  destruct (parse_frames data) as [frames|]; simpl; [|by intros [= <- <-]].
  destruct (fold_from_snapshot _ _ _) as [sc|]; simpl; [|by intros [= <- <-]].
  destruct (_ && _); [|by intros [= <- <-]].
  destruct (compact n (d, with_state sc.1 v)) as [w1 r1] eqn:Ec. apply compact_frame in Ec.
  destruct r1; intros [= <- <-]; exact Ec.
Qed.

Lemma collect_merged recs : collect_records (hash_values (merge_all recs)) = merge_all recs.
Proof.
  apply collect_records_perm.
  - intros id r. apply merge_all_some.
  - apply hash_values_perm.
Qed.

(** Compaction keeps everything but the snapshot, whose content it makes right. *)
Lemma inv_compact w frames recs n :
  vault_inv w → log_holds w frames recs →
  ∃ w' b, compact n w = (w', Ok b) ∧ vault_inv w' ∧ refines w' recs ∧
    f_log w'.1 = f_log w.1 ∧ f_meta w'.1 = f_meta w.1 ∧ f_keyring w'.1 = f_keyring w.1 ∧
    v_meta w'.2 = v_meta w.2 ∧ v_keyring w'.2 = v_keyring w.2 ∧ v_kek w'.2 = v_kek w.2 ∧
    v_state w'.2 = merge_all recs.
Proof.
  intros [Hk Hm Hf _ Hs Hl0] Hl. rewrite (compact_eq _ _ _ _ Hl). cbv zeta.
  assert (Hhold : ∀ d', f_log d' = f_log w.1 →
    log_holds (d', with_state (merge_all recs) w.2) frames recs).
  { intros d' Hd'. destruct Hl as (x & Hx & Hp & Ho). exists x. simpl. by rewrite Hd'. }
  destruct (Nat.leb_spec (length frames) (size (merge_all recs))) as [Hle|Hgt].
  - eexists _, false. split; [done|]. simpl.
    assert (Hr : refines (w.1, with_state (merge_all recs) w.2) recs) by (split; eauto).
    split_and!; try done. split; try done. eauto.
  - eexists _, true. split; [done|]. simpl.
    set (d' := set_f_snapshot _ _).
    assert (Hr : refines (d', with_state (merge_all recs) w.2) recs) by (split; eauto).
    split_and!; try done. split; try done; [eauto|].
    intros s fs rs Hsn Hl'. simpl in *.
    destruct (log_holds_fun _ _ _ _ _ Hl' (Hhold d' eq_refl)) as [-> ->].
    unfold read_snapshot in Hsn. simpl in Hsn. rewrite open_seal, mp_round in Hsn.
    injection Hsn as <-. unfold covers. simpl. split; [lia|]. intros _. exists recs.
    destruct Hl as (x & _ & _ & Ho). rewrite Nat2Z.id, firstn_all, collect_merged. done.
Qed.

(** With or without a usable snapshot the fold is the merge of the whole log,
    or fails as reading it all does. *)
Lemma fold_covers k frames o recs : (∀ s, o = Some s → covers k frames s) →
  open_entries k frames = Ok recs → ∃ n, fold_from_snapshot k frames o = Ok (merge_all recs, n).
Proof.
  intros Hs Ho. unfold fold_from_snapshot.
  assert (Hfull : ∃ n, res_bind (fold_frames k (drop 0 frames) ∅)
    (λ state, Ok (state, 0%nat)) = Ok (merge_all recs, n) :> res VaultError _).
  { exists 0%nat. by rewrite drop_0, (fold_frames_open _ _ recs). }
  destruct o as [s|]; [|exact Hfull]. destruct (Hs s eq_refl) as [Hc He].
  destruct (Z.leb_spec (covered s) (Z.of_nat (length frames))) as [_|]; [|lia].
  destruct (same_epoch_set _ _) eqn:Esame; [|exact Hfull]. simpl.
  destruct (He eq_refl) as (rs & Hrs & Hc').
  rewrite <-(take_drop (Z.to_nat (covered s)) frames) in Ho.
  apply open_entries_app_inv in Ho as (r1 & r2 & -> & Hr1 & Hr2).
  rewrite Hrs in Hr1. injection Hr1 as ->.
  rewrite Hc', (fold_frames_open _ _ r2) by done. simpl.
  eexists. by rewrite <-merge_all_app.
Qed.

Lemma fold_covers_err k frames o e : (∀ s, o = Some s → covers k frames s) →
  open_entries k frames = Err e → fold_from_snapshot k frames o = Err e.
Proof.
  intros Hs Ho. unfold fold_from_snapshot.
  assert (Hfull : res_bind (fold_frames k (drop 0 frames) ∅) (λ state, Ok (state, 0%nat)) = Err e :> res VaultError _).
  { by rewrite drop_0, (fold_frames_err _ _ _ e). }
  destruct o as [s|]; [|exact Hfull]. destruct (Hs s eq_refl) as [Hc He].
  destruct (Z.leb_spec (covered s) (Z.of_nat (length frames))) as [_|]; [|lia].
  destruct (same_epoch_set _ _) eqn:Esame; [|exact Hfull]. simpl.
  destruct (He eq_refl) as (rs & Hrs & Hc').
  rewrite <-(take_drop (Z.to_nat (covered s)) frames) in Ho.
  by rewrite (fold_frames_err _ _ _ e); [|eapply open_entries_app_err].
Qed.

Lemma fold_from_snapshot_full w frames recs :
  snapshot_ok w → log_holds w frames recs →
  ∃ n, fold_from_snapshot (v_keyring w.2) frames (read_snapshot w.1 w.2) = Ok (merge_all recs, n).
Proof.
  intros Hs Hl. apply fold_covers; [|by destruct Hl as (data & _ & _ & Ho)].
  intros s Es. by eapply Hs.
Qed.

(** Replaying a log whose other files are in order rebuilds the vault. *)
Lemma replay_log_ok w frames recs n :
  keyring_wf (v_keyring w.2) → f_meta w.1 = Some (json_to_string (v_meta w.2)) →
  (∃ n, f_keyring w.1 = Some (seal n (v_kek w.2) (mp_encode (v_keyring w.2))
                                (arr_bytes (vault_id (v_meta w.2))))) →
  0 ≤ meta_lamport (v_meta w.2) → snapshot_ok w → log_holds w frames recs →
  ∃ w', replay_log n w = (w', Ok tt) ∧ vault_inv w' ∧ refines w' recs ∧
    f_log w'.1 = f_log w.1 ∧ f_meta w'.1 = f_meta w.1 ∧ f_keyring w'.1 = f_keyring w.1 ∧
    v_meta w'.2 = v_meta w.2 ∧ v_keyring w'.2 = v_keyring w.2 ∧ v_kek w'.2 = v_kek w.2.
Proof.
  intros Hk Hm Hf Hl0 Hs Hl.
  destruct (fold_from_snapshot_full _ _ _ Hs Hl) as [start Hfold].
  pose proof Hl as (data & Hd & Hp & Ho). destruct w as [d v].
  set (w1 := (d, with_state (merge_all recs) v) : World).
  assert (Hl1 : log_holds w1 frames recs) by (by exists data).
  assert (Hinv : vault_inv w1) by (split; try done; exists recs; split; eauto).
  assert (Hrun : replay_log n (d, v) =
    if (COMPACT_THRESHOLD <? Z.of_nat (length frames - start))
       && (size (merge_all recs) <? length frames)%nat
    then sbind (compact n) (λ _, sret tt) w1 else (w1, Ok tt)).
  { unfold replay_log, raw_entries, read_file, sbind at 1 2 3 4 5 6 7, slift, sget, sput, self, sret.
    simpl in *. rewrite Hd. simpl. rewrite Hp. simpl. rewrite Hfold. simpl.
    by destruct (_ && _). }
  rewrite Hrun. destruct (_ && _).
  - destruct (inv_compact _ _ _ n Hinv Hl1) as (w' & b & Hc & Hinv' & Hr & E1 & E2 & E3 & E4 & E5 & E6 & _).
    exists w'. unfold sbind. rewrite Hc. by split_and!.
  - exists w1. split_and!; try done. split; eauto.
Qed.
End steps.
