(* ===== verification/CrudFacts.v ===== *)
(** * CrudFacts: what the record operations of a vault do

    Functional descriptions of [add], [edit], [remove] and [list] on every
    branch, over vaults satisfying the invariant of [VaultInv.v]. *)

From Stdlib Require Import ZArith Lia String.
From S2P Require Import Prelude Text Record Merge Extern Crypto Log Keyring Validate Vault Crud VaultInv.

#[local] Open Scope string_scope.
#[local] Open Scope list_scope.
#[local] Open Scope Z_scope.

(** ** Clocks *)

(** No clock in a record is ahead of [n]. *)
Definition rec_bounded (n : Z) (r : Rec) : Prop :=
  lamport (rec_clock r) ≤ n ∧ (∀ d, rec_deleted_at r = Some d → lamport d ≤ n) ∧
  (∀ k f, rec_fields r !! k = Some f → lamport (field_clock f) ≤ n).

Lemma rec_bounded_mono n m r : n ≤ m → rec_bounded n r → rec_bounded m r.
Proof. intros Hnm (H1 & H2 & H3). split_and!; [lia | |]; intros; etransitivity; eauto. Qed.

Lemma rec_bounded_merge n a b : rec_bounded n a → rec_bounded n b → rec_bounded n (merge a b).
Proof.
  intros (A1 & A2 & A3) (B1 & B2 & B3). rewrite merge_eq. split_and!; simpl.
  - by destruct (pick_either rec_clock a b) as [->| ->].
  - intros d Hd. destruct (ord_max_either (rec_deleted_at a) (rec_deleted_at b)) as [E|E];
      rewrite E in Hd; auto.
  - intros k f. rewrite lookup_merge_fields.
    destruct (rec_fields a !! k) as [fa|] eqn:Ea, (rec_fields b !! k) as [fb|] eqn:Eb; simpl;
      intros [= <-]; eauto.
    unfold pick_field. destruct (pick_either field_clock fa fb) as [->| ->]; eauto.
Qed.

Definition state_bounded (n : Z) (s : gmap Uuid Rec) : Prop :=
  ∀ id r, s !! id = Some r → rec_bounded n r.

Lemma state_bounded_merge n s r :
  state_bounded n s → rec_bounded n r → state_bounded n (merge_step s r).
Proof.
  intros Hs Hr id x. unfold merge_step. destruct (decide (rec_id r = id)) as [<-|Hne].
  - rewrite lookup_upsert. destruct (s !! rec_id r) eqn:E; intros [= <-]; [|done].
    apply rec_bounded_merge; eauto.
  - rewrite lookup_upsert_ne by done. apply Hs.
Qed.

Lemma clocks_bounded_state w : clocks_bounded w ↔ state_bounded (meta_lamport (v_meta w.2)) (v_state w.2).
Proof. done. Qed.

(** ** Finding by name *)

Section finding.
Context `{HashOrderLaws}.

Lemma hash_values_elem (m : gmap Uuid Rec) r : r ∈ hash_values m ↔ ∃ id, m !! id = Some r.
Proof.
  rewrite (hash_values_perm m). rewrite list_elem_of_fmap. split.
  - intros ([id r'] & -> & Hin). exists id. by apply elem_of_map_to_list.
  - intros [id Hid]. exists (id, r). split; [done|]. by apply elem_of_map_to_list.
Qed.

Lemma find_record_some v kind nf name r :
  find_record v kind nf name = Some r →
  (∃ id, v_state v !! id = Some r) ∧ is_named kind nf name r = true.
Proof.
  unfold find_record. intros Hf%find_some. destruct Hf as [Hin Hn].
  split; [|done]. by apply hash_values_elem, list_elem_of_In.
Qed.

Lemma find_record_none v kind nf name :
  find_record v kind nf name = None ↔
  ∀ id r, v_state v !! id = Some r → is_named kind nf name r = false.
Proof.
  unfold find_record. split.
  - intros Hf id r Hr. eapply find_none; [exact Hf|].
    apply list_elem_of_In, hash_values_elem. eauto.
  - intros Hall. destruct (List.find _ _) as [r|] eqn:E; [|done].
    apply find_some in E as [Hin Hn]. apply list_elem_of_In, hash_values_elem in Hin as [id Hid].
    by rewrite (Hall _ _ Hid) in Hn.
Qed.

Lemma find_record_unique v kind nf name id r :
  v_state v !! id = Some r → is_named kind nf name r = true →
  (∀ id' r', v_state v !! id' = Some r' → is_named kind nf name r' = true → r' = r) →
  find_record v kind nf name = Some r.
Proof.
  intros Hid Hn Hu. destruct (find_record v kind nf name) as [x|] eqn:E.
  - apply find_record_some in E as [[id' Hid'] Hx]. f_equal. eauto.
  - rewrite find_record_none in E. by rewrite (E _ _ Hid) in Hn.
Qed.

Lemma is_named_spec kind nf name r :
  is_named kind nf name r = true ↔
  live r = true ∧ rec_kind r = kind ∧
  ∃ f, rec_fields r !! nf = Some f ∧ value f = JString name.
Proof.
  unfold is_named. rewrite !andb_true_iff, bool_decide_eq_true.
  destruct (rec_fields r !! nf) as [f|]; [rewrite bool_decide_eq_true|]; naive_solver.
Qed.
End finding.

Lemma live_spec r : live r = true ↔ is_deleted r = false ∧ rec_kind r ≠ Kind.Tombstone.
Proof. unfold live. by rewrite andb_true_iff, !negb_true_iff, bool_decide_eq_false. Qed.

(* ------------------------------------------------------------------ *)
(** ** The record each operation appends *)

Definition stamp (m : Meta) : Clock := mkClock (meta_lamport (tick m)) (device_id m).

Definition new_record {T} `{Payload T} (kind : Kind) (p : T) (share : Uuid) (draw : Draw) (m : Meta) : Rec := {|
  rec_id := dr_record_id draw; rec_kind := kind;
  rec_fields := fields_from_payload p (stamp m); rec_deleted_at := None;
  rec_clock := stamp m; rec_device_id := device_id m;
  rec_modified_at := dr_now draw; rec_share_id := share |}.

Definition edited_record {T} `{Payload T} (kind : Kind) (p : T) (old : Rec) (draw : Draw) (m : Meta) : Rec := {|
  rec_id := rec_id old; rec_kind := kind;
  rec_fields := edit_fields (rec_fields old) (fields_from_payload p (stamp m));
  rec_deleted_at := rec_deleted_at old;
  rec_clock := stamp m; rec_device_id := device_id m;
  rec_modified_at := dr_now draw; rec_share_id := rec_share_id old |}.

Definition tombstone (old : Rec) (draw : Draw) (m : Meta) : Rec := {|
  rec_id := rec_id old; rec_kind := Kind.Tombstone; rec_fields := ∅;
  rec_deleted_at := Some (stamp m);
  rec_clock := stamp m; rec_device_id := device_id m;
  rec_modified_at := dr_now draw; rec_share_id := rec_share_id old |}.

Lemma new_payload {T : Type} `{PayloadLaws T} kind (p : T) share draw m : payload_wf p →
  payload (new_record kind p share draw m) = Some p.
Proof.
  intros Hp. apply payload_of_fields; [done|]. intros k. cbn [new_record rec_fields].
  rewrite lookup_fields_from_payload. by destruct (obj_get k _).
Qed.

Lemma lookup_edit_fields old fields k :
  edit_fields old fields !! k =
  (λ f, match old !! k with
        | Some prev => if decide (value prev = value f) then mkField (value f) (field_clock prev) else f
        | None => f
        end) <$> fields !! k.
Proof.
  unfold edit_fields. rewrite map_lookup_imap. destruct (fields !! k); simpl; [|done].
  destruct (old !! k); [|done]. case_decide; [by rewrite bool_decide_true | by rewrite bool_decide_false].
Qed.

Section crud_facts.
Context `{AeadLaws} `{!AeadCommit} `{MsgPackLaws Keyring} `{MsgPackLaws Rec}.
Context `{MsgPackLaws Snapshot} `{JsonTextLaws Meta} `{HashOrderLaws} `{Base64}.

Definition ticked (w : World) : World := set_meta (tick (v_meta w.2)) w.

Lemma inv_ticked w : vault_inv w → vault_inv (ticked w).
Proof.
  intros Hw. apply inv_set_meta; [done | done |].
  unfold tick. simpl. pose proof (u64_wrap_range (meta_lamport (v_meta w.2) + 1)). lia.
Qed.

Lemma refines_ticked w recs : refines w recs → refines (ticked w) recs.
Proof. by apply refines_ext. Qed.

Lemma add_in_eq {T} `{Payload T} kind nf name (p : T) share draw w :
  f_meta w.1 = Some (json_to_string (v_meta w.2)) →
  add_in kind nf name p share draw w =
  match validate_payload kind p with
  | Err e => (w, Err e)
  | Ok _ =>
      if has_share (v_keyring w.2) share then
        match find_record w.2 kind nf name with
        | Some _ => (w, Err (VaultError.Duplicate (kind_str kind) name))
        | None =>
            let rec := new_record kind p share draw (v_meta w.2) in
            let '(w', r) := append rec (dr_entry_id draw) (dr_nonce draw) (ticked w) in
            (w', res_bind r (λ _, Ok (rec_id rec)))
        end
      else (w, Err (VaultError.Corrupt "cannot add to a share this device is not a member of"))
  end.
Proof.
  intros Hm. unfold add_in, sbind at 1, slift at 1. cbv beta.
  destruct (validate_payload kind p) as [[]|e]; [|done].
  unfold sbind at 1, sget at 1. cbv beta. unfold sbind at 1, sguard.
  destruct (has_share _ _); [|done]. unfold sret at 1. unfold sbind at 1.
  destruct (find_record _ _ _ _); [done|]. unfold sret at 1.
  unfold sbind at 1. rewrite next_clock_eq by done. unfold sbind at 1.
  fold (ticked w). cbv zeta.
  change (mkClock (meta_lamport (tick (v_meta w.2))) (device_id (v_meta w.2))) with (stamp (v_meta w.2)).
  change (append _ (dr_entry_id draw) (dr_nonce draw) (ticked w)) with
    (append (new_record kind p share draw (v_meta w.2)) (dr_entry_id draw) (dr_nonce draw) (ticked w)).
  by destruct (append _ _ _ _) as [w' [[]|e]].
Qed.

Lemma edit_eq {T} `{Payload T} kind nf name (p : T) draw w :
  f_meta w.1 = Some (json_to_string (v_meta w.2)) →
  edit kind nf name p draw w =
  match validate_payload kind p with
  | Err e => (w, Err e)
  | Ok _ =>
      match find_record w.2 kind nf name with
      | None => (w, Err (VaultError.NoSuchRecord (kind_str kind) name))
      | Some old => append (edited_record kind p old draw (v_meta w.2))
                      (dr_entry_id draw) (dr_nonce draw) (ticked w)
      end
  end.
Proof.
  intros Hm. unfold edit, sbind at 1, slift at 1. cbv beta.
  destruct (validate_payload kind p) as [[]|e]; [|done].
  unfold sbind at 1, sget at 1. cbv beta. unfold sbind at 1, slift.
  destruct (find_record _ _ _ _); [|done]. simpl.
  unfold sbind at 1. by rewrite next_clock_eq by done.
Qed.

Lemma remove_eq kind nf name draw w :
  f_meta w.1 = Some (json_to_string (v_meta w.2)) →
  remove kind nf name draw w =
  match find_record w.2 kind nf name with
  | None => (w, Err (VaultError.NoSuchRecord (kind_str kind) name))
  | Some old => append (tombstone old draw (v_meta w.2))
                  (dr_entry_id draw) (dr_nonce draw) (ticked w)
  end.
Proof.
  intros Hm. unfold remove, sbind at 1, sget at 1. cbv beta. unfold sbind at 1, slift.
  destruct (find_record _ _ _ _); [|done]. simpl.
  unfold sbind at 1. by rewrite next_clock_eq by done.
Qed.

(** A successful append on a ticked vault. *)
Lemma append_ticked w w' rec eid n u :
  vault_inv w → append rec eid n (ticked w) = (w', Ok u) → log_small w'.1 →
  vault_inv w' ∧ v_state w'.2 = merge_step (v_state w.2) rec ∧
  v_meta w'.2 = tick (v_meta w.2) ∧ v_keyring w'.2 = v_keyring w.2 ∧
  (∀ recs, refines w recs → refines w' (recs ++ [rec])).
Proof.
  intros Hinv Happ Hsm.
  assert (Ha : ∀ recs, refines w recs → vault_inv w' ∧ refines w' (recs ++ [rec]) ∧
    same_but_log (ticked w) w' ∧ v_state w'.2 = merge_step (v_state w.2) rec).
  { intros recs Hr. apply refines_ticked in Hr.
    exact (inv_append _ _ recs _ _ _ _ (inv_ticked _ Hinv) Hr Happ Hsm). }
  destruct (inv_log _ Hinv) as [recs Hr].
  destruct (Ha recs Hr) as (Hi & _ & (_ & _ & _ & Hm & Hk & _) & Hs).
  split_and!; try done. intros rs Hrs. by apply Ha.
Qed.

Lemma state_id w id r : vault_inv w → v_state w.2 !! id = Some r → rec_id r = id.
Proof. intros Hw. destruct (inv_log _ Hw) as [recs [_ ->]]. apply merge_all_some. Qed.

Lemma tick_lamport m : 0 ≤ meta_lamport m < u64_max → meta_lamport (tick m) = meta_lamport m + 1.
Proof. intros Hm. unfold tick. simpl. apply u64_wrap_small. lia. Qed.
End crud_facts.
