(* ===== verification/VaultProps.v ===== *)
(** * VaultProps: the properties of the local vault

    The invariant over arbitrary sequences of operations, re-opening,
    compaction, and the functional behaviour of the record operations. *)

From Stdlib Require Import ZArith Lia String Sorting.Sorted.
From S2P Require Import Prelude Text Record Merge Extern Crypto Log Keyring Validate Vault Crud Lifecycle VaultInv CrudFacts.

#[local] Open Scope string_scope.
#[local] Open Scope list_scope.
#[local] Open Scope Z_scope.

(** The operations of an open vault that keep its keyring. *)
Inductive op : Type :=
  | OpAdd (T : Type) (P : Payload T) (kind : Kind) (name_field name : string) (p : T)
      (share : Uuid) (draw : Draw)
  | OpEdit (T : Type) (P : Payload T) (kind : Kind) (name_field name : string) (p : T) (draw : Draw)
  | OpRemove (kind : Kind) (name_field name : string) (draw : Draw)
  | OpRemote (entry_id : arr 16) (blob : bytes)
  | OpCursor (cursor : Z)
  | OpResetCursor
  | OpRelayUrl (url : string)
  | OpCompact (nonce : Nonce)
  | OpReload (nonce : Nonce).

Section ops.
Context `{AeadLaws} `{!AeadCommit} `{MsgPackLaws Keyring} `{MsgPackLaws Rec}.
Context `{MsgPackLaws Snapshot} `{JsonTextLaws Meta} `{HashOrderLaws}.
Context `{Base64Laws} `{Argon2} `{X25519} `{Ed25519}.

Definition ignore {A} (m : VM A) : VM unit := sbind m (λ _, sret tt).

Definition run_op (o : op) : VM unit :=
  match o with
  | OpAdd T P kind nf name p share draw => ignore (add_in kind nf name p share draw)
  | OpEdit T P kind nf name p draw => edit kind nf name p draw
  | OpRemove kind nf name draw => remove kind nf name draw
  | OpRemote eid blob => apply_remote_entry eid blob
  | OpCursor c => set_sync_cursor c
  | OpResetCursor => reset_sync_cursor
  | OpRelayUrl url => set_relay_url url
  | OpCompact n => ignore (compact n)
  | OpReload n => reload n
  end.

(** One operation, successful or not, with the log still below 4 GiB. *)
Definition vault_step (w w' : World) : Prop :=
  ∃ o r, run_op o w = (w', r) ∧ log_small w'.1.

(** What never changes while a vault is open. *)
Definition identity (m : Meta) : Uuid * Uuid * KdfParams := (vault_id m, device_id m, kdf m).

Record kept (w w' : World) : Prop := {
  kept_inv : vault_inv w';
  kept_identity : identity (v_meta w'.2) = identity (v_meta w.2);
  kept_kek : v_kek w'.2 = v_kek w.2;
  kept_keyring : v_keyring w'.2 = v_keyring w.2;
  kept_grows : ∃ new, ∀ recs, refines w recs → refines w' (recs ++ new);
  kept_log : ∀ data, f_log w.1 = Some data → ∃ ext, f_log w'.1 = Some (data ++ ext)
}.

Lemma log_same (w w' : World) : f_log w'.1 = f_log w.1 →
  ∀ data, f_log w.1 = Some data → ∃ ext, f_log w'.1 = Some (data ++ ext).
Proof. intros E data Hd. exists []. by rewrite app_nil_r, E. Qed.

Lemma kept_refl w : vault_inv w → kept w w.
Proof.
  intros Hw. split; try done; [|by apply log_same]. exists []. intros recs. by rewrite app_nil_r.
Qed.

Lemma kept_set_meta w m :
  vault_inv w → identity m = identity (v_meta w.2) → 0 ≤ meta_lamport m → kept w (set_meta m w).
Proof.
  intros Hw Hid Hm. split; try done.
  - apply inv_set_meta; [done | | done]. by injection Hid.
  - exists []. intros recs. rewrite app_nil_r. by apply refines_ext.
  - by apply log_same.
Qed.

Lemma kept_append w w' rec eid n r :
  vault_inv w → append rec eid n (ticked w) = (w', r) → log_small w'.1 → kept w w'.
Proof.
  intros Hw Ha Hsm. destruct (inv_log _ Hw) as [recs Hr].
  pose proof (inv_append _ _ recs _ _ _ _ (inv_ticked _ Hw) (refines_ticked _ _ Hr) Ha Hsm) as Hres.
  destruct r as [u|e].
  - destruct (append_ticked _ _ _ _ _ _ Hw Ha Hsm) as (Hi & _ & Hm & Hk & Hg).
    destruct Hres as (_ & _ & (_ & _ & _ & _ & _ & Hkek) & _).
    split; try done; [by rewrite Hm | by exists [rec] |].
    rewrite append_eq in Ha. intros data Hd. destruct (current_for _ _); [|done].
    simpl in Ha. rewrite Hd in Ha. injection Ha as <- _. simpl. eauto.
  - subst w'. apply kept_set_meta; [done | done |]. apply (inv_ticked _ Hw).
Qed.

Lemma kept_of_meta (f : Meta → Meta) w w' :
  vault_inv w → (∀ m, identity (f m) = identity m) → (∀ m, meta_lamport (f m) = meta_lamport m) →
  w' = set_meta (f (v_meta w.2)) w → kept w w'.
Proof. intros Hw Hid Hl ->. apply kept_set_meta; [done | apply Hid | rewrite Hl; apply Hw]. Qed.

(** The three metadata updates share one shape. *)
Lemma update_meta_eq (f : Meta → Meta) w :
  f_meta w.1 = Some (json_to_string (v_meta w.2)) →
  sbind absorb_disk_meta (λ _, sbind (self (λ v, with_meta (f (v_meta v)) v)) (λ _, write_meta)) w
  = (set_meta (f (v_meta w.2)) w, Ok tt).
Proof.
  intros Hm. destruct w as [d v]. simpl in *.
  unfold absorb_disk_meta, write_meta, sbind, sget, sput, self, disk; simpl.
  by rewrite absorb_own_meta.
Qed.

Lemma reload_eq n w : vault_inv w → reload n w = replay_log n w.
Proof.
  intros Hw. destruct w as [d v]. pose proof (inv_meta _ Hw) as Hm. simpl in Hm.
  unfold reload, read_file, sbind at 1 2 3 4, slift, sget, self, sput. simpl.
  rewrite Hm. simpl. rewrite json_round. simpl. by destruct v.
Qed.

Lemma kept_remote w eid blob w' r : vault_inv w → apply_remote_entry eid blob w = (w', r) → log_small w'.1 → kept w w'.
Proof.
  intros Hw Hrun Hsm. pose proof (inv_meta _ Hw) as Hm. destruct (inv_log _ Hw) as [recs Hr].
  pose proof (inv_apply_remote _ _ recs _ _ _ Hw Hr Hrun Hsm) as Hres.
  destruct r as [u|e]; [|subst; by apply kept_refl].
  destruct Hres as (o & Ho & Hi & Hr' & _ & Hmeta & Hk).
  split; try done.
  - rewrite Hmeta. unfold observe. destruct o; [case_match|]; done.
  - rewrite apply_remote_eq, Ho in Hrun by done. destruct (f_log w.1); [|done].
    by injection Hrun as <-.
  - exists (option_list o). intros rs Hrs.
    destruct (inv_apply_remote _ _ rs _ _ _ Hw Hrs Hrun Hsm) as (o' & Ho' & _ & Hg & _).
    rewrite Ho in Ho'. by injection Ho' as <-.
  - rewrite apply_remote_eq, Ho in Hrun by done. intros data Hd. rewrite Hd in Hrun.
    injection Hrun as <- _. simpl. eauto.
Qed.

(** What leaves the log alone keeps the vault. *)
Lemma kept_quiet w w' frames recs : vault_inv w' → log_holds w frames recs → refines w' recs →
  f_log w'.1 = f_log w.1 → v_meta w'.2 = v_meta w.2 → v_keyring w'.2 = v_keyring w.2 → v_kek w'.2 = v_kek w.2 → kept w w'.
Proof.
  intros Hi Hl Hr El E1 E2 E3. split; try done; [by rewrite E1 | | by apply log_same].
  exists []. intros rs [[fs Hl'] _]. destruct (log_holds_fun _ _ _ _ _ Hl Hl') as [-> ->]. by rewrite app_nil_r.
Qed.

Lemma vault_step_kept w w' : vault_inv w → vault_step w w' → kept w w'.
Proof.
  intros Hw (o & r & Hrun & Hsm). pose proof (inv_meta _ Hw) as Hm. destruct o; simpl in Hrun.
  - unfold ignore, sbind in Hrun. rewrite add_in_eq in Hrun by done.
    destruct (validate_payload kind p) as [u|e]; [|injection Hrun as <- _; by apply kept_refl].
    destruct (has_share _ _); [|injection Hrun as <- _; by apply kept_refl].
    destruct (find_record _ _ _ _); [injection Hrun as <- _; by apply kept_refl|].
    cbv zeta in Hrun. destruct (append _ _ _ _) as [w1 r1] eqn:Ha.
    assert (w1 = w') as -> by (destruct r1; unfold sret in Hrun; simpl in Hrun; congruence).
    by eapply kept_append.
  - rewrite edit_eq in Hrun by done.
    destruct (validate_payload kind p) as [u|e]; [|injection Hrun as <- _; by apply kept_refl].
    destruct (find_record _ _ _ _); [|injection Hrun as <- _; by apply kept_refl].
    by eapply kept_append.
  - rewrite remove_eq in Hrun by done.
    destruct (find_record _ _ _ _); [|injection Hrun as <- _; by apply kept_refl].
    by eapply kept_append.
  - by eapply kept_remote.
  - unfold set_sync_cursor in Hrun.
    rewrite (update_meta_eq (λ m, with_cursor (Z.max (sync_cursor m) cursor) m)) in Hrun by done.
    injection Hrun as <- _. by eapply (kept_of_meta (λ m, with_cursor (Z.max (sync_cursor m) cursor) m)).
  - unfold reset_sync_cursor in Hrun. rewrite (update_meta_eq (with_cursor 0)) in Hrun by done.
    injection Hrun as <- _. by eapply (kept_of_meta (with_cursor 0)).
  - unfold set_relay_url in Hrun. rewrite (update_meta_eq (with_relay_url url)) in Hrun by done.
    injection Hrun as <- _. by eapply (kept_of_meta (with_relay_url url)).
  - destruct (inv_log _ Hw) as [recs [[frames Hl] Hst]].
    destruct (inv_compact _ _ _ nonce Hw Hl) as (w1 & b & Hc & Hi & Hr & El & _ & _ & E1 & E2 & E3 & _).
    unfold ignore, sbind in Hrun. rewrite Hc in Hrun. injection Hrun as <- _.
    by eapply kept_quiet.
  - destruct (inv_log _ Hw) as [recs [[frames Hl] Hst]]. rewrite reload_eq in Hrun by done.
    destruct (replay_log_ok w frames recs nonce) as (w1 & Hc & Hi & Hr & El & _ & _ & E1 & E2 & E3);
      try done; try apply Hw.
    rewrite Hc in Hrun. injection Hrun as <- _.
    by eapply kept_quiet.
Qed.

Lemma kept_trans w1 w2 w3 : kept w1 w2 → kept w2 w3 → kept w1 w3.
Proof.
  intros [Hi1 Hid1 Hk1 Hr1 [n1 Hg1] Hl1] [Hi2 Hid2 Hk2 Hr2 [n2 Hg2] Hl2]. split; try congruence.
  - exists (n1 ++ n2). intros recs Hrecs. rewrite app_assoc. auto.
  - intros data Hd. destruct (Hl1 _ Hd) as [e1 He1]. destruct (Hl2 _ He1) as [e2 He2].
    exists (e1 ++ e2). by rewrite app_assoc.
Qed.

Lemma vault_steps_kept w w' : vault_inv w → rtc vault_step w w' → kept w w'.
Proof.
  intros Hw Hs. revert Hw. induction Hs as [w|w w1 w2 Hstep Hs IH]; intros Hw; [by apply kept_refl|].
  pose proof (vault_step_kept _ _ Hw Hstep) as Hk. eapply kept_trans; [exact Hk|]. apply IH, Hk.
Qed.

(* ---------------------------------------------------------------- *)
(** ** Creating and opening *)

(** A vault its own passphrase opens. *)
Definition session (passphrase : string) (w : World) : Prop :=
  vault_inv w ∧ vault_kek (v_meta w.2) passphrase = Ok (v_kek w.2).

Lemma session_kept passphrase w w' : session passphrase w → kept w w' → session passphrase w'.
Proof.
  intros [Hw Hk] Hkept. split; [apply Hkept|].
  rewrite (kept_kek _ _ Hkept), <-Hk. pose proof (kept_identity _ _ Hkept) as Hid.
  injection Hid as _ _ Hkdf. unfold vault_kek. by rewrite Hkdf.
Qed.

Lemma create_session name passphrase id key rp device draw d d' v :
  f_snapshot d = None →
  create_with_keys name passphrase id key rp device draw d = (d', Ok v) →
  session passphrase (d', v) ∧ refines (d', v) [].
Proof.
  intros Hsn. unfold create_with_keys. destruct (f_meta d); [done|].
  set (meta := mkMeta _ _ _ _ _ _ _ _ _ _). set (kr := mkKeyring _ _ _ _ _).
  destruct (vault_kek meta passphrase) as [kek|e] eqn:Ek; [|done].
  unfold exec, write_keyring, write_meta, disk, sbind, sget, sput. simpl.
  intros [= <- <-].
  assert (Hr : refines (set_f_log [] (set_f_meta (json_to_string meta)
    (set_f_keyring (seal (in_nonce draw) kek (mp_encode kr) (arr_bytes id)) d)),
    mkVault meta kr kek ∅) []).
  { split; [|done]. exists [], []. by split_and!. }
  split; [|done]. split; [|done]. split; simpl; try done; eauto.
  - split_and!; try done; [apply NoDup_singleton | by constructor | by constructor].
  - intros s fs rs Hs. unfold read_snapshot in Hs. simpl in Hs. by rewrite Hsn in Hs.
Qed.

Lemma open_session passphrase n w recs :
  session passphrase w → refines w recs →
  ∃ w', open_vault passphrase n w.1 = (w'.1, Ok w'.2) ∧ session passphrase w' ∧
    v_meta w'.2 = v_meta w.2 ∧ v_keyring w'.2 = v_keyring w.2 ∧ v_kek w'.2 = v_kek w.2 ∧
    v_state w'.2 = v_state w.2 ∧ refines w' recs ∧ f_log w'.1 = f_log w.1.
Proof.
  intros [Hw Hk] [[frames Hl] Hst]. destruct w as [d v]. simpl in *.
  pose proof (inv_meta _ Hw) as Hm. simpl in Hm.
  unfold open_vault. rewrite Hm. simpl. rewrite json_round. simpl. rewrite Hk. simpl.
  destruct (inv_keyfile _ Hw) as [n' Hf]. simpl in Hf. rewrite Hf. simpl.
  rewrite open_seal. simpl. rewrite mp_round. simpl.
  rewrite normalize_wf_id by apply (inv_keyring _ Hw).
  destruct (replay_log_ok (d, mkVault (v_meta v) (v_keyring v) (v_kek v) ∅) frames recs n)
    as (w' & Hrun & Hi & Hr & El & Em & Ef & E1 & E2 & E3);
    [apply Hw | exact Hm | eauto | apply Hw | | exact Hl |].
  { intros s fs rs Hs Hl'. by apply (inv_snapshot _ Hw s fs rs). }
  exists w'. rewrite Hrun. split_and!; try done.
  - split; [done|]. by rewrite E1, E3.
  - destruct Hr as [_ ->]. done.
Qed.
End ops.

(* ------------------------------------------------------------------ *)
(** ** Merging one snapshot into the state *)

Lemma lookup_merge_step s r id :
  merge_step s r !! id =
  if decide (rec_id r = id) then Some (match s !! id with Some cur => merge cur r | None => r end)
  else s !! id.
Proof.
  unfold merge_step. case_decide as E; [subst; apply lookup_upsert | by apply lookup_upsert_ne].
Qed.

Lemma lamport_lt_stamp m c : 0 ≤ meta_lamport m < u64_max → lamport c ≤ meta_lamport m →
  ltb c (stamp m) = true.
Proof. intros Hm Hc. apply clock_lamport_lt. unfold stamp. cbn [lamport]. rewrite tick_lamport; lia. Qed.

(** The fields of a record after an edit. *)
Lemma merge_edited_fields {T} `{Payload T} kind (p : T) old draw m k :
  0 ≤ meta_lamport m < u64_max → rec_bounded (meta_lamport m) old →
  rec_fields (merge old (edited_record kind p old draw m)) !! k =
  match obj_get k (to_object p) with
  | None => rec_fields old !! k
  | Some v => match rec_fields old !! k with
              | Some f => Some (if decide (value f = v) then f else mkField v (stamp m))
              | None => Some (mkField v (stamp m))
              end
  end.
Proof.
  intros Hm (_ & _ & Hb). rewrite merge_eq. simpl.
  rewrite lookup_merge_fields, lookup_edit_fields, lookup_fields_from_payload.
  destruct (obj_get k (to_object p)) as [v|]; simpl; [|by destruct (rec_fields old !! k)].
  destruct (rec_fields old !! k) as [f|] eqn:Ef; simpl; [|done].
  f_equal. unfold pick_field, pick. case_decide as Hv; simpl.
  - by rewrite geb_refl.
  - rewrite (proj2 (not_geb _ _)); [done|]. apply lamport_lt_stamp; eauto.
Qed.

Lemma merge_edited_live {T} `{Payload T} (p : T) old draw m :
  live old = true → live (merge old (edited_record (rec_kind old) p old draw m)) = true.
Proof.
  rewrite !live_spec. intros [Hd Hk]. rewrite merge_eq; simpl. split.
  - apply not_true_iff_false. intros (d & Hd' & Hall)%is_deleted_spec. simpl in *.
    rewrite ord_max_idem in Hd'. apply not_true_iff_false in Hd. apply Hd, is_deleted_spec.
    exists d. split; [done|]. intros k f Hf. specialize (Hall k).
    rewrite lookup_merge_fields, Hf in Hall.
    destruct (edit_fields _ _ !! k) as [f'|]; simpl in Hall; [|by apply Hall].
    specialize (Hall _ eq_refl). eapply geb_ltb_trans; [|exact Hall]. apply (pick_key_l field_clock).
  - by rewrite ord_max_idem.
Qed.

(** A tombstone stamped after every field deletes. *)
Lemma merge_tombstone_deleted old draw m :
  0 ≤ meta_lamport m < u64_max → rec_bounded (meta_lamport m) old →
  is_deleted (merge old (tombstone old draw m)) = true.
Proof.
  intros Hm (_ & _ & Hb). apply is_deleted_spec. rewrite merge_eq; simpl.
  pose proof (ord_max_ub_r (rec_deleted_at old) (Some (stamp m))) as Hub.
  destruct (ord_max (rec_deleted_at old) (Some (stamp m))) as [d|]; [|done].
  exists d. split; [done|]. intros k f. rewrite lookup_merge_fields, lookup_empty. intros Hk.
  assert (Hf : rec_fields old !! k = Some f) by (by destruct (rec_fields old !! k)).
  apply (lt_geb_trans _ (stamp m)); [|done]. apply lamport_lt_stamp; eauto.
Qed.

(* ------------------------------------------------------------------ *)
(** ** Listing *)

Definition list_raw (T : Type) `{Payload T} (kind : Kind) (l : list Rec) : list (Uuid * T) :=
  omap (λ r, (λ p, (rec_id r, p)) <$> payload r)
    (filter (λ r, live r && bool_decide (rec_kind r = kind) = true) l).

Lemma list_raw_elem T `{Payload T} kind l id (p : T) :
  (id, p) ∈ list_raw T kind l ↔
  ∃ r, r ∈ l ∧ rec_id r = id ∧ live r = true ∧ rec_kind r = kind ∧ payload r = Some p.
Proof.
  unfold list_raw. rewrite list_elem_of_omap. split.
  - intros (r & Hf & Hp). apply list_elem_of_filter in Hf as [[Hl Hk]%andb_true_iff Hin].
    apply bool_decide_eq_true in Hk. destruct (payload r) as [q|] eqn:E; [|done].
    injection Hp as <- <-. by exists r.
  - intros (r & Hin & <- & Hl & Hk & Hp). exists r. rewrite Hp. split; [|done].
    apply list_elem_of_filter. by rewrite Hl, bool_decide_true.
Qed.

Lemma list_raw_nodup T `{Payload T} kind l : NoDup (rec_id <$> l) → NoDup (list_raw T kind l).*1.
Proof.
  induction l as [|r l IH]; [by intros; constructor|]. rewrite fmap_cons.
  intros [Hr Hnd]%NoDup_cons. unfold list_raw in *. rewrite filter_cons.
  case_decide as Hlive; [|by apply IH]. simpl. destruct (payload r) as [p|]; simpl; [|by apply IH].
  apply NoDup_cons. split; [|by apply IH]. intros Hin. apply Hr.
  apply list_elem_of_fmap in Hin as ([id q] & Hfst & Hin). simpl in Hfst.
  apply (list_raw_elem T kind) in Hin as (r' & Hr' & Hid & _).
  rewrite Hfst, <-Hid. by apply list_elem_of_fmap_2.
Qed.

Section listing.
Context `{HashOrderLaws} (T : Type) `{Payload T}.

Lemma list_of_elem v kind id (p : T) :
  (∀ i r, v_state v !! i = Some r → rec_id r = i) →
  (id, p) ∈ list_of T v kind ↔
  ∃ r, v_state v !! id = Some r ∧ live r = true ∧ rec_kind r = kind ∧ payload r = Some p.
Proof.
  intros Hid. unfold list_of. cbv zeta. rewrite sort_by_key_perm.
  change (omap _ _) with (list_raw T kind (hash_values (v_state v))).
  rewrite list_raw_elem. setoid_rewrite hash_values_elem. split.
  - intros (r & [i Hi] & <- & Hr). exists r. by rewrite (Hid _ _ Hi).
  - intros (r & Hr & Hrest). exists r. split; [by exists id|]. split; [by apply Hid|done].
Qed.

Lemma hash_ids_nodup (m : gmap Uuid Rec) :
  (∀ i r, m !! i = Some r → rec_id r = i) → NoDup (rec_id <$> hash_values m).
Proof.
  intros Hid. rewrite (hash_values_perm m), <-list_fmap_compose.
  replace ((rec_id ∘ snd) <$> map_to_list m) with ((map_to_list m).*1);
    [apply NoDup_fst_map_to_list|].
  apply list_fmap_ext. intros i [id r] Hin. simpl. symmetry.
  apply Hid, elem_of_map_to_list. by eapply list_elem_of_lookup_2.
Qed.

Lemma list_of_nodup v kind :
  (∀ i r, v_state v !! i = Some r → rec_id r = i) → NoDup (list_of T v kind).*1.
Proof.
  intros Hid. unfold list_of. cbv zeta. rewrite sort_by_key_perm.
  apply (list_raw_nodup T). by apply hash_ids_nodup.
Qed.

End listing.

Lemma list_of_order (T : Type) `{Payload T} (ho1 ho2 : HashOrder) v kind :
  (∀ i r, v_state v !! i = Some r → rec_id r = i) → @HashOrderLaws ho1 → @HashOrderLaws ho2 →
  @list_of ho1 T _ v kind = @list_of ho2 T _ v kind.
Proof.
  intros Hid Hho1 Hho2. unfold list_of. cbv zeta. apply sort_by_key_unique.
  - change (omap _ _) with (list_raw T kind (@hash_values ho1 _ (v_state v))).
    intros [i p] [j q] Hi Hj Hij. simpl in Hij. subst j.
    apply list_raw_elem in Hi as (r & Hr & Hri & _ & _ & Hp), Hj as (r' & Hr' & Hri' & _ & _ & Hp').
    apply (@hash_values_elem ho1 Hho1) in Hr as [a Ha], Hr' as [b Hb].
    rewrite (Hid _ _ Ha) in Hri. rewrite (Hid _ _ Hb) in Hri'. subst a b. congruence.
  - assert (Hp : @hash_values ho1 _ (v_state v) ≡ₚ @hash_values ho2 _ (v_state v)).
    { etransitivity; [apply (@hash_values_perm ho1 Hho1) | symmetry; apply (@hash_values_perm ho2 Hho2)]. }
    by rewrite Hp.
Qed.

(* ------------------------------------------------------------------ *)
(** ** Clocks stay behind the counter *)

Section bounded.
Context `{AeadLaws} `{!AeadCommit} `{MsgPackLaws Keyring} `{MsgPackLaws Rec}.
Context `{MsgPackLaws Snapshot} `{JsonTextLaws Meta} `{HashOrderLaws} `{Base64}.

(** A record whose own clock is its latest: what every device writes. *)
Definition clock_ordered (r : Rec) : Prop := rec_bounded (lamport (rec_clock r)) r.

(** The remote entries an operation receives come from such writers. *)
Definition honest (o : op) (w : World) : Prop :=
  match o with
  | OpRemote eid blob =>
      ∀ r, open_entry (v_keyring w.2) eid blob = Ok (Some r) → clock_ordered r
  | _ => True
  end.

Lemma new_record_bounded {T} `{Payload T} kind (p : T) share draw m :
  clock_ordered (new_record kind p share draw m).
Proof.
  split_and!; simpl; [done | done |]. intros k f. rewrite lookup_fields_from_payload.
  destruct (obj_get k _); simpl; [|done]. by intros [= <-].
Qed.

Lemma edited_record_bounded {T} `{Payload T} kind (p : T) old draw m :
  0 ≤ meta_lamport m < u64_max → rec_bounded (meta_lamport m) old →
  clock_ordered (edited_record kind p old draw m).
Proof.
  intros Hm (_ & Hd & Hf). pose proof (tick_lamport _ Hm) as Ht.
  split_and!; cbn [edited_record rec_clock rec_deleted_at rec_fields stamp lamport]; [done| |].
  - intros d Hd'. specialize (Hd _ Hd'). lia.
  - intros k f. rewrite lookup_edit_fields, lookup_fields_from_payload.
    destruct (obj_get k _) as [v|]; cbn [fmap option_fmap option_map]; [|done]. intros [= <-].
    destruct (rec_fields old !! k) as [prev|] eqn:E; [|done].
    case_decide; [|done]. specialize (Hf _ _ E). cbn [field_clock]. lia.
Qed.

Lemma tombstone_bounded old draw m : clock_ordered (tombstone old draw m).
Proof. split_and!; simpl; [done | by intros d [= <-] | by intros]. Qed.

Lemma append_bounded w w' rec eid n r :
  vault_inv w → clocks_bounded w → meta_lamport (v_meta w.2) < u64_max →
  clock_ordered rec → rec_clock rec = stamp (v_meta w.2) →
  append rec eid n (ticked w) = (w', r) → log_small w'.1 → clocks_bounded w'.
Proof.
  intros Hw Hb Hmax Hrec Hc Ha Hsm. rewrite clocks_bounded_state in *.
  pose proof (inv_lamport _ Hw) as H0'.
  assert (Ht : meta_lamport (tick (v_meta w.2)) = meta_lamport (v_meta w.2) + 1) by (apply tick_lamport; lia).
  assert (Hb' : state_bounded (meta_lamport (tick (v_meta w.2))) (v_state w.2)).
  { intros id x Hx. eapply rec_bounded_mono; [|by eapply Hb]. lia. }
  destruct r as [u|e].
  - destruct (append_ticked _ _ _ _ _ _ Hw Ha Hsm) as (_ & -> & -> & _).
    apply state_bounded_merge; [done|]. unfold clock_ordered in Hrec. by rewrite Hc in Hrec.
  - rewrite append_eq in Ha. destruct (current_for _ _); [destruct (f_log _)|];
      by injection Ha as <-.
Qed.

Lemma step_bounded o w w' r :
  vault_inv w → clocks_bounded w → meta_lamport (v_meta w.2) < u64_max → honest o w →
  run_op o w = (w', r) → log_small w'.1 → clocks_bounded w'.
Proof.
  intros Hw Hb Hmax Hh Hrun Hsm. pose proof (inv_meta _ Hw) as Hm. destruct o; simpl in Hrun.
  - unfold ignore, sbind in Hrun. rewrite add_in_eq in Hrun by done.
    destruct (validate_payload kind p) as [u|e]; [|by injection Hrun as <- _].
    destruct (has_share _ _); [|by injection Hrun as <- _].
    destruct (find_record _ _ _ _); [by injection Hrun as <- _|].
    cbv zeta in Hrun. destruct (append _ _ _ _) as [w1 r1] eqn:Ha.
    assert (w1 = w') as -> by (destruct r1; unfold sret in Hrun; simpl in Hrun; congruence).
    eapply append_bounded; [done..|apply new_record_bounded | done | exact Ha | done].
  - rewrite edit_eq in Hrun by done.
    destruct (validate_payload kind p) as [u|e]; [|by injection Hrun as <- _].
    destruct (find_record _ _ _ _) as [old|] eqn:Ef; [|by injection Hrun as <- _].
    apply find_record_some in Ef as [[id Hid] _].
    apply (append_bounded w w' _ _ _ r Hw Hb Hmax) with (4 := Hsm) (3 := Hrun); [|done].
    apply edited_record_bounded; [|by eapply Hb]. pose proof (inv_lamport _ Hw). lia.
  - rewrite remove_eq in Hrun by done.
    destruct (find_record _ _ _ _); [|by injection Hrun as <- _].
    eapply append_bounded; [done..| apply tombstone_bounded | done | exact Hrun | done].
  - destruct (inv_log _ Hw) as [recs Hr].
    pose proof (inv_apply_remote _ _ recs _ _ _ Hw Hr Hrun Hsm) as Hres.
    destruct r as [u|e]; [|by subst]. destruct Hres as (o & Ho & _ & _ & Hst & Hmeta & _).
    rewrite clocks_bounded_state in *. rewrite Hst, Hmeta. destruct o as [r|]; simpl; [|done].
    specialize (Hh r Ho). unfold clock_ordered in Hh.
    destruct (Z.ltb_spec (meta_lamport (v_meta w.2)) (lamport (rec_clock r))); simpl.
    + apply state_bounded_merge; [|done]. intros id x Hx. eapply rec_bounded_mono; [|by eapply Hb]. lia.
    + apply state_bounded_merge; [done|]. by eapply rec_bounded_mono.
  - unfold set_sync_cursor in Hrun.
    rewrite (update_meta_eq (λ m, with_cursor (Z.max (sync_cursor m) cursor) m)) in Hrun by done.
    by injection Hrun as <- _.
  - unfold reset_sync_cursor in Hrun. rewrite (update_meta_eq (with_cursor 0)) in Hrun by done.
    by injection Hrun as <- _.
  - unfold set_relay_url in Hrun. rewrite (update_meta_eq (with_relay_url url)) in Hrun by done.
    by injection Hrun as <- _.
  - destruct (inv_log _ Hw) as [recs [[frames Hl] Hst]].
    destruct (inv_compact _ _ _ nonce Hw Hl) as (w1 & b & Hc & _ & _ & _ & _ & _ & E1 & _ & _ & Es).
    unfold ignore, sbind in Hrun. rewrite Hc in Hrun. injection Hrun as <- _.
    rewrite clocks_bounded_state in *. by rewrite Es, E1, <-Hst.
  - destruct (inv_log _ Hw) as [recs [[frames Hl] Hst]]. rewrite reload_eq in Hrun by done.
    destruct (replay_log_ok w frames recs nonce) as (w1 & Hc & _ & [_ Hs] & _ & _ & _ & E1 & _);
      try done; try apply Hw.
    rewrite Hc in Hrun. injection Hrun as <- _.
    rewrite clocks_bounded_state in *. by rewrite Hs, E1, <-Hst.
Qed.
End bounded.

(* ------------------------------------------------------------------ *)
(** ** Properties *)

Section properties.
Context `{AeadLaws} `{!AeadCommit} `{MsgPackLaws Keyring} `{MsgPackLaws Rec}.
Context `{MsgPackLaws Snapshot} `{JsonTextLaws Meta} `{HashOrderLaws}.
Context `{Base64Laws} `{Argon2} `{X25519} `{Ed25519}.

(** C11: opening the directory of a vault with its passphrase rebuilds the
    vault that is in memory: same metadata, keys and state, whether or not a
    snapshot is used, and whether or not the open compacts. *)
Theorem reopen_same_vault passphrase n w :
  session passphrase w →
  ∃ d' v', open_vault passphrase n w.1 = (d', Ok v') ∧
    v_meta v' = v_meta w.2 ∧ v_keyring v' = v_keyring w.2 ∧ v_state v' = v_state w.2 ∧
    f_log d' = f_log w.1 ∧ session passphrase (d', v').
Proof.
  intros Hw. destruct (inv_log _ (proj1 Hw)) as [recs Hr].
  destruct (open_session passphrase n w recs Hw Hr) as ([d' v'] & Ho & Hs & E1 & E2 & E3 & E4 & _ & E5).
  exists d', v'. by split_and!.
Qed.

(** C25: compaction is invisible.  It leaves the log, the metadata, the keyring
    and the state alone.  When the log has more frames than records the snapshot
    on disk afterwards is one of the whole log under the keys held; otherwise
    the snapshot file is as before.  Folding from it, over the log or over the
    log with frames appended since, equals folding everything. *)
Theorem compaction_transparent n w frames recs :
  vault_inv w → log_holds w frames recs →
  ∃ w', compact n w = (w', Ok (negb (length frames <=? size (merge_all recs))%nat)) ∧
    f_log w'.1 = f_log w.1 ∧ f_meta w'.1 = f_meta w.1 ∧ f_keyring w'.1 = f_keyring w.1 ∧
    v_meta w'.2 = v_meta w.2 ∧ v_keyring w'.2 = v_keyring w.2 ∧ v_state w'.2 = v_state w.2 ∧
    (if (length frames <=? size (merge_all recs))%nat then f_snapshot w'.1 = f_snapshot w.1
     else ∃ s, read_snapshot w'.1 w'.2 = Some s ∧ covered s = Z.of_nat (length frames) ∧
       snap_shares s = held_share_epochs (v_keyring w.2) ∧ collect_records (snap_records s) = merge_all recs) ∧
    ∀ more recs', open_entries (v_keyring w.2) more = Ok recs' →
      ∃ start, fold_from_snapshot (v_keyring w'.2) (frames ++ more) (read_snapshot w'.1 w'.2)
               = Ok (merge_all (recs ++ recs'), start).
Proof.
  intros Hw Hl. destruct (inv_log _ Hw) as [rs [[fs Hfs] Hst]].
  destruct (log_holds_fun _ _ _ _ _ Hl Hfs) as [<- <-].
  destruct (inv_compact w frames recs n Hw Hl)
    as (w' & b & Hc & Hi & Hr & E1 & E2 & E3 & E4 & E5 & E6 & Es).
  assert (Hr' : log_holds w' frames recs).
  { destruct Hl as (data & Hd & Hp & Ho). exists data. rewrite E1, E5. by split_and!. }
  pose proof Hc as Hc'. rewrite (compact_eq _ _ _ _ Hl) in Hc'. cbv zeta in Hc'.
  exists w'. split_and!; try done; [| by rewrite Es | |].
  - rewrite Hc. by destruct (_ <=? _)%nat; injection Hc' as _ <-.
  - destruct (_ <=? _)%nat; injection Hc' as <- _; [done|]. eexists. split.
    { unfold read_snapshot. simpl. by rewrite open_seal, mp_round. }
    split_and!; [done..|]. simpl. apply collect_merged.
  - intros more recs' Hmore. rewrite E5. destruct Hl as (data & _ & _ & Ho).
    apply fold_covers; [|by apply open_entries_app]. intros s Hs. apply covers_more. rewrite <- E5.
    eapply (inv_snapshot _ Hi); [exact Hs | apply Hr'].
Qed.




Lemma add_effect {T} `{PayloadLaws T} kind nf name (p : T) share draw w w' id :
  vault_inv w → kind ≠ Kind.Tombstone → payload_wf p →
  v_state w.2 !! dr_record_id draw = None →
  add_in kind nf name p share draw w = (w', Ok id) → log_small w'.1 →
  id = dr_record_id draw ∧
  (∀ id' r, v_state w.2 !! id' = Some r → is_named kind nf name r = false) ∧
  ∃ r, v_state w'.2 = <[id := r]> (v_state w.2) ∧ live r = true ∧ rec_kind r = kind ∧
    rec_share_id r = share ∧ payload r = Some p ∧
    (obj_get nf (to_object p) = Some (JString name) → find_record w'.2 kind nf name = Some r).
Proof.
  intros Hw Hkind Hwf Hfresh Hadd Hsm. rewrite add_in_eq in Hadd by apply Hw.
  destruct (validate_payload kind p) as [[]|]; [|done].
  destruct (has_share _ _); [|done].
  destruct (find_record w.2 kind nf name) eqn:Ef; [done|]. cbv zeta in Hadd.
  destruct (append _ _ _ _) as [w1 [u|e]] eqn:Ha; simpl in Hadd; [|done]. injection Hadd as <- <-.
  destruct (append_ticked _ _ _ _ _ _ Hw Ha Hsm) as (_ & Hst & _).
  rewrite find_record_none in Ef. split_and!; [done..|].
  set (r := new_record kind p share draw (v_meta w.2)) in *.
  assert (Hst' : v_state w1.2 = <[dr_record_id draw := r]> (v_state w.2)).
  { rewrite Hst. unfold merge_step, upsert. simpl. by rewrite Hfresh. }
  assert (Hf : ∀ k, rec_fields r !! k = (λ v, mkField v (stamp (v_meta w.2))) <$> obj_get k (to_object p)).
  { intros k. apply lookup_fields_from_payload. }
  assert (Hlive : live r = true) by (by apply live_spec).
  exists r. split_and!; try done.
  - apply payload_of_fields; [done|]. intros k. rewrite Hf. by destruct (obj_get k _).
  - intros Hname. apply (find_record_unique _ _ _ _ (dr_record_id draw)).
    + by rewrite Hst', lookup_insert_eq.
    + apply is_named_spec. split_and!; [done..|]. rewrite Hf, Hname. simpl. eauto.
    + intros id' r'. rewrite Hst'. destruct (decide (dr_record_id draw = id')) as [<-|Hne].
      * rewrite lookup_insert_eq. by intros [= <-].
      * rewrite lookup_insert_ne by done. intros Hr' Hn. by rewrite (Ef _ _ Hr') in Hn.
Qed.

(** C30: a successful [add] stores exactly one new live record, of the given
    kind and share and with the given payload, under the drawn id; every
    other record is untouched, no live record of that kind had the name, and
    the record is the one the name now finds. *)
Theorem add_stores_payload {T} `{PayloadLaws T} kind nf name (p : T) share draw w w' id :
  vault_inv w → kind ≠ Kind.Tombstone → payload_wf p →
  v_state w.2 !! dr_record_id draw = None →
  add_in kind nf name p share draw w = (w', Ok id) → log_small w'.1 →
  id = dr_record_id draw ∧
  (∀ id' r, v_state w.2 !! id' = Some r → is_named kind nf name r = false) ∧
  ∃ r, v_state w'.2 = <[id := r]> (v_state w.2) ∧ live r = true ∧ rec_kind r = kind ∧
    rec_share_id r = share ∧ payload r = Some p ∧
    (obj_get nf (to_object p) = Some (JString name) → find_record w'.2 kind nf name = Some r).
Proof. apply add_effect. Qed.

Lemma edit_effect {T} `{Payload T} kind nf name (p : T) draw w w' :
  vault_inv w → clocks_bounded w → meta_lamport (v_meta w.2) < u64_max →
  edit kind nf name p draw w = (w', Ok tt) → log_small w'.1 →
  ∃ old r, find_record w.2 kind nf name = Some old ∧
    v_state w'.2 = <[rec_id old := r]> (v_state w.2) ∧ live r = true ∧ rec_kind r = kind ∧
    ∀ k, rec_fields r !! k =
      match obj_get k (to_object p) with
      | None => rec_fields old !! k
      | Some v => match rec_fields old !! k with
                  | Some f => Some (if decide (value f = v) then f else mkField v (stamp (v_meta w.2)))
                  | None => Some (mkField v (stamp (v_meta w.2)))
                  end
      end.
Proof.
  intros Hw Hb Hmax Hedit Hsm. rewrite edit_eq in Hedit by apply Hw.
  destruct (validate_payload kind p) as [[]|]; [|done].
  destruct (find_record w.2 kind nf name) as [old|] eqn:Ef; [|done].
  destruct (append_ticked _ _ _ _ _ _ Hw Hedit Hsm) as (_ & Hst & _).
  apply find_record_some in Ef as [[id Hid] Hn].
  pose proof (state_id _ _ _ Hw Hid) as <-. apply is_named_spec in Hn as (Hlive & <- & _).
  exists old, (merge old (edited_record (rec_kind old) p old draw (v_meta w.2))). split_and!; try done.
  - rewrite Hst. unfold merge_step, upsert. simpl. by rewrite Hid.
  - by apply merge_edited_live.
  - rewrite merge_eq. simpl. apply ord_max_idem.
  - intros k. apply merge_edited_fields; [|by apply (Hb (rec_id old))].
    pose proof (inv_lamport _ Hw). lia.
Qed.

(** C31: a successful [edit] rewrites exactly the record its name found: a
    field of the payload takes the payload's value, keeping its old clock
    when the value did not change; a field the payload leaves out keeps its
    old value; the record stays live and no other record changes. *)
Theorem edit_updates_fields {T} `{Payload T} kind nf name (p : T) draw w w' :
  vault_inv w → clocks_bounded w → meta_lamport (v_meta w.2) < u64_max →
  edit kind nf name p draw w = (w', Ok tt) → log_small w'.1 →
  ∃ old r, find_record w.2 kind nf name = Some old ∧
    v_state w'.2 = <[rec_id old := r]> (v_state w.2) ∧ live r = true ∧ rec_kind r = kind ∧
    ∀ k, rec_fields r !! k =
      match obj_get k (to_object p) with
      | None => rec_fields old !! k
      | Some v => match rec_fields old !! k with
                  | Some f => Some (if decide (value f = v) then f else mkField v (stamp (v_meta w.2)))
                  | None => Some (mkField v (stamp (v_meta w.2)))
                  end
      end.
Proof. apply edit_effect. Qed.

Lemma remove_effect kind nf name draw w w' :
  vault_inv w → clocks_bounded w → meta_lamport (v_meta w.2) < u64_max →
  remove kind nf name draw w = (w', Ok tt) → log_small w'.1 →
  ∃ old r, find_record w.2 kind nf name = Some old ∧
    v_state w'.2 = <[rec_id old := r]> (v_state w.2) ∧
    rec_fields r = rec_fields old ∧ is_deleted r = true ∧ live r = false.
Proof.
  intros Hw Hb Hmax Hrem Hsm. rewrite remove_eq in Hrem by apply Hw.
  destruct (find_record w.2 kind nf name) as [old|] eqn:Ef; [|done].
  destruct (append_ticked _ _ _ _ _ _ Hw Hrem Hsm) as (_ & Hst & _).
  apply find_record_some in Ef as [[id Hid] Hn].
  pose proof (state_id _ _ _ Hw Hid) as <-.
  exists old, (merge old (tombstone old draw (v_meta w.2))).
  assert (Hd : is_deleted (merge old (tombstone old draw (v_meta w.2))) = true).
  { apply merge_tombstone_deleted; [pose proof (inv_lamport _ Hw); lia | by apply (Hb (rec_id old))]. }
  split_and!; try done.
  - rewrite Hst. unfold merge_step, upsert. simpl. by rewrite Hid.
  - apply map_eq. intros k. rewrite merge_eq. simpl. rewrite lookup_merge_fields, lookup_empty.
    by destruct (rec_fields old !! k).
  - unfold live. by rewrite Hd.
Qed.

(** A successful [remove] deletes exactly the record its name found: the
    record keeps its fields but is no longer live, and no other record
    changes. *)
Theorem remove_deletes kind nf name draw w w' :
  vault_inv w → clocks_bounded w → meta_lamport (v_meta w.2) < u64_max →
  remove kind nf name draw w = (w', Ok tt) → log_small w'.1 →
  ∃ old r, find_record w.2 kind nf name = Some old ∧
    v_state w'.2 = <[rec_id old := r]> (v_state w.2) ∧
    rec_fields r = rec_fields old ∧ is_deleted r = true ∧ live r = false.
Proof. apply remove_effect. Qed.

(** The device's own counter stays at or above every clock in its state,
    under any operation whose remote entries were written by devices that
    stamp a record last, as long as the counter has not reached its maximum:
    the next local write is later than everything observed. *)
Theorem clock_bound_preserved o w w' r :
  vault_inv w → clocks_bounded w → meta_lamport (v_meta w.2) < u64_max → honest o w →
  run_op o w = (w', r) → log_small w'.1 → clocks_bounded w'.
Proof. apply step_bounded. Qed.

(** [list] returns exactly the live records of a kind whose payload
    parses, each once, sorted by id, and does not depend on the iteration
    order of the hash map. *)
Theorem list_exact (T : Type) `{Payload T} kind w :
  vault_inv w →
  (∀ id p, (id, p) ∈ list_of T w.2 kind ↔
     ∃ r, v_state w.2 !! id = Some r ∧ live r = true ∧ rec_kind r = kind ∧ payload r = Some p) ∧
  StronglySorted (key_le fst) (list_of T w.2 kind) ∧ NoDup (list_of T w.2 kind).*1 ∧
  (∀ ho1 ho2 : HashOrder, @HashOrderLaws ho1 → @HashOrderLaws ho2 →
     @list_of ho1 T _ w.2 kind = @list_of ho2 T _ w.2 kind).
Proof.
  intros Hw. assert (Hid := λ id r, state_id w id r Hw). split_and!.
  - intros id p. by apply list_of_elem.
  - apply sort_by_key_sorted.
  - by apply list_of_nodup.
  - intros ho1 ho2 Hho1 Hho2. by apply list_of_order.
Qed.
End properties.
