(* ===== verification/KeyGrowth.v ===== *)
(** * KeyGrowth: a vault whose keys change

    The operations that add keys (rotations, shares made and rotated, key lists
    taken up, the list installed on joining) beside those of [VaultProps].  A
    key list is replaced by longer ones only, so the count of keys a snapshot
    records tells whether it is of the keys held. *)

From Stdlib Require Import ZArith Lia String.
From S2P Require Import Prelude Text Record Merge Extern Crypto Log Keyring Validate Vault Crud Lifecycle VaultInv CrudFacts VaultProps.

#[local] Open Scope string_scope.
#[local] Open Scope list_scope.
#[local] Open Scope Z_scope.

(** Every share has the list of before or a longer one. *)
Definition shares_grow (k k' : Keyring) : Prop :=
  ∀ id, keys_of k' id = keys_of k id ∨ (length (keys_of k id) < length (keys_of k' id))%nat.

(** The count of a share's keys fits the 32 bits a snapshot has for it. *)
Definition counts_fit (k : Keyring) : Prop := ∀ id, Z.of_nat (length (keys_of k id)) ≤ u32_max.

(** A snapshot taken of the keys held now or before. *)
Definition from_past (k : Keyring) (s : Snapshot) : Prop :=
  0 < covered s ∧ NoDup (snap_shares s).*1 ∧
  ∀ id n, (id, n) ∈ snap_shares s → n ≤ Z.of_nat (length (keys_of k id)).

#[export] Instance shares_grow_preorder : PreOrder shares_grow.
Proof.
  split; [intros k id; by left|]. intros k1 k2 k3 H1 H2 id.
  destruct (H1 id) as [E1|L1], (H2 id) as [E2|L2]; rewrite ?E1, ?E2 in *; [by left | right..]; lia.
Qed.

Lemma shares_grow_length k k' id : shares_grow k k' → (length (keys_of k id) ≤ length (keys_of k' id))%nat.
Proof. intros Hg. destruct (Hg id) as [->|]; lia. Qed.
Lemma counts_fit_before k k' : shares_grow k k' → counts_fit k' → counts_fit k.
Proof. intros Hg Hc id. pose proof (shares_grow_length _ _ id Hg). specialize (Hc id). lia. Qed.
Lemma from_past_grow k k' s : shares_grow k k' → from_past k s → from_past k' s.
Proof.
  intros Hg (Hc & Hn & Hp). split_and!; [done..|]. intros id n Hin.
  pose proof (shares_grow_length _ _ id Hg). specialize (Hp id n Hin). lia.
Qed.

Lemma set_keys_of k X keys id :
  keys_of (set_share_keys X keys k) id = if decide (id = X) then keys else keys_of k id.
Proof. unfold keys_of. rewrite share_set. case_decide as E1; case_decide as E2; subst; done. Qed.

Lemma set_longer_grow k X keys : (length (keys_of k X) < length keys)%nat → shares_grow k (set_share_keys X keys k).
Proof. intros Hl id. rewrite set_keys_of. case_decide; subst; auto. Qed.

(** The counts of a keyring, and a snapshot with the same. *)
Lemma held_epochs_ids k : (held_share_epochs k).*1 = held_shares k.
Proof. unfold held_share_epochs, held_shares. rewrite <- list_fmap_compose. done. Qed.

Lemma held_epochs_elem k id : counts_fit k → NoDup (held_shares k) → keys_of k id ≠ [] →
  (id, Z.of_nat (length (keys_of k id))) ∈ held_share_epochs k.
Proof.
  intros Hc Hnd Hne. specialize (Hc id). unfold keys_of, share in *. destruct (find_share id _) as [s|] eqn:E; [|done].
  apply find_share_in in E as [Hin <-]. apply list_elem_of_fmap. exists s. split; [|done].
  unfold u32_wrap, u32_max in *. by rewrite Z.mod_small by lia.
Qed.

Lemma same_epoch_set_elem a b p : NoDup a.*1 → same_epoch_set a b = true → p ∈ b → p ∈ a.
Proof.
  intros Hnd [Hlen%Nat.eqb_eq Hall]%andb_prop Hp.
  assert (Hsub : a ⊆+ b).
  { apply NoDup_submseteq; [by eapply NoDup_fmap_1|]. intros x Hx. rewrite forallb_forall in Hall.
    specialize (Hall x). rewrite bool_decide_eq_true in Hall. by apply Hall, list_elem_of_In. }
  apply submseteq_length_Permutation in Hsub; [|lia]. by rewrite Hsub.
Qed.

(** A snapshot from the past whose set is the one held is of the lists held. *)
Lemma past_same_lists k k' s : NoDup (held_shares k') → counts_fit k' → shares_grow k k' → from_past k s →
  same_epoch_set (snap_shares s) (held_share_epochs k') = true → ∀ id, keys_of k' id = keys_of k id.
Proof.
  intros Hnd Hc Hg (_ & Hns & Hp) Hsame id. destruct (Hg id) as [|Hlt]; [done|]. exfalso.
  assert (Hne : keys_of k' id ≠ []) by (intros E; rewrite E in Hlt; simpl in Hlt; lia).
  pose proof (same_epoch_set_elem _ _ _ Hns Hsame (held_epochs_elem _ _ Hc Hnd Hne)) as Hin.
  specialize (Hp _ _ Hin). lia.
Qed.

Lemma covers_longer `{Aead} `{MsgPack Rec} k X keys frames s :
  let k' := set_share_keys X keys k in
  NoDup (held_shares k') → counts_fit k' → (length (keys_of k X) < length keys)%nat →
  0 ≤ covered s ≤ Z.of_nat (length frames) → from_past k s →
  covers k' frames s ∧ from_past k' s.
Proof.
  intros k' Hnd Hc Hl Hcov Hp. pose proof (set_longer_grow k X keys Hl) as Hg.
  split; [|by eapply from_past_grow]. split; [done|]. intros Hsame.
  pose proof (past_same_lists k k' s Hnd Hc Hg Hp Hsame X) as E.
  unfold k' in E. rewrite set_keys_of, decide_True in E by done. rewrite E in Hl. lia.
Qed.

Section growth.
Context `{AeadLaws} `{!AeadCommit} `{MsgPackLaws Keyring} `{MsgPackLaws Rec}.
Context `{MsgPackLaws Snapshot} `{JsonTextLaws Meta} `{HashOrderLaws}.
Context `{Base64Laws} `{Argon2} `{X25519} `{Ed25519} `{Hkdf} `{Bip39}.

(** A list with the keys held of a share, and more. *)
Definition more_keys (k : Keyring) (X : Uuid) (keys : list (arr 32)) : Prop :=
  keys_of k X ⊆ keys ∧ (length (keys_of k X) < length keys)%nat.

Lemma not_held k X : has_share k X = false → keys_of k X = [].
Proof. unfold has_share, keys_of. by destruct (share k X). Qed.
Lemma more_keys_new k X keys : has_share k X = false → keys ≠ [] → more_keys k X keys.
Proof.
  intros Hx Hne. unfold more_keys. rewrite (not_held _ _ Hx). split; [by intros x ?%not_elem_of_nil|].
  destruct keys; simpl; [done | lia].
Qed.
Lemma more_keys_ne k X keys : more_keys k X keys → keys ≠ [].
Proof. intros [_ Hlen] ->. simpl in Hlen. lia. Qed.

(** Absorbing them. *)
Definition with_share (X : Uuid) (keys : list (arr 32)) (nonce : Nonce) (w : World) : World :=
  let k := set_share_keys X keys (v_keyring w.2) in
  (set_f_keyring (seal nonce (v_kek w.2) (mp_encode k) (arr_bytes (vault_id (v_meta w.2)))) w.1,
   with_keyring k w.2).

(** Making a share and rotating one are absorbing a list of one key more. *)
Lemma create_share_with w X key nonce :
  Lifecycle.create_share X key nonce w = (with_share X (keys_of (v_keyring w.2) X ++ [key]) nonce w, Ok X).
Proof.
  destruct w as [d v]. unfold Lifecycle.create_share, with_share, rekey, write_keyring, sbind, sget, sput, self, disk, sret.
  simpl. by rewrite push_as_set.
Qed.

Lemma rotate_share_with w X key nonce : has_share (v_keyring w.2) X = true →
  rotate_share X key nonce w = (with_share X (keys_of (v_keyring w.2) X ++ [key]) nonce w,
    Ok (share_epoch (push_share_key X key (v_keyring w.2)) X)).
Proof.
  intros Hx. destruct w as [d v]. simpl in Hx.
  unfold rotate_share, with_share, rekey, write_keyring, sbind, sguard, sget, sput, self, disk, sret.
  simpl. rewrite Hx. simpl. by rewrite push_as_set.
Qed.

Lemma more_keys_snoc k X key : more_keys k X (keys_of k X ++ [key]).
Proof. split; [intros x Hx; apply elem_of_app; by left | rewrite length_app; simpl; lia]. Qed.

(** Taking up a list, whatever it is: no news, or a longer one is installed. *)
Lemma absorb_share_cases X list nonce w w' r : absorb_share_key X list nonce w = (w', r) →
  w' = w ∨ ∃ keys, (length (keys_of (v_keyring w.2) X) < length keys)%nat ∧ w' = with_share X keys nonce w.
Proof.
  destruct w as [d v]. unfold absorb_share_key, absorb_keys, rekey, write_keyring, sbind, slift, sget, sput, self, disk, sret, keys_of.
  simpl. destruct (split_key_list list) as [keys|] eqn:E; simpl; [|intros [= <- _]; by left].
  apply split_key_list_sound in E as [_ Hne].
  destruct (share (v_keyring v) X) as [y|]; simpl.
  - destruct (Nat.leb_spec (length keys) (length (sk_keys y))); simpl; intros [= <- _]; [by left | right; by exists keys].
  - intros [= <- _]. right. exists keys. split; [|done]. destruct keys; simpl; [done | lia].
Qed.

(** Keys that open nothing of the log leave what is read as it was. *)
Definition opens_none_new (k k' : Keyring) (frames : list RawEntry) : Prop :=
  ∀ f key plain, f ∈ frames → key ∈ trial_keys k' → open key f.2 (arr_bytes f.1) = Ok plain → key ∈ trial_keys k.

Lemma open_entries_fresh k k' frames : trial_keys k ⊆ trial_keys k' → opens_none_new k k' frames →
  open_entries k' frames = open_entries k frames.
Proof.
  intros Hsub Hnew. induction frames as [|[id blob] frames IH]; [done|]. cbn [open_entries].
  rewrite IH by (intros f key plain Hf; apply Hnew; by constructor).
  assert (open_entry k' id blob = open_entry k id blob) as ->; [|done].
  apply try_keys_fresh; [done|]. intros key plain Hk Ho. apply (Hnew (id, blob) key plain); [constructor | done..].
Qed.

(** The snapshot on disk, if any, was taken of keys held now or before. *)
Definition snapshot_from_past (w : World) : Prop :=
  ∀ s, read_snapshot w.1 w.2 = Some s → from_past (v_keyring w.2) s.

Lemma with_share_snapshot X keys nonce w s : read_snapshot (with_share X keys nonce w).1 (with_share X keys nonce w).2 = Some s →
  read_snapshot w.1 w.2 = Some s.
Proof. done. Qed.

Lemma with_share_sound X keys nonce w : vault_inv w → snapshot_from_past w →
  (length (keys_of (v_keyring w.2) X) < length keys)%nat →
  let k' := set_share_keys X keys (v_keyring w.2) in
  counts_fit k' → trial_keys (v_keyring w.2) ⊆ trial_keys k' → opens_none_new (v_keyring w.2) k' (frames_of w) →
  vault_inv (with_share X keys nonce w) ∧ snapshot_from_past (with_share X keys nonce w).
Proof.
  intros [Hk Hm [n Hf] [recs [[frames Hl] Hst]] Hs Hl0] Hp Hlen k' Hc Hsub Hnew.
  assert (Hne : keys ≠ []) by (intros ->; simpl in Hlen; lia).
  assert (Hwf : keyring_wf k') by (by apply set_share_keys_wf).
  rewrite (frames_of_holds _ _ _ Hl) in Hnew.
  assert (Hh : log_holds (with_share X keys nonce w) frames recs).
  { destruct Hl as (data & Hd & Hpf & Ho). exists data. split_and!; [done..|]. rewrite <- Ho. by apply open_entries_fresh. }
  assert (Hsnap : ∀ s, read_snapshot w.1 w.2 = Some s → covers k' frames s ∧ from_past k' s).
  { intros s Hr. apply covers_longer; [apply Hwf | done | done | by apply (Hs s frames recs) | by apply Hp]. }
  split; [|intros s Hr; by apply Hsnap].
  split; simpl; try done; [eauto | exists recs; split; eauto |].
  intros s fs rs Hr Hl'. destruct (log_holds_fun _ _ _ _ _ Hl' Hh) as [-> ->]. by apply Hsnap.
Qed.

(** ** Snapshots taken *)

(** The snapshot of a whole log. *)
Definition taken (w : World) (s : Snapshot) : Prop :=
  ∃ frames recs, log_holds w frames recs ∧ (0 < length frames)%nat ∧
    s = mkSnapshot (Z.of_nat (length frames)) (held_share_epochs (v_keyring w.2)) (hash_values (merge_all recs)).

Lemma taken_sound w s frames : NoDup (held_shares (v_keyring w.2)) → taken w s → frames = frames_of w →
  covers (v_keyring w.2) frames s ∧ from_past (v_keyring w.2) s.
Proof.
  intros Hnd (fs & recs & Hl & Hpos & ->) ->. rewrite (frames_of_holds _ _ _ Hl).
  destruct Hl as (data & _ & _ & Ho). split.
  - unfold covers. simpl. split; [lia|]. intros _. exists recs. by rewrite Nat2Z.id, firstn_all, collect_merged.
  - unfold from_past. simpl. split_and!; [lia | by rewrite held_epochs_ids |].
    intros id n (s & [= -> ->] & Hin)%list_elem_of_fmap. unfold keys_of, share.
    rewrite (find_share_intro _ s Hnd Hin). unfold u32_wrap. apply Z.mod_le; lia.
Qed.

Lemma compact_snapshot n w w' r : compact n w = (w', r) →
  f_snapshot w'.1 = f_snapshot w.1 ∨ ∃ s, taken w s ∧ read_snapshot w'.1 w'.2 = Some s.
Proof.
  intros Hc. destruct w as [d v]. revert Hc.
  unfold compact, raw_entries, read_file, write_snapshot, sbind, slift, sget, sput, self, disk, sret. simpl.
  destruct (f_log d) as [data|] eqn:Ed; simpl; [|intros [= <- _]; by left].
  destruct (parse_frames data) as [frames|] eqn:Ep; simpl; [|intros [= <- _]; by left].
  destruct (open_entries _ frames) as [recs|] eqn:Eo; simpl; [|intros [= <- _]; by left].
  destruct (Nat.leb_spec (length frames) (size (merge_all recs))); intros [= <- _]; [by left | right].
  eexists. split; [exists frames, recs; split_and!; [by exists data | lia | done]|].
  unfold read_snapshot. simpl. by rewrite open_seal, mp_round.
Qed.

Lemma replay_snapshot n w w' r : replay_log n w = (w', r) →
  f_snapshot w'.1 = f_snapshot w.1 ∨ ∃ s, taken w s ∧ read_snapshot w'.1 w'.2 = Some s.
Proof.
  intros Hc. destruct w as [d v]. revert Hc.
  unfold replay_log, raw_entries, read_file, sbind, slift, sget, sput, self, sret. simpl.
  destruct (f_log d) as [data|] eqn:Ed; simpl; [|intros [= <- _]; by left].
  destruct (parse_frames data) as [frames|] eqn:Ep; simpl; [|intros [= <- _]; by left].
  destruct (fold_from_snapshot _ _ _) as [sc|]; simpl; [|intros [= <- _]; by left].
  destruct (_ && _); [|intros [= <- _]; by left].
  destruct (compact n (d, with_state sc.1 v)) as [w1 r1] eqn:Ec. apply compact_snapshot in Ec.
  assert (Hw1 : f_snapshot w1.1 = f_snapshot d ∨ ∃ s, taken (d, v) s ∧ read_snapshot w1.1 w1.2 = Some s).
  { destruct Ec as [E|(s & (fs & recs & Hl & Hpos & ->) & Hr)]; [by left | right].
    eexists. split; [|exact Hr]. exists fs, recs. by split_and!. }
  destruct r1; intros [= <- _]; exact Hw1.
Qed.

(** An operation leaves the snapshot on disk or takes one. *)
Lemma op_snapshot o w w' r : vault_inv w → run_op o w = (w', r) → log_small w'.1 →
  f_snapshot w'.1 = f_snapshot w.1 ∨ ∃ s, taken w s ∧ read_snapshot w'.1 w'.2 = Some s.
Proof.
  intros Hw Hrun Hsm. pose proof (inv_meta _ Hw) as Hm.
  assert (Happ : ∀ rec eid n w1 r1, append rec eid n (ticked w) = (w1, r1) → f_snapshot w1.1 = f_snapshot w.1).
  { intros rec eid n w1 r1. rewrite append_eq. destruct (current_for _ _); [|by intros [= <- _]].
    destruct (f_log _); by intros [= <- _]. }
  destruct o; simpl in Hrun.
  - left. unfold ignore, sbind in Hrun. rewrite add_in_eq in Hrun by done.
    destruct (validate_payload kind p) as [u|e]; [|by injection Hrun as <- _].
    destruct (has_share _ _); [|by injection Hrun as <- _].
    destruct (find_record _ _ _ _); [by injection Hrun as <- _|].
    cbv zeta in Hrun. destruct (append _ _ _ _) as [w1 r1] eqn:Ha. apply Happ in Ha.
    assert (w1 = w') as <- by (destruct r1; unfold sret in Hrun; simpl in Hrun; congruence). done.
  - left. rewrite edit_eq in Hrun by done.
    destruct (validate_payload kind p) as [u|e]; [|by injection Hrun as <- _].
    destruct (find_record _ _ _ _); [by eapply Happ | by injection Hrun as <- _].
  - left. rewrite remove_eq in Hrun by done.
    destruct (find_record _ _ _ _); [by eapply Happ | by injection Hrun as <- _].
  - left. rewrite apply_remote_eq in Hrun by done.
    destruct (open_entry _ _ _) as [o|]; [|by injection Hrun as <- _].
    destruct (f_log w.1); [|by injection Hrun as <- _]. by injection Hrun as <- _.
  - left. unfold set_sync_cursor in Hrun.
    rewrite (update_meta_eq (λ m, with_cursor (Z.max (sync_cursor m) cursor) m)) in Hrun by done. by injection Hrun as <- _.
  - left. unfold reset_sync_cursor in Hrun. rewrite (update_meta_eq (with_cursor 0)) in Hrun by done. by injection Hrun as <- _.
  - left. unfold set_relay_url in Hrun. rewrite (update_meta_eq (with_relay_url url)) in Hrun by done. by injection Hrun as <- _.
  - unfold ignore, sbind in Hrun. destruct (compact nonce w) as [w1 r1] eqn:Ec. apply compact_snapshot in Ec.
    assert (w1 = w') as <- by (destruct r1; unfold sret in Hrun; congruence). done.
  - rewrite reload_eq in Hrun by done. by eapply replay_snapshot.
Qed.

Lemma op_from_past o w w' r : vault_inv w → snapshot_from_past w → run_op o w = (w', r) → log_small w'.1 →
  snapshot_from_past w'.
Proof.
  intros Hw Hp Hrun Hsm s Hs. assert (Hk : kept w w') by (apply vault_step_kept; [done | by exists o, r]).
  rewrite (kept_keyring _ _ Hk). destruct (op_snapshot _ _ _ _ Hw Hrun Hsm) as [E|(s' & Ht & Hs')].
  - apply Hp. unfold read_snapshot in *. pose proof (kept_identity _ _ Hk) as Hid.
    rewrite E, (kept_kek _ _ Hk) in Hs. injection Hid as Hid _. by rewrite Hid in Hs.
  - rewrite Hs in Hs'. injection Hs' as ->. by eapply taken_sound; [apply (inv_keyring _ Hw) | exact Ht|].
Qed.

(** ** Any sequence of operations *)

(** The operations of an open vault that change its keys. *)
Inductive key_op : Type :=
  | KeyRotate (phrase : string) (nonce : Nonce)
  | KeyCreateShare (id : Uuid) (key : Secret32) (nonce : Nonce)
  | KeyRotateShare (share : Uuid) (key : Secret32) (nonce : Nonce)
  | KeyAbsorb (share : Uuid) (list : bytes) (nonce : Nonce)
  | KeyInstall (list : bytes) (nonce : Nonce).

Definition run_key_op (o : key_op) : VM unit :=
  match o with
  | KeyRotate phrase nonce => ignore (Lifecycle.rotate phrase nonce)
  | KeyCreateShare id key nonce => ignore (Lifecycle.create_share id key nonce)
  | KeyRotateShare share key nonce => ignore (rotate_share share key nonce)
  | KeyAbsorb share list nonce => absorb_share_key share list nonce
  | KeyInstall list nonce => set_vault_key list nonce
  end.

(** What is asked of keys added: they open nothing in the log, and a list taken
    up has the keys held.  The list installed on joining is free: the log must
    be empty then. *)
Definition new_keys (o : key_op) (w w' : World) : Prop :=
  match o with
  | KeyInstall _ _ => True
  | KeyAbsorb _ _ _ => trial_keys (v_keyring w.2) ⊆ trial_keys (v_keyring w'.2) ∧
      opens_none_new (v_keyring w.2) (v_keyring w'.2) (frames_of w)
  | _ => opens_none_new (v_keyring w.2) (v_keyring w'.2) (frames_of w)
  end.

Inductive life_step (w w' : World) : Prop :=
  | life_op o r : run_op o w = (w', r) → log_small w'.1 → life_step w w'
  | life_key o r : run_key_op o w = (w', r) → new_keys o w w' → counts_fit (v_keyring w'.2) → life_step w w'.

(** A log of whole frames that grew into a log of whole frames gained frames. *)
Lemma log_ext_frames w w' x x' fs fs' : log_ext w w' → f_log w.1 = Some x → parse_frames x = Ok fs →
  f_log w'.1 = Some x' → parse_frames x' = Ok fs' →
  ∃ after, fs' = fs ++ after ∧ f_log w.1 = Some (frames_bytes fs) ∧ f_log w'.1 = Some (frames_bytes (fs ++ after)).
Proof.
  intros Hl Hx [-> Hf]%parse_frames_iff Hx' [-> Hf']%parse_frames_iff.
  destruct (Hl _ Hx) as [more Hm]. rewrite Hx' in Hm. injection Hm as Hm.
  destruct (frames_bytes_prefix _ _ _ Hf Hf' Hm) as (after & -> & _). eauto.
Qed.

(** The passphrase that opened a vault opens one with its identity and key. *)
Lemma same_kek passphrase (w w' : World) : vault_kek (v_meta w.2) passphrase = Ok (v_kek w.2) →
  identity (v_meta w'.2) = identity (v_meta w.2) → v_kek w'.2 = v_kek w.2 →
  vault_kek (v_meta w'.2) passphrase = Ok (v_kek w'.2).
Proof. intros Hp Hid ->. injection Hid as _ _ Hkdf. rewrite <- Hp. unfold vault_kek. by rewrite Hkdf. Qed.

(** What a step keeps. *)
Record lives (w w' : World) : Prop := {
  lv_inv : vault_inv w';
  lv_past : snapshot_from_past w';
  lv_identity : identity (v_meta w'.2) = identity (v_meta w.2);
  lv_kek : v_kek w'.2 = v_kek w.2;
  lv_secrets : kr_x25519_secret (v_keyring w'.2) = kr_x25519_secret (v_keyring w.2) ∧
               kr_ed25519_secret (v_keyring w'.2) = kr_ed25519_secret (v_keyring w.2);
  lv_log : log_ext w w'
}.

Lemma lives_refl w : vault_inv w → snapshot_from_past w → lives w w.
Proof. intros Hw Hp. split; try done. intros data Hd. exists []. by rewrite app_nil_r. Qed.
Lemma lives_trans w1 w2 w3 : lives w1 w2 → lives w2 w3 → lives w1 w3.
Proof.
  intros [_ _ I1 K1 [X1 E1] L1] [Hi Hp I2 K2 [X2 E2] L2]. split; try done; try congruence; [split; congruence|].
  intros data Hd. destruct (L1 _ Hd) as [m1 H1'], (L2 _ H1') as [m2 H2']. exists (m1 ++ m2). by rewrite app_assoc.
Qed.

Lemma lives_with_share X keys nonce w : vault_inv w → snapshot_from_past w →
  (length (keys_of (v_keyring w.2) X) < length keys)%nat → let w' := with_share X keys nonce w in
  counts_fit (v_keyring w'.2) → trial_keys (v_keyring w.2) ⊆ trial_keys (v_keyring w'.2) →
  opens_none_new (v_keyring w.2) (v_keyring w'.2) (frames_of w) → lives w w'.
Proof.
  intros Hw Hp Hl w' Hc Hsub Hnew. destruct (with_share_sound X keys nonce w) as [Hi Hp']; try done.
  split; try done. intros data Hd. exists []. by rewrite app_nil_r.
Qed.

(** A list installed on an empty log. *)
Lemma lives_install list nonce w w' r : vault_inv w → snapshot_from_past w →
  set_vault_key list nonce w = (w', r) → lives w w'.
Proof.
  intros Hw Hp Hrun. destruct (inv_log _ Hw) as [recs [[frames Hl] Hst]].
  pose proof Hl as (data & Hd & Hpf & Ho). destruct w as [d v]. simpl in *.
  unfold set_vault_key, raw_entries, rekey, write_keyring, read_file, sbind, slift, sguard, sget, sput, self, disk, sret in Hrun.
  simpl in Hrun. rewrite Hd in Hrun. simpl in Hrun. rewrite Hpf in Hrun. simpl in Hrun.
  destruct frames as [|f frames]; simpl in Hrun; [|injection Hrun as <- _; by apply lives_refl].
  destruct (split_key_list list) as [keys|] eqn:E; simpl in Hrun; [|injection Hrun as <- _; by apply lives_refl].
  apply split_key_list_sound in E as [_ Hne]. injection Hrun as <- _. simpl in Ho. injection Ho as <-.
  pose proof (set_share_keys_wf _ NIL keys (inv_keyring _ Hw) Hne) as (Hw1 & Hw2 & Hw3 & _).
  assert (Hno : read_snapshot d v = None).
  { destruct (read_snapshot d v) as [s|] eqn:Es; [|done].
    destruct (inv_snapshot _ Hw s [] [] Es Hl) as [Hc _]. destruct (Hp s Es) as [Hpos _]. simpl in Hc. lia. }
  assert (Hno' : ∀ s, read_snapshot d v = Some s → False) by (intros s Hs; congruence).
  split; simpl; try done.
  - split; simpl; [done | apply (inv_meta _ Hw) | eauto | | intros s fs rs Hs; by destruct (Hno' s) | apply (inv_lamport _ Hw)].
    exists []. split; [|done]. exists [], data. by split_and!.
  - intros s Hs. by destruct (Hno' s).
  - intros x Hx. exists []. by rewrite app_nil_r.
Qed.

Lemma rotate_cases phrase nonce w w' r : Lifecycle.rotate phrase nonce w = (w', r) →
  w' = w ∨ ∃ key, w' = with_share NIL (keys_of (v_keyring w.2) NIL ++ [key]) nonce w.
Proof.
  destruct w as [d v]. unfold Lifecycle.rotate, crypto, rekey, write_keyring, with_share, sbind, slift, sget, sput, self, disk, sret. simpl.
  destruct (vault_key_at_epoch phrase _) as [key|]; simpl; [|intros [= <- _]; by left].
  intros [= <- _]. right. exists key. by rewrite push_as_set.
Qed.

Lemma lives_push X key nonce w : vault_inv w → snapshot_from_past w →
  let w' := with_share X (keys_of (v_keyring w.2) X ++ [key]) nonce w in
  counts_fit (v_keyring w'.2) → opens_none_new (v_keyring w.2) (v_keyring w'.2) (frames_of w) → lives w w'.
Proof.
  intros Hw Hp w' Hc Hnew. pose proof (more_keys_snoc (v_keyring w.2) X key) as [Hsub Hl].
  apply lives_with_share; try done. apply trial_keys_more; [apply (inv_keyring _ Hw) | done].
Qed.

Lemma life_step_lives w w' : vault_inv w → snapshot_from_past w → life_step w w' → lives w w'.
Proof.
  intros Hw Hp [o r Hrun Hsm|o r Hrun Hnew Hc].
  - assert (Hk : kept w w') by (apply vault_step_kept; [done | by exists o, r]).
    split; [apply Hk | by eapply op_from_past | apply Hk | apply Hk | by rewrite (kept_keyring _ _ Hk) | exact (kept_log _ _ Hk)].
  - destruct o; simpl in Hrun, Hnew.
    + unfold ignore, sbind in Hrun. destruct (Lifecycle.rotate phrase nonce w) as [w1 r1] eqn:E.
      assert (w1 = w') as -> by (destruct r1; unfold sret in Hrun; congruence).
      apply rotate_cases in E as [->|[key ->]]; [by apply lives_refl | by apply lives_push].
    + unfold ignore, sbind in Hrun. rewrite create_share_with in Hrun. injection Hrun as <- _. by apply lives_push.
    + unfold ignore, sbind in Hrun. destruct (has_share (v_keyring w.2) share) eqn:Hs.
      * rewrite rotate_share_with in Hrun by done. injection Hrun as <- _. by apply lives_push.
      * assert (w' = w) as ->; [|by apply lives_refl].
        revert Hrun. destruct w as [d v]. unfold rotate_share, sbind, sget, sguard. simpl in *. rewrite Hs. by intros [= <- _].
    + apply absorb_share_cases in Hrun as [->|(keys & Hl & ->)]; [by apply lives_refl|].
      destruct Hnew. by apply lives_with_share.
    + by eapply lives_install.
Qed.

Lemma life_lives w w' : vault_inv w → snapshot_from_past w → rtc life_step w w' → lives w w'.
Proof.
  intros Hw Hp Hs. revert Hw Hp. induction Hs as [w|w w1 w2 Hstep Hs IH]; intros Hw Hp; [by apply lives_refl|].
  pose proof (life_step_lives _ _ Hw Hp Hstep) as Hl. eapply lives_trans; [exact Hl|]. apply IH; apply Hl.
Qed.

(** C2: a vault in any state it can reach is sound.  From [create_with_keys], by
    any sequence of record operations, remote entries, metadata updates,
    compactions, reloads, rotations, shares made and rotated, key lists taken up
    and the list installed on joining, successful or failed, the state is the
    merge of the records the keys open in the log, the files agree with the
    handle, the passphrase opens it, identity and device secrets are those it was
    created with, and between any two of its states the log only gained frames
    at its end.  The keys that are added must be new, in that they open nothing
    the log holds yet, and a list taken up must have the keys held. *)
Theorem reachable_vault_sound name passphrase id key rp device draw d d' v w1 w2 :
  f_snapshot d = None →
  create_with_keys name passphrase id key rp device draw d = (d', Ok v) →
  rtc life_step (d', v) w1 → rtc life_step w1 w2 →
  session passphrase w2 ∧
  (∃ frames recs, f_log w2.1 = Some (frames_bytes frames) ∧
     open_entries (v_keyring w2.2) frames = Ok recs ∧ v_state w2.2 = merge_all recs) ∧
  identity (v_meta w2.2) = identity (v_meta v) ∧
  kr_x25519_secret (v_keyring w2.2) = kr_x25519_secret (v_keyring v) ∧
  kr_ed25519_secret (v_keyring w2.2) = kr_ed25519_secret (v_keyring v) ∧
  ∃ before after, f_log w1.1 = Some (frames_bytes before) ∧ f_log w2.1 = Some (frames_bytes (before ++ after)).
Proof.
  intros Hsn Hc H1' H2'. destruct (create_session _ _ _ _ _ _ _ _ _ _ Hsn Hc) as [Hses Hr].
  assert (Hp0 : snapshot_from_past (d', v)).
  { intros s Hs. unfold read_snapshot in Hs. simpl in Hs. revert Hc. unfold create_with_keys.
    destruct (f_meta d); [done|]. destruct (vault_kek _ _); [|done].
    unfold exec, write_keyring, write_meta, disk, sbind, sget, sput. simpl. intros [= <- <-].
    simpl in Hs. by rewrite Hsn in Hs. }
  pose proof (life_lives _ _ (proj1 Hses) Hp0 H1') as L1.
  pose proof (life_lives _ _ (lv_inv _ _ L1) (lv_past _ _ L1) H2') as L2.
  pose proof (lives_trans _ _ _ L1 L2) as L.
  destruct (inv_log _ (lv_inv _ _ L1)) as [recs1 [[fs1 (x1 & Hx1 & Hf1 & _)] _]].
  destruct (inv_log _ (lv_inv _ _ L2)) as [recs2 [[fs2 (x2 & Hx2 & Hf2 & Ho2)] Hst2]].
  destruct (log_ext_frames _ _ _ _ _ _ (lv_log _ _ L2) Hx1 Hf1 Hx2 Hf2) as (after & -> & E1 & E2).
  split_and!; [| eauto 10 | apply L | apply L | apply L | eauto].
  split; [apply L|]. apply (same_kek _ (d', v)); [apply Hses | apply L..].
Qed.
End growth.
