(* ===== verification/Typing.v ===== *)
(** * Typing: payloads stay well typed

    A record's fields are values of no fixed type, merged field by field from
    concurrent writes.  Deserialising reads each field on its own, so mixing the
    fields of well-typed records of a kind gives a well-typed record, and
    nothing a device wrote drops out of its lists. *)

From Stdlib Require Import ZArith Lia String.
From S2P Require Import Prelude Text Record Merge Extern Crypto Log Keyring Validate Vault Crud VaultInv CrudFacts VaultProps.

#[local] Open Scope string_scope.
#[local] Open Scope list_scope.
#[local] Open Scope Z_scope.

(** The kind each payload type is stored under. *)
Class Kinded (T : Type) `{Payload T} := kind_of : Kind.
Arguments kind_of _ {_ _}.
#[export] Instance Host_kind : Kinded Host := Kind.Host.
#[export] Instance Snippet_kind : Kinded Snippet := Kind.Snippet.
#[export] Instance PortForward_kind : Kinded PortForward := Kind.PortForward.
#[export] Instance KeyMeta_kind : Kinded KeyMeta := Kind.KeyMeta.
#[export] Instance PrivateKey_kind : Kinded PrivateKey := Kind.PrivateKey.
#[export] Instance ShareName_kind : Kinded ShareName := Kind.ShareName.

(** The payload parses as the type of the kind; a bare tombstone has none. *)
Definition well_typed (r : Rec) : bool :=
  match rec_kind r with
  | Kind.Tombstone => bool_decide (rec_fields r = ∅)
  | Kind.Host => bool_decide (is_Some (payload (T := Host) r))
  | Kind.Snippet => bool_decide (is_Some (payload (T := Snippet) r))
  | Kind.PortForward => bool_decide (is_Some (payload (T := PortForward) r))
  | Kind.KeyMeta => bool_decide (is_Some (payload (T := KeyMeta) r))
  | Kind.PrivateKey => bool_decide (is_Some (payload (T := PrivateKey) r))
  | Kind.ShareName => bool_decide (is_Some (payload (T := ShareName) r))
  end.

(** Well typed, and of the one kind its id was made with unless a tombstone. *)
Definition sound (κ : Uuid → Kind) (r : Rec) : Prop :=
  well_typed r = true ∧ (rec_kind r = Kind.Tombstone ∨ rec_kind r = κ (rec_id r)).

(** Fields read on their own: values taken from either of two readable maps can
    be read together. *)
Class FieldWise (T : Type) `{Payload T} : Prop :=
  de_fields_mix (f g h : string → option Value) :
    is_Some (de_fields (T := T) f) → is_Some (de_fields (T := T) g) →
    (∀ k, h k = f k ∨ h k = g k) → is_Some (de_fields (T := T) h).

Lemma bind_is_Some {A B : Type} (o : option A) (k : A → option B) :
  is_Some (o ≫= k) ↔ ∃ a, o = Some a ∧ is_Some (k a).
Proof. destruct o; simpl; [naive_solver | split; [by intros [] | by intros (? & ? & _)]]. Qed.

(** Each field in turn: the reader succeeds on whichever map it came from. *)
Ltac field_wise :=
  intros f g h Hf Hg Hk; unfold de_fields in *; simpl in *;
  repeat match goal with
  | |- is_Some (Some _) => eauto
  | Hf : is_Some (?rd (f ?k) ≫= _), Hg : is_Some (?rd (g ?k) ≫= _) |- is_Some (?rd (h ?k) ≫= _) =>
      apply bind_is_Some in Hf as (? & ? & Hf); apply bind_is_Some in Hg as (? & ? & Hg);
      let E := fresh in destruct (Hk k) as [E|E]; rewrite E; apply bind_is_Some; eexists; (split; [eassumption|])
  end.
#[export] Instance Host_field_wise : FieldWise Host.
Proof. field_wise. Qed.
#[export] Instance Snippet_field_wise : FieldWise Snippet.
Proof. field_wise. Qed.
#[export] Instance PortForward_field_wise : FieldWise PortForward.
Proof. field_wise. Qed.
#[export] Instance KeyMeta_field_wise : FieldWise KeyMeta.
Proof. field_wise. Qed.
#[export] Instance PrivateKey_field_wise : FieldWise PrivateKey.
Proof. field_wise. Qed.
#[export] Instance ShareName_field_wise : FieldWise ShareName.
Proof. field_wise. Qed.

Lemma payload_get {T : Type} `{PayloadLaws T} (r : Rec) :
  payload (T := T) r = de_fields (λ k, value <$> rec_fields r !! k).
Proof. unfold payload, from_value. apply de_fields_ext. intros k. apply obj_get_fields. Qed.

Lemma payload_merge {T : Type} `{!Payload T, !PayloadLaws T, !FieldWise T} (a b : Rec) :
  is_Some (payload (T := T) a) → is_Some (payload (T := T) b) → is_Some (payload (T := T) (merge a b)).
Proof.
  rewrite !payload_get. intros Ha Hb. apply (de_fields_mix _ _ _ Ha Hb). intros k.
  rewrite merge_eq. simpl. rewrite lookup_merge_fields.
  destruct (rec_fields a !! k) as [fa|], (rec_fields b !! k) as [fb|]; simpl; auto.
  unfold pick_field. destruct (pick_either field_clock fa fb) as [->| ->]; auto.
Qed.

(** A tombstone adds no fields. *)
Lemma payload_merge_bare_l {T : Type} `{!Payload T, !PayloadLaws T} (a b : Rec) :
  rec_fields a = ∅ → payload (T := T) (merge a b) = payload b.
Proof.
  intros Ha. apply payload_values. intros k. rewrite merge_eq. simpl.
  rewrite lookup_merge_fields, Ha, lookup_empty. by destruct (rec_fields b !! k).
Qed.
Lemma payload_merge_bare_r {T : Type} `{!Payload T, !PayloadLaws T} (a b : Rec) :
  rec_fields b = ∅ → payload (T := T) (merge a b) = payload a.
Proof.
  intros Hb. apply payload_values. intros k. rewrite merge_eq. simpl.
  rewrite lookup_merge_fields, Hb, lookup_empty. by destruct (rec_fields a !! k).
Qed.

Lemma merge_kind a b : rec_kind (merge a b) = ord_max (rec_kind a) (rec_kind b).
Proof. by rewrite merge_eq. Qed.
Lemma max_tombstone_l k : ord_max Kind.Tombstone k = k.
Proof. by destruct k. Qed.
Lemma max_tombstone_r k : ord_max k Kind.Tombstone = k.
Proof. by destruct k. Qed.

Lemma sound_merge κ a b : rec_id a = rec_id b → sound κ a → sound κ b → sound κ (merge a b).
Proof.
  intros Hid [Ha Ka] [Hb Kb]. unfold sound. rewrite merge_kind.
  replace (rec_id (merge a b)) with (rec_id a) by by rewrite merge_eq. unfold well_typed in *. rewrite merge_kind.
  rewrite <- Hid in Kb.
  destruct (decide (rec_kind a = Kind.Tombstone)) as [Ta|Ta];
    destruct (decide (rec_kind b = Kind.Tombstone)) as [Tb|Tb].
  - rewrite Ta, Tb in *. rewrite max_tombstone_l. apply bool_decide_eq_true_1 in Ha, Hb.
    split; [|by left]. apply bool_decide_eq_true_2. rewrite merge_eq. simpl. by rewrite Ha, Hb.
  - rewrite Ta in *. rewrite max_tombstone_l. split; [|by destruct Kb; [|right]].
    apply bool_decide_eq_true_1 in Ha. revert Hb. destruct (rec_kind b); try done; by rewrite payload_merge_bare_l.
  - rewrite Tb in *. rewrite max_tombstone_r. split; [|by destruct Ka; [|right]].
    apply bool_decide_eq_true_1 in Hb. revert Ha. destruct (rec_kind a); try done; by rewrite payload_merge_bare_r.
  - destruct Ka as [|Ka]; [done|]. destruct Kb as [|Kb]; [done|].
    assert (E : rec_kind b = rec_kind a) by congruence. rewrite E in *. rewrite ord_max_idem.
    split; [|by right]. destruct (rec_kind a); try done; apply bool_decide_eq_true_2;
      apply bool_decide_eq_true_1 in Ha, Hb; by apply payload_merge.
Qed.

Lemma sound_merge_step κ s r : (∀ id x, s !! id = Some x → rec_id x = id ∧ sound κ x) → sound κ r →
  ∀ id x, merge_step s r !! id = Some x → rec_id x = id ∧ sound κ x.
Proof.
  intros Hs Hr id x. rewrite lookup_merge_step. case_decide as E; [|apply Hs]. intros [= <-].
  destruct (s !! id) as [cur|] eqn:Ec; [|done]. destruct (Hs _ _ Ec) as [Hid Hc]. split.
  - by rewrite merge_eq.
  - apply sound_merge; [congruence | done..].
Qed.

Lemma sound_merge_all κ recs : Forall (sound κ) recs →
  ∀ id x, merge_all recs !! id = Some x → rec_id x = id ∧ sound κ x.
Proof.
  induction recs as [|r recs IH] using rev_ind; intros Hall; [by rewrite merge_all_nil|].
  apply Forall_app in Hall as [Hrecs Hr]. rewrite Forall_singleton in Hr. rewrite merge_all_snoc.
  apply sound_merge_step; [exact (IH Hrecs) | exact Hr].
Qed.

(* ------------------------------------------------------------------ *)
(** ** What a device writes *)

Class KindedLaws (T : Type) `{Kinded T} : Prop := {
  well_typed_kind (r : Rec) : rec_kind r = kind_of T → well_typed r = true ↔ is_Some (payload (T := T) r);
  kind_not_tombstone : kind_of T ≠ Kind.Tombstone
}.
Ltac kinded_laws := split; [intros r E; unfold well_typed; rewrite E; apply bool_decide_eq_true | done].
#[export] Instance Host_kind_laws : KindedLaws Host.
Proof. kinded_laws. Qed.
#[export] Instance Snippet_kind_laws : KindedLaws Snippet.
Proof. kinded_laws. Qed.
#[export] Instance PortForward_kind_laws : KindedLaws PortForward.
Proof. kinded_laws. Qed.
#[export] Instance KeyMeta_kind_laws : KindedLaws KeyMeta.
Proof. kinded_laws. Qed.
#[export] Instance PrivateKey_kind_laws : KindedLaws PrivateKey.
Proof. kinded_laws. Qed.
#[export] Instance ShareName_kind_laws : KindedLaws ShareName.
Proof. kinded_laws. Qed.

Section written.
Context {T : Type} `{KindedLaws T} `{!PayloadLaws T} (κ : Uuid → Kind).

Lemma fields_payload (p : T) (r : Rec) : payload_wf p →
  (∀ k, value <$> rec_fields r !! k = obj_get k (to_object p)) → rec_kind r = kind_of T → well_typed r = true.
Proof. intros Hp Hf Hk. apply (well_typed_kind (T := T)); [done|]. exists p. by apply payload_of_fields. Qed.

Lemma sound_new (p : T) share draw m : payload_wf p → κ (dr_record_id draw) = kind_of T →
  sound κ (new_record (kind_of T) p share draw m).
Proof.
  intros Hp Hk. split; [|by right]. eapply fields_payload; [exact Hp | | done].
  intros k. simpl. rewrite lookup_fields_from_payload. by destruct (obj_get k _).
Qed.

Lemma sound_edited (p : T) old draw m : payload_wf p → rec_kind old = kind_of T → sound κ old →
  sound κ (edited_record (kind_of T) p old draw m).
Proof.
  intros Hp Hk [_ [Ht|Ho]]; [exfalso; apply (kind_not_tombstone (T := T)); congruence|].
  split; [|right; simpl; congruence]. eapply fields_payload; [exact Hp | | done].
  intros k. simpl. rewrite lookup_edit_fields, lookup_fields_from_payload.
  destruct (obj_get k _) as [v|]; simpl; [|done]. destruct (rec_fields old !! k); [|done]. by case_decide.
Qed.
End written.

Lemma sound_tombstone κ old draw m : sound κ (tombstone old draw m).
Proof. split; [by apply bool_decide_eq_true_2 | by left]. Qed.

(** C24: payloads stay well typed.  Call a record sound when its fields parse as
    the payload type of its kind (a bare tombstone having none) and its id is
    used for one kind.  What a device writes when it adds, edits or removes is
    sound; merging any sound records, in any number and order, gives sound
    records; and so a vault lists every live record it holds: none is dropped
    because the fields of concurrent writes do not fit together. *)
Theorem payloads_stay_well_typed (κ : Uuid → Kind) (T : Type)
    `{!Payload T, !Kinded T, !KindedLaws T, !PayloadLaws T} `{HashOrderLaws} :
  (∀ (p : T) share draw m, payload_wf p → κ (dr_record_id draw) = kind_of T →
     sound κ (new_record (kind_of T) p share draw m)) ∧
  (∀ (p : T) old draw m, payload_wf p → rec_kind old = kind_of T → sound κ old →
     sound κ (edited_record (kind_of T) p old draw m)) ∧
  (∀ old draw m, sound κ (tombstone old draw m)) ∧
  (∀ recs id r, Forall (sound κ) recs → merge_all recs !! id = Some r → sound κ r) ∧
  (∀ recs v id r, Forall (sound κ) recs → v_state v = merge_all recs →
     v_state v !! id = Some r → live r = true → rec_kind r = kind_of T →
     ∃ p, payload r = Some p ∧ (id, p) ∈ list_of T v (kind_of T)).
Proof.
  split_and!.
  - apply sound_new.
  - apply sound_edited.
  - apply sound_tombstone.
  - intros recs id r Hr Hm. by eapply sound_merge_all.
  - intros recs v id r Hr Hv Hm Hl Hk. rewrite Hv in Hm.
    destruct (sound_merge_all κ recs Hr id r Hm) as [_ [Hw _]].
    apply (well_typed_kind (T := T)) in Hw as [p Hp]; [|done]. exists p. split; [done|].
    apply list_of_elem; [|exists r; rewrite Hv; by split_and!].
    intros i x. rewrite Hv. intros Hx. by apply (sound_merge_all κ recs Hr i x).
Qed.
