(* ===== verification/Backup.v ===== *)
(** * Backup: exporting a vault and importing the export

    An export lists the payloads of the live hosts, snippets, forwards and
    public keys; an import adds those whose names are not taken.  What an
    import of an export does to any vault, and that doing it again does
    nothing. *)

From Stdlib Require Import ZArith Lia String.
From S2P Require Import Prelude Text Record Merge Extern Crypto Log Keyring Validate Vault Crud VaultInv CrudFacts VaultProps Typing.

#[local] Open Scope string_scope.
#[local] Open Scope list_scope.
#[local] Open Scope Z_scope.

(** The payload types of an export: the array they are in and their name. *)
Class Exported (T : Type) `{Kinded T} := {
  export_key : string;
  name_key : string;
  name_of : T → string
}.
Arguments export_key _ {_ _ _}.
Arguments name_key _ {_ _ _}.
Class ExportedLaws (T : Type) `{Exported T} : Prop := {
  exported_kinded :: KindedLaws T;
  exported_payload :: PayloadLaws T;
  name_of_object (p : T) : obj_get (name_key T) (to_object p) = Some (JString (name_of p));
  parsed_wf f (p : T) : de_fields f = Some p → payload_wf p
}.

#[export] Instance Host_exported : Exported Host := {| export_key := "hosts"; name_key := "alias"; name_of := alias |}.
#[export] Instance Snippet_exported : Exported Snippet :=
  {| export_key := "snippets"; name_key := "name"; name_of := snippet_name |}.
#[export] Instance PortForward_exported : Exported PortForward :=
  {| export_key := "forwards"; name_key := "name"; name_of := fwd_name |}.
#[export] Instance KeyMeta_exported : Exported KeyMeta :=
  {| export_key := "keys"; name_key := "name"; name_of := key_name |}.

#[local] Ltac exported_laws :=
  split; [exact _ | exact _ | intros []; rewrite obj_get_to_object; reflexivity | try done].
#[export] Instance Host_exported_laws : ExportedLaws Host.
Proof.
  exported_laws. intros f p. unfold de_fields. simpl. intros Hp.
  repeat (apply bind_Some in Hp as (? & ? & Hp)). injection Hp as <-. simpl. by eapply de_opt_u16_range.
Qed.
#[export] Instance Snippet_exported_laws : ExportedLaws Snippet.
Proof. exported_laws. Qed.
#[export] Instance PortForward_exported_laws : ExportedLaws PortForward.
Proof. exported_laws. Qed.
#[export] Instance KeyMeta_exported_laws : ExportedLaws KeyMeta.
Proof. exported_laws. Qed.

(** The payloads of a type a vault lists. *)
Definition payloads (T : Type) `{Kinded T} `{HashOrder} (v : Vault) : list T := (list_of T v (kind_of T)).*2.
(** Whether an import takes a payload: no live record has its name. *)
Definition is_new {T : Type} `{Exported T} `{HashOrder} (v : Vault) (p : T) : bool :=
  match find_record v (kind_of T) (name_key T) (name_of p) with Some _ => false | None => true end.

(** ** Records gained *)

Lemma list_raw_take (T : Type) `{Payload T} K r l (p : T) : live r = true → rec_kind r = K → payload r = Some p →
  list_raw T K (r :: l) = (rec_id r, p) :: list_raw T K l.
Proof.
  intros Hl Hk Hp. unfold list_raw. rewrite filter_cons_True by (rewrite Hl, Hk; by apply bool_decide_eq_true_2).
  cbn [omap list_omap]. by rewrite Hp.
Qed.
Lemma list_raw_skip (T : Type) `{Payload T} K r l : rec_kind r ≠ K → list_raw T K (r :: l) = list_raw T K l.
Proof.
  intros Hk. unfold list_raw. rewrite filter_cons_False; [done|].
  rewrite bool_decide_eq_false_2 by done. by rewrite andb_false_r.
Qed.

Section gained.
Context `{HashOrderLaws}.

(** The state has the old records and some more. *)
Definition gained (v v' : Vault) (rs : list (Uuid * Rec)) : Prop :=
  map_to_list (v_state v') ≡ₚ rs ++ map_to_list (v_state v).

Lemma gained_insert v v' id r : v_state v !! id = None → v_state v' = <[id := r]> (v_state v) →
  gained v v' [(id, r)].
Proof. intros Hid Hst. unfold gained. rewrite Hst. by rewrite map_to_list_insert. Qed.

Lemma gained_refl v : gained v v [].
Proof. unfold gained. reflexivity. Qed.

Lemma gained_trans v1 v2 v3 rs1 rs2 : gained v1 v2 rs1 → gained v2 v3 rs2 → gained v1 v3 (rs2 ++ rs1).
Proof. unfold gained. intros E1 E2. by rewrite E2, E1, app_assoc. Qed.

Lemma gained_fresh v v' rs id : gained v v' rs → v_state v !! id = None → id ∉ rs.*1 → v_state v' !! id = None.
Proof.
  intros Hg Hid Hrs. destruct (v_state v' !! id) as [r|] eqn:E; [|done]. exfalso.
  apply elem_of_map_to_list in E. rewrite Hg in E. apply elem_of_app in E as [E|E].
  - apply Hrs. by apply (list_elem_of_fmap_2 fst) in E.
  - apply elem_of_map_to_list in E. congruence.
Qed.

Lemma is_new_spec {T : Type} `{Exported T} v (q : T) : is_new v q = true ↔
  Forall (λ x, is_named (kind_of T) (name_key T) (name_of q) x.2 = false) (map_to_list (v_state v)).
Proof.
  unfold is_new. destruct (find_record _ _ _ _) as [r|] eqn:E.
  - split; [done|]. rewrite Forall_forall. intros Hall. apply find_record_some in E as [[id Hid] Hn].
    apply elem_of_map_to_list in Hid. specialize (Hall _ Hid). simpl in Hall. congruence.
  - split; [|done]. intros _. rewrite find_record_none in E. apply Forall_forall.
    intros [id r] Hin%elem_of_map_to_list. by apply (E id).
Qed.

(** What the gained records are: live ones of a type with some payloads. *)
Definition holds_payload {T : Type} `{Exported T} (x : Uuid * Rec) (p : T) : Prop :=
  live x.2 = true ∧ rec_kind x.2 = kind_of T ∧ payload x.2 = Some p ∧
  value <$> rec_fields x.2 !! name_key T = Some (JString (name_of p)).

Context {T : Type} `{ExportedLaws T} (v v' : Vault) (rs : list (Uuid * Rec)) (ps : list T).
Context (Hg : gained v v' rs) (Hps : Forall2 holds_payload rs ps).

Lemma gained_values : hash_values (v_state v') ≡ₚ rs.*2 ++ hash_values (v_state v).
Proof. by rewrite !hash_values_perm, Hg, fmap_app. Qed.

Lemma list_raw_gained : (list_raw T (kind_of T) (rs.*2)).*2 = ps.
Proof.
  clear Hg. induction Hps as [|x p rs' ps' (Hl & Hk & Hp & _) Hr IH]; [done|]. specialize (IH Hr).
  rewrite fmap_cons, (list_raw_take T _ _ _ _ Hl Hk Hp), fmap_cons. by rewrite IH.
Qed.

Lemma list_raw_other (T2 : Type) `{Payload T2} K : K ≠ kind_of T → list_raw T2 K (rs.*2) = [].
Proof.
  intros HK. clear Hg. induction Hps as [|x p rs' ps' (Hl & Hk & Hp & _) Hr IH]; [done|]. specialize (IH Hr).
  rewrite fmap_cons, list_raw_skip; [exact IH | congruence].
Qed.

Lemma list_raw_perm (T2 : Type) `{Payload T2} K l1 l2 : l1 ≡ₚ l2 → list_raw T2 K l1 ≡ₚ list_raw T2 K l2.
Proof. unfold list_raw. by intros ->. Qed.
Lemma list_raw_app (T2 : Type) `{Payload T2} K l1 l2 : list_raw T2 K (l1 ++ l2) = list_raw T2 K l1 ++ list_raw T2 K l2.
Proof. unfold list_raw. by rewrite filter_app, omap_app. Qed.
Lemma list_of_raw (T2 : Type) `{Payload T2} x K : list_of T2 x K ≡ₚ list_raw T2 K (hash_values (v_state x)).
Proof. unfold list_of. cbv zeta. by rewrite sort_by_key_perm. Qed.

Lemma payloads_gained : payloads T v' ≡ₚ payloads T v ++ ps.
Proof.
  unfold payloads. rewrite !list_of_raw, (list_raw_perm T _ _ _ gained_values), list_raw_app, fmap_app.
  rewrite list_raw_gained. apply Permutation_app_comm.
Qed.

Lemma payloads_other (T2 : Type) `{Kinded T2} : kind_of T2 ≠ kind_of T → payloads T2 v' ≡ₚ payloads T2 v.
Proof.
  intros HK. unfold payloads. rewrite !list_of_raw, (list_raw_perm T2 _ _ _ gained_values), list_raw_app.
  by rewrite list_raw_other.
Qed.

Lemma named_gained x p (q : T) : holds_payload x p →
  is_named (kind_of T) (name_key T) (name_of q) x.2 = bool_decide (name_of q = name_of p).
Proof.
  intros (Hl & Hk & _ & Hn). unfold is_named. rewrite Hl, Hk, bool_decide_eq_true_2 by done. simpl.
  destruct (rec_fields x.2 !! name_key T) as [f|]; [|done]. injection Hn as ->.
  apply bool_decide_ext. split; [by intros [= ->] | by intros ->].
Qed.

Lemma is_new_gained (q : T) : is_new v' q = is_new v q && negb (bool_decide (name_of q ∈ name_of <$> ps)).
Proof.
  apply eq_iff_eq_true. rewrite andb_true_iff, negb_true_iff, bool_decide_eq_false, !is_new_spec.
  rewrite Hg, Forall_app. rewrite (and_comm (Forall _ rs)). apply and_iff_compat_l. clear Hg.
  induction Hps as [|x p rs' ps' Hx Hr IH]; [split; [by intros _ ?%not_elem_of_nil | constructor]|].
  rewrite Forall_cons, fmap_cons, not_elem_of_cons, (IH Hr), (named_gained _ _ q Hx), bool_decide_eq_false. done.
Qed.

Lemma is_new_other (T2 : Type) `{Exported T2} (q : T2) : kind_of T2 ≠ kind_of T → is_new v' q = is_new v q.
Proof.
  intros HK. apply eq_iff_eq_true. rewrite !is_new_spec, Hg, Forall_app.
  split; [by intros [_ ?]|]. intros Hall. split; [|done]. clear Hg Hall.
  induction Hps as [|x p rs' ps' (Hl & Hk & _) Hr IH]; constructor; [|by apply IH].
  unfold is_named. rewrite Hk, (bool_decide_eq_false_2 (kind_of T = kind_of T2)) by congruence. by rewrite andb_false_r.
Qed.
End gained.

(** ** Importing *)

(** What an export needs to be taken whole, and what of it is new to a vault. *)
Definition exportable (T : Type) `{Exported T} `{HashOrder} (v : Vault) : Prop :=
  NoDup (name_of <$> payloads T v) ∧ Forall (λ p, validate_payload (kind_of T) p = Ok tt) (payloads T v).
Definition news (T : Type) `{Exported T} `{HashOrder} (v v' : Vault) : list T :=
  filter (λ p, is_new v' p = true) (payloads T v).

Section importing.
Context `{AeadLaws} `{!AeadCommit} `{MsgPackLaws Keyring} `{MsgPackLaws Rec}.
Context `{MsgPackLaws Snapshot} `{JsonTextLaws Meta} `{HashOrderLaws} `{Base64}.
#[local] Open Scope mon_scope.

(** No step of an import shortens the log. *)
Definition grows {A} (m : VM A) : Prop := ∀ w w' r, m w = (w', r) → log_ext w w'.

Lemma grows_bind {A B} (m : VM A) (k : A → VM B) : grows m → (∀ a, grows (k a)) → grows (sbind m k).
Proof.
  intros Hm Hk w w' r. unfold sbind. destruct (m w) as [w1 [a|e]] eqn:E.
  - intros E' data Hd. destruct (Hm _ _ _ E _ Hd) as [m1 Hd1], (Hk _ _ _ _ E' _ Hd1) as [m2 Hd2].
    exists (m1 ++ m2). by rewrite app_assoc.
  - intros [= <- <-]. by eapply Hm.
Qed.
Lemma grows_still {A} (m : VM A) : (∀ w, f_log (m w).1.1 = f_log w.1) → grows m.
Proof. intros Hm w w' r E data. apply log_same. specialize (Hm w). by rewrite E in Hm. Qed.

Lemma add_grows {T} `{Payload T} kind nf name (p : T) draw : grows (add kind nf name p draw).
Proof.
  unfold add, add_in. apply grows_bind; [by apply grows_still|intros _]. apply grows_bind; [by apply grows_still|intros v].
  apply grows_bind; [apply grows_still; intros w; unfold sguard; by case_match|intros _].
  apply grows_bind; [apply grows_still; intros w; by case_match|intros _].
  apply grows_bind; [by apply grows_still|intros clock].
  apply grows_bind; [|intros _; by apply grows_still]. intros w w' r. rewrite append_eq.
  destruct (current_for _ _); [|intros [= <- _] data; by apply log_same].
  destruct (f_log w.1) eqn:E; intros [= <- _]; [|intros data; by apply log_same].
  intros data. rewrite E. intros [= ->]. simpl. eauto.
Qed.

Lemma count_grows t m : grows m → grows (count_add t m).
Proof.
  intros Hm w w' r. unfold count_add. destruct t as [[i a] k], (m w) as [w1 [id|e]] eqn:E.
  - intros [= <- _]. by eapply Hm.
  - destruct e; intros [= <- _]; by eapply Hm.
Qed.

Lemma items_grow {T} `{Payload T} key kind nf (name : T → string) draws items :
  ∀ t, grows (import_items key kind nf name draws items t).
Proof.
  induction items as [|item items IH]; intros t; cbn [import_items]; [by apply grows_still|].
  apply grows_bind; [by apply grows_still|intros p]. apply grows_bind; [apply count_grows, add_grows | apply IH].
Qed.

(** The ids still to be drawn are not in use. *)
Definition unused_ids (draws : nat → Draw) (lo hi : nat) (v : Vault) : Prop :=
  ∀ k, (lo ≤ k < hi)%nat → v_state v !! dr_record_id (draws k) = None.
Definition distinct_ids (draws : nat → Draw) (n : nat) : Prop :=
  ∀ i j, (i < n)%nat → (j < n)%nat → dr_record_id (draws i) = dr_record_id (draws j) → i = j.

Section items.
Context {T : Type} `{ExportedLaws T}.
Abbreviation adding p draw := (add (kind_of T) (name_key T) (name_of p) p draw).

Lemma has_default w : vault_inv w → has_share (v_keyring w.2) uuid_nil = true.
Proof. intros Hw. apply held_has. apply (inv_keyring _ Hw). Qed.

Lemma add_taken (p : T) draw w : vault_inv w → validate_payload (kind_of T) p = Ok tt → is_new w.2 p = false →
  adding p draw w = (w, Err (VaultError.Duplicate (kind_str (kind_of T)) (name_of p))).
Proof.
  intros Hw Hv Hn. unfold add. rewrite add_in_eq by apply Hw. rewrite Hv. unfold is_new in Hn.
  destruct (find_record _ _ _ _); [|done].
  by rewrite has_default.
Qed.

Lemma add_new (p : T) draw w : vault_inv w → payload_wf p → validate_payload (kind_of T) p = Ok tt → is_new w.2 p = true →
  v_state w.2 !! dr_record_id draw = None →
  ∃ w' x, adding p draw w = (w', Ok (dr_record_id draw)) ∧
    (log_small w'.1 → vault_inv w' ∧ gained w.2 w'.2 [(dr_record_id draw, x)] ∧ holds_payload (dr_record_id draw, x) p).
Proof.
  intros Hw Hwf Hv Hn Hid. unfold add. rewrite add_in_eq by apply Hw. rewrite Hv, (has_default _ Hw).
  unfold is_new in Hn. destruct (find_record _ _ _ _); [done|]. cbv zeta.
  set (x := new_record _ _ _ _ _). destruct (append _ _ _ _) as [w' r] eqn:Ha. pose proof Ha as Ha'.
  rewrite append_eq in Ha'. destruct (current_for_wf _ _ (inv_keyring _ Hw) (has_default _ Hw)) as [key Hkey].
  change (v_keyring (ticked w).2) with (v_keyring w.2) in Ha'. change (rec_share_id x) with uuid_nil in Ha'.
  rewrite Hkey in Ha'. change (f_log (ticked w).1) with (f_log w.1) in Ha'.
  destruct (inv_log _ Hw) as [recs [[frames (data & Hd & _)] _]]. rewrite Hd in Ha'. injection Ha' as <- <-.
  eexists _, x. split; [done|]. intros Hs. destruct (append_ticked _ _ _ _ _ _ Hw Ha Hs) as (Hinv & Hst & _).
  split_and!; [done | |].
  - apply gained_insert; [done|]. rewrite Hst. unfold merge_step, upsert. simpl. by rewrite Hid.
  - split_and!; [by apply live_spec; destruct (kind_of T) eqn:E; try done; destruct (kind_not_tombstone (T := T))| done | by apply new_payload |].
    simpl. by rewrite lookup_fields_from_payload, name_of_object.
Qed.

(** An import of payloads with distinct names. *)
Lemma import_items_run draws limit ps : ∀ t w w' r,
  vault_inv w → NoDup (name_of <$> ps) → Forall (λ p, payload_wf p ∧ validate_payload (kind_of T) p = Ok tt) ps →
  distinct_ids draws limit → unused_ids draws t.1.1 limit w.2 → (t.1.1 + length ps ≤ limit)%nat →
  import_items (export_key T) (kind_of T) (name_key T) name_of draws (to_value <$> ps) t w = (w', r) → log_small w'.1 →
  let new := filter (λ p, is_new w.2 p = true) ps in
  r = Ok ((t.1.1 + length ps)%nat, t.1.2 + Z.of_nat (length new), t.2 + Z.of_nat (length ps - length new)) ∧
  vault_inv w' ∧ unused_ids draws (t.1.1 + length ps) limit w'.2 ∧ (new = [] → w' = w) ∧
  ∃ rs, gained w.2 w'.2 rs ∧ Forall2 holds_payload rs new.
Proof.
  induction ps as [|p ps IH]; intros [[i a] k] w w' r Hw Hnd Hok Hdist Hids Hlen; cbn [fmap list_fmap import_items fst snd].
  { intros [= <- <-] Hs. cbn [length]. rewrite Nat.add_0_r, !Z.add_0_r. split_and!; try done. exists [].
    split; [apply gained_refl | constructor]. }
  apply Forall_cons in Hok as [[Hwf Hv] Hok]. apply NoDup_cons in Hnd as [Hp Hnd].
  cbn [length] in Hlen. cbn [fst snd] in *.
  unfold sbind at 1, slift. rewrite from_to_value by done. cbn [ok_or]. unfold sbind at 1, count_add.
  destruct (is_new w.2 p) eqn:Hn; intros Hrun Hs.
  - rewrite filter_cons_True by done.
    destruct (add_new p (draws i) w Hw Hwf Hv Hn) as (w1 & x & Hadd & Hpost); [apply Hids; lia|]. rewrite Hadd in Hrun.
    destruct Hpost as (Hw1 & Hg1 & Hx); [eapply log_ext_small; [by eapply items_grow | done]|].
    assert (Hf : filter (λ q, is_new w1.2 q = true) ps = filter (λ q, is_new w.2 q = true) ps).
    { apply filter_ext_in. intros q Hq. rewrite (is_new_gained _ _ _ [p] Hg1) by (constructor; [exact Hx | constructor]).
      rewrite bool_decide_eq_false_2; [by rewrite andb_true_r|]. intros Hin%list_elem_of_singleton. apply Hp. rewrite <- Hin. by apply list_elem_of_fmap_2. }
    destruct (IH (S i, a + 1, k) w1 w' r Hw1 Hnd Hok Hdist) as (-> & Hw' & Hids' & _ & rs & Hg & Hrs); simpl; try done; [|lia|].
    { intros j Hj. eapply gained_fresh; [exact Hg1 | apply Hids; lia |]. simpl. rewrite list_elem_of_singleton.
      intros E. apply Hdist in E; lia. }
    rewrite Hf in *. cbn [length]. split_and!; [f_equal; rewrite !pair_equal_spec; lia | done | | done |].
    + by replace (i + S (length ps))%nat with (S i + length ps)%nat by lia.
    + exists ((dr_record_id (draws i), x) :: rs). split; [|by constructor].
      pose proof (gained_trans _ _ _ _ _ Hg1 Hg) as Hgg. unfold gained in *. by rewrite Hgg, <- Permutation_cons_append.
  - rewrite filter_cons_False by (by rewrite Hn). rewrite (add_taken p (draws i) w Hw Hv Hn) in Hrun.
    destruct (IH (S i, a, k + 1) w w' r Hw Hnd Hok Hdist) as (-> & Hrest); simpl; try done; [intros j Hj; apply Hids; lia | lia |].
    cbn [length]. pose proof (length_filter (λ q, is_new w.2 q = true) ps).
    split; [f_equal; rewrite !pair_equal_spec; lia|]. by replace (i + S (length ps))%nat with (S i + length ps)%nat by lia.
Qed.

(** Names all taken: nothing happens. *)
Lemma import_items_taken draws w ps : ∀ t, vault_inv w →
  Forall (λ p, payload_wf p ∧ validate_payload (kind_of T) p = Ok tt ∧ is_new w.2 p = false) ps →
  import_items (export_key T) (kind_of T) (name_key T) name_of draws (to_value <$> ps) t w =
  (w, Ok ((t.1.1 + length ps)%nat, t.1.2, t.2 + Z.of_nat (length ps))).
Proof.
  induction ps as [|p ps IH]; intros [[i a] k] Hw Hall; cbn [fmap list_fmap import_items fst snd].
  { unfold sret. cbn [length]. by rewrite Nat.add_0_r, Z.add_0_r. }
  apply Forall_cons in Hall as [(Hwf & Hv & Hn) Hall]. unfold sbind at 1, slift. rewrite from_to_value by done.
  cbn [ok_or]. unfold sbind at 1, count_add. rewrite (add_taken p (draws i) w Hw Hv Hn).
  rewrite (IH (S i, a, k + 1) Hw Hall). f_equal. f_equal. cbn [fst snd length]. rewrite !pair_equal_spec. lia.
Qed.

Lemma payloads_wf v : Forall payload_wf (payloads T v).
Proof.
  apply Forall_forall. intros p Hp. unfold payloads in Hp. apply list_elem_of_fmap in Hp as ([id q] & -> & Hin).
  rewrite list_of_raw in Hin. apply list_raw_elem in Hin as (r & _ & _ & _ & _ & Hp).
  rewrite payload_get in Hp. by eapply parsed_wf.
Qed.

(** One array of an export imported: the new payloads are there, all names are
    taken, the other kinds are as they were. *)
Record imported (v : Vault) (w w' : World) : Prop := {
  im_inv : vault_inv w';
  im_payloads : payloads T w'.2 ≡ₚ payloads T w.2 ++ news T v w.2;
  im_taken : ∀ p, p ∈ payloads T v → is_new w'.2 p = false;
  im_other (T2 : Type) `{ExportedLaws T2} : kind_of T2 ≠ kind_of T →
    payloads T2 w'.2 ≡ₚ payloads T2 w.2 ∧ ∀ q : T2, is_new w'.2 q = is_new w.2 q
}.

Lemma import_array draws limit v t w w' r :
  vault_inv w → exportable T v → distinct_ids draws limit → unused_ids draws t.1.1 limit w.2 →
  (t.1.1 + length (payloads T v) ≤ limit)%nat →
  import_items (export_key T) (kind_of T) (name_key T) name_of draws (to_value <$> payloads T v) t w = (w', r) → log_small w'.1 →
  r = Ok ((t.1.1 + length (payloads T v))%nat, t.1.2 + Z.of_nat (length (news T v w.2)),
          t.2 + Z.of_nat (length (payloads T v) - length (news T v w.2))) ∧
  unused_ids draws (t.1.1 + length (payloads T v)) limit w'.2 ∧ imported v w w'.
Proof.
  intros Hw [Hnd Hval] Hdist Hids Hlen Hrun Hs.
  destruct (import_items_run draws limit _ _ _ _ _ Hw Hnd ltac:(apply Forall_and; split; [apply payloads_wf | done]) Hdist Hids Hlen Hrun Hs)
    as (-> & Hw' & Hids' & _ & rs & Hg & Hrs).
  split; [done|]. split; [done|]. split.
  - done.
  - by eapply payloads_gained.
  - intros p Hp. rewrite (is_new_gained _ _ _ _ Hg Hrs). destruct (is_new w.2 p) eqn:Hn; [|done].
    rewrite bool_decide_eq_true_2; [done|]. apply list_elem_of_fmap_2, list_elem_of_filter. done.
  - intros T2 P2 K2 X2 L2 HK. split; [exact (payloads_other _ _ _ _ Hg Hrs T2 HK)|]. intros q. exact (is_new_other _ _ _ _ Hg Hrs T2 q HK).
Qed.
End items.

(** ** The four arrays *)

Definition exported_size (v : Vault) : nat :=
  length (payloads Host v) + length (payloads Snippet v) + length (payloads PortForward v) + length (payloads KeyMeta v).
Definition news_size (v v' : Vault) : nat :=
  length (news Host v v') + length (news Snippet v v') + length (news PortForward v v') + length (news KeyMeta v v').

(** The import of one array of an export. *)
Definition import_exported (T : Type) `{Exported T} draws v : Tally → VM Tally :=
  import_items (export_key T) (kind_of T) (name_key T) name_of draws (to_value <$> payloads T v).

Lemma exported_items v :
  json_items (export_json v) "hosts" = to_value <$> payloads Host v ∧
  json_items (export_json v) "snippets" = to_value <$> payloads Snippet v ∧
  json_items (export_json v) "forwards" = to_value <$> payloads PortForward v ∧
  json_items (export_json v) "keys" = to_value <$> payloads KeyMeta v.
Proof. unfold payloads. rewrite <-!list_fmap_compose. done. Qed.

Lemma bind_grown {A B} (m : VM A) (k : A → VM B) w w' r : (∀ a, grows (k a)) → sbind m k w = (w', r) → log_small w'.1 →
  ∃ w1 r1, m w = (w1, r1) ∧ log_small w1.1 ∧ (∀ a, r1 = Ok a → k a w1 = (w', r)).
Proof.
  intros Hk. unfold sbind. destruct (m w) as [w1 [a|e]]; intros Hrun Hs.
  - exists w1, (Ok a). split_and!; [done | by eapply log_ext_small; [eapply Hk|] |]. by intros b [= <-].
  - injection Hrun as -> _. by exists w', (Err e).
Qed.

Lemma news_other (T T2 : Type) `{ExportedLaws T} `{ExportedLaws T2} v w w' :
  imported (T := T) v w w' → kind_of T2 ≠ kind_of T → news T2 v w'.2 = news T2 v w.2.
Proof.
  intros Him HK. unfold news. apply filter_ext_in. intros q _. by rewrite (proj2 (im_other _ _ _ Him T2 HK) q).
Qed.

(** The arrays one after the other. *)
Definition all_imported (v : Vault) (w w' : World) : Prop :=
  ∃ w1 w2 w3, imported (T := Host) v w w1 ∧ imported (T := Snippet) v w1 w2 ∧
    imported (T := PortForward) v w2 w3 ∧ imported (T := KeyMeta) v w3 w'.

Definition all_exportable (v : Vault) : Prop :=
  exportable Host v ∧ exportable Snippet v ∧ exportable PortForward v ∧ exportable KeyMeta v.

Lemma import_stage (T : Type) `{ExportedLaws T} {A} draws limit v i a k w w' r (K : Tally → VM A) :
  (∀ t, grows (K t)) → vault_inv w → exportable T v → distinct_ids draws limit → unused_ids draws i limit w.2 →
  (i + length (payloads T v) ≤ limit)%nat →
  sbind (import_exported T draws v (i, a, k)) K w = (w', r) →
  log_small w'.1 →
  ∃ w1, imported (T := T) v w w1 ∧ unused_ids draws (i + length (payloads T v)) limit w1.2 ∧
    K ((i + length (payloads T v))%nat, a + Z.of_nat (length (news T v w.2)),
       k + Z.of_nat (length (payloads T v) - length (news T v w.2))) w1 = (w', r).
Proof.
  intros HK Hw HX Hdist Hids Hlen Hrun Hs. destruct (bind_grown _ _ _ _ _ HK Hrun Hs) as (w1 & r1 & Hr1 & Hs1 & Hrest).
  destruct (import_array draws limit v (i, a, k) _ _ _ Hw HX Hdist Hids Hlen Hr1 Hs1) as (-> & Hids1 & Him).
  exists w1. split_and!; [done..|]. by apply Hrest.
Qed.

Lemma news_le (T : Type) `{Exported T} v v' : (length (news T v v') ≤ length (payloads T v))%nat.
Proof. apply length_filter. Qed.

Lemma import_json_arrays draws v : import_json (export_json v) draws =
  do t <- import_exported Host draws v (0%nat, 0, 0); do t <- import_exported Snippet draws v t;
  do t <- import_exported PortForward draws v t; do t <- import_exported KeyMeta draws v t; sret (t.1.2, t.2).
Proof.
  unfold import_json. destruct (exported_items v) as (-> & -> & -> & ->). reflexivity.
Qed.

#[local] Ltac all_grow :=
  intros; repeat (apply grows_bind; [apply items_grow | intros]); by apply grows_still.

Lemma import_run draws v w w' r :
  vault_inv w → all_exportable v → distinct_ids draws (exported_size v) → unused_ids draws 0 (exported_size v) w.2 →
  import_json (export_json v) draws w = (w', r) → log_small w'.1 →
  r = Ok (Z.of_nat (news_size v w.2), Z.of_nat (exported_size v - news_size v w.2)) ∧ all_imported v w w'.
Proof.
  intros Hw (Xh & Xs & Xf & Xk) Hdist Hids Hrun Hs. rewrite import_json_arrays in Hrun.
  set (limit := exported_size v) in *. assert (Hlim : limit = exported_size v) by done. unfold exported_size in Hlim.
  eapply (import_stage Host) in Hrun as (w1 & M1 & I1 & Hrun); [| all_grow | done | done | exact Hdist | exact Hids | lia | done].
  eapply (import_stage Snippet) in Hrun as (w2 & M2 & I2 & Hrun); [| all_grow | apply M1 | done | exact Hdist | exact I1 | lia | done].
  eapply (import_stage PortForward) in Hrun as (w3 & M3 & I3 & Hrun); [| all_grow | apply M2 | done | exact Hdist | exact I2 | lia | done].
  eapply (import_stage KeyMeta) in Hrun as (w4 & M4 & I4 & Hrun); [| all_grow | apply M3 | done | exact Hdist | exact I3 | lia | done].
  injection Hrun as <- <-. split; [|by exists w1, w2, w3].
  rewrite (news_other PortForward KeyMeta _ _ _ M3), (news_other Snippet KeyMeta _ _ _ M2), (news_other Host KeyMeta _ _ _ M1),
    (news_other Snippet PortForward _ _ _ M2), (news_other Host PortForward _ _ _ M1), (news_other Host Snippet _ _ _ M1) by done.
  pose proof (news_le Host v w.2). pose proof (news_le Snippet v w.2).
  pose proof (news_le PortForward v w.2). pose proof (news_le KeyMeta v w.2).
  unfold news_size. f_equal. rewrite pair_equal_spec. lia.
Qed.

(** What four imports one after the other leave of one kind. *)
Definition restored (T : Type) `{Exported T} (v : Vault) (w w' : World) : Prop :=
  payloads T w'.2 ≡ₚ payloads T w.2 ++ news T v w.2 ∧ ∀ p, p ∈ payloads T v → is_new w'.2 p = false.

Lemma restored_here (T : Type) `{ExportedLaws T} v w w' : imported (T := T) v w w' → restored T v w w'.
Proof. intros Him. split; [apply Him | apply (im_taken _ _ _ Him)]. Qed.

Lemma restored_before (T T2 : Type) `{ExportedLaws T} `{ExportedLaws T2} v w1 w w' :
  imported (T := T) v w1 w → kind_of T2 ≠ kind_of T → restored T2 v w w' → restored T2 v w1 w'.
Proof.
  intros Him HK [Hp Ht]. split; [|done]. rewrite Hp, (news_other T T2 v w1 w Him HK). f_equiv.
  apply (im_other _ _ _ Him T2 HK).
Qed.

Lemma restored_after (T T2 : Type) `{ExportedLaws T} `{ExportedLaws T2} v w w1 w' :
  imported (T := T) v w1 w' → kind_of T2 ≠ kind_of T → restored T2 v w w1 → restored T2 v w w'.
Proof.
  intros Him HK [Hp Ht]. destruct (im_other _ _ _ Him T2 HK) as [Hp' Hn]. split; [by rewrite Hp'|].
  intros p Hin. rewrite Hn. by apply Ht.
Qed.

Lemma all_restored v w w' : all_imported v w w' →
  vault_inv w' ∧ restored Host v w w' ∧ restored Snippet v w w' ∧ restored PortForward v w w' ∧ restored KeyMeta v w w'.
Proof.
  intros (w1 & w2 & w3 & M1 & M2 & M3 & M4). split; [apply M4|].
  pose proof (restored_here Host _ _ _ M1) as R1. pose proof (restored_here Snippet _ _ _ M2) as R2.
  pose proof (restored_here PortForward _ _ _ M3) as R3. pose proof (restored_here KeyMeta _ _ _ M4) as R4.
  split_and!.
  - apply (restored_after KeyMeta Host) with (1 := M4); [done|]. apply (restored_after PortForward Host) with (1 := M3); [done|].
    apply (restored_after Snippet Host) with (1 := M2); [done|]. exact R1.
  - apply (restored_after KeyMeta Snippet) with (1 := M4); [done|]. apply (restored_after PortForward Snippet) with (1 := M3); [done|].
    apply (restored_before Host Snippet) with (1 := M1); [done|]. exact R2.
  - apply (restored_after KeyMeta PortForward) with (1 := M4); [done|]. apply (restored_before Host PortForward) with (1 := M1); [done|].
    apply (restored_before Snippet PortForward) with (1 := M2); [done|]. exact R3.
  - apply (restored_before Host KeyMeta) with (1 := M1); [done|]. apply (restored_before Snippet KeyMeta) with (1 := M2); [done|].
    apply (restored_before PortForward KeyMeta) with (1 := M3); [done|]. exact R4.
Qed.

(** Importing what is there already. *)
Lemma import_again (T : Type) `{ExportedLaws T} draws v w t : vault_inv w → exportable T v →
  (∀ p, p ∈ payloads T v → is_new w.2 p = false) →
  import_exported T draws v t w = (w, Ok ((t.1.1 + length (payloads T v))%nat, t.1.2, t.2 + Z.of_nat (length (payloads T v)))).
Proof.
  intros Hw [_ Hval] Hn. apply import_items_taken; [done|]. rewrite Forall_forall in *.
  intros p Hp. pose proof (payloads_wf (T := T) v) as Hwf. rewrite Forall_forall in Hwf. auto.
Qed.

(** C19: an import restores an export.  Importing the export of one vault into
    another, of any contents, with fresh ids for what it adds: it succeeds, adds
    exactly the hosts, snippets, forwards and public keys whose names are not
    taken there, each with its payload, leaves all others as they are, and
    counts both; importing the same export again adds nothing, counts all of it
    as skipped and leaves the vault and its files untouched. *)
Theorem import_restores_export v draws w w' r :
  vault_inv w → all_exportable v → distinct_ids draws (exported_size v) → unused_ids draws 0 (exported_size v) w.2 →
  import_json (export_json v) draws w = (w', r) → log_small w'.1 →
  r = Ok (Z.of_nat (news_size v w.2), Z.of_nat (exported_size v - news_size v w.2)) ∧ vault_inv w' ∧
  payloads Host w'.2 ≡ₚ payloads Host w.2 ++ news Host v w.2 ∧
  payloads Snippet w'.2 ≡ₚ payloads Snippet w.2 ++ news Snippet v w.2 ∧
  payloads PortForward w'.2 ≡ₚ payloads PortForward w.2 ++ news PortForward v w.2 ∧
  payloads KeyMeta w'.2 ≡ₚ payloads KeyMeta w.2 ++ news KeyMeta v w.2 ∧
  ∀ draws', import_json (export_json v) draws' w' = (w', Ok (0, Z.of_nat (exported_size v))).
Proof.
  intros Hw HX Hdist Hids Hrun Hs. destruct (import_run _ _ _ _ _ Hw HX Hdist Hids Hrun Hs) as [-> Him].
  destruct (all_restored _ _ _ Him) as (Hw' & [P1 N1] & [P2 N2] & [P3 N3] & [P4 N4]). split_and!; try done.
  destruct HX as (Xh & Xs & Xf & Xk). intros draws'. rewrite import_json_arrays. unfold sbind.
  rewrite (import_again Host) by done. rewrite (import_again Snippet) by done.
  rewrite (import_again PortForward) by done. rewrite (import_again KeyMeta) by done.
  cbn [fst snd]. unfold sret, exported_size. do 2 f_equal. rewrite pair_equal_spec. lia.
Qed.
End importing.
