(* ===== verification/Handles.v ===== *)
(** * Handles: several processes on one vault directory

    Every process holds its own [Vault] handle on the shared [Disk]; the
    exclusive file lock makes each locked region of [src/src/vault.rs] one
    step.  A step relation interleaves the regions of any number of handles,
    with handles opened at any time.  The theorem is the reason for
    [absorb_disk_meta]: no two writes of a device ever get the same clock. *)

From Stdlib Require Import ZArith Lia String Sorting.Sorted.
From S2P Require Import Prelude Text Record Merge Extern Crypto Log Keyring Validate Vault Crud Lifecycle VaultInv.

#[local] Open Scope string_scope.
#[local] Open Scope list_scope.
#[local] Open Scope Z_scope.

(** The locked regions of an open vault. *)
Inductive region : Type :=
  | RClock
  | RFrame (entry_id : arr 16) (blob : bytes)
  | RCursor (cursor : Z)
  | RResetCursor
  | RRelayUrl (url : string)
  | RRemote (entry_id : arr 16) (blob : bytes)
  | RCompact (nonce : Nonce)
  | RReload (nonce : Nonce).

(** A directory and the handles open on it. *)
Record Sys := mkSys { s_disk : Disk; s_handles : list Vault }.

Section handles.
Context `{Aead} `{HashOrder} `{MsgPack Keyring} `{MsgPack Rec} `{MsgPack Snapshot} `{JsonText Meta}.

(** A region and the clock it hands out, if any. *)
Definition run_region (r : region) : VM (option Clock) :=
  let none {A} (m : VM A) : VM (option Clock) := sbind m (λ _, sret None) in
  match r with
  | RClock => sbind next_clock (λ c, sret (Some c))
  | RFrame eid blob => none (write_frame eid blob)
  | RCursor c => none (set_sync_cursor c)
  | RResetCursor => none reset_sync_cursor
  | RRelayUrl url => none (set_relay_url url)
  | RRemote eid blob => none (apply_remote_entry eid blob)
  | RCompact n => none (compact n)
  | RReload n => none (reload n)
  end.

(** The metadata on disk. *)
Definition disk_meta (d : Disk) : option Meta := s ← f_meta d; json_from_str s.

(** One step: a handle runs a region (failed or not), or a process opens the
    directory, reading the metadata on disk.  The guard of the first rule
    keeps the 64-bit counter from wrapping. *)
Inductive sys_step : Sys → option Clock → Sys → Prop :=
  | step_region d hs i v reg d' v' res m :
      disk_meta d = Some m → meta_lamport m < u64_max →
      hs !! i = Some v → run_region reg (d, v) = ((d', v'), res) →
      sys_step (mkSys d hs) (match res with Ok c => c | Err _ => None end)
               (mkSys d' (<[i := v']> hs))
  | step_open d hs m kr kek st :
      disk_meta d = Some m →
      sys_step (mkSys d hs) None (mkSys d (hs ++ [mkVault m kr kek st])).

(** A run and the clocks it hands out, in order. *)
Inductive sys_run : Sys → list Clock → Sys → Prop :=
  | run_nil s : sys_run s [] s
  | run_cons s1 oc s2 cs s3 :
      sys_step s1 oc s2 → sys_run s2 cs s3 → sys_run s1 (option_list oc ++ cs) s3.

(** No handle is ahead of the disk, and all belong to one device. *)
Definition sys_ok (dev : Uuid) (n : Z) (s : Sys) : Prop :=
  ∃ m, disk_meta (s_disk s) = Some m ∧ meta_lamport m = n ∧ 0 ≤ n ∧ device_id m = dev ∧
       ∀ v, v ∈ s_handles s → device_id (v_meta v) = dev ∧ 0 ≤ meta_lamport (v_meta v) ≤ n.

(** What one region does to the counter on disk and to its handle's. *)
Definition region_ok (n : Z) (dev : Uuid) (w : World) (oc : option Clock) : Prop :=
  ∃ m, disk_meta w.1 = Some m ∧ n ≤ meta_lamport m ∧ device_id m = dev ∧
    device_id (v_meta w.2) = dev ∧ 0 ≤ meta_lamport (v_meta w.2) ≤ meta_lamport m ∧
    match oc with
    | Some c => n < lamport c ∧ lamport c = meta_lamport m ∧ device c = dev
    | None => True
    end.

Context `{!JsonTextLaws Meta}.

Lemma absorb_eq d m dm : disk_meta d = Some dm →
  absorb_disk_meta_in d m = with_cursor (Z.max (sync_cursor m) (sync_cursor dm))
    (with_lamport (Z.max (meta_lamport m) (meta_lamport dm)) m).
Proof. intros Hd. unfold absorb_disk_meta_in, disk_meta in *. by rewrite Hd. Qed.

(** Every region that writes the metadata has this shape. *)
Lemma region_ok_write d v m m' oc :
  disk_meta d = Some m → meta_lamport (v_meta v) ≤ meta_lamport m' →
  meta_lamport m ≤ meta_lamport m' → device_id m' = device_id m → 0 ≤ meta_lamport m' →
  match oc with
  | Some c => meta_lamport m < lamport c ∧ lamport c = meta_lamport m' ∧ device c = device_id m
  | None => True
  end →
  ∀ d' v', f_meta d' = Some (json_to_string m') → v_meta v' = m' →
  region_ok (meta_lamport m) (device_id m) (d', v') oc.
Proof.
  intros Hd Hle1 Hle2 Hdev Hp Hoc d' v' Hd' Hv'. exists m'. simpl. rewrite Hv'.
  split_and!; try done; try lia. unfold disk_meta. rewrite Hd'. simpl. apply json_round.
Qed.

(** A region that writes its metadata. *)
Ltac by_write d v m Ham :=
  eapply (region_ok_write d v m); [done | | | | | | reflexivity | reflexivity]; rewrite ?Ham in *; simpl in *;
  try done; rewrite ?u64_wrap_small by lia; lia || (split_and!; try done; lia).

Lemma region_step reg d v d' v' m res :
  disk_meta d = Some m → 0 ≤ meta_lamport m < u64_max →
  device_id (v_meta v) = device_id m → 0 ≤ meta_lamport (v_meta v) ≤ meta_lamport m →
  run_region reg (d, v) = ((d', v'), res) →
  region_ok (meta_lamport m) (device_id m) (d', v')
    (match res with Ok c => c | Err _ => None end).
Proof.
  intros Hd Hm Hdev Hv.
  set (am := absorb_disk_meta_in d (v_meta v)).
  assert (Ham : am = with_cursor (Z.max (sync_cursor (v_meta v)) (sync_cursor m))
    (with_lamport (meta_lamport m) (v_meta v))).
  { unfold am. rewrite (absorb_eq _ _ m) by done. by rewrite (Z.max_r (meta_lamport (v_meta v))) by lia. }
  assert (Hsame : ∀ v', v_meta v' = v_meta v → ∀ d', f_meta d' = f_meta d →
    region_ok (meta_lamport m) (device_id m) (d', v') None).
  { intros v1 Hv1 d1 Hd1. exists m. unfold disk_meta in *. simpl. rewrite Hd1, Hv1.
    split_and!; try done; lia. }
  destruct reg; unfold run_region.
  - unfold next_clock, absorb_disk_meta, write_meta, sbind, sget, sput, self, disk, sret; simpl.
    fold am. intros [= <- <- <-].
    by_write d v m Ham.
  - unfold write_frame, read_file, sbind, slift, sget, sput, disk, sret; simpl.
    destruct (f_log d); simpl; intros [= <- <- <-]; by apply Hsame.
  - unfold set_sync_cursor, absorb_disk_meta, write_meta, sbind, sget, sput, self, disk, sret; simpl.
    fold am. intros [= <- <- <-].
    by_write d v m Ham.
  - unfold reset_sync_cursor, absorb_disk_meta, write_meta, sbind, sget, sput, self, disk, sret; simpl.
    fold am. intros [= <- <- <-].
    by_write d v m Ham.
  - unfold set_relay_url, absorb_disk_meta, write_meta, sbind, sget, sput, self, disk, sret; simpl.
    fold am. intros [= <- <- <-].
    by_write d v m Ham.
  - unfold apply_remote_entry, absorb_disk_meta, write_frame, write_meta, read_file, sbind, slift,
      sget, sput, self, disk, sret; simpl. fold am.
    destruct (open_entry _ _ _) as [o|e]; simpl; [|intros [= <- <- <-]; by apply Hsame].
    destruct (f_log d) as [data|]; simpl; [|intros [= <- <- <-]].
    2: { exists m. rewrite Ham. simpl. split_and!; try done; lia. }
    destruct o as [r|]; simpl; intros [= <- <- <-].
    + destruct (Z.ltb_spec (meta_lamport am) (lamport (rec_clock r))) as [Hlt|Hge];
        by_write d v m Ham.
    + by_write d v m Ham.
  - unfold sbind. destruct (compact nonce (d, v)) as [[d1 v1] r1] eqn:Ec.
    apply compact_frame in Ec as (E1 & _ & _ & E2 & _). simpl in *.
    destruct r1; unfold sret; intros [= <- <- <-]; by apply Hsame.
  - unfold reload, read_file, sbind, slift, sget, sput, self, sret. simpl.
    unfold disk_meta in Hd. destruct (f_meta d) as [text|] eqn:Et; simpl; [|done].
    simpl in Hd. rewrite Hd. simpl.
    destruct (replay_log nonce _) as [[d1 v1] r1] eqn:Er. apply replay_frame in Er as (E1 & _ & _ & E2 & _).
    simpl in *. assert (Hok : region_ok (meta_lamport m) (device_id m) (d1, v1) None).
    { exists m. unfold disk_meta. simpl. rewrite E1, E2, Et. simpl. split_and!; try done; lia. }
    destruct r1; by intros [= <- <- <-].
Qed.

Lemma sys_step_ok dev n s oc s' :
  sys_ok dev n s → sys_step s oc s' →
  ∃ n', n ≤ n' ∧ sys_ok dev n' s' ∧
    match oc with Some c => n < lamport c ∧ lamport c = n' ∧ device c = dev | None => True end.
Proof.
  intros (m & Hm & <- & Hn0 & <- & Hv) Hs. inversion Hs as [d hs i v reg d' v' res m' Hm' Hmax Hi Hrun|
    d hs m' kr kek st Hm']; subst; simpl in *.
  - rewrite Hm in Hm'. injection Hm' as <-.
    destruct (Hv v) as [Hdev Hl]; [by eapply list_elem_of_lookup_2|].
    destruct (region_step reg d v d' v' m res) as (m' & Hd' & Hle & Hdev' & Hvd & Hvl & Hc); try done.
    exists (meta_lamport m'). split_and!; [done| |by destruct res as [[c|]|]].
    exists m'. split_and!; simpl; try done; [lia|].
    intros x Hx. apply list_elem_of_lookup in Hx as [j Hj].
    destruct (decide (i = j)) as [<-|Hij].
    + rewrite list_lookup_insert_eq in Hj by (by eapply lookup_lt_Some). by injection Hj as <-.
    + rewrite list_lookup_insert_ne in Hj by done.
      destruct (Hv x) as [Hxd Hxl]; [by eapply list_elem_of_lookup_2|]. split; [done | lia].
  - rewrite Hm in Hm'. injection Hm' as <-. exists (meta_lamport m). split_and!; [done| |done].
    exists m. split_and!; simpl; try done. intros x [Hx|Hx]%elem_of_app; [by apply Hv|].
    apply list_elem_of_singleton in Hx as ->. simpl. done.
Qed.

(** C13: however the locked regions of any number of processes on one vault
    directory interleave (with handles opened, reloaded or failing at any
    point), the clocks handed out are strictly increasing, all later than the
    counter the run started from: no write of the device ever reuses a
    clock, and the counter on disk never goes back. *)
Theorem interleaved_clocks_increase dev n s cs s' :
  sys_ok dev n s → sys_run s cs s' →
  StronglySorted (λ a b, ltb a b = true) cs ∧
  (∀ c, c ∈ cs → device c = dev ∧ n < lamport c) ∧
  ∃ n', n ≤ n' ∧ sys_ok dev n' s'.
Proof.
  intros Hok Hrun. revert n Hok. induction Hrun as [s|s1 oc s2 cs s3 Hstep Hrun IH]; intros n Hok.
  - split_and!; [constructor | by intros c ?%not_elem_of_nil | by exists n].
  - destruct (sys_step_ok _ _ _ _ _ Hok Hstep) as (n2 & Hn2 & Hok2 & Hc).
    destruct (IH _ Hok2) as (Hsorted & Hall & n3 & Hn3 & Hok3). split_and!.
    + destruct oc as [c|]; simpl; [|done]. constructor; [done|].
      apply Forall_forall. intros c' [_ Hc']%Hall. apply clock_lamport_lt. lia.
    + intros c' [Hin|Hin]%elem_of_app.
      * destruct oc as [c|]; simpl in Hin; [|by apply not_elem_of_nil in Hin].
        apply list_elem_of_singleton in Hin as ->. naive_solver.
      * destruct (Hall _ Hin). split; [done | lia].
    + exists n3. split; [lia | done].
Qed.
End handles.
