(* ===== verification/VaultSamples.v ===== *)
(** * VaultSamples: the vault properties at a concrete vault

    A vault created in an empty directory and taken through an add, an edit
    and a removal, with the codecs and ciphers of [Toy]. *)

From Stdlib Require Import ZArith Lia String Sorting.Sorted.
From S2P Require Import Prelude Text Record Merge Extern Crypto Log Keyring Validate Vault Crud Lifecycle VaultInv CrudFacts VaultProps KeyGrowth Typing Handles.
Import Toy.

#[local] Open Scope string_scope.
#[local] Open Scope list_scope.
#[local] Open Scope Z_scope.

Module SampleVault.
Definition b16 (n : Z) : arr 16 := arr_fill 16 (byte_of n).
Definition b24 (n : Z) : arr 24 := arr_fill 24 (byte_of n).
Definition b32 (n : Z) : arr 32 := arr_fill 32 (byte_of n).
Definition empty_disk : Disk := mkDisk None None None None.
Definition created : Disk * res VaultError Vault :=
  create_with_keys "laptop" "pw" (b16 1) (b32 2) (b32 3) (mkDeviceKeys (b32 4) (b32 5))
    (mkInitDraw (b16 6) (b16 7) (b24 1)) empty_disk.
Definition nobody : Vault :=
  mkVault (mkMeta (b16 0) (b16 0) "" (mkKdfParams "" 0 0 0) "" "" "" 0 None 0)
    (mkKeyring [] [] None (b32 0) (b32 0)) (b32 0) ∅.
Definition world0 : World :=
  (created.1, match created.2 with Ok v => v | Err _ => nobody end).
Definition host0 : Host := mkHost "web" (Some "example.com") (Some 22) None None None [].
Definition host1 : Host := mkHost "web" (Some "example.org") (Some 22) (Some "root") None None [].
Definition draw (n : Z) : Draw := mkDraw (b16 (10 * n)) (b16 (10 * n + 1)) (b24 n) (100 + n).
Definition adding : VM Uuid := add_in Kind.Host "alias" "web" host0 uuid_nil (draw 1).
Definition world1 : World := exec adding world0.
Definition editing : VM unit := edit Kind.Host "alias" "web" host1 (draw 2).
Definition world2 : World := exec editing world1.
Definition removing : VM unit := remove Kind.Host "alias" "web" (draw 3).
Definition world3 : World := exec removing world2.
(** The second state with a share made, then with the vault key rotated. *)
Definition sharing : key_op := KeyCreateShare (b16 20) (b32 21) (b24 22).
Definition rotating : key_op := KeyRotate "abandon" (b24 23).
Definition shared2 : World := exec (run_key_op sharing) world2.
Definition rotated2 : World := exec (run_key_op rotating) shared2.
End SampleVault.
Import SampleVault.

Lemma exec_outcome {S E A} (m : M S E A) s r : outcome m s = r → m s = (exec m s, r).
Proof. unfold outcome, exec. intros <-. by destruct (m s). Qed.

Lemma log_small_le d : (λ data, Z.of_nat (length data) <=? u32_max) <$> f_log d = Some true → log_small d.
Proof. intros Hd data Hdata. rewrite Hdata in Hd. simpl in Hd. injection Hd as Hd. lia. Qed.

(** A log below 4 GiB, by evaluating its length. *)
Ltac log_small := apply log_small_le; vm_compute; reflexivity.

Lemma created_ok : create_with_keys "laptop" "pw" (b16 1) (b32 2) (b32 3) (mkDeviceKeys (b32 4) (b32 5))
  (mkInitDraw (b16 6) (b16 7) (b24 1)) empty_disk = (world0.1, Ok world0.2).
Proof. reflexivity. Qed.

Lemma session0 : session "pw" world0.
Proof. by destruct (create_session _ _ _ _ _ _ _ empty_disk _ _ eq_refl created_ok). Qed.

Lemma adding_ok : adding world0 = (world1, Ok (b16 10)).
Proof. refine (exec_outcome adding world0 (Ok (b16 10)) _). vm_compute. reflexivity. Qed.
Lemma editing_ok : editing world1 = (world2, Ok tt).
Proof. refine (exec_outcome editing world1 (Ok tt) _). vm_compute. reflexivity. Qed.
Lemma removing_ok : removing world2 = (world3, Ok tt).
Proof. refine (exec_outcome removing world2 (Ok tt) _). vm_compute. reflexivity. Qed.
Lemma small1 : log_small world1.1.
Proof. log_small. Qed.
Lemma small2 : log_small world2.1.
Proof. log_small. Qed.
Lemma small3 : log_small world3.1.
Proof. log_small. Qed.

Lemma step1 : run_op (OpAdd Host _ Kind.Host "alias" "web" host0 uuid_nil (draw 1)) world0 = (world1, Ok tt).
Proof.
  change (ignore adding world0 = (world1, Ok tt)).
  unfold ignore, sbind. rewrite adding_ok. reflexivity.
Qed.
Lemma step2 : run_op (OpEdit Host _ Kind.Host "alias" "web" host1 (draw 2)) world1 = (world2, Ok tt).
Proof. exact editing_ok. Qed.

Lemma session1 : session "pw" world1.
Proof.
  eapply session_kept; [apply session0 | apply vault_step_kept; [apply session0|]].
  eexists _, _. split; [exact step1 | exact small1].
Qed.
Lemma session2 : session "pw" world2.
Proof.
  eapply session_kept; [apply session1 | apply vault_step_kept; [apply session1|]].
  eexists _, _. split; [exact step2 | exact small2].
Qed.

Lemma bounded0 : clocks_bounded world0.
Proof. intros id r. done. Qed.
Lemma bounded1 : clocks_bounded world1.
Proof.
  eapply step_bounded; [apply session0 | exact bounded0 | done | | exact step1 | exact small1]. done.
Qed.
Lemma bounded2 : clocks_bounded world2.
Proof.
  eapply step_bounded; [apply session1 | exact bounded1 | done | | exact step2 | exact small2]. done.
Qed.

(** ** Keys that are new *)

Definition no_new_opens (k k' : Keyring) (frames : list RawEntry) : bool :=
  forallb (λ f : RawEntry, forallb (λ key, bool_decide (key ∈ trial_keys k) ||
    match open key f.2 (arr_bytes f.1) with Ok _ => false | Err _ => true end) (trial_keys k')) frames.
Lemma no_new_opens_spec k k' frames : no_new_opens k k' frames = true → opens_none_new k k' frames.
Proof.
  unfold no_new_opens. intros Hb f key plain Hf%list_elem_of_In Hk%list_elem_of_In Ho.
  rewrite forallb_forall in Hb. specialize (Hb f Hf). rewrite forallb_forall in Hb. specialize (Hb key Hk).
  rewrite Ho, orb_false_r in Hb. by apply bool_decide_eq_true in Hb.
Qed.
Lemma counts_fit_check k : forallb (λ s, Z.of_nat (length (sk_keys s)) <=? u32_max) (kr_shares k) = true → counts_fit k.
Proof.
  intros Hb id. unfold keys_of, share. destruct (find_share id (kr_shares k)) as [s|] eqn:E; [|by unfold u32_max].
  apply find_share_in in E as [Hin%list_elem_of_In _]. rewrite forallb_forall in Hb. by apply Z.leb_le, Hb.
Qed.

Lemma key_step o w r : outcome (run_key_op o) w = r → (∀ w', w' = exec (run_key_op o) w → new_keys o w w') →
  counts_fit (v_keyring (exec (run_key_op o) w).2) → life_step w (exec (run_key_op o) w).
Proof. intros Hr Hnew Hc. eapply life_key; [apply (exec_outcome _ _ _ Hr) | by apply Hnew | exact Hc]. Qed.

Lemma shared2_step : life_step world2 shared2.
Proof.
  apply (key_step sharing world2 (Ok tt)); [vm_compute; reflexivity | intros w' ->; apply no_new_opens_spec; vm_compute; reflexivity |].
  apply counts_fit_check. vm_compute. reflexivity.
Qed.
Lemma rotated2_step : life_step shared2 rotated2.
Proof.
  apply (key_step rotating shared2 (Ok tt)); [vm_compute; reflexivity | intros w' ->; apply no_new_opens_spec; vm_compute; reflexivity |].
  apply counts_fit_check. vm_compute. reflexivity.
Qed.

Lemma reachable_vault_sound_witness :
  session "pw" rotated2 ∧ ∃ before after, f_log world1.1 = Some (frames_bytes before) ∧ f_log rotated2.1 = Some (frames_bytes (before ++ after)).
Proof.
  destruct (reachable_vault_sound "laptop" "pw" (b16 1) (b32 2) (b32 3) (mkDeviceKeys (b32 4) (b32 5))
    (mkInitDraw (b16 6) (b16 7) (b24 1)) empty_disk world0.1 world0.2 world1 rotated2 eq_refl created_ok)
    as (Hses & _ & _ & _ & _ & Hlog).
  - eapply rtc_l; [|apply rtc_refl]. eapply life_op; [exact step1 | exact small1].
  - eapply rtc_l; [eapply life_op; [exact step2 | exact small2]|].
    eapply rtc_l; [exact shared2_step|]. eapply rtc_l; [exact rotated2_step | apply rtc_refl].
  - split; [exact Hses | exact Hlog].
Defined.

Lemma reopen_same_vault_witness :
  ∃ d' v', open_vault "pw" (b24 9) world2.1 = (d', Ok v') ∧ v_state v' = v_state world2.2.
Proof.
  destruct (reopen_same_vault "pw" (b24 9) world2 session2) as (d' & v' & Ho & _ & _ & Hs & _).
  exists d', v'. split; [exact Ho | exact Hs].
Defined.

(** Two frames of one record: the compaction writes a snapshot of both. *)
Definition records_of (w : World) : list Rec :=
  match open_entries (v_keyring w.2) (frames_of w) with Ok recs => recs | Err _ => [] end.
Lemma log_holds_records w : vault_inv w → log_holds w (frames_of w) (records_of w).
Proof.
  intros Hw. destruct (inv_log _ Hw) as [recs [[frames Hl] _]]. unfold records_of.
  rewrite (frames_of_holds _ _ _ Hl). destruct Hl as (x & Hx & Hp & Ho). exists x. by rewrite Ho.
Qed.
Lemma compaction_transparent_witness :
  ∃ w', compact (b24 9) world2 = (w', Ok true) ∧ v_state w'.2 = v_state world2.2 ∧
    ∃ s, read_snapshot w'.1 w'.2 = Some s ∧ covered s = 2.
Proof.
  destruct (compaction_transparent (b24 9) world2 (frames_of world2) (records_of world2) (proj1 session2)
    (log_holds_records world2 (proj1 session2)))
    as (w' & Hc & _ & _ & _ & _ & _ & Hs & Hsn & _).
  assert (Hle : (length (frames_of world2) <=? size (merge_all (records_of world2)))%nat = false) by (vm_compute; reflexivity).
  rewrite Hle in Hc, Hsn. destruct Hsn as (s & Hr & Hcov & _).
  exists w'. split; [exact Hc|]. split; [exact Hs|]. exists s. split; [exact Hr|]. rewrite Hcov. vm_compute. reflexivity.
Defined.


Lemma add_stores_payload_witness :
  ∃ r, v_state world1.2 = <[b16 10 := r]> (v_state world0.2) ∧ payload r = Some host0 ∧
    find_record world1.2 Kind.Host "alias" "web" = Some r.
Proof.
  destruct (add_stores_payload Kind.Host "alias" "web" host0 uuid_nil (draw 1) world0 world1 (b16 10))
    as (_ & _ & r & Hst & _ & _ & _ & Hp & Hf);
    [apply session0 | done | simpl; unfold u16_max; lia | reflexivity | exact adding_ok | exact small1 |].
  exists r. split_and!; [exact Hst | exact Hp | apply Hf; reflexivity].
Defined.

Lemma edit_updates_fields_witness :
  ∃ old r, v_state world2.2 = <[rec_id old := r]> (v_state world1.2) ∧
    value <$> rec_fields r !! "hostname" = Some (JString "example.org").
Proof.
  destruct (edit_updates_fields Kind.Host "alias" "web" host1 (draw 2) world1 world2)
    as (old & r & _ & Hst & _ & _ & Hf);
    [apply session1 | exact bounded1 | reflexivity | exact editing_ok | exact small2 |].
  exists old, r. split; [exact Hst|]. rewrite Hf. simpl.
  destruct (rec_fields old !! "hostname") as [f|]; [|reflexivity].
  simpl. case_decide as Hv; [by rewrite Hv | reflexivity].
Defined.

Lemma remove_deletes_witness :
  ∃ old r, v_state world3.2 = <[rec_id old := r]> (v_state world2.2) ∧ live r = false.
Proof.
  destruct (remove_deletes Kind.Host "alias" "web" (draw 3) world2 world3)
    as (old & r & _ & Hst & _ & _ & Hl);
    [apply session2 | exact bounded2 | reflexivity | exact removing_ok | exact small3 |].
  exists old, r. split; [exact Hst | exact Hl].
Defined.

Lemma clock_bound_preserved_witness : clocks_bounded world1.
Proof.
  eapply (clock_bound_preserved _ world0 world1);
    [apply session0 | exact bounded0 | reflexivity | | exact step1 | exact small1]. exact I.
Defined.

Lemma list_exact_witness : NoDup (list_of Host world1.2 Kind.Host).*1.
Proof. exact (proj1 (proj2 (proj2 (list_exact Host Kind.Host world1 (proj1 session1))))). Defined.

(** Two handles on one directory: the second was opened before the first
    took a clock, and still gets a later one. *)
Lemma clock_region d v (m : Meta) :
  f_meta d = Some (json_to_string m) → meta_lamport (v_meta v) ≤ meta_lamport m →
  ∃ c (m' : Meta), run_region RClock (d, v) = ((set_f_meta (json_to_string m') d, with_meta m' v), Ok (Some c))
    ∧ meta_lamport m' = u64_wrap (meta_lamport m + 1).
Proof.
  intros Hd Hl. unfold run_region, next_clock, absorb_disk_meta, write_meta, sbind, sget, sput, self, disk,
    sret. simpl. eexists _, _. split; [reflexivity|]. simpl.
  rewrite (absorb_eq _ _ m) by (unfold disk_meta; rewrite Hd; apply json_round). simpl.
  by rewrite Z.max_r.
Qed.

Lemma interleaved_clocks_increase_witness :
  ∃ c1 c2 s', sys_run (mkSys world0.1 [world0.2; world0.2]) [c1; c2] s' ∧ ltb c1 c2 = true.
Proof.
  pose proof (inv_meta _ (proj1 session0)) as Hm.
  assert (Hd : disk_meta world0.1 = Some (v_meta world0.2)).
  { unfold disk_meta. rewrite Hm. apply json_round. }
  assert (Hok : sys_ok (b16 7) 0 (mkSys world0.1 [world0.2; world0.2])).
  { exists (v_meta world0.2). split; [exact Hd|]. split_and!; [reflexivity | done | reflexivity |].
    assert (Hv0 : device_id (v_meta world0.2) = b16 7 ∧ 0 ≤ meta_lamport (v_meta world0.2) ≤ 0).
    { split; [reflexivity|]. split; vm_compute; discriminate. }
    intros v Hv. apply elem_of_cons in Hv as [Hv|Hv%list_elem_of_singleton]; rewrite Hv; exact Hv0. }
  destruct (clock_region world0.1 world0.2 _ Hm (Z.le_refl _)) as (c1 & m1 & H1 & Hm1).
  assert (Hs1 : sys_step (mkSys world0.1 [world0.2; world0.2]) (Some c1)
    (mkSys (set_f_meta (json_to_string m1) world0.1) [with_meta m1 world0.2; world0.2])).
  { change [with_meta m1 world0.2; world0.2] with
      (<[0%nat := with_meta m1 world0.2]> [world0.2; world0.2]).
    eapply (step_region _ _ 0%nat _ RClock _ _ (Ok (Some c1))); [exact Hd | reflexivity | reflexivity | exact H1]. }
  assert (Hl1 : meta_lamport m1 < u64_max) by (rewrite Hm1; reflexivity).
  destruct (clock_region (set_f_meta (json_to_string m1) world0.1) world0.2 m1 eq_refl)
    as (c2 & m2 & H2 & _); [rewrite Hm1; vm_compute; discriminate|].
  assert (Hs2 : sys_step (mkSys (set_f_meta (json_to_string m1) world0.1) [with_meta m1 world0.2; world0.2])
    (Some c2) (mkSys (set_f_meta (json_to_string m2) (set_f_meta (json_to_string m1) world0.1))
      [with_meta m1 world0.2; with_meta m2 world0.2])).
  { change [with_meta m1 world0.2; with_meta m2 world0.2] with
      (<[1%nat := with_meta m2 world0.2]> [with_meta m1 world0.2; world0.2]).
    eapply (step_region _ _ 1%nat _ RClock _ _ (Ok (Some c2)));
      [unfold disk_meta; apply json_round | exact Hl1 | reflexivity | exact H2]. }
  assert (Hrun : sys_run (mkSys world0.1 [world0.2; world0.2]) [c1; c2]
    (mkSys (set_f_meta (json_to_string m2) (set_f_meta (json_to_string m1) world0.1))
      [with_meta m1 world0.2; with_meta m2 world0.2])).
  { eapply (run_cons _ (Some c1)); [exact Hs1|]. eapply (run_cons _ (Some c2) _ []); [exact Hs2 | apply run_nil]. }
  eexists c1, c2, _. split; [exact Hrun|].
  destruct (interleaved_clocks_increase _ _ _ _ _ Hok Hrun) as (Hs & _).
  apply StronglySorted_inv in Hs as [_ Hf]. exact (Forall_inv Hf).
Defined.

Lemma payloads_stay_well_typed_witness :
  sound (λ _, Kind.Host) (new_record Kind.Host host0 uuid_nil (draw 1) (v_meta world0.2)).
Proof.
  apply (proj1 (payloads_stay_well_typed (λ _, Kind.Host) Host) host0 uuid_nil (draw 1) (v_meta world0.2)).
  - split; vm_compute; discriminate.
  - reflexivity.
Defined.

(** Two handles on one directory: one creates a share, the other, opened before,
    installs a key it received.  The second writes its own keyring back, and the
    new share's only key is gone. *)
Example stale_keyring_write_loses_share :
  let created := exec (create_share (b16 77) (b32 7) (b24 7)) world1 in
  let d := (exec (absorb_share_key (b16 78) (arr_bytes (b32 8)) (b24 8)) (created.1, world1.2)).1 in
  has_share (v_keyring created.2) (b16 77) = true ∧
  match (open_vault "pw" (b24 9) d).2 with
  | Ok v => has_share (v_keyring v) (b16 77) = false ∧ has_share (v_keyring v) (b16 78) = true
  | Err _ => False
  end.
Proof. vm_compute. by split_and!. Qed.
