(* ===== verification/BackupSamples.v ===== *)
(** * BackupSamples: a vault with one host restored into an empty one *)

From Stdlib Require Import ZArith Lia String.
From S2P Require Import Prelude Text Record Merge Extern Crypto Log Keyring Validate Vault Crud Lifecycle VaultInv CrudFacts VaultProps Typing Backup VaultSamples.
Import Toy SampleVault.

#[local] Open Scope string_scope.
#[local] Open Scope list_scope.
#[local] Open Scope Z_scope.

Module SampleBackup.
Definition draws (k : nat) : Draw := mkDraw (b16 (100 + Z.of_nat k)) (b16 (150 + Z.of_nat k)) (b24 (Z.of_nat k)) 0.
Definition restored1 : World * res VaultError (Z * Z) := import_json (export_json world1.2) draws world0.
End SampleBackup.
Import SampleBackup.

Lemma restored1_run : import_json (export_json world1.2) draws world0 = (restored1.1, restored1.2).
Proof. unfold restored1. apply surjective_pairing. Qed.

Lemma world1_exportable : all_exportable world1.2.
Proof. split_and!; split; vm_compute; repeat constructor; by intros ?%not_elem_of_nil. Qed.

Lemma import_restores_export_witness :
  restored1.2 = Ok (1, 0) ∧ payloads Host restored1.1.2 ≡ₚ payloads Host world0.2 ++ news Host world1.2 world0.2.
Proof.
  destruct (import_restores_export world1.2 draws world0 restored1.1 restored1.2) as (Hr & _ & Hp & _).
  - apply session0.
  - exact world1_exportable.
  - intros i j Hi Hj _. vm_compute in Hi, Hj. lia.
  - intros k _. vm_compute. reflexivity.
  - exact restored1_run.
  - log_small.
  - split; [rewrite Hr; vm_compute; reflexivity | exact Hp].
Defined.
