(* ===== verification/SshConfig.v ===== *)
(** * SshConfig: rendering and installing the managed config ([src/src/sshconfig.rs])

    A panic (an index out of range) is [None].  The ssh directory is its two
    files; [ensure_include] reads the user's config as UTF-8 text, so a config
    with invalid UTF-8, where detection works on a lossy copy, is outside the
    model of the detection (its bytes are preserved all the same). *)

From Stdlib Require Import ZArith Lia Ascii String.
From S2P Require Import Prelude Text Record Log Validate.

#[local] Open Scope string_scope.
#[local] Open Scope list_scope.
#[local] Open Scope Z_scope.

Definition MANAGED_FILE : string := "sshvault.conf".

Module ApplyError.
Inductive t := BadForwardSpec (spec expected : string).
End ApplyError.
Abbreviation ApplyError := ApplyError.t.

Definition port_ok (s : string) : bool :=
  match parse_uint u16_max s with Some _ => true | None => false end.
Definition addr_ok (s : string) : bool :=
  negb (bool_decide (s = "")) && negb (any_whitespace s).

Definition validate_forward_spec (kind : ForwardKind) (spec : string) : res ApplyError unit :=
  let err expected := Err (ApplyError.BadForwardSpec spec expected) in
  let parts := split_char ":" spec in
  match kind with
  | ForwardKind.Dynamic =>
      let bad := err "`port` or `bind:port`" in
      match parts with
      | [p] => if port_ok p then Ok tt else bad
      | [bind; p] => if addr_ok bind && port_ok p then Ok tt else bad
      | _ => bad
      end
  | ForwardKind.Local | ForwardKind.Remote =>
      let bad := err "`listen_port:host:port` or `bind:listen_port:host:port`" in
      match parts with
      | [lp; host; dp] => if port_ok lp && addr_ok host && port_ok dp then Ok tt else bad
      | [bind; lp; host; dp] =>
          if addr_ok bind && port_ok lp && addr_ok host && port_ok dp then Ok tt else bad
      | _ => bad
      end
  end.

Definition dquoted (s : string) : string := String dquote s +:+ String dquote "".

Definition quote (token : string) : string :=
  if has_char " " token || has_char tab token || bool_decide (token = "")
  then dquoted token else token.

(** [None] is the panic of an out-of-range [parts[i]]. *)
Definition render_forward (f : PortForward) : option string :=
  let parts := split_char ":" (spec f) in
  match fwd_kind f with
  | ForwardKind.Dynamic => Some ("    DynamicForward " +:+ spec f +:+ nl)
  | _ =>
      let keyword := if bool_decide (fwd_kind f = ForwardKind.Local)
                     then "LocalForward" else "RemoteForward" in
      '(listen, dest) ←
        (if Nat.eqb (length parts) 4 then
           p0 ← parts !! 0%nat; p1 ← parts !! 1%nat; p2 ← parts !! 2%nat; p3 ← parts !! 3%nat;
           Some (p0 +:+ ":" +:+ p1, p2 +:+ ":" +:+ p3)
         else
           p0 ← parts !! 0%nat; p1 ← parts !! 1%nat; p2 ← parts !! 2%nat;
           Some (p0, p1 +:+ ":" +:+ p2));
      Some ("    " +:+ keyword +:+ " " +:+ listen +:+ " " +:+ dest +:+ nl)
  end.

(** [if let Some(v) = .. { out.push_str(..) }]. *)
Definition push_opt {A} (line : A → string) (o : option A) (out : string) : string :=
  match o with Some a => out +:+ line a | None => out end.

Fixpoint push_forwards (fwds : list PortForward) (out : string) : option string :=
  match fwds with
  | [] => Some out
  | f :: fwds => s ← render_forward f; push_forwards fwds (out +:+ s)
  end.

Definition render_host (forwards : list PortForward) (host : Host) (out : string) : option string :=
  let out := out +:+ nl in
  let out := out +:+ "Host " +:+ quote (alias host) +:+ nl in
  let out := push_opt (λ v, "    HostName " +:+ quote v +:+ nl) (hostname host) out in
  let out := push_opt (λ p, "    Port " +:+ show_int p +:+ nl) (port host) out in
  let out := push_opt (λ v, "    User " +:+ quote v +:+ nl) (user host) out in
  let out := push_opt (λ v, "    ProxyJump " +:+ quote v +:+ nl) (jump_host host) out in
  let out := push_opt (λ v, "    IdentityFile " +:+ quote v +:+ nl) (identity_file host) out in
  let fwds := filter (λ f, fwd_host f = alias host) forwards in
  let fwds := sort_by_key fwd_name fwds in
  push_forwards fwds out.

Definition header_lines : list string :=
  ["# Managed by sshvault — DO NOT EDIT.";
   "# Regenerate with `sshvault apply`. Your own config lives in ~/.ssh/config."].

Fixpoint render_hosts (forwards : list PortForward) (hosts : list Host) (out : string) : option string :=
  match hosts with
  | [] => Some out
  | h :: hosts => out ← render_host forwards h out; render_hosts forwards hosts out
  end.

(** Each line with its line feed. *)
Definition unlines (l : list string) : string := foldr (λ x acc, x +:+ nl +:+ acc) "" l.

Definition render (hosts : list Host) (forwards : list PortForward) : option string :=
  let hosts := sort_by_key alias hosts in
  render_hosts forwards hosts (unlines header_lines).

(** The ssh directory. *)
Record SshDir := mkSshDir { managed : option string; config : option string }.

Definition is_include (line : string) : bool :=
  let l := trim line in
  String.prefix "include" (to_ascii_lowercase l) && str_contains MANAGED_FILE l.

(** The new config and whether the directive was added. *)
Definition ensure_include (config : option string) (include_target : string) : option string * bool :=
  let existing := match config with Some s => s | None => "" end in
  let already := existsb is_include (lines existing) in
  if already then (config, false)
  else (Some ("Include " +:+ include_target +:+ nl +:+ nl +:+ existing), true).

(** [None] is the panic of [render], which happens before any write. *)
Definition apply (hosts : list Host) (forwards : list PortForward) (include_target : string)
    (dir : SshDir) : option (SshDir * bool) :=
  content ← render hosts forwards;
  let '(config, include_added) := ensure_include (config dir) include_target in
  Some (mkSshDir (Some content) config, include_added).

(* ------------------------------------------------------------------ *)
(** ** Lines *)

Lemma split_char_app c a b : has_char c a = false →
  split_char c (a +:+ String c b) = a :: split_char c b.
Proof.
  induction a as [|x a IH]; intros Ha.
  - change (split_char c (String c b) = "" :: split_char c b). cbn [split_char]. by rewrite Ascii.eqb_refl.
  - change (String x a +:+ String c b) with (String x (a +:+ String c b)).
    cbn [split_char has_char] in *. apply orb_false_iff in Ha as [Hx Ha].
    by rewrite Hx, IH.
Qed.

Lemma split_unlines ls : Forall (λ l, has_char newline l = false) ls →
  split_char newline (unlines ls) = ls ++ [""].
Proof.
  induction 1 as [|l ls Hl _ IH]; [done|].
  change (unlines (l :: ls)) with (l +:+ String newline (unlines ls)).
  by rewrite split_char_app, IH.
Qed.

Lemma unlines_app a b : unlines (a ++ b) = unlines a +:+ unlines b.
Proof.
  induction a as [|x a IH]; [done|].
  change (unlines ((x :: a) ++ b)) with (x +:+ nl +:+ unlines (a ++ b)).
  change (unlines (x :: a)) with (x +:+ nl +:+ unlines a). by rewrite IH, !str_app_assoc.
Qed.

Lemma unlines_snoc a x : unlines (a ++ [x]) = unlines a +:+ x +:+ nl.
Proof. rewrite unlines_app. unfold unlines at 2. simpl foldr. by rewrite !str_app_nil_r. Qed.

(** The pieces of a split have no separator, and rejoin to the whole. *)
Lemma split_char_pieces c s : Forall (λ p, has_char c p = false) (split_char c s).
Proof.
  induction s as [|d s IH]; simpl; [by constructor|].
  destruct (Ascii.eqb c d) eqn:E; [by constructor|].
  destruct (split_char c s) as [|p ps]; [constructor; [simpl; by rewrite E | done]|].
  inversion_clear IH as [|? ? Hp Hps]. constructor; [simpl; by rewrite E | done].
Qed.

Lemma has_char_pieces c d s : Ascii.eqb c d = false →
  has_char d s = existsb (has_char d) (split_char c s).
Proof.
  intros Hcd. induction s as [|x s IH]; [done|]. cbn [split_char has_char].
  destruct (Ascii.eqb c x) eqn:E.
  - apply Ascii.eqb_eq in E as <-. cbn [existsb has_char]. rewrite Ascii.eqb_sym, Hcd. exact IH.
  - rewrite IH. destruct (split_char c s) as [|p ps]; cbn [existsb has_char];
      [by rewrite !orb_false_r | by rewrite orb_assoc].
Qed.

(* ------------------------------------------------------------------ *)
(** ** No line feed inside a token *)

Lemma parse_digits_no_newline max acc s v :
  parse_digits max acc s = Some v → has_char newline s = false.
Proof.
  revert acc. induction s as [|c s IH]; intros acc; [done|]. cbn [parse_digits has_char].
  destruct (digit_val c) as [d|] eqn:Ed; [|done]. destruct (_ <=? max); [|done].
  intros Hs%IH. rewrite Hs, orb_false_r. destruct (Ascii.eqb newline c) eqn:E; [|done].
  apply Ascii.eqb_eq in E as <-. done.
Qed.

Lemma port_ok_no_newline s : port_ok s = true → has_char newline s = false.
Proof.
  unfold port_ok, parse_uint. destruct s as [|c s]; [done|].
  destruct (Ascii.eqb c "+") eqn:Ec.
  - apply Ascii.eqb_eq in Ec as ->. destruct s as [|d s]; [done|].
    destruct (parse_digits _ _ _) eqn:E; [|done]. intros _. cbn [has_char].
    apply parse_digits_no_newline in E. exact E.
  - destruct (parse_digits _ _ _) eqn:E; [|done]. intros _. by apply parse_digits_no_newline in E.
Qed.

Lemma no_whitespace_no_newline s : any_whitespace s = false → has_char newline s = false.
Proof.
  induction s as [|c s IH]; [done|]. cbn [any_whitespace has_char].
  intros [Hw Hs]%orb_false_iff. rewrite (IH Hs), orb_false_r.
  destruct (Ascii.eqb newline c) eqn:E; [|done]. apply Ascii.eqb_eq in E as <-. done.
Qed.

Lemma addr_ok_no_newline s : addr_ok s = true → has_char newline s = false.
Proof. unfold addr_ok. intros [_ Hw%negb_true_iff]%andb_true_iff. by apply no_whitespace_no_newline. Qed.

Lemma quote_no_newline s : has_char newline s = false → has_char newline (quote s) = false.
Proof.
  intros Hs. unfold quote. destruct (_ || _); [|done]. unfold dquoted.
  change (has_char newline (String dquote s +:+ String dquote "") = false).
  by rewrite has_char_app; cbn [has_char]; rewrite Hs.
Qed.

(** What a validated spec splits into. *)
Lemma validated_parts kind s : validate_forward_spec kind s = Ok tt →
  (match kind with
   | ForwardKind.Dynamic => length (split_char ":" s) = 1%nat ∨ length (split_char ":" s) = 2%nat
   | _ => length (split_char ":" s) = 3%nat ∨ length (split_char ":" s) = 4%nat
   end) ∧ Forall (λ p, has_char newline p = false) (split_char ":" s).
Proof.
  unfold validate_forward_spec. cbv zeta.
  assert (Hp := port_ok_no_newline). assert (Ha := addr_ok_no_newline).
  destruct kind, (split_char ":" s) as [|a [|b [|c [|d [|e l]]]]]; try done;
    (destruct (_ && _) eqn:E || destruct (port_ok _) eqn:E); try done; intros _;
    rewrite ?andb_true_iff in E; destruct_and?; split; auto; repeat constructor; auto.
Qed.

Lemma validated_no_newline kind s : validate_forward_spec kind s = Ok tt → has_char newline s = false.
Proof.
  intros [_ Hf]%validated_parts. rewrite (has_char_pieces ":") by done.
  induction Hf as [|p ps Hp _ IH]; simpl; [done|]. by rewrite Hp, IH.
Qed.

(** The line a forward stands for. *)
Definition forward_line (f : PortForward) : string :=
  let keyword := match fwd_kind f with ForwardKind.Local => "LocalForward"
                 | ForwardKind.Remote => "RemoteForward" | ForwardKind.Dynamic => "DynamicForward" end in
  let args := match fwd_kind f, split_char ":" (spec f) with
              | ForwardKind.Dynamic, _ => spec f
              | _, [lp; host; dp] => lp +:+ " " +:+ host +:+ ":" +:+ dp
              | _, [bind; lp; host; dp] => bind +:+ ":" +:+ lp +:+ " " +:+ host +:+ ":" +:+ dp
              | _, _ => ""
              end in
  "    " +:+ keyword +:+ " " +:+ args.

Lemma render_forward_line f : validate_forward_spec (fwd_kind f) (spec f) = Ok tt →
  render_forward f = Some (forward_line f +:+ nl).
Proof.
  intros [Hl _]%validated_parts. unfold render_forward, forward_line.
  destruct (fwd_kind f);
    destruct (split_char ":" (spec f)) as [|a [|b [|c [|d [|e l]]]]]; simpl in Hl; try lia;
    simpl; rewrite ?str_app_assoc; done.
Qed.

Lemma forward_line_no_newline f : validate_forward_spec (fwd_kind f) (spec f) = Ok tt →
  has_char newline (forward_line f) = false.
Proof.
  intros Hv. pose proof (validated_no_newline _ _ Hv) as Hs. apply validated_parts in Hv as [_ Hf].
  unfold forward_line. destruct (fwd_kind f);
    [destruct (split_char ":" (spec f)) as [|a [|b [|c [|d [|e l]]]]]..|];
    rewrite ?Forall_cons in Hf; destruct_and?; rewrite !has_char_app;
    repeat match goal with H : has_char newline _ = false |- _ => rewrite H; clear H end; done.
Qed.

(* ------------------------------------------------------------------ *)
(** ** The lines of the managed file *)

Definition host_lines (forwards : list PortForward) (h : Host) : list string :=
  ["" ; "Host " +:+ quote (alias h)]
  ++ option_list ((λ v, "    HostName " +:+ quote v) <$> hostname h)
  ++ option_list ((λ p, "    Port " +:+ show_int p) <$> port h)
  ++ option_list ((λ v, "    User " +:+ quote v) <$> user h)
  ++ option_list ((λ v, "    ProxyJump " +:+ quote v) <$> jump_host h)
  ++ option_list ((λ v, "    IdentityFile " +:+ quote v) <$> identity_file h)
  ++ (forward_line <$> sort_by_key fwd_name (filter (λ f, fwd_host f = alias h) forwards)).

Definition config_lines (hosts : list Host) (forwards : list PortForward) : list string :=
  header_lines ++ concat (host_lines forwards <$> sort_by_key alias hosts).

Definition fwd_valid (f : PortForward) : Prop := validate_forward_spec (fwd_kind f) (spec f) = Ok tt.

Lemma push_forwards_lines fwds acc : Forall fwd_valid fwds →
  push_forwards fwds (unlines acc) = Some (unlines (acc ++ (forward_line <$> fwds))).
Proof.
  intros Hf. revert acc. induction Hf as [|f fwds Hf _ IH]; intros acc; [by rewrite app_nil_r|].
  cbn [push_forwards]. rewrite render_forward_line by done. cbn [mbind option_bind].
  rewrite <-unlines_snoc, IH. by rewrite <-app_assoc.
Qed.

Lemma push_opt_lines {A} (f line : A → string) (o : option A) acc :
  (∀ a, f a = line a +:+ nl) →
  push_opt f o (unlines acc) = unlines (acc ++ option_list (line <$> o)).
Proof. intros Hf. destruct o; simpl; [by rewrite Hf, unlines_snoc | by rewrite app_nil_r]. Qed.

Lemma render_host_lines forwards h acc : Forall fwd_valid forwards →
  render_host forwards h (unlines acc) = Some (unlines (acc ++ host_lines forwards h)).
Proof.
  intros Hf. unfold render_host. cbv zeta.
  replace ((unlines acc +:+ nl) +:+ "Host " +:+ quote (alias h) +:+ nl)
    with (unlines (acc ++ [""; "Host " +:+ quote (alias h)])).
  2: { rewrite unlines_app. unfold unlines at 2. cbn [foldr]. by rewrite !str_app_assoc, str_app_nil_r. }
  rewrite (push_opt_lines _ (λ v, "    HostName " +:+ quote v)) by (intros; by rewrite str_app_assoc).
  rewrite (push_opt_lines _ (λ p, "    Port " +:+ show_int p)) by (intros; by rewrite str_app_assoc).
  rewrite (push_opt_lines _ (λ v, "    User " +:+ quote v)) by (intros; by rewrite str_app_assoc).
  rewrite (push_opt_lines _ (λ v, "    ProxyJump " +:+ quote v)) by (intros; by rewrite str_app_assoc).
  rewrite (push_opt_lines _ (λ v, "    IdentityFile " +:+ quote v)) by (intros; by rewrite str_app_assoc).
  rewrite push_forwards_lines.
  - unfold host_lines. by rewrite <-!app_assoc.
  - rewrite sort_by_key_perm. apply Forall_forall. intros f [_ Hin]%list_elem_of_filter.
    rewrite Forall_forall in Hf. by apply Hf.
Qed.

Lemma render_hosts_lines forwards hosts : ∀ acc, Forall fwd_valid forwards →
  render_hosts forwards hosts (unlines acc)
  = Some (unlines (acc ++ concat (host_lines forwards <$> hosts))).
Proof.
  induction hosts as [|h hosts IH]; intros acc Hf; [by rewrite app_nil_r|].
  cbn [render_hosts]. rewrite render_host_lines by done. cbn [mbind option_bind].
  rewrite IH by done. rewrite fmap_cons. cbn [concat]. by rewrite <-app_assoc.
Qed.

Lemma render_config_lines hosts forwards : Forall fwd_valid forwards →
  render hosts forwards = Some (unlines (config_lines hosts forwards)).
Proof. apply render_hosts_lines. Qed.

(** The strings of a host are among those validation looks at. *)
Lemma obj_get_strings k m s : obj_get k m = Some (JString s) → s ∈ strings_in (JObject m).
Proof.
  induction m as [|[k' v] m IH]; [done|].
  change (strings_in (JObject ((k', v) :: m))) with (strings_in v ++ strings_in (JObject m)).
  cbn [obj_get]. case_decide as Hk; rewrite elem_of_app.
  - intros [= ->]. left. by apply list_elem_of_singleton.
  - intros Hm. right. by apply IH.
Qed.

Definition host_strings (h : Host) : list string :=
  alias h :: option_list (hostname h) ++ option_list (user h) ++ option_list (jump_host h)
  ++ option_list (identity_file h).

Lemma host_strings_in h s : s ∈ host_strings h → s ∈ strings_in (to_value h).
Proof.
  intros Hs. assert (Hget : ∃ k, obj_get k (to_object h) = Some (JString s)).
  { setoid_rewrite obj_get_to_object. unfold host_strings in Hs.
    rewrite elem_of_cons, !elem_of_app, !elem_of_opt in Hs.
    destruct Hs as [->|[Hs|[Hs|[Hs|Hs]]]];
      [exists "alias" | exists "hostname" | exists "user" | exists "jump_host" | exists "identity_file"];
      cbn -[decide]; repeat (rewrite decide_False by done); rewrite decide_True by done;
      rewrite ?Hs; done. }
  destruct Hget as [k Hk]. by eapply obj_get_strings.
Qed.

Lemma host_valid_no_newline h s :
  validate_payload Kind.Host h = Ok tt → s ∈ host_strings h → has_char newline s = false.
Proof.
  intros Hv Hs. pose proof (validate_payload_spec Kind.Host h) as Hspec.
  rewrite Hv in Hspec. specialize (Hspec ltac:(done) s (host_strings_in _ _ Hs)).
  apply validate_string_ok in Hspec as (_ & Hn & _). rewrite <-has_char_spec in Hn.
  by apply not_true_iff_false.
Qed.

Lemma option_list_forall {A B} (P : B → Prop) (f : A → B) (o : option A) :
  (∀ a, o = Some a → P (f a)) → Forall P (option_list (f <$> o)).
Proof. intros Ho. destruct o; simpl; constructor; auto. Qed.

Lemma host_lines_no_newline forwards h :
  validate_payload Kind.Host h = Ok tt → Forall fwd_valid forwards →
  Forall (λ l, has_char newline l = false) (host_lines forwards h).
Proof.
  intros Hv Hf. assert (Hs := λ s, host_valid_no_newline h s Hv).
  assert (Hq : ∀ kw s, has_char newline kw = false → s ∈ host_strings h →
    has_char newline (kw +:+ quote s) = false).
  { intros kw s Hkw Hin. rewrite has_char_app, Hkw, quote_no_newline; auto. }
  assert (Hin : ∀ s, s = alias h ∨ hostname h = Some s ∨ user h = Some s ∨ jump_host h = Some s
    ∨ identity_file h = Some s → s ∈ host_strings h).
  { intros s Hd. unfold host_strings. rewrite elem_of_cons, !elem_of_app, !elem_of_opt. naive_solver. }
  unfold host_lines. repeat (apply Forall_app; split).
  - constructor; [done|]. constructor; [|done]. apply Hq; auto.
  - apply option_list_forall. intros; apply Hq; auto 10.
  - apply option_list_forall. intros. rewrite has_char_app, show_int_no_newline. done.
  - apply option_list_forall. intros; apply Hq; auto 10.
  - apply option_list_forall. intros; apply Hq; auto 10.
  - apply option_list_forall. intros; apply Hq; auto 10.
  - apply Forall_fmap. rewrite sort_by_key_perm. apply Forall_forall.
    intros f [_ Hin']%list_elem_of_filter. rewrite Forall_forall in Hf.
    by apply forward_line_no_newline, Hf.
Qed.

(* ------------------------------------------------------------------ *)
(** ** Installing the directive *)

Lemma substring_all s : String.substring 0 (String.length s) s = s.
Proof. induction s as [|c s IH]; simpl; [done|]. by rewrite IH. Qed.

(** A string ending in a letter is not blank, so nothing is trimmed off its end. *)
Lemma not_blank fuel : ∀ s, blank_fuel fuel (s +:+ "f") = false.
Proof.
  assert (Hdrop : ∀ a s, String.substring 1 (String.length (String a s) - 1) (String a s) = s).
  { intros a s. cbn [String.length String.substring]. rewrite Nat.sub_succ, Nat.sub_0_r. apply substring_all. }
  assert (Hdrop2 : ∀ a b s, String.substring 2 (String.length (String a (String b s)) - 2)
    (String a (String b s)) = s).
  { intros a b s. cbn [String.length String.substring]. rewrite !Nat.sub_succ, Nat.sub_0_r. apply substring_all. }
  assert (Hdrop3 : ∀ a b c s, String.substring 3 (String.length (String a (String b (String c s))) - 3)
    (String a (String b (String c s))) = s).
  { intros a b c s. cbn [String.length String.substring]. rewrite !Nat.sub_succ, Nat.sub_0_r. apply substring_all. }
  induction fuel as [|fuel IH]; intros s; [by destruct s|].
  destruct s as [|a s]; [done|]. change (String a s +:+ "f") with (String a (s +:+ "f")).
  cbn [blank_fuel]. unfold ws_prefix. destruct (_ || _)%nat; [rewrite Hdrop; apply IH|].
  destruct s as [|b s].
  { change ("" +:+ "f") with (String "f" ""). cbv beta iota zeta.
    rewrite andb_false_r. done. }
  change (String b s +:+ "f") with (String b (s +:+ "f")).
  cbv beta iota zeta. destruct (_ && _)%nat; [rewrite Hdrop2; apply IH|].
  destruct s as [|c s].
  { change ("" +:+ "f") with (String "f" ""). cbv beta iota zeta.
    cbn -[Nat.eqb nat_of_ascii]. rewrite !andb_false_r. done. }
  change (String c s +:+ "f") with (String c (s +:+ "f")).
  cbv beta iota zeta. destruct (_ || _)%nat; [rewrite Hdrop3; apply IH | done].
Qed.

Lemma trim_end_f s : trim_end (s +:+ "f") = s +:+ "f".
Proof.
  induction s as [|c s IH]; [done|]. change (String c s +:+ "f") with (String c (s +:+ "f")).
  cbn [trim_end]. pose proof (not_blank (String.length (String c (s +:+ "f"))) (String c s)) as Hb.
  change (String c s +:+ "f") with (String c (s +:+ "f")) in Hb. by rewrite Hb, IH.
Qed.

Lemma strip_cr_f s : strip_cr (s +:+ "f") = s +:+ "f".
Proof.
  assert (Hl : String.length (s +:+ "f") = S (String.length s)).
  { induction s as [|c s IH]; [done|]. change (S (String.length (s +:+ "f")) = S (S (String.length s))). by rewrite IH. }
  assert (Hs : String.substring (String.length s) 1 (s +:+ "f") = "f").
  { clear Hl. induction s as [|c s IH]; [done|]. exact IH. }
  unfold strip_cr. by rewrite Hl, Hs.
Qed.

Lemma drop_last_empty_head x l : l ≠ [] → ∃ l', drop_last_empty (x :: l) = x :: l'.
Proof.
  destruct l as [|y l _] using rev_ind; [done|]. intros _. unfold drop_last_empty.
  rewrite app_comm_cons, reverse_snoc. destruct y; [|eauto].
  rewrite reverse_involutive. eauto.
Qed.

(** Both forms of the target end in the managed file's name. *)
Lemma include_detected pre rest :
  has_char newline pre = false →
  existsb is_include (lines ("Include " +:+ (pre +:+ MANAGED_FILE) +:+ nl +:+ rest)) = true.
Proof.
  intros Hpre. set (p := "Include " +:+ pre +:+ "sshvault.con").
  assert (Hx : "Include " +:+ (pre +:+ MANAGED_FILE) +:+ nl +:+ rest = (p +:+ "f") +:+ String newline rest).
  { unfold p, MANAGED_FILE. by rewrite !str_app_assoc. }
  rewrite Hx. unfold lines. rewrite split_char_app.
  2: { unfold p. rewrite !has_char_app, Hpre. done. }
  destruct (drop_last_empty_head (p +:+ "f") (split_char newline rest)) as [l' ->].
  { destruct rest as [|c rest]; [done|]. cbn [split_char]. destruct (Ascii.eqb _ _); [done|].
    by destruct (split_char newline rest). }
  rewrite fmap_cons. cbn [existsb]. rewrite strip_cr_f.
  apply orb_true_iff. left. unfold is_include, trim.
  replace (trim_start (p +:+ "f")) with (p +:+ "f") by done. rewrite trim_end_f.
  apply andb_true_iff. split.
  - unfold p. done.
  - apply str_contains_spec. exists ("Include " +:+ pre), "". unfold p, MANAGED_FILE.
    by rewrite !str_app_assoc.
Qed.

(* ------------------------------------------------------------------ *)
(** ** Properties *)

(** C40: for hosts that passed validation and forwards whose spec did, the
    managed file is rendered (no panic), and its lines are exactly the header
    and one directive per stored setting, hosts by alias and forwards by
    name: no stored value adds or splits a line. *)
Theorem render_injection_free (hosts : list Host) (forwards : list PortForward) :
  Forall (λ h, validate_payload Kind.Host h = Ok tt) hosts → Forall fwd_valid forwards →
  ∃ out, render hosts forwards = Some out ∧
    split_char newline out = config_lines hosts forwards ++ [""].
Proof.
  intros Hh Hf. exists (unlines (config_lines hosts forwards)).
  split; [by apply render_config_lines|]. apply split_unlines. apply Forall_app. split.
  - repeat constructor.
  - apply Forall_concat, Forall_fmap. rewrite sort_by_key_perm.
    eapply Forall_impl; [exact Hh|]. intros h Hv. by apply host_lines_no_newline.
Qed.

(** [apply] never rewrites the user's configuration: it leaves the file
    alone when some line already includes the managed file, otherwise it only
    prepends the directive, keeping every byte; and a second run, with the
    directive now found, changes nothing. *)
Theorem apply_preserves_config hosts forwards pre dir dir' added :
  has_char newline pre = false →
  apply hosts forwards (pre +:+ MANAGED_FILE) dir = Some (dir', added) →
  (if added
   then ∃ head, config dir' = Some (head +:+ match config dir with Some s => s | None => "" end)
   else config dir' = config dir) ∧
  apply hosts forwards (pre +:+ MANAGED_FILE) dir' = Some (dir', false).
Proof.
  intros Hpre. unfold apply. destruct (render hosts forwards) as [content|]; simpl; [|done].
  unfold ensure_include. destruct (existsb is_include _) eqn:E; intros [= <- <-]; simpl.
  - split; [done|]. by rewrite E.
  - split.
    + exists ("Include " +:+ (pre +:+ MANAGED_FILE) +:+ nl +:+ nl). by rewrite !str_app_assoc.
    + by rewrite include_detected.
Qed.

(** A value that may be stored in a host is recoverable from its token:
    quoting is injective on such values and quotes exactly the values with a
    blank or none at all. *)
Theorem quote_faithful (s t : string) :
  storable Kind.Host s → storable Kind.Host t →
  (quote s = quote t → s = t) ∧
  (quote s = s ∨ quote s = dquoted s ∧ (has_char " " s = true ∨ has_char tab s = true ∨ s = "")).
Proof.
  intros (_ & _ & _ & Hs) (_ & _ & _ & Ht).
  specialize (Hs ltac:(done)). specialize (Ht ltac:(done)). rewrite <-has_char_spec in Hs, Ht.
  unfold quote. split.
  - destruct (_ || _ || bool_decide (s = "")) eqn:Es, (_ || _ || bool_decide (t = "")) eqn:Et;
      unfold dquoted; intros E.
    + injection E as E. revert E. clear. revert t. induction s as [|c s IH]; intros [|d t]; intros E.
      * done.
      * injection E as -> E. by destruct t.
      * injection E as -> E. by destruct s.
      * injection E as -> E. f_equal. by apply IH.
    + destruct t; [done|]. injection E as <- E. by destruct Ht.
    + destruct s; [done|]. injection E as -> E. by destruct Hs.
    + done.
  - destruct (has_char " " s), (has_char tab s), (bool_decide_reflect (s = "")); simpl; auto.
Qed.

(** An accepted forward spec has the documented shape (a port, or three
    or four colon-separated parts with non-blank addresses and 16-bit ports)
    and renders to one directive. *)
Theorem validated_forward_renders f :
  validate_forward_spec (fwd_kind f) (spec f) = Ok tt →
  render_forward f = Some (forward_line f +:+ nl) ∧ has_char newline (forward_line f) = false ∧
  match fwd_kind f with
  | ForwardKind.Dynamic => length (split_char ":" (spec f)) = 1%nat ∨ length (split_char ":" (spec f)) = 2%nat
  | _ => length (split_char ":" (spec f)) = 3%nat ∨ length (split_char ":" (spec f)) = 4%nat
  end.
Proof.
  intros Hv. split_and!; [by apply render_forward_line | by apply forward_line_no_newline |].
  by apply validated_parts in Hv as [? _].
Qed.

Module SampleSsh.
Definition host : Host := mkHost "my web" (Some "example.com") (Some 2222) (Some "root") None None [].
Definition fwd : PortForward := mkPortForward "db" ForwardKind.Local "5432:localhost:5432" "my web".
Definition dir : SshDir := mkSshDir None (Some ("Host *" +:+ nl)).
End SampleSsh.

Lemma render_injection_free_witness :
  ∃ out, render [SampleSsh.host] [SampleSsh.fwd] = Some out ∧
    split_char newline out = config_lines [SampleSsh.host] [SampleSsh.fwd] ++ [""].
Proof. apply render_injection_free; repeat constructor. Defined.

Lemma apply_preserves_config_witness :
  ∃ dir', apply [] [] ("~/.ssh/" +:+ MANAGED_FILE) dir' = Some (dir', false).
Proof.
  eexists. refine (proj2 (apply_preserves_config [] [] "~/.ssh/" SampleSsh.dir _ true _ _)); reflexivity.
Defined.

Lemma quote_faithful_witness : quote "a b" = dquoted "a b" ∧ has_char " " "a b" = true.
Proof.
  destruct (quote_faithful "a b" "c d") as [_ [Hq|[Hq _]]];
    [apply validate_string_ok; reflexivity.. | discriminate Hq | split; [exact Hq | reflexivity]].
Defined.

Lemma validated_forward_renders_witness :
  render_forward SampleSsh.fwd = Some (forward_line SampleSsh.fwd +:+ nl).
Proof. apply (validated_forward_renders SampleSsh.fwd). reflexivity. Defined.

(** A spec that was never validated panics: an imported or synced forward. *)
Example unvalidated_forward_panics :
  render_forward (mkPortForward "x" ForwardKind.Local "8080" "web") = None.
Proof. reflexivity. Qed.

(** A leading plus sign passes as a port. *)
Example plus_port_accepted : validate_forward_spec ForwardKind.Dynamic "+80" = Ok tt.
Proof. reflexivity. Qed.
