(* ===== verification/Proto.v ===== *)
(** * Proto: the wire protocol ([src/src/proto.rs])

    The request and response bodies, the signed envelope, and the message an
    Ed25519 signature covers. *)

From Stdlib Require Import ZArith Lia Ascii String.
From S2P Require Import Prelude Text.

#[local] Open Scope string_scope.
#[local] Open Scope list_scope.
#[local] Open Scope Z_scope.

Record WireEntry := mkWireEntry {
  entry_id_b64 : string;
  blob_b64 : string;
  share_id_b64 : string
}.
Record PushReq := mkPushReq { push_entries : list WireEntry }.
Record PushResp := mkPushResp { push_head : Z; stored : Z }.
Record PullResp := mkPullResp { pull_entries : list WireEntry; pull_head : Z }.
Record EnrollReq := mkEnrollReq {
  enroll_name : string;
  enroll_ed25519_b64 : string;
  enroll_x25519_b64 : string;
  enroll_recovery_b64 : string
}.
Record EnrollResp := mkEnrollResp { enroll_approved : bool; enroll_head : Z }.
Record ApproveReq := mkApproveReq { approve_target_b64 : string; approve_wrapped_b64 : string }.
Record RevokeReq := mkRevokeReq { revoke_target_b64 : string }.
Record WrappedFor := mkWrappedFor { wf_device_b64 : string; wf_wrapped_b64 : string }.
Record RotateReq := mkRotateReq { rotate_epoch : Z; rotate_wrapped : list WrappedFor }.
Record ShareGrantReq := mkShareGrantReq {
  grant_share_b64 : string;
  grant_epoch : Z;
  grant_wrapped : list WrappedFor
}.
Record ShareRotateReq := mkShareRotateReq {
  sr_share_b64 : string;
  sr_epoch : Z;
  sr_wrapped : list WrappedFor;
  sr_remove : list string
}.
Record ShareMembership := mkShareMembership {
  sm_share_b64 : string;
  sm_epoch : Z;
  sm_wrapped_b64 : string
}.
Record SharesResp := mkSharesResp { shares_list : list ShareMembership }.
Record DeviceInfo := mkDeviceInfo {
  di_name : string;
  di_ed25519_b64 : string;
  di_x25519_b64 : string;
  di_approved : bool;
  di_revoked : bool
}.
Record DevicesResp := mkDevicesResp { devices_list : list DeviceInfo }.
Record WrappedResp := mkWrappedResp {
  wr_approved : bool;
  wr_wrapped_b64 : option string;
  wr_epoch : Z
}.
Record RecoverReq := mkRecoverReq {
  rec_recovery_b64 : string;
  rec_name : string;
  rec_ed25519_b64 : string;
  rec_x25519_b64 : string;
  rec_sig_b64 : string
}.
Record RecoverResp := mkRecoverResp { recovered_vault_b64 : string }.

(** The authenticated envelope. *)
Record Signed := mkSigned {
  sg_vault_b64 : string;
  sg_device_b64 : string;
  sg_sig_b64 : string;
  sg_ts : Z;
  sg_body : string
}.

Definition MAX_SKEW_SECS : Z := 300.

Definition signing_message (ts : Z) (body : string) : string := show_int ts +:+ nl +:+ body.

#[export] Instance WireEntry_eq_dec : EqDecision WireEntry.
Proof. solve_decision. Defined.
#[export] Instance WireEntry_countable : Countable WireEntry.
Proof.
  by apply (inj_countable' (λ e, (entry_id_b64 e, blob_b64 e, share_id_b64 e))
    (λ '(a, b, c), mkWireEntry a b c)); intros [].
Defined.
#[export] Instance PushReq_eq_dec : EqDecision PushReq.
Proof. solve_decision. Defined.
#[export] Instance PushReq_countable : Countable PushReq.
Proof. by apply (inj_countable' push_entries mkPushReq); intros []. Defined.
#[export] Instance EnrollReq_eq_dec : EqDecision EnrollReq.
Proof. solve_decision. Defined.
#[export] Instance EnrollReq_countable : Countable EnrollReq.
Proof.
  by apply (inj_countable'
    (λ e, (enroll_name e, enroll_ed25519_b64 e, enroll_x25519_b64 e, enroll_recovery_b64 e))
    (λ '(a, b, c, d), mkEnrollReq a b c d)); intros [].
Defined.
#[export] Instance ApproveReq_eq_dec : EqDecision ApproveReq.
Proof. solve_decision. Defined.
#[export] Instance ApproveReq_countable : Countable ApproveReq.
Proof.
  by apply (inj_countable' (λ e, (approve_target_b64 e, approve_wrapped_b64 e))
    (λ '(a, b), mkApproveReq a b)); intros [].
Defined.
#[export] Instance RevokeReq_eq_dec : EqDecision RevokeReq.
Proof. solve_decision. Defined.
#[export] Instance RevokeReq_countable : Countable RevokeReq.
Proof. by apply (inj_countable' revoke_target_b64 mkRevokeReq); intros []. Defined.
#[export] Instance WrappedFor_eq_dec : EqDecision WrappedFor.
Proof. solve_decision. Defined.
#[export] Instance WrappedFor_countable : Countable WrappedFor.
Proof.
  by apply (inj_countable' (λ e, (wf_device_b64 e, wf_wrapped_b64 e))
    (λ '(a, b), mkWrappedFor a b)); intros [].
Defined.
#[export] Instance RotateReq_eq_dec : EqDecision RotateReq.
Proof. solve_decision. Defined.
#[export] Instance RotateReq_countable : Countable RotateReq.
Proof.
  by apply (inj_countable' (λ e, (rotate_epoch e, rotate_wrapped e))
    (λ '(a, b), mkRotateReq a b)); intros [].
Defined.
#[export] Instance ShareGrantReq_eq_dec : EqDecision ShareGrantReq.
Proof. solve_decision. Defined.
#[export] Instance ShareGrantReq_countable : Countable ShareGrantReq.
Proof.
  by apply (inj_countable' (λ e, (grant_share_b64 e, grant_epoch e, grant_wrapped e))
    (λ '(a, b, c), mkShareGrantReq a b c)); intros [].
Defined.
#[export] Instance ShareRotateReq_eq_dec : EqDecision ShareRotateReq.
Proof. solve_decision. Defined.
#[export] Instance ShareRotateReq_countable : Countable ShareRotateReq.
Proof.
  by apply (inj_countable' (λ e, (sr_share_b64 e, sr_epoch e, sr_wrapped e, sr_remove e))
    (λ '(a, b, c, d), mkShareRotateReq a b c d)); intros [].
Defined.

(* ------------------------------------------------------------------ *)

Lemma split_at_char c (a b a' b' : string) :
  has_char c a = false → has_char c a' = false →
  a +:+ String c b = a' +:+ String c b' → a = a' ∧ b = b'.
Proof.
  revert a'. induction a as [|x a IH]; intros [|y a'] Ha Ha' E.
  - by injection E.
  - injection E as <- _. cbn [has_char] in Ha'. by rewrite Ascii.eqb_refl in Ha'.
  - injection E as -> _. cbn [has_char] in Ha. by rewrite Ascii.eqb_refl in Ha.
  - injection E as -> E. cbn [has_char] in *.
    apply orb_false_iff in Ha as [_ Ha], Ha' as [_ Ha'].
    destruct (IH a' Ha Ha' E) as [-> ->]. done.
Qed.

(** A signed message determines the timestamp and the body it was made
    from, so a signature is valid for no other request or time. *)
Theorem signing_message_injective (ts ts' : Z) (body body' : string) :
  signing_message ts body = signing_message ts' body' → ts = ts' ∧ body = body'.
Proof.
  intros E. apply split_at_char in E as [E ->]; [|apply show_int_no_newline..].
  split; [by apply show_int_inj | done].
Qed.

Lemma signing_message_injective_witness : (7 = 7 :> Z) ∧ ("pull:0" = "pull:0" :> string).
Proof. apply (signing_message_injective 7 7 "pull:0" "pull:0"). reflexivity. Defined.
