(* ===== verification/RelayDb.v ===== *)
(** * RelayDb: the relay's tables and statements ([src/src/relay.rs])

    The SQLite schema of [migrate] as a record, and every SQL statement the
    handlers issue as one constructor of [Stmt], with its effect [exec_stmt].
    SQLite runs one statement atomically; the handlers use no transactions, so
    statements are the units of interleaving.  Whether an ignored insert burns
    an AUTOINCREMENT value is left open ([burns]).  Rows selected without
    ORDER BY come in an order SQLite does not promise; the model uses the
    map's.  A statement here always takes effect; that a storage call may fail
    instead (the 500 of [db_err]) is the [Query] of [Relay.v]. *)

From Stdlib Require Import ZArith Lia String.
From S2P Require Import Prelude Text.

#[local] Open Scope string_scope.
#[local] Open Scope list_scope.
#[local] Open Scope Z_scope.

Record VaultRow := mkVaultRow { vr_recovery_pub : bytes; vr_epoch : Z }.
Record DeviceRow := mkDeviceRow {
  dr_x25519_pub : bytes;
  dr_name : string;
  dr_approved : bool;
  dr_revoked : bool;
  dr_wrapped_key : option bytes
}.
Record Entry := mkEntry {
  en_vault : string;
  en_seq : Z;
  en_id : bytes;
  en_blob : bytes;
  en_share : bytes
}.

(** The default share's id in the [entries] table. *)
Definition nil_share : bytes := replicate 16 Byte.x00.

(** The database, the server's clock and its notification channels
    (the heads sent so far, per vault with a subscriber). *)
Record Relay := mkRelay {
  t_vaults : list (string * VaultRow);             (* in insertion order *)
  t_devices : gmap (string * bytes) DeviceRow;
  t_entries : list Entry;                          (* in insertion order *)
  t_sequence : Z;                                  (* last AUTOINCREMENT value *)
  t_shares : gmap (string * bytes) Z;
  t_members : gmap (string * bytes * bytes) bytes;
  t_seen : gmap bytes Z;
  r_now : Z;
  r_channels : gmap string (list Z)
}.

Definition set_vaults x (s : Relay) := mkRelay x (t_devices s) (t_entries s) (t_sequence s)
  (t_shares s) (t_members s) (t_seen s) (r_now s) (r_channels s).
Definition set_devices x (s : Relay) := mkRelay (t_vaults s) x (t_entries s) (t_sequence s)
  (t_shares s) (t_members s) (t_seen s) (r_now s) (r_channels s).
Definition set_entries x q (s : Relay) := mkRelay (t_vaults s) (t_devices s) x q
  (t_shares s) (t_members s) (t_seen s) (r_now s) (r_channels s).
Definition set_shares x (s : Relay) := mkRelay (t_vaults s) (t_devices s) (t_entries s) (t_sequence s)
  x (t_members s) (t_seen s) (r_now s) (r_channels s).
Definition set_members x (s : Relay) := mkRelay (t_vaults s) (t_devices s) (t_entries s) (t_sequence s)
  (t_shares s) x (t_seen s) (r_now s) (r_channels s).
Definition set_seen x (s : Relay) := mkRelay (t_vaults s) (t_devices s) (t_entries s) (t_sequence s)
  (t_shares s) (t_members s) x (r_now s) (r_channels s).
Definition set_now x (s : Relay) := mkRelay (t_vaults s) (t_devices s) (t_entries s) (t_sequence s)
  (t_shares s) (t_members s) (t_seen s) x (r_channels s).
Definition set_channels x (s : Relay) := mkRelay (t_vaults s) (t_devices s) (t_entries s) (t_sequence s)
  (t_shares s) (t_members s) (t_seen s) (r_now s) x.

Definition empty_relay (now : Z) : Relay := mkRelay [] ∅ [] 0 ∅ ∅ ∅ now ∅.

(** The statements, with the type of their result. *)
Inductive Stmt : Type → Type :=
  | SNow : Stmt Z
  | SEvictSeen (now : Z) : Stmt unit
  | SInsertSeen (sig : bytes) (expires_at : Z) : Stmt Z
  | SSelectDevice (vault : string) (pubk : bytes) : Stmt (option DeviceRow)
  | SInsertVault (vault : string) (recovery_pub : bytes) : Stmt Z
  | SUpsertDevice (vault : string) (pubk x_pub : bytes) (name : string) (approved : bool) : Stmt unit
  | SHead (vault : string) : Stmt Z
  | SApprove (wrapped : bytes) (vault : string) (target : bytes) : Stmt Z
  | SRevoke (vault : string) (target : bytes) : Stmt Z
  | SBumpEpoch (epoch : Z) (vault : string) (prev : Z) : Stmt Z
  | SRewrap (wrapped : bytes) (vault : string) (target : bytes) : Stmt Z
  | SUpsertShare (vault : string) (share : bytes) (epoch : Z) : Stmt unit
  | SUpsertMember (vault : string) (share target wrapped : bytes) : Stmt unit
  | SBumpShare (epoch : Z) (vault : string) (share : bytes) (prev : Z) : Stmt Z
  | SInsertShare (vault : string) (share : bytes) (epoch : Z) : Stmt Z
  | SDeleteMember (vault : string) (share target : bytes) : Stmt unit
  | SRewrapMember (wrapped : bytes) (vault : string) (share target : bytes) : Stmt Z
  | SSelectShares (vault : string) (pubk : bytes) : Stmt (list (bytes * bytes * Z))
  | SSelectDevices (vault : string) : Stmt (list (bytes * DeviceRow))
  | SSelectEpoch (vault : string) : Stmt (option Z)
  | SSelectVault (recovery_pub : bytes) : Stmt (option string)
  | SRecoverDevice (vault : string) (pubk x_pub : bytes) (name : string) : Stmt unit
  | SInsertEntry (vault : string) (entry_id blob share : bytes) : Stmt Z
  | SSelectEntries (vault : string) (since : Z) (pubk : bytes) : Stmt (list Entry)
  | SNotify (vault : string) (head : Z) : Stmt unit
  | SSubscribe (vault : string) : Stmt unit.

Fixpoint vault_lookup (v : string) (l : list (string * VaultRow)) : option VaultRow :=
  match l with
  | [] => None
  | (v', row) :: l => if decide (v = v') then Some row else vault_lookup v l
  end.
Definition vault_update (v : string) (f : VaultRow → VaultRow) (l : list (string * VaultRow)) :=
  (λ vr : string * VaultRow, if decide (v = vr.1) then (vr.1, f vr.2) else vr) <$> l.

(** [COALESCE(MAX(seq), 0)] over a vault's entries. *)
Definition vault_head (v : string) (l : list Entry) : Z :=
  foldr (λ e h, if decide (en_vault e = v) then Z.max (en_seq e) h else h) 0 l.

(** The entries a device may pull: the default share's and its shares'. *)
Definition visible (s : Relay) (pubk : bytes) (e : Entry) : bool :=
  bool_decide (en_share e = nil_share) ||
  match t_members s !! (en_vault e, en_share e, pubk) with Some _ => true | None => false end.

Section exec.
Context (burns : bool).

Definition exec_stmt {A} (st : Stmt A) (s : Relay) : Relay * A :=
  match st in Stmt A return Relay * A with
  | SNow => (s, r_now s)
  | SEvictSeen now => (set_seen (filter (λ kv : bytes * Z, ¬ kv.2 < now) (t_seen s)) s, tt)
  | SInsertSeen sig expires =>
      match t_seen s !! sig with
      | Some _ => (s, 0)
      | None => (set_seen (<[sig := expires]> (t_seen s)) s, 1)
      end
  | SSelectDevice v pubk => (s, t_devices s !! (v, pubk))
  | SInsertVault v rp =>
      match vault_lookup v (t_vaults s) with
      | Some _ => (s, 0)
      | None => (set_vaults (t_vaults s ++ [(v, mkVaultRow rp 0)]) s, 1)
      end
  | SUpsertDevice v pubk x name approved =>
      let row := match t_devices s !! (v, pubk) with
                 | Some r => mkDeviceRow x name (dr_approved r) (dr_revoked r) (dr_wrapped_key r)
                 | None => mkDeviceRow x name approved false None
                 end in
      (set_devices (<[(v, pubk) := row]> (t_devices s)) s, tt)
  | SHead v => (s, vault_head v (t_entries s))
  | SApprove wrapped v target =>
      match t_devices s !! (v, target) with
      | Some r =>
          if dr_revoked r then (s, 0)
          else (set_devices (<[(v, target) := mkDeviceRow (dr_x25519_pub r) (dr_name r) true
                                  (dr_revoked r) (Some wrapped)]> (t_devices s)) s, 1)
      | None => (s, 0)
      end
  | SRevoke v target =>
      match t_devices s !! (v, target) with
      | Some r => (set_devices (<[(v, target) := mkDeviceRow (dr_x25519_pub r) (dr_name r) false
                                  true None]> (t_devices s)) s, 1)
      | None => (s, 0)
      end
  | SBumpEpoch epoch v prev =>
      match vault_lookup v (t_vaults s) with
      | Some r => if vr_epoch r =? prev
                  then (set_vaults (vault_update v (λ r, mkVaultRow (vr_recovery_pub r) epoch)
                                      (t_vaults s)) s, 1)
                  else (s, 0)
      | None => (s, 0)
      end
  | SRewrap wrapped v target =>
      match t_devices s !! (v, target) with
      | Some r =>
          if dr_revoked r then (s, 0)
          else (set_devices (<[(v, target) := mkDeviceRow (dr_x25519_pub r) (dr_name r) (dr_approved r)
                                  (dr_revoked r) (Some wrapped)]> (t_devices s)) s, 1)
      | None => (s, 0)
      end
  | SUpsertShare v share epoch =>
      let e := match t_shares s !! (v, share) with Some e => Z.max e epoch | None => epoch end in
      (set_shares (<[(v, share) := e]> (t_shares s)) s, tt)
  | SUpsertMember v share target wrapped =>
      (set_members (<[(v, share, target) := wrapped]> (t_members s)) s, tt)
  | SBumpShare epoch v share prev =>
      match t_shares s !! (v, share) with
      | Some e => if e =? prev then (set_shares (<[(v, share) := epoch]> (t_shares s)) s, 1) else (s, 0)
      | None => (s, 0)
      end
  | SInsertShare v share epoch =>
      match t_shares s !! (v, share) with
      | Some _ => (s, 0)
      | None => (set_shares (<[(v, share) := epoch]> (t_shares s)) s, 1)
      end
  | SDeleteMember v share target => (set_members (delete (v, share, target) (t_members s)) s, tt)
  | SRewrapMember wrapped v share target =>
      match t_members s !! (v, share, target) with
      | Some _ => (set_members (<[(v, share, target) := wrapped]> (t_members s)) s, 1)
      | None => (s, 0)
      end
  | SSelectShares v pubk =>
      (s, omap (λ kv : (string * bytes * bytes) * bytes,
                  let '((v', share, p), wrapped) := kv in
                  if decide (v' = v ∧ p = pubk)
                  then Some (share, wrapped, default 0 (t_shares s !! (v, share))) else None)
            (map_to_list (t_members s)))
  | SSelectDevices v =>
      (s, omap (λ kv : (string * bytes) * DeviceRow,
                  let '((v', p), r) := kv in if decide (v' = v) then Some (p, r) else None)
            (map_to_list (t_devices s)))
  | SSelectEpoch v => (s, vr_epoch <$> vault_lookup v (t_vaults s))
  | SSelectVault rp => (s, fst <$> find (λ vr, bool_decide (vr_recovery_pub vr.2 = rp)) (t_vaults s))
  | SRecoverDevice v pubk x name =>
      let row := match t_devices s !! (v, pubk) with
                 | Some r => mkDeviceRow x (dr_name r) true false (dr_wrapped_key r)
                 | None => mkDeviceRow x name true false None
                 end in
      (set_devices (<[(v, pubk) := row]> (t_devices s)) s, tt)
  | SInsertEntry v id blob share =>
      let q := t_sequence s + 1 in
      if existsb (λ e, bool_decide (en_vault e = v ∧ en_id e = id)) (t_entries s)
      then (set_entries (t_entries s) (if burns then q else t_sequence s) s, 0)
      else (set_entries (t_entries s ++ [mkEntry v q id blob share]) q s, 1)
  | SSelectEntries v since pubk =>
      (s, filter (λ e, en_vault e = v ∧ since < en_seq e ∧ visible s pubk e = true) (t_entries s))
  | SNotify v head =>
      match r_channels s !! v with
      | Some l => (set_channels (<[v := l ++ [head]]> (r_channels s)) s, tt)
      | None => (s, tt)
      end
  | SSubscribe v =>
      match r_channels s !! v with
      | Some _ => (s, tt)
      | None => (set_channels (<[v := []]> (r_channels s)) s, tt)
      end
  end.
End exec.

(* ------------------------------------------------------------------ *)
(** ** The invariant of the tables *)

Record db_inv (s : Relay) : Prop := {
  inv_revoked : ∀ k r, t_devices s !! k = Some r → dr_revoked r = true →
    dr_approved r = false ∧ dr_wrapped_key r = None;
  inv_seq : ∀ i e, t_entries s !! i = Some e → 0 < en_seq e ≤ t_sequence s;
  inv_order : ∀ i j e f, t_entries s !! i = Some e → t_entries s !! j = Some f →
    (i < j)%nat → en_seq e < en_seq f;
  inv_unique : ∀ i j e f, t_entries s !! i = Some e → t_entries s !! j = Some f →
    en_vault e = en_vault f → en_id e = en_id f → i = j;
  inv_sequence : 0 ≤ t_sequence s;
  inv_vaults : NoDup (t_vaults s).*1
}.
