(* ===== verification/Relay.v ===== *)
(** * Relay: the request handlers ([src/src/relay.rs])

    A handler is a program over the statements of [RelayDb.v]: a tree of
    statements and continuations.  [run_prog] runs it alone; [pool_step] runs
    any number of handlers concurrently, one statement at a time, while the
    clock advances.  [ws] is the subscription a WebSocket makes, [ws_loop]
    the task behind the socket.  The HTTP layer is left out. *)

From Stdlib Require Import ZArith Lia String.
From S2P Require Import Prelude Text Extern Proto RelayDb.

#[local] Open Scope string_scope.
#[local] Open Scope list_scope.
#[local] Open Scope Z_scope.

(** [axum::http::StatusCode], and the error value of every handler. *)
Module Status.
Inductive t := BAD_REQUEST | UNAUTHORIZED | FORBIDDEN | NOT_FOUND | CONFLICT | INTERNAL_SERVER_ERROR.
End Status.
Abbreviation Status := Status.t.
#[export] Instance Status_eq_dec : EqDecision Status.
Proof. solve_decision. Defined.
Abbreviation HttpErr := (Status * string)%type.

(** Programs over statements: [Query] asks the database, and says how the
    handler goes on when that fails; [Step] reads the clock or uses a channel. *)
Inductive prog (A : Type) : Type :=
  | Ret (a : A)
  | Step {B : Type} (st : Stmt B) (k : B → prog A)
  | Query {B : Type} (st : Stmt B) (k : B → prog A) (failed : prog A).
Arguments Ret {A} _.
Arguments Step {A B} _ _.
Arguments Query {A B} _ _ _.

Fixpoint pbind {A B} (p : prog A) (f : A → prog B) : prog B :=
  match p with
  | Ret a => f a
  | Step st k => Step st (λ x, pbind (k x) f)
  | Query st k failed => Query st (λ x, pbind (k x) f) (pbind failed f)
  end.

(** A handler's program: [?] returns the error early. *)
Definition hprog (A : Type) : Type := prog (res HttpErr A).
Definition hret {A} (a : A) : hprog A := Ret (Ok a).
Definition herr {A} (s : Status) (m : string) : hprog A := Ret (Err (s, m)).
Definition hbind {A B} (p : hprog A) (f : A → hprog B) : hprog B :=
  pbind p (λ r, match r with Ok a => f a | Err e => Ret (Err e) end).
Definition hlift {A} (r : res HttpErr A) : hprog A := Ret r.

(** What [map_err(db_err)?] makes of a storage error. *)
Definition db_err : HttpErr := (Status.INTERNAL_SERVER_ERROR, "relay storage error").

Declare Scope prog_scope.
Delimit Scope prog_scope with prog.
Notation "'do' x '<-' m ';' k" := (hbind m (λ x, k))
  (at level 10, x pattern, m at level 100, k at level 200) : prog_scope.
Notation "'run' m ';' k" := (hbind m (λ _, k))
  (at level 10, m at level 100, k at level 200) : prog_scope.
Notation "'query' x '<-' st ';' k" := (Query st (λ x, k) (Ret (Err db_err)))
  (at level 10, x pattern, st at level 100, k at level 200) : prog_scope.
Notation "'step' x '<-' st ';' k" := (Step st (λ x, k))
  (at level 10, x pattern, st at level 100, k at level 200) : prog_scope.
Notation "'guard' b 'else' s ':' m ';' k" := (if b then k else herr s m)
  (at level 10, b at level 100, s at level 50, m at level 100, k at level 200) : prog_scope.

(** [GET] queries. *)
Record SignedQuery := mkSignedQuery { sq_vault : string; sq_device : string; sq_sig : string; sq_ts : Z }.
Record PullQuery := mkPullQuery {
  pq_vault : string; pq_device : string; pq_sig : string; pq_since : Z; pq_ts : Z }.

Definition into_signed (q : SignedQuery) (action : string) : Signed :=
  mkSigned (sq_vault q) (sq_device q) (sq_sig q) (sq_ts q) (action +:+ ":" +:+ sq_vault q).

(** [(now - ts).abs() > MAX_SKEW_SECS] on [i64], as the release build computes it. *)
Definition outside_window (now ts : Z) : bool :=
  MAX_SKEW_SECS <? i64_wrap (Z.abs (i64_wrap (now - ts))).

Section relay.
Context `{Ed25519} `{Base64}.
Context `{JsonText EnrollReq} `{JsonText ApproveReq} `{JsonText RevokeReq} `{JsonText RotateReq}.
Context `{JsonText ShareGrantReq} `{JsonText ShareRotateReq} `{JsonText PushReq}.
#[local] Open Scope prog_scope.

Definition b64_array (n : nat) (s : string) (what : string) : hprog (arr n) :=
  hlift (ok_or (Status.BAD_REQUEST, what) (b ← b64_decode s; try_into n b)).
Definition b64_bytes (s : string) (what : string) : hprog bytes :=
  hlift (ok_or (Status.BAD_REQUEST, what) (b64_decode s)).
Definition json_body {T} `{JsonText T} (body : string) : hprog T :=
  hlift (ok_or (Status.BAD_REQUEST, "bad body") (json_from_str body)).

(** The signature and freshness check; not the enrollment. *)
Definition verify (signed : Signed) : hprog (string * PubKey) :=
  step now <- SNow;
  guard negb (outside_window now (sg_ts signed)) else Status.UNAUTHORIZED :
    "request timestamp outside acceptance window";
  do key <- b64_array 32 (sg_device_b64 signed) "device_pub";
  guard ed_valid_key key else Status.BAD_REQUEST : "device_pub not a valid key";
  do sig <- b64_array 64 (sg_sig_b64 signed) "sig";
  let msg := signing_message (sg_ts signed) (sg_body signed) in
  guard ed_verify key (as_bytes msg) sig else Status.UNAUTHORIZED : "signature does not verify";
  hret (sg_vault_b64 signed, key).

(** [fetch_optional(db).await.ok().flatten()]: a storage error reads as no row. *)
Definition device_row (vault : string) (key : PubKey) : hprog (option DeviceRow) :=
  Query (SSelectDevice vault (arr_bytes key)) (λ r, hret r) (hret None).

Definition can_sync (vault : string) (key : PubKey) : hprog bool :=
  do r <- device_row vault key;
  hret (match r with Some r => dr_approved r && negb (dr_revoked r) | None => false end).

(** [false] when the signature was already recorded. *)
Definition mark_seen (sig_b64 : string) : hprog bool :=
  do sig <- b64_bytes sig_b64 "sig";
  step now <- SNow;
  query _ <- SEvictSeen now;
  query n <- SInsertSeen sig (now + MAX_SKEW_SECS);
  hret (0 <? n).

Definition head (vault : string) : hprog Z := query h <- SHead vault; hret h.

Definition enroll (signed : Signed) : hprog EnrollResp :=
  do (vault, key) <- verify signed;
  do req <- json_body (T := EnrollReq) (sg_body signed);
  guard bool_decide (enroll_ed25519_b64 req = sg_device_b64 signed) else Status.BAD_REQUEST :
    "enroll must be self-signed";
  do row <- device_row vault key;
  guard negb (match row with Some r => dr_revoked r | None => false end) else Status.FORBIDDEN :
    "device is revoked";
  do x_pub <- b64_bytes (enroll_x25519_b64 req) "x25519_pub";
  do recovery_pub <- b64_bytes (enroll_recovery_b64 req) "recovery_pub";
  query n <- SInsertVault vault recovery_pub;
  let approved := 0 <? n in
  query _ <- SUpsertDevice vault (arr_bytes key) x_pub (enroll_name req) approved;
  do h <- head vault;
  hret (mkEnrollResp approved h).

Definition approve (signed : Signed) : hprog PushResp :=
  do (vault, key) <- verify signed;
  do ok <- can_sync vault key;
  guard ok else Status.FORBIDDEN : "approver not approved";
  do req <- json_body (T := ApproveReq) (sg_body signed);
  do target <- b64_bytes (approve_target_b64 req) "target_pub";
  do wrapped <- b64_bytes (approve_wrapped_b64 req) "wrapped_key";
  query n <- SApprove wrapped vault target;
  guard negb (n =? 0) else Status.NOT_FOUND : "no such pending device";
  do h <- head vault;
  hret (mkPushResp h 0).

Definition revoke (signed : Signed) : hprog PushResp :=
  do (vault, key) <- verify signed;
  do ok <- can_sync vault key;
  guard ok else Status.FORBIDDEN : "revoker not approved";
  do req <- json_body (T := RevokeReq) (sg_body signed);
  do target <- b64_bytes (revoke_target_b64 req) "target_pub";
  query n <- SRevoke vault target;
  guard negb (n =? 0) else Status.NOT_FOUND : "no such device";
  do h <- head vault;
  hret (mkPushResp h 0).

(** The loops over wrapped key lists; a bad item ends the loop where it is. *)
Fixpoint rewrap_all (vault : string) (l : list WrappedFor) : hprog unit :=
  match l with
  | [] => hret tt
  | w :: l =>
      do target <- b64_bytes (wf_device_b64 w) "device_pub";
      do wrapped <- b64_bytes (wf_wrapped_b64 w) "wrapped_key";
      query _ <- SRewrap wrapped vault target;
      rewrap_all vault l
  end.
Fixpoint grant_all (vault : string) (share : bytes) (l : list WrappedFor) : hprog unit :=
  match l with
  | [] => hret tt
  | w :: l =>
      do target <- b64_bytes (wf_device_b64 w) "device_pub";
      do wrapped <- b64_bytes (wf_wrapped_b64 w) "wrapped_key";
      query _ <- SUpsertMember vault share target wrapped;
      grant_all vault share l
  end.
Fixpoint remove_all (vault : string) (share : bytes) (l : list string) : hprog unit :=
  match l with
  | [] => hret tt
  | pub_b64 :: l =>
      do target <- b64_bytes pub_b64 "remove pub";
      query _ <- SDeleteMember vault share target;
      remove_all vault share l
  end.
Fixpoint rewrap_members (vault : string) (share : bytes) (l : list WrappedFor) : hprog unit :=
  match l with
  | [] => hret tt
  | w :: l =>
      do target <- b64_bytes (wf_device_b64 w) "device_pub";
      do wrapped <- b64_bytes (wf_wrapped_b64 w) "wrapped_key";
      query _ <- SRewrapMember wrapped vault share target;
      rewrap_members vault share l
  end.

Definition rotate (signed : Signed) : hprog PushResp :=
  do (vault, key) <- verify signed;
  do ok <- can_sync vault key;
  guard ok else Status.FORBIDDEN : "rotator not approved";
  do fresh <- mark_seen (sg_sig_b64 signed);
  guard fresh else Status.CONFLICT : "replayed request";
  do req <- json_body (T := RotateReq) (sg_body signed);
  query n <- SBumpEpoch (rotate_epoch req) vault (rotate_epoch req - 1);
  guard 0 <? n else Status.CONFLICT : "epoch already advanced";
  run rewrap_all vault (rotate_wrapped req);
  do h <- head vault;
  hret (mkPushResp h 0).

Definition decode_share (b64 : string) : hprog bytes :=
  hlift (ok_or (Status.BAD_REQUEST, "share_id")
    (b ← b64_decode b64; if Nat.eqb (length b) 16 then Some b else None)).

Definition share_grant (signed : Signed) : hprog PushResp :=
  do (vault, key) <- verify signed;
  do ok <- can_sync vault key;
  guard ok else Status.FORBIDDEN : "granter not approved";
  do req <- json_body (T := ShareGrantReq) (sg_body signed);
  do share <- decode_share (grant_share_b64 req);
  query _ <- SUpsertShare vault share (grant_epoch req);
  run grant_all vault share (grant_wrapped req);
  do h <- head vault;
  hret (mkPushResp h 0).

Definition share_rotate (signed : Signed) : hprog PushResp :=
  do (vault, key) <- verify signed;
  do ok <- can_sync vault key;
  guard ok else Status.FORBIDDEN : "rotator not approved";
  do fresh <- mark_seen (sg_sig_b64 signed);
  guard fresh else Status.CONFLICT : "replayed request";
  do req <- json_body (T := ShareRotateReq) (sg_body signed);
  do share <- decode_share (sr_share_b64 req);
  query n <- SBumpShare (sr_epoch req) vault share (sr_epoch req - 1);
  run (if 0 <? n then hret tt
       else query m <- SInsertShare vault share (sr_epoch req);
            guard 0 <? m else Status.CONFLICT : "epoch already advanced"; hret tt);
  run remove_all vault share (sr_remove req);
  run rewrap_members vault share (sr_wrapped req);
  do h <- head vault;
  hret (mkPushResp h 0).

Definition shares (q : SignedQuery) : hprog SharesResp :=
  do (vault, key) <- verify (into_signed q "shares");
  do ok <- can_sync vault key;
  guard ok else Status.FORBIDDEN : "device not approved";
  query rows <- SSelectShares vault (arr_bytes key);
  hret (mkSharesResp ((λ row : bytes * bytes * Z,
    mkShareMembership (b64_encode row.1.1) (u32_wrap row.2) (b64_encode row.1.2)) <$> rows)).

Definition devices (q : SignedQuery) : hprog DevicesResp :=
  do (vault, key) <- verify (into_signed q "devices");
  do ok <- can_sync vault key;
  guard ok else Status.FORBIDDEN : "device not approved";
  query rows <- SSelectDevices vault;
  hret (mkDevicesResp ((λ row : bytes * DeviceRow,
    mkDeviceInfo (dr_name row.2) (b64_encode row.1) (b64_encode (dr_x25519_pub row.2))
      (dr_approved row.2) (dr_revoked row.2)) <$> rows)).

Definition wrapped (q : SignedQuery) : hprog WrappedResp :=
  do (vault, key) <- verify (into_signed q "wrapped");
  query row <- SSelectDevice vault (arr_bytes key);
  match row with
  | None => herr Status.NOT_FOUND "device not enrolled"
  | Some row =>
      guard negb (dr_revoked row) else Status.FORBIDDEN : "device is revoked";
      query epoch <- SSelectEpoch vault;
      hret (mkWrappedResp (dr_approved row) (b64_encode <$> dr_wrapped_key row)
              (match epoch with Some e => u32_wrap e | None => 0 end))
  end.

Definition recover (req : RecoverReq) : hprog RecoverResp :=
  do recovery_pub <- b64_array 32 (rec_recovery_b64 req) "recovery_pub";
  do ed_pub <- b64_array 32 (rec_ed25519_b64 req) "ed25519_pub";
  do sig <- b64_array 64 (rec_sig_b64 req) "sig";
  guard ed_valid_key recovery_pub else Status.BAD_REQUEST : "recovery_pub";
  guard ed_verify recovery_pub (arr_bytes ed_pub) sig else Status.UNAUTHORIZED :
    "recovery signature invalid";
  query vrow <- SSelectVault (arr_bytes recovery_pub);
  match vrow with
  | None => herr Status.NOT_FOUND "no vault for this phrase"
  | Some vault =>
      do x_pub <- b64_bytes (rec_x25519_b64 req) "x25519_pub";
      query _ <- SRecoverDevice vault (arr_bytes ed_pub) x_pub (rec_name req);
      hret (mkRecoverResp vault)
  end.

Fixpoint push_all (vault : string) (l : list WireEntry) (stored : Z) : hprog Z :=
  match l with
  | [] => hret stored
  | e :: l =>
      do entry_id <- b64_bytes (entry_id_b64 e) "entry_id";
      do blob <- b64_bytes (blob_b64 e) "blob";
      do share_id <- (if bool_decide (share_id_b64 e = "") then hret nil_share
                      else decode_share (share_id_b64 e));
      query n <- SInsertEntry vault entry_id blob share_id;
      push_all vault l (stored + n)
  end.

Definition push (signed : Signed) : hprog PushResp :=
  do (vault, key) <- verify signed;
  do ok <- can_sync vault key;
  guard ok else Status.FORBIDDEN : "device not enrolled or revoked";
  do req <- json_body (T := PushReq) (sg_body signed);
  do stored <- push_all vault (push_entries req) 0;
  do h <- head vault;
  run (if 0 <? stored then step _ <- SNotify vault h; hret tt else hret tt);
  hret (mkPushResp h stored).

Definition pull_signed (q : PullQuery) : Signed :=
  mkSigned (pq_vault q) (pq_device q) (pq_sig q) (pq_ts q) ("pull:" +:+ show_int (pq_since q)).

Definition wire (e : Entry) : WireEntry :=
  mkWireEntry (b64_encode (en_id e)) (b64_encode (en_blob e)) (b64_encode (en_share e)).

Definition pull (q : PullQuery) : hprog PullResp :=
  do (vault, key) <- verify (pull_signed q);
  do ok <- can_sync vault key;
  guard ok else Status.FORBIDDEN : "device not enrolled or revoked";
  query rows <- SSelectEntries vault (i64_wrap (pq_since q)) (arr_bytes key);
  let entries := wire <$> rows in
  do h <- head vault;
  hret (mkPullResp entries (Z.max (u64_wrap h) (pq_since q))).

Definition ws (vault : string) : hprog unit := step _ <- SSubscribe vault; hret tt.

(* ------------------------------------------------------------------ *)
(** ** Running programs *)

Context (burns : bool).

Fixpoint run_prog {A} (p : prog A) (s : Relay) : Relay * A :=
  match p with
  | Ret a => (s, a)
  | Step st k | Query st k _ => let '(s, x) := exec_stmt burns st s in run_prog (k x) s
  end.

(** The requests a relay serves. *)
Inductive request : Type :=
  | ReqEnroll (signed : Signed)
  | ReqApprove (signed : Signed)
  | ReqRevoke (signed : Signed)
  | ReqRotate (signed : Signed)
  | ReqShareGrant (signed : Signed)
  | ReqShareRotate (signed : Signed)
  | ReqShares (q : SignedQuery)
  | ReqDevices (q : SignedQuery)
  | ReqWrapped (q : SignedQuery)
  | ReqRecover (req : RecoverReq)
  | ReqPush (signed : Signed)
  | ReqPull (q : PullQuery)
  | ReqWs (vault : string).

(** What a handler answers. *)
Inductive Reply : Type :=
  | RepEnroll (r : EnrollResp)
  | RepPush (r : PushResp)
  | RepShares (r : SharesResp)
  | RepDevices (r : DevicesResp)
  | RepWrapped (r : WrappedResp)
  | RepRecover (r : RecoverResp)
  | RepPull (r : PullResp)
  | RepWs.

Definition reply {A} (f : A → Reply) (p : hprog A) : hprog Reply := hbind p (λ a, hret (f a)).

(** The routes. *)
Definition handler (r : request) : hprog Reply :=
  match r with
  | ReqEnroll s => reply RepEnroll (enroll s)
  | ReqApprove s => reply RepPush (approve s)
  | ReqRevoke s => reply RepPush (revoke s)
  | ReqRotate s => reply RepPush (rotate s)
  | ReqShareGrant s => reply RepPush (share_grant s)
  | ReqShareRotate s => reply RepPush (share_rotate s)
  | ReqShares q => reply RepShares (shares q)
  | ReqDevices q => reply RepDevices (devices q)
  | ReqWrapped q => reply RepWrapped (wrapped q)
  | ReqRecover r => reply RepRecover (recover r)
  | ReqPush s => reply RepPush (push s)
  | ReqPull q => reply RepPull (pull q)
  | ReqWs v => reply (λ _, RepWs) (ws v)
  end.

(** The server: the tables and the handlers in flight.  An allowed request
    arrives, the clock advances, one handler runs its next statement or finds
    that the database fails, or a client hangs up and its handler is dropped. *)
Abbreviation Pool := (Relay * list (hprog Reply))%type.
Inductive pool_step (allowed : request → Prop) : Pool → Pool → Prop :=
  | pool_request s ps r : allowed r → pool_step allowed (s, ps) (s, ps ++ [handler r])
  | pool_tick s ps now : r_now s ≤ now → pool_step allowed (s, ps) (set_now now s, ps)
  | pool_run s ps i B (st : Stmt B) k s' x :
      ps !! i = Some (Step st k) → exec_stmt burns st s = (s', x) →
      pool_step allowed (s, ps) (s', <[i := k x]> ps)
  | pool_query s ps i B (st : Stmt B) k failed s' x :
      ps !! i = Some (Query st k failed) → exec_stmt burns st s = (s', x) →
      pool_step allowed (s, ps) (s', <[i := k x]> ps)
  | pool_fails s ps i B (st : Stmt B) k failed :
      ps !! i = Some (Query st k failed) → pool_step allowed (s, ps) (s, <[i := failed]> ps)
  | pool_dropped s ps i : pool_step allowed (s, ps) (s, delete i ps).
End relay.

(* ------------------------------------------------------------------ *)
(** ** The task of a subscribed socket *)

Definition CHANNEL_CAPACITY : nat := 64.

Section socket.
Context `{Broadcast}.

(** One turn of its loop: what the channel has carried, how much of it was
    received before, and whether the socket takes the message. *)
Inductive Turn := Sent (message : string) | Parked | Ended.
Definition ws_turn (carried : list Z) (received : nat) (taken : bool) : Turn :=
  match recv CHANNEL_CAPACITY carried received with
  | Received head => if taken then Sent (show_int head) else Ended
  | Lagged => Ended
  | Waiting => Parked
  end.

(** The loop over the times it gets to run: the messages sent, and whether the
    socket is still open. *)
Fixpoint ws_loop (turns : list (list Z * bool)) (received : nat) : list string * bool :=
  match turns with
  | [] => ([], true)
  | (carried, taken) :: turns =>
      match ws_turn carried received taken with
      | Sent message => let '(messages, open) := ws_loop turns (S received) in (message :: messages, open)
      | Parked => ws_loop turns received
      | Ended => ([], false)
      end
  end.
End socket.
