(* ===== verification/RelayFacts.v ===== *)
(** * RelayFacts: the relay's statements and handlers

    Statement-level facts (what no statement can do to the tables), which
    hold under every interleaving, and the sequential behaviour of the
    handlers the properties of [RelayProps.v] build on. *)

From Stdlib Require Import ZArith Lia String.
From S2P Require Import Prelude Text Extern Proto RelayDb Relay.

#[local] Open Scope string_scope.
#[local] Open Scope list_scope.
#[local] Open Scope Z_scope.

(** ** Statements *)

Lemma db_inv_ext s s' :
  t_devices s' = t_devices s → t_entries s' = t_entries s → t_sequence s' = t_sequence s →
  t_vaults s' = t_vaults s → db_inv s → db_inv s'.
Proof.
  intros E1 E2 E3 E4 [H1 H2 H3 H4 H5 H6]. split; rewrite ?E1, ?E2, ?E3, ?E4; eauto.
Qed.

Lemma db_inv_devices s k row :
  db_inv s → (dr_revoked row = true → dr_approved row = false ∧ dr_wrapped_key row = None) →
  db_inv (set_devices (<[k := row]> (t_devices s)) s).
Proof.
  intros [H1 H2 H3 H4 H5 H6] Hrow. split; simpl; try done. intros k' r.
  destruct (decide (k = k')) as [<-|Hne]; [rewrite lookup_insert_eq; by intros [= <-]|].
  rewrite lookup_insert_ne by done. apply H1.
Qed.

Lemma vault_update_keys v f l : (vault_update v f l).*1 = l.*1.
Proof.
  unfold vault_update. rewrite <-list_fmap_compose. apply list_fmap_ext.
  intros i [v' r] _. simpl. by case_decide.
Qed.

Lemma vault_lookup_none v l : vault_lookup v l = None ↔ v ∉ l.*1.
Proof.
  induction l as [|[v' r] l IH]; simpl; [split; [by intros _ ?%not_elem_of_nil | done]|].
  rewrite not_elem_of_cons. case_decide as Hv; naive_solver.
Qed.

Lemma exec_stmt_inv burns {A} (st : Stmt A) s :
  db_inv s → db_inv (exec_stmt burns st s).1.
Proof.
  intros Hs. destruct st; simpl; try (by apply (db_inv_ext s)).
  - destruct (t_seen s !! sig); by apply (db_inv_ext s).
  - destruct (vault_lookup vault (t_vaults s)) eqn:E; [done|]. destruct Hs. split; simpl; try done.
    rewrite fmap_app. apply NoDup_app. split_and!; [done| |apply NoDup_singleton].
    intros x Hx ->%list_elem_of_singleton. by apply vault_lookup_none in E.
  - apply db_inv_devices; [done|]. destruct (t_devices s !! _) as [r|] eqn:E; simpl; [|done].
    exact (inv_revoked _ Hs _ _ E).
  - destruct (t_devices s !! _) as [r|] eqn:E; [|done]. destruct (dr_revoked r) eqn:Er; [done|].
    apply db_inv_devices; [done|]. simpl. congruence.
  - destruct (t_devices s !! _) as [r|] eqn:E; [|done]. by apply db_inv_devices.
  - destruct (vault_lookup vault (t_vaults s)) as [r|]; [|done]. destruct (_ =? _); [|done].
    destruct Hs. split; simpl; try done. by rewrite vault_update_keys.
  - destruct (t_devices s !! _) as [r|] eqn:E; [|done]. destruct (dr_revoked r) eqn:Er; [done|].
    apply db_inv_devices; [done|]. simpl. congruence.
  - destruct (t_shares s !! _) as [e|]; [destruct (_ =? _)|]; by apply (db_inv_ext s).
  - destruct (t_shares s !! _); by apply (db_inv_ext s).
  - destruct (t_members s !! _); by apply (db_inv_ext s).
  - apply db_inv_devices; [done|]. by destruct (t_devices s !! _).
  - destruct Hs as [H1 H2 H3 H4 H5 H6]. destruct (existsb _ _) eqn:E.
    + split; simpl; try done; [|by destruct burns; lia].
      intros i e He. specialize (H2 i e He). destruct burns; lia.
    + assert (Hsnoc : ∀ i e, (t_entries s ++ [mkEntry vault (t_sequence s + 1) entry_id blob share]) !! i = Some e →
        (i < length (t_entries s))%nat ∧ t_entries s !! i = Some e ∨
        i = length (t_entries s) ∧ e = mkEntry vault (t_sequence s + 1) entry_id blob share).
      { intros i e [Hi|[Hi Hl]]%lookup_app_Some; [left; split; [by eapply lookup_lt_Some | done]|].
        right. apply list_lookup_singleton_Some in Hl as [Hi' <-]. split; [lia | done]. }
      assert (Hnew : ∀ i e, t_entries s !! i = Some e → en_vault e = vault → en_id e = entry_id → False).
      { intros i e Hi Hv Hid. apply not_true_iff_false in E. apply E, existsb_exists.
        exists e. split; [by eapply list_elem_of_In, list_elem_of_lookup_2|]. by apply bool_decide_eq_true. }
      split; simpl; try done; try lia.
      * intros i e [[_ He]|[_ ->]]%Hsnoc; simpl; [specialize (H2 _ _ He); lia | lia].
      * intros i j e f [[Hi He]|[-> ->]]%Hsnoc [[Hj Hf]|[-> ->]]%Hsnoc Hij; simpl; try lia; eauto.
        specialize (H2 _ _ He). lia.
      * intros i j e f [[Hi He]|[-> ->]]%Hsnoc [[Hj Hf]|[-> ->]]%Hsnoc Hv Hid; simpl in *; eauto;
          exfalso; eauto.
  - destruct (r_channels s !! vault); by apply (db_inv_ext s).
  - destruct (r_channels s !! vault); by apply (db_inv_ext s).
Qed.

(** No statement changes or drops a stored entry. *)
Lemma exec_stmt_entries burns {A} (st : Stmt A) s :
  ∃ new, t_entries (exec_stmt burns st s).1 = t_entries s ++ new.
Proof.
  assert (Hsame : ∀ s', t_entries s' = t_entries s → ∃ new, t_entries s' = t_entries s ++ new).
  { intros s' ->. exists []. by rewrite app_nil_r. }
  destruct st; simpl; repeat case_match; simpl; try (by apply Hsame). eauto.
Qed.

(** Only a recovery lifts a revocation. *)
Definition not_recovery {A} (st : Stmt A) : Prop :=
  match st with SRecoverDevice _ _ _ _ => False | _ => True end.

Lemma exec_stmt_revoked burns {A} (st : Stmt A) s k r :
  not_recovery st → t_devices s !! k = Some r → dr_revoked r = true →
  ∃ r', t_devices (exec_stmt burns st s).1 !! k = Some r' ∧ dr_revoked r' = true.
Proof.
  intros Hst Hk Hr.
  assert (Hins : ∀ k' row, (k' = k → dr_revoked row = true) →
    ∃ r', <[k' := row]> (t_devices s) !! k = Some r' ∧ dr_revoked r' = true).
  { intros k' row Hrow. destruct (decide (k' = k)) as [->|Hne].
    - rewrite lookup_insert_eq. eauto.
    - rewrite lookup_insert_ne by done. eauto. }
  destruct st; simpl in *; try done; repeat case_match; simpl; eauto; apply Hins; intros <-; simpl; congruence.
Qed.

(** Epochs move by one, and never back, when the guard of a bump is the
    previous epoch. *)
Definition bump_guarded {A} (st : Stmt A) : Prop :=
  match st with
  | SBumpEpoch e _ p => p = e - 1
  | SBumpShare e _ _ p => p = e - 1
  | _ => True
  end.

Lemma vault_lookup_update v v' f l :
  vault_lookup v (vault_update v' f l) =
  if decide (v' = v) then f <$> vault_lookup v l else vault_lookup v l.
Proof.
  induction l as [|[w r] l IH]; simpl; [by case_decide|].
  destruct (decide (v' = w)), (decide (v = w)), (decide (v' = v)); simpl;
    rewrite ?decide_True, ?decide_False by done; simpl; try congruence; by rewrite IH, ?decide_True, ?decide_False.
Qed.

Lemma vault_lookup_app v l k :
  vault_lookup v (l ++ k) = match vault_lookup v l with Some r => Some r | None => vault_lookup v k end.
Proof. induction l as [|[w r] l IH]; simpl; [done|]. by case_decide. Qed.

Lemma exec_stmt_epoch burns {A} (st : Stmt A) s v r :
  bump_guarded st → vault_lookup v (t_vaults s) = Some r →
  ∃ r', vault_lookup v (t_vaults (exec_stmt burns st s).1) = Some r' ∧
    vr_recovery_pub r' = vr_recovery_pub r ∧
    (vr_epoch r' = vr_epoch r ∨ vr_epoch r' = vr_epoch r + 1).
Proof.
  intros Hst Hv.
  assert (Hsame : ∀ s', t_vaults s' = t_vaults s → ∃ r', vault_lookup v (t_vaults s') = Some r' ∧
    vr_recovery_pub r' = vr_recovery_pub r ∧ (vr_epoch r' = vr_epoch r ∨ vr_epoch r' = vr_epoch r + 1)).
  { intros s' ->. eauto. }
  destruct st; simpl in *; try (repeat case_match; by apply Hsame).
  - destruct (vault_lookup vault _); [by apply Hsame|]. simpl. rewrite vault_lookup_app, Hv. eauto.
  - destruct (vault_lookup vault (t_vaults s)) as [r0|] eqn:E; [|by apply Hsame].
    destruct (Z.eqb_spec (vr_epoch r0) prev) as [Hp|]; [|by apply Hsame]. simpl.
    rewrite vault_lookup_update. case_decide as Hd; [subst vault|eauto].
    rewrite Hv. simpl. eexists. split_and!; [done|done|]. right. simpl.
    rewrite Hv in E. injection E as ->. lia.
Qed.

Lemma exec_stmt_share_epoch burns {A} (st : Stmt A) s k e :
  bump_guarded st → t_shares s !! k = Some e →
  ∃ e', t_shares (exec_stmt burns st s).1 !! k = Some e' ∧ e ≤ e'.
Proof.
  intros Hst Hk.
  assert (Hins : ∀ k' x, (k' = k → e ≤ x) → ∃ e', <[k' := x]> (t_shares s) !! k = Some e' ∧ e ≤ e').
  { intros k' x Hx. destruct (decide (k' = k)) as [->|Hne].
    - rewrite lookup_insert_eq. eauto.
    - rewrite lookup_insert_ne by done. eauto using Z.le_refl. }
  destruct st; simpl in *; try (repeat case_match; simpl; by eauto using Z.le_refl).
  - apply Hins. intros <-. rewrite Hk. lia.
  - destruct (t_shares s !! (vault, share)) as [x|] eqn:E; [|eauto using Z.le_refl].
    destruct (Z.eqb_spec x prev); [|eauto using Z.le_refl]. simpl.
    apply Hins. intros <-. rewrite Hk in E. injection E as ->. lia.
  - destruct (t_shares s !! (vault, share)) as [x|] eqn:E; [eauto using Z.le_refl|]. simpl.
    apply Hins. intros <-. congruence.
Qed.

(** The log of AUTOINCREMENT values only rises. *)
Lemma exec_stmt_sequence burns {A} (st : Stmt A) s : t_sequence s ≤ t_sequence (exec_stmt burns st s).1.
Proof. destruct st; simpl; repeat case_match; simpl; lia. Qed.

(* ------------------------------------------------------------------ *)
(** ** Every statement of a program *)

Fixpoint prog_all (P : ∀ B, Stmt B → Prop) {A} (p : prog A) : Prop :=
  match p with
  | Ret _ => True
  | Step st k => P _ st ∧ ∀ x, prog_all P (k x)
  | Query st k failed => P _ st ∧ (∀ x, prog_all P (k x)) ∧ prog_all P failed
  end.

Lemma prog_all_pbind P {A B} (p : prog A) (f : A → prog B) :
  prog_all P p → (∀ a, prog_all P (f a)) → prog_all P (pbind p f).
Proof. induction p as [a|B' st k IH|B' st k IH failed IHf]; simpl; [auto | |]; intuition auto. Qed.

Lemma prog_all_hbind P {A B} (p : hprog A) (f : A → hprog B) :
  prog_all P p → (∀ a, prog_all P (f a)) → prog_all P (hbind p f).
Proof. intros Hp Hf. apply prog_all_pbind; [done|]. intros [a|e]; simpl; auto. Qed.

(** Walks a handler's program, leaving the statements. *)
Ltac prog_walk :=
  repeat match goal with
  | |- ∀ _, _ => intros
  | |- prog_all _ (hbind _ _) => apply prog_all_hbind
  | |- prog_all _ (let '(_, _) := ?x in _) => destruct x
  | |- prog_all _ (if ?b then _ else _) => destruct b
  | |- prog_all _ (match ?o with Some _ => _ | None => _ end) => destruct o
  | |- prog_all _ (Step _ _) => split
  | |- prog_all _ (Query _ _ _) => split; [|split]
  | |- prog_all _ (Ret _) => exact I
  end.

Section programs.
Context `{Ed25519} `{Base64}.
Context `{JsonText EnrollReq} `{JsonText ApproveReq} `{JsonText RevokeReq} `{JsonText RotateReq}.
Context `{JsonText ShareGrantReq} `{JsonText ShareRotateReq} `{JsonText PushReq}.
Context (burns : bool).

(** What the statements of all handlers, and of all but [recover], satisfy. *)
Definition guarded B (st : Stmt B) : Prop := bump_guarded st.
Definition unrecovering B (st : Stmt B) : Prop := bump_guarded st ∧ not_recovery st.

Lemma loops_guarded (P : ∀ B, Stmt B → Prop) vault share l :
  (∀ w v t, P _ (SRewrap w v t)) → (∀ v s t w, P _ (SUpsertMember v s t w)) →
  (∀ w v s t, P _ (SRewrapMember w v s t)) →
  prog_all P (rewrap_all vault l) ∧ prog_all P (grant_all vault share l) ∧
  prog_all P (rewrap_members vault share l).
Proof.
  intros H1' H2' H3'. induction l as [|w l (IH1 & IH2 & IH3)]; [done|].
  cbn [rewrap_all grant_all rewrap_members].
  split_and!; prog_walk; try done; auto.
Qed.

Lemma remove_all_guarded (P : ∀ B, Stmt B → Prop) vault share l :
  (∀ v s t, P _ (SDeleteMember v s t)) → prog_all P (remove_all vault share l).
Proof. intros HP. induction l as [|w l IH]; [done|]. cbn [remove_all]. prog_walk; try done; auto. Qed.

Lemma push_all_guarded (P : ∀ B, Stmt B → Prop) vault l n :
  (∀ v i b s, P _ (SInsertEntry v i b s)) → prog_all P (push_all vault l n).
Proof.
  intros HP. revert n. induction l as [|w l IH]; intros n; [done|]. cbn [push_all].
  prog_walk; try done; auto.
Qed.

(** The statements of a handler that is not a loop over its request. *)
#[local] Ltac handler_walk :=
  unfold handler, reply; apply prog_all_hbind; try (intros; exact I);
  unfold enroll, approve, revoke, rotate, share_grant, share_rotate, shares, devices, wrapped, recover,
    push, pull, ws, verify, can_sync, device_row, mark_seen, head, b64_array, b64_bytes, json_body,
    decode_share, hlift, hret, herr; prog_walk; try done;
  try (apply loops_guarded; done); try (apply (loops_guarded _ _ []); done); try (apply remove_all_guarded; done);
  try (apply push_all_guarded; done).

Definition is_recover (r : request) : bool := match r with ReqRecover _ => true | _ => false end.

Lemma handler_unrecovering r : is_recover r = false → prog_all unrecovering (handler r).
Proof.
  intros Hr. destruct r; try done; handler_walk.
Qed.

(** Only a push stores entries or announces a head. *)
Definition quiet B (st : Stmt B) : Prop :=
  match st with SInsertEntry _ _ _ _ | SNotify _ _ => False | _ => True end.
Definition is_push (r : request) : bool := match r with ReqPush _ => true | _ => false end.

Lemma handler_quiet r : is_push r = false → prog_all quiet (handler r).
Proof. intros Hr. destruct r; try done; handler_walk. Qed.

Lemma prog_all_impl (P Q : ∀ B, Stmt B → Prop) {A} (p : prog A) :
  (∀ B st, P B st → Q B st) → prog_all P p → prog_all Q p.
Proof. intros HPQ. induction p as [a|B st k IH|B st k IH failed IHf]; simpl; [done | |]; intuition eauto. Qed.

Lemma handler_guarded r : prog_all guarded (handler r).
Proof.
  destruct (is_recover r) eqn:Er.
  - destruct r; try done. handler_walk.
  - eapply prog_all_impl; [|by apply handler_unrecovering]. by intros B st [? _].
Qed.

(** A relation that the statements of a program stand in holds along its run. *)
Lemma run_prog_all (P : ∀ B, Stmt B → Prop) (R : Relay → Relay → Prop) `{!Reflexive R} `{!Transitive R}
    {A} (p : prog A) s s' a :
  (∀ B (st : Stmt B) s, P B st → R s (exec_stmt burns st s).1) →
  prog_all P p → run_prog burns p s = (s', a) → R s s'.
Proof.
  intros Hst. revert s. induction p as [x|B st k IH|B st k IH failed _]; intros s; cbn [run_prog prog_all].
  - by intros _ [= <- _].
  - intros [Hp Hk]. pose proof (Hst B st s Hp) as Hs. destruct (exec_stmt burns st s) as [s1 x].
    intros Hrun. transitivity s1; [exact Hs | by eapply IH].
  - intros (Hp & Hk & _). pose proof (Hst B st s Hp) as Hs. destruct (exec_stmt burns st s) as [s1 x].
    intros Hrun. transitivity s1; [exact Hs | by eapply IH].
Qed.

(** A property of the tables kept by the statements of the handlers is kept
    by every interleaving of them. *)
Lemma pool_invariant (P : ∀ B, Stmt B → Prop) (allowed : request → Prop) (R : Relay → Relay → Prop)
    `{!Reflexive R} `{!Transitive R} s ps s' ps' :
  (∀ r, allowed r → prog_all P (handler r)) →
  (∀ B (st : Stmt B) s, P B st → R s (exec_stmt burns st s).1) →
  (∀ s now, R s (set_now now s)) →
  rtc (pool_step burns allowed) (s, ps) (s', ps') →
  Forall (prog_all P) ps → R s s' ∧ Forall (prog_all P) ps'.
Proof.
  intros Hall Hst Hnow Hrun.
  remember (s, ps) as x eqn:Ex. remember (s', ps') as y eqn:Ey.
  revert s ps Ex Ey. induction Hrun as [x|x z y Hstep Hrun IH]; intros s ps -> Ey Hps.
  { injection Ey as <- <-. done. }
  assert (Hz : R s z.1 ∧ Forall (prog_all P) z.2).
  { inversion Hstep as [s0 ps0 r Hr|s0 ps0 now Hn|s0 ps0 i B st k s1 a Hi Hex|s0 ps0 i B st k failed s1 a Hi Hex
      |s0 ps0 i B st k failed Hi|s0 ps0 i]; subst; simpl.
    - split; [done|]. apply Forall_app. split; [done|]. constructor; [by apply Hall | done].
    - split; [apply Hnow | done].
    - rewrite Forall_forall in Hps. destruct (Hps (Step st k)) as [Hp Hk];
        [by eapply list_elem_of_lookup_2|].
      split; [pose proof (Hst B st s Hp) as Hr; by rewrite Hex in Hr|].
      apply Forall_insert; [by apply Forall_forall | apply Hk].
    - rewrite Forall_forall in Hps. destruct (Hps (Query st k failed)) as (Hp & Hk & _);
        [by eapply list_elem_of_lookup_2|].
      split; [pose proof (Hst B st s Hp) as Hr; by rewrite Hex in Hr|].
      apply Forall_insert; [by apply Forall_forall | apply Hk].
    - split; [done|]. apply Forall_insert; [done|]. rewrite Forall_forall in Hps.
      by apply (Hps (Query st k failed)); eapply list_elem_of_lookup_2.
    - split; [done | by apply Forall_delete]. }
  destruct z as [s1 ps1]. destruct Hz as [HR Hp1].
  destruct (IH s1 ps1 eq_refl Ey Hp1) as [HR' Hp']. split; [by transitivity s1 | done].
Qed.

Lemma pool_preserves (P : ∀ B, Stmt B → Prop) (allowed : request → Prop) (I : Relay → Prop) s ps s' ps' :
  (∀ r, allowed r → prog_all P (handler r)) →
  (∀ B (st : Stmt B) s, P B st → I s → I (exec_stmt burns st s).1) →
  (∀ s now, I s → I (set_now now s)) →
  rtc (pool_step burns allowed) (s, ps) (s', ps') → Forall (prog_all P) ps → I s → I s'.
Proof.
  intros Hall Hst Hnow Hrun Hps.
  assert (HR : Reflexive (λ a b, I a → I b)) by (intros x; auto).
  assert (HT : Transitive (λ a b, I a → I b)) by (intros x y z; auto).
  by destruct (pool_invariant P allowed (λ a b, I a → I b) s ps s' ps' Hall Hst Hnow Hrun Hps).
Qed.
End programs.

(* ------------------------------------------------------------------ *)
(** ** Handlers run alone *)

Section running.
Context `{Ed25519} `{Base64}.
Context (burns : bool).

Lemma run_pbind {A B} (p : prog A) (f : A → prog B) s :
  run_prog burns (pbind p f) s = let '(s1, a) := run_prog burns p s in run_prog burns (f a) s1.
Proof.
  revert s. induction p as [a|B' st k IH|B' st k IH failed _]; intros s; simpl; [done | |];
    destruct (exec_stmt burns st s) as [s1 x]; apply IH.
Qed.

Lemma run_hbind {A B} (p : hprog A) (f : A → hprog B) s :
  run_prog burns (hbind p f) s =
  match run_prog burns p s with
  | (s1, Ok a) => run_prog burns (f a) s1
  | (s1, Err e) => (s1, Err e)
  end.
Proof. unfold hbind. rewrite run_pbind. by destruct (run_prog burns p s) as [s1 [a|e]]. Qed.

(** The result of [verify] at a given time; [RelayProps] states what a refusal
    means in terms of the signature itself. *)
Definition authenticate (now : Z) (signed : Signed) : res HttpErr (string * PubKey) :=
  snd (run_prog burns (verify signed) (empty_relay now)).

Lemma verify_run signed s :
  run_prog burns (verify signed) s = (s, authenticate (r_now s) signed).
Proof.
  unfold authenticate, verify. simpl. destruct (negb _); [|done].
  rewrite !run_hbind. unfold b64_array, hlift. simpl.
  destruct (b ← b64_decode (sg_device_b64 signed); try_into 32 b); simpl; [|done].
  destruct (ed_valid_key _); [|done]. rewrite !run_hbind. simpl.
  destruct (b ← b64_decode (sg_sig_b64 signed); try_into 64 b); simpl; [|done].
  by destruct (ed_verify _ _ _).
Qed.

(** What an accepted envelope proves: the key in it is valid, and it signed
    the timestamp and the body, the former within the window. *)
Lemma authenticate_ok now signed v key :
  authenticate now signed = Ok (v, key) ↔
  v = sg_vault_b64 signed ∧ outside_window now (sg_ts signed) = false ∧
  b64_decode (sg_device_b64 signed) = Some (arr_bytes key) ∧ ed_valid_key key = true ∧
  ∃ sig : Sig, b64_decode (sg_sig_b64 signed) = Some (arr_bytes sig) ∧
    ed_verify key (as_bytes (signing_message (sg_ts signed) (sg_body signed))) sig = true.
Proof.
  unfold authenticate, verify, b64_array, hlift. simpl. split.
  - destruct (outside_window _ _); simpl; [done|]. rewrite run_hbind. simpl.
    destruct (b64_decode (sg_device_b64 signed)) as [b|]; simpl; [|done].
    destruct (try_into 32 b) as [k|] eqn:Ek; simpl; [|done]. apply try_into_Some in Ek as ->.
    destruct (ed_valid_key k) eqn:Ev; [|done]. rewrite run_hbind. simpl.
    destruct (b64_decode (sg_sig_b64 signed)) as [c|]; simpl; [|done].
    destruct (try_into 64 c) as [sg|] eqn:Es; simpl; [|done]. apply try_into_Some in Es as ->.
    destruct (ed_verify _ _ _) eqn:Ee; [|done]. intros [= <- <-]. eauto 10.
  - intros (-> & -> & Hd & Hv & sg & Hs & He). simpl. rewrite run_hbind, Hd. simpl.
    rewrite try_into_bytes. simpl. rewrite Hv, run_hbind, Hs. simpl.
    rewrite try_into_bytes. simpl. by rewrite He.
Qed.

(** May this device sync? *)
Definition may_sync (s : Relay) (vault : string) (key : PubKey) : bool :=
  match t_devices s !! (vault, arr_bytes key) with
  | Some r => dr_approved r && negb (dr_revoked r)
  | None => false
  end.

Lemma can_sync_run vault key s : run_prog burns (can_sync vault key) s = (s, Ok (may_sync s vault key)).
Proof. done. Qed.

(** The shape of every handler that needs an approved device. *)
Lemma gated_run {A} signed msg (body : string → PubKey → hprog A) s :
  run_prog burns
    (hbind (verify signed) (λ '(vault, key),
     hbind (can_sync vault key) (λ ok,
     if ok then body vault key else herr Status.FORBIDDEN msg))) s =
  match authenticate (r_now s) signed with
  | Err e => (s, Err e)
  | Ok (vault, key) =>
      if may_sync s vault key then run_prog burns (body vault key) s
      else (s, Err (Status.FORBIDDEN, msg))
  end.
Proof.
  rewrite run_hbind, verify_run. destruct (authenticate _ _) as [[vault key]|e]; [|done].
  rewrite run_hbind, can_sync_run. by destruct (may_sync s vault key).
Qed.

Lemma json_body_run {T} `{JsonText T} {A} body (k : T → hprog A) s :
  run_prog burns (hbind (json_body body) k) s =
  match json_from_str body with
  | Some req => run_prog burns (k req) s
  | None => (s, Err (Status.BAD_REQUEST, "bad body"))
  end.
Proof. unfold json_body, hlift. rewrite run_hbind. simpl. by destruct (json_from_str body). Qed.

Lemma b64_bytes_run {A} str what (k : bytes → hprog A) s :
  run_prog burns (hbind (b64_bytes str what) k) s =
  match b64_decode str with
  | Some b => run_prog burns (k b) s
  | None => (s, Err (Status.BAD_REQUEST, what))
  end.
Proof. unfold b64_bytes, hlift. rewrite run_hbind. simpl. by destruct (b64_decode str). Qed.

(* ------------------------------------------------------------------ *)
(** ** Pushing *)

(** The raw entry of a wire entry. *)
Definition decode_wire (e : WireEntry) : option (bytes * bytes * bytes) :=
  id ← b64_decode (entry_id_b64 e);
  blob ← b64_decode (blob_b64 e);
  share ← (if bool_decide (share_id_b64 e = "") then Some nil_share
           else b ← b64_decode (share_id_b64 e); if Nat.eqb (length b) 16 then Some b else None);
  Some (id, blob, share).

Definition has_entry (vault : string) (id : bytes) (l : list Entry) : Prop :=
  ∃ e, e ∈ l ∧ en_vault e = vault ∧ en_id e = id.

Definition insert_entry (vault : string) (d : bytes * bytes * bytes) (s : Relay) : Relay * Z :=
  exec_stmt burns (SInsertEntry vault d.1.1 d.1.2 d.2) s.

Lemma existsb_entry vault id l :
  existsb (λ e, bool_decide (en_vault e = vault ∧ en_id e = id)) l = true ↔ has_entry vault id l.
Proof.
  rewrite existsb_exists. unfold has_entry. setoid_rewrite bool_decide_eq_true.
  setoid_rewrite list_elem_of_In. naive_solver.
Qed.

Lemma insert_entry_spec vault d s s' n :
  insert_entry vault d s = (s', n) →
  ∃ new, t_entries s' = t_entries s ++ new ∧ n = Z.of_nat (length new) ∧
    has_entry vault d.1.1 (t_entries s') ∧
    (has_entry vault d.1.1 (t_entries s) → new = []) ∧
    (∀ e, e ∈ new → en_vault e = vault ∧ (en_id e, en_blob e, en_share e) = d) ∧
    s' = set_entries (t_entries s') (t_sequence s') s.
Proof.
  destruct d as [[id blob] share]. unfold insert_entry. simpl.
  destruct (existsb _ _) eqn:E; intros [= <- <-]; simpl.
  - exists []. rewrite app_nil_r. apply existsb_entry in E. split_and!; try done.
    by intros e ?%not_elem_of_nil.
  - eexists [_]. split_and!; try done.
    + eexists. split; [apply elem_of_app; right; by apply list_elem_of_singleton | done].
    + intros Hh%existsb_entry. congruence.
    + intros e ->%list_elem_of_singleton. done.
Qed.

Lemma set_entries_twice l q l' q' s :
  set_entries l q (set_entries l' q' s) = set_entries l q s.
Proof. done. Qed.

(** The loop of [push]: all or part of the entries are stored, each once. *)
Lemma push_all_run vault l : ∀ n s s' r,
  run_prog burns (push_all vault l n) s = (s', r) →
  ∃ new, t_entries s' = t_entries s ++ new ∧
    s' = set_entries (t_entries s') (t_sequence s') s ∧
    (∀ e, e ∈ new → en_vault e = vault ∧
       ∃ w, w ∈ l ∧ decode_wire w = Some (en_id e, en_blob e, en_share e)) ∧
    match r with
    | Ok m => m = n + Z.of_nat (length new) ∧
        (∀ w, w ∈ l → ∃ d, decode_wire w = Some d ∧ has_entry vault d.1.1 (t_entries s')) ∧
        ((∀ w d, w ∈ l → decode_wire w = Some d → has_entry vault d.1.1 (t_entries s)) → new = [])
    | Err e => fst e = Status.BAD_REQUEST ∧ ∃ w, w ∈ l ∧ decode_wire w = None
    end.
Proof.
  induction l as [|w l IH]; intros n s s' r.
  { cbn [push_all run_prog hret]. intros [= <- <-]. exists []. rewrite app_nil_r.
    split_and!; try done; [by destruct s | by intros e ?%not_elem_of_nil | simpl; lia |
      by intros w ?%not_elem_of_nil]. }
  cbn [push_all].
  assert (Hbad : ∀ what, decode_wire w = None → (s, Err (Status.BAD_REQUEST, what)) = (s', r) →
    ∃ new, t_entries s' = t_entries s ++ new ∧ s' = set_entries (t_entries s') (t_sequence s') s ∧
    (∀ e, e ∈ new → en_vault e = vault ∧
       ∃ w', w' ∈ w :: l ∧ decode_wire w' = Some (en_id e, en_blob e, en_share e)) ∧
    match r with
    | Ok m => m = n + Z.of_nat (length new) ∧
        (∀ w', w' ∈ w :: l → ∃ d, decode_wire w' = Some d ∧ has_entry vault d.1.1 (t_entries s')) ∧
        ((∀ w' d, w' ∈ w :: l → decode_wire w' = Some d → has_entry vault d.1.1 (t_entries s)) → new = [])
    | Err e => fst e = Status.BAD_REQUEST ∧ ∃ w', w' ∈ w :: l ∧ decode_wire w' = None
    end).
  { intros what Hw [= <- <-]. exists []. rewrite app_nil_r.
    split_and!; try done; [by destruct s | by intros e ?%not_elem_of_nil |].
    exists w. split; [constructor | done]. }
  rewrite b64_bytes_run. destruct (b64_decode (entry_id_b64 w)) as [id|] eqn:E1.
  2: { apply Hbad. unfold decode_wire. by rewrite E1. }
  rewrite b64_bytes_run. destruct (b64_decode (blob_b64 w)) as [blob|] eqn:E2.
  2: { apply Hbad. unfold decode_wire. by rewrite E1, E2. }
  set (sh := if bool_decide (share_id_b64 w = "") then Some nil_share
             else b ← b64_decode (share_id_b64 w); if Nat.eqb (length b) 16 then Some b else None).
  rewrite run_hbind.
  replace (run_prog burns (if bool_decide (share_id_b64 w = "") then hret nil_share
    else decode_share (share_id_b64 w)) s) with (s, ok_or (Status.BAD_REQUEST, "share_id") sh)
    by (unfold sh; by case_bool_decide).
  destruct sh as [share|] eqn:E3; simpl ok_or.
  2: { apply Hbad. unfold decode_wire. rewrite E1, E2. simpl. fold sh. by rewrite E3. }
  assert (Hdec : decode_wire w = Some (id, blob, share)).
  { unfold decode_wire. rewrite E1, E2. simpl. fold sh. by rewrite E3. }
  cbn [run_prog]. destruct (exec_stmt burns (SInsertEntry vault id blob share) s) as [s1 m] eqn:Ei.
  destruct (insert_entry_spec vault (id, blob, share) s s1 m Ei) as (n1 & En1 & -> & Hh & Hn & Hnew & Hs1).
  intros (n2 & En2 & Hs2 & Hnew2 & Hr)%IH. exists (n1 ++ n2). split_and!.
  - by rewrite En2, En1, app_assoc.
  - rewrite Hs2 at 1. rewrite Hs1. apply set_entries_twice.
  - intros e [He|He]%elem_of_app.
    + destruct (Hnew e He) as [Hv Hd]. split; [done|]. exists w. split; [constructor|]. by rewrite Hdec, Hd.
    + destruct (Hnew2 e He) as (Hv & w' & Hw' & Hd). split; [done|]. exists w'. split; [by constructor | done].
  - destruct r as [m|e].
    + destruct Hr as (-> & Hall & Hnone). split_and!.
      * rewrite length_app. lia.
      * intros w' [->|Hw']%elem_of_cons; [|by apply Hall]. exists (id, blob, share). split; [done|].
        destruct Hh as (e & He & Hve). exists e. split; [|done]. rewrite En2. apply elem_of_app. by left.
      * intros Hpre. assert (n1 = []) as ->.
        { apply Hn. apply (Hpre w (id, blob, share)); [constructor | done]. }
        apply Hnone. intros w' d Hw' Hd. rewrite En1, app_nil_r. apply (Hpre w' d); [by constructor | done].
    + destruct Hr as (He & w' & Hw' & Hd). split; [done|]. exists w'. split; [by constructor | done].
Qed.

Definition notify_all (vault : string) (h n : Z) (s : Relay) : Relay :=
  if 0 <? n then (exec_stmt burns (SNotify vault h) s).1 else s.

Lemma push_run `{JsonText PushReq} signed s :
  run_prog burns (push signed) s =
  match authenticate (r_now s) signed with
  | Err e => (s, Err e)
  | Ok (vault, key) =>
      if may_sync s vault key then
        match json_from_str (sg_body signed) with
        | None => (s, Err (Status.BAD_REQUEST, "bad body"))
        | Some req =>
            match run_prog burns (push_all vault (push_entries req) 0) s with
            | (s1, Ok n) => let h := vault_head vault (t_entries s1) in
                            (notify_all vault h n s1, Ok (mkPushResp h n))
            | (s1, Err e) => (s1, Err e)
            end
        end
      else (s, Err (Status.FORBIDDEN, "device not enrolled or revoked"))
  end.
Proof.
  unfold push. rewrite gated_run. destruct (authenticate _ _) as [[vault key]|]; [|done].
  destruct (may_sync _ _ _); [|done]. rewrite json_body_run.
  destruct (json_from_str _) as [req|]; [|done]. rewrite run_hbind.
  destruct (run_prog burns (push_all _ _ _) s) as [s1 [n|e]]; [|done].
  unfold head. simpl. rewrite run_hbind. unfold notify_all. destruct (0 <? n); simpl; [|done].
  by destruct (r_channels s1 !! vault).
Qed.

Lemma notify_all_tables vault h n s :
  t_entries (notify_all vault h n s) = t_entries s ∧ t_devices (notify_all vault h n s) = t_devices s ∧
  t_members (notify_all vault h n s) = t_members s ∧ t_vaults (notify_all vault h n s) = t_vaults s ∧
  t_shares (notify_all vault h n s) = t_shares s ∧ r_now (notify_all vault h n s) = r_now s.
Proof.
  unfold notify_all. destruct (0 <? n); [|done]. simpl. by destruct (r_channels s !! vault).
Qed.

(* ------------------------------------------------------------------ *)
(** ** Pulling *)

Lemma vault_head_ub v l e : e ∈ l → en_vault e = v → en_seq e ≤ vault_head v l.
Proof.
  induction l as [|x l IH]; [by intros ?%not_elem_of_nil|]. cbn [vault_head foldr].
  fold (vault_head v l). intros [->|He]%elem_of_cons Hv.
  - rewrite decide_True by done. lia.
  - specialize (IH He Hv). case_decide; lia.
Qed.

Lemma vault_head_range s v : db_inv s → 0 ≤ vault_head v (t_entries s) ≤ t_sequence s.
Proof.
  intros Hs. assert (Hl : ∀ l, (∀ e, e ∈ l → 0 < en_seq e ≤ t_sequence s) → 0 ≤ vault_head v l ≤ t_sequence s).
  { pose proof (inv_sequence _ Hs). induction l as [|x l IH]; intros Hl; [simpl; lia|].
    cbn [vault_head foldr]. fold (vault_head v l).
    assert (0 < en_seq x ≤ t_sequence s) by (apply Hl; constructor).
    assert (0 ≤ vault_head v l ≤ t_sequence s) by (apply IH; intros e He; apply Hl; by constructor).
    case_decide; lia. }
  apply Hl. intros e [i Hi]%list_elem_of_lookup. by eapply inv_seq.
Qed.

Lemma pull_run q s :
  run_prog burns (pull q) s =
  match authenticate (r_now s) (pull_signed q) with
  | Err e => (s, Err e)
  | Ok (vault, key) =>
      if may_sync s vault key then
        (s, Ok (mkPullResp
          (wire <$> filter (λ e, en_vault e = vault ∧ i64_wrap (pq_since q) < en_seq e ∧
                                 visible s (arr_bytes key) e = true) (t_entries s))
          (Z.max (u64_wrap (vault_head vault (t_entries s))) (pq_since q))))
      else (s, Err (Status.FORBIDDEN, "device not enrolled or revoked"))
  end.
Proof.
  unfold pull. rewrite gated_run. destruct (authenticate _ _) as [[vault key]|]; [|done].
  by destruct (may_sync _ _ _).
Qed.

(* ------------------------------------------------------------------ *)
(** ** Rotating *)

(** What the loops over wrapped lists leave alone. *)
Lemma rewrap_all_run vault l : ∀ s s' r,
  run_prog burns (rewrap_all vault l) s = (s', r) →
  t_vaults s' = t_vaults s ∧ t_entries s' = t_entries s ∧ t_members s' = t_members s.
Proof.
  induction l as [|w l IH]; intros s s' r; cbn [rewrap_all]; [by intros [= <- <-]|].
  rewrite b64_bytes_run. destruct (b64_decode (wf_device_b64 w)); [|by intros [= <- <-]].
  rewrite b64_bytes_run. destruct (b64_decode (wf_wrapped_b64 w)); [|by intros [= <- <-]].
  cbn [run_prog]. destruct (exec_stmt burns (SRewrap _ _ _) s) as [s1 x] eqn:E.
  intros (-> & -> & ->)%IH. simpl in E. by repeat case_match; simplify_eq.
Qed.

Lemma mark_seen_run str s s' r :
  run_prog burns (mark_seen str) s = (s', r) →
  t_vaults s' = t_vaults s ∧ t_devices s' = t_devices s ∧ t_entries s' = t_entries s ∧
  t_members s' = t_members s ∧ t_shares s' = t_shares s.
Proof.
  unfold mark_seen. rewrite b64_bytes_run. destruct (b64_decode str); [|by intros [= <- <-]].
  simpl. destruct (filter _ (t_seen s) !! _); by intros [= <- <-].
Qed.

(** A rotation runs exactly from the previous epoch. *)
Lemma rotate_run `{JsonText RotateReq} signed s s' r :
  run_prog burns (rotate signed) s = (s', r) →
  (t_vaults s' = t_vaults s ∧ t_devices s' = t_devices s ∧ ∃ e, r = Err e) ∨
  ∃ vault key req row,
    authenticate (r_now s) signed = Ok (vault, key) ∧ may_sync s vault key = true ∧
    json_from_str (sg_body signed) = Some req ∧
    vault_lookup vault (t_vaults s) = Some row ∧ vr_epoch row = rotate_epoch req - 1 ∧
    t_vaults s' = vault_update vault (λ x, mkVaultRow (vr_recovery_pub x) (rotate_epoch req)) (t_vaults s).
Proof.
  unfold rotate. rewrite gated_run. destruct (authenticate _ _) as [[vault key]|] eqn:Ea;
    [|intros [= <- <-]; eauto].
  destruct (may_sync _ _ _) eqn:Em; [|intros [= <- <-]; eauto]. rewrite run_hbind.
  destruct (run_prog burns (mark_seen _) s) as [s1 [b|e]] eqn:Es;
    pose proof (mark_seen_run _ _ _ _ Es) as (E1 & E2 & _); [|intros [= <- <-]; eauto 10].
  destruct b; [|intros [= <- <-]; eauto 10]. rewrite json_body_run.
  destruct (json_from_str _) as [req|] eqn:Ej; [|intros [= <- <-]; eauto 10].
  cbn [run_prog exec_stmt]. rewrite E1.
  destruct (vault_lookup vault (t_vaults s)) as [row|] eqn:Ev; [|intros [= <- <-]; eauto 10].
  destruct (Z.eqb_spec (vr_epoch row) (rotate_epoch req - 1)) as [Hp|]; [|intros [= <- <-]; eauto 10].
  change (0 <? 1) with true. cbv iota. rewrite run_hbind.
  destruct (run_prog burns (rewrap_all _ _) _) as [s2 [u|e]] eqn:Er;
    apply rewrap_all_run in Er as (Hv & _ & _); simpl in Hv.
  - unfold head. simpl. intros [= <- <-]. right. exists vault, key, req, row. by rewrite Hv.
  - intros [= <- <-]. right. exists vault, key, req, row. by rewrite Hv.
Qed.
End running.
