(* ===== verification/RelayProps.v ===== *)
(** * RelayProps: the properties of the relay *)

From Stdlib Require Import ZArith Lia String.
From S2P Require Import Prelude Text Extern Proto RelayDb Relay RelayFacts.

#[local] Open Scope string_scope.
#[local] Open Scope list_scope.
#[local] Open Scope Z_scope.

(** A vault's epoch, [None] for an unknown vault. *)
Definition vault_epoch (s : Relay) (v : string) : option Z := vr_epoch <$> vault_lookup v (t_vaults s).

(** Nothing stored goes away: entries stay as they are, epochs and share
    epochs never fall, a vault keeps its recovery key. *)
Record grows (s s' : Relay) : Prop := {
  grows_entries : ∃ new, t_entries s' = t_entries s ++ new;
  grows_vaults : ∀ v r, vault_lookup v (t_vaults s) = Some r →
    ∃ r', vault_lookup v (t_vaults s') = Some r' ∧ vr_recovery_pub r' = vr_recovery_pub r ∧
          vr_epoch r ≤ vr_epoch r';
  grows_shares : ∀ k e, t_shares s !! k = Some e → ∃ e', t_shares s' !! k = Some e' ∧ e ≤ e'
}.

#[export] Instance grows_refl : Reflexive grows.
Proof.
  intros s. split; [exists []; by rewrite app_nil_r | | ]; eauto 10 using Z.le_refl.
Qed.
#[export] Instance grows_trans : Transitive grows.
Proof.
  intros s1 s2 s3 [[n1 E1] V1 S1] [[n2 E2] V2 S2]. split.
  - exists (n1 ++ n2). by rewrite E2, E1, app_assoc.
  - intros v r Hr. destruct (V1 v r Hr) as (r2 & Hr2 & Hp2 & He2).
    destruct (V2 v r2 Hr2) as (r3 & Hr3 & Hp3 & He3). exists r3. split_and!; [done | congruence | lia].
  - intros k e He. destruct (S1 k e He) as (e2 & He2 & Hle2).
    destruct (S2 k e2 He2) as (e3 & He3 & Hle3). exists e3. split; [done | lia].
Qed.

Lemma exec_stmt_grows burns B (st : Stmt B) s : guarded B st → grows s (exec_stmt burns st s).1.
Proof.
  intros Hst. split.
  - apply exec_stmt_entries.
  - intros v r Hr. destruct (exec_stmt_epoch burns st s v r Hst Hr) as (r' & Hr' & Hp & He).
    exists r'. split_and!; [done..|lia].
  - intros k e. by apply exec_stmt_share_epoch.
Qed.

(** A device's revocation. *)
Definition revoked_in (k : string * bytes) (s : Relay) : Prop :=
  ∃ r, t_devices s !! k = Some r ∧ dr_revoked r = true.

Section props.
Context `{Ed25519Laws} `{Base64Laws}.
Context `{JsonTextLaws EnrollReq} `{JsonTextLaws ApproveReq} `{JsonTextLaws RevokeReq}.
Context `{JsonTextLaws RotateReq} `{JsonTextLaws ShareGrantReq} `{JsonTextLaws ShareRotateReq}.
Context `{JsonTextLaws PushReq}.
Context (burns : bool).

(** A request answered with an error that changed nothing. *)
Definition refused {A} (s : Relay) (p : hprog A) : Prop := ∃ e, run_prog burns p s = (s, Err e).

Lemma gated_refused {A} s signed msg (body : string → PubKey → hprog A) :
  (∀ v key, authenticate burns (r_now s) signed = Ok (v, key) → may_sync s v key = false) →
  refused s (hbind (verify signed) (λ '(vault, key), hbind (can_sync vault key) (λ ok,
    if ok then body vault key else herr Status.FORBIDDEN msg))).
Proof.
  intros Hno. unfold refused. rewrite gated_run.
  destruct (authenticate burns (r_now s) signed) as [[v key]|e] eqn:E; [|eauto].
  rewrite (Hno v key) by done. eauto.
Qed.

(** C26: in every state of a relay, however its handlers interleave statement
    by statement, fail or are dropped, a revoked device is not approved and holds no wrapped key,
    sequence numbers are positive and strictly increase, and no vault holds
    an entry id twice. *)
Theorem relay_invariant now s ps :
  rtc (pool_step burns (λ _, True)) (empty_relay now, []) (s, ps) → db_inv s.
Proof.
  intros Hrun.
  assert (H0' : db_inv (empty_relay now)).
  { split; simpl; try done; apply NoDup_nil_2. }
  revert H0'. apply (pool_preserves burns (λ _ _, True) (λ _, True) db_inv _ [] s ps); try done.
  - intros r _. eapply prog_all_impl; [|apply handler_guarded]. done.
  - intros B st x _. apply exec_stmt_inv.
  - intros x t. by apply db_inv_ext.
Qed.

(** C7: revocation is sticky.  As long as no recovery request is served, a
    revoked device stays revoked, unapproved and without a wrapped key,
    whatever requests (its own enrollment included) are handled concurrently,
    and wherever the database fails or a client hangs up. *)
Theorem revocation_sticky s ps s' ps' k :
  db_inv s → revoked_in k s → ps = [] →
  rtc (pool_step burns (λ r, is_recover r = false)) (s, ps) (s', ps') →
  ∃ r, t_devices s' !! k = Some r ∧ dr_revoked r = true ∧ dr_approved r = false ∧ dr_wrapped_key r = None.
Proof.
  intros Hinv Hrev -> Hrun.
  assert (HI : db_inv s' ∧ revoked_in k s').
  { apply (pool_preserves burns unrecovering (λ r, is_recover r = false)
      (λ s, db_inv s ∧ revoked_in k s) s [] s' ps'); try done.
    - intros r Hr. by apply handler_unrecovering.
    - intros B st x [_ Hst] [Hx (r & Hr & Hrr)]. split; [by apply exec_stmt_inv|].
      by apply (exec_stmt_revoked burns st x k r).
    - intros x t [Hx (r & Hr & Hrr)]. split; [by apply (db_inv_ext x) | by exists r]. }
  destruct HI as [Hinv' (r & Hr & Hrr)]. exists r.
  by destruct (inv_revoked _ Hinv' _ _ Hr Hrr).
Qed.

Lemma pool_grows s s' ps' :
  rtc (pool_step burns (λ _, True)) (s, []) (s', ps') → grows s s'.
Proof.
  intros Hrun.
  destruct (pool_invariant burns guarded (λ _, True) grows s [] s' ps') as [HR _]; try done.
  - intros r _. apply handler_guarded.
  - intros B st x. apply exec_stmt_grows.
  - intros x t. split; simpl; [exists []; by rewrite app_nil_r | eauto using Z.le_refl..].
Qed.

(** C38: the relay only accumulates.  Under every interleaving, with failures of
    the database and handlers dropped at any statement, stored entries
    are neither changed, reordered nor dropped, vault and share epochs never
    fall, and a vault's recovery key is never replaced. *)
Theorem relay_only_grows s s' ps' :
  rtc (pool_step burns (λ _, True)) (s, []) (s', ps') → grows s s'.
Proof. apply pool_grows. Qed.

(** C36: no request changes the tables unless it carries a signature that the
    key it names verifies over the timestamp and the body of the request, the
    timestamp is inside the window, and the key is then an approved, unrevoked
    device of the vault: approvals, revocations, rotations, grants and pushes
    are refused otherwise, leaving everything as it was. *)
Theorem unauthorized_changes_nothing s signed :
  (∀ (key : PubKey) (sig : Sig) row,
     b64_decode (sg_device_b64 signed) = Some (arr_bytes key) →
     b64_decode (sg_sig_b64 signed) = Some (arr_bytes sig) →
     ed_verify key (as_bytes (signing_message (sg_ts signed) (sg_body signed))) sig = true →
     outside_window (r_now s) (sg_ts signed) = false →
     t_devices s !! (sg_vault_b64 signed, arr_bytes key) = Some row →
     dr_approved row = false ∨ dr_revoked row = true) →
  refused s (approve signed) ∧ refused s (revoke signed) ∧ refused s (rotate signed) ∧
  refused s (share_grant signed) ∧ refused s (share_rotate signed) ∧ refused s (push signed).
Proof.
  intros Hno. split_and!; apply gated_refused;
    intros v key (-> & Hw & Hd & _ & sig & Hs & Hv)%authenticate_ok; unfold may_sync;
    (destruct (t_devices s !! _) as [row|] eqn:Er; [|done]);
    by destruct (Hno key sig row Hd Hs Hv Hw Er) as [-> | ->]; rewrite ?andb_false_r.
Qed.

(** The relay accepts an envelope exactly when its timestamp is inside
    the window and the key it names is valid and signed that timestamp and
    body; a request signed by a device at the relay's own time passes; and
    for clocks within the range of real times the window is the documented
    skew of 300 seconds. *)
Theorem verify_exact now signed v key :
  (authenticate burns now signed = Ok (v, key) ↔
   v = sg_vault_b64 signed ∧ outside_window now (sg_ts signed) = false ∧
   b64_decode (sg_device_b64 signed) = Some (arr_bytes key) ∧ ed_valid_key key = true ∧
   ∃ sig : Sig, b64_decode (sg_sig_b64 signed) = Some (arr_bytes sig) ∧
     ed_verify key (as_bytes (signing_message (sg_ts signed) (sg_body signed))) sig = true) ∧
  (∀ sk vault body,
     authenticate burns now (mkSigned vault (b64_encode (arr_bytes (ed_public sk)))
       (b64_encode (arr_bytes (ed_sign sk (as_bytes (signing_message now body))))) now body)
     = Ok (vault, ed_public sk)) ∧
  (∀ ts, 0 ≤ now < 2 ^ 62 → - 2 ^ 62 < ts < 2 ^ 62 →
     outside_window now ts = false ↔ Z.abs (now - ts) ≤ 300).
Proof.
  split_and!; [apply authenticate_ok | |].
  - intros sk vault body. apply authenticate_ok. simpl. rewrite !b64_round.
    split_and!; try done; [| apply ed_public_valid | eexists; split; [done | apply ed_sign_verify]].
    unfold outside_window. by rewrite Z.sub_diag.
  - intros ts Hn Ht. unfold outside_window, MAX_SKEW_SECS.
    rewrite (i64_wrap_small (now - ts)) by (unfold i64_min, i64_max; lia).
    rewrite i64_wrap_small by (unfold i64_min, i64_max; lia).
    rewrite Z.ltb_ge. lia.
Qed.

(** A successful push stores every entry it carries and nothing else,
    each entry id once, reports how many were new and the vault's head, and
    touches no other table; pushing the same batch again stores nothing. *)
Theorem push_stores_once signed s s' resp :
  run_prog burns (push signed) s = (s', Ok resp) →
  ∃ v key req new, authenticate burns (r_now s) signed = Ok (v, key) ∧ may_sync s v key = true ∧
    json_from_str (sg_body signed) = Some req ∧
    t_entries s' = t_entries s ++ new ∧ stored resp = Z.of_nat (length new) ∧
    push_head resp = vault_head v (t_entries s') ∧
    (∀ w, w ∈ push_entries req → ∃ d, decode_wire w = Some d ∧ has_entry v d.1.1 (t_entries s')) ∧
    (∀ e, e ∈ new → en_vault e = v ∧ ∃ w, w ∈ push_entries req ∧
       decode_wire w = Some (en_id e, en_blob e, en_share e)) ∧
    t_devices s' = t_devices s ∧ t_members s' = t_members s ∧ t_vaults s' = t_vaults s ∧
    ∃ s'' resp', run_prog burns (push signed) s' = (s'', Ok resp') ∧
      t_entries s'' = t_entries s' ∧ stored resp' = 0.
Proof.
  intros Hpush. pose proof Hpush as Hpush'. rewrite push_run in Hpush'.
  destruct (authenticate burns (r_now s) signed) as [[v key]|] eqn:Ea; [|done].
  destruct (may_sync s v key) eqn:Em; [|done].
  destruct (json_from_str (sg_body signed)) as [req|] eqn:Ej; [|done].
  destruct (run_prog burns (push_all v (push_entries req) 0) s) as [s1 [n|e]] eqn:Ep; [|done].
  cbv zeta in Hpush'. injection Hpush' as <- <-.
  destruct (push_all_run burns v (push_entries req) 0 s s1 (Ok n) Ep)
    as (new & En & Hs1 & Hnew & -> & Hall & _).
  destruct (notify_all_tables burns v (vault_head v (t_entries s1)) (0 + Z.of_nat (length new)) s1)
    as (N1 & N2 & N3 & N4 & N5 & N6).
  exists v, key, req, new. rewrite N1, N2, N3, N4. split_and!; try done; try (by rewrite Hs1).
  set (s2 := notify_all burns v (vault_head v (t_entries s1)) (0 + Z.of_nat (length new)) s1) in *.
  destruct (run_prog burns (push signed) s2) as [s3 r3] eqn:E3. rewrite push_run in E3.
  rewrite N6, Hs1 in E3. simpl in E3. rewrite Ea in E3.
  assert (Em2 : may_sync s2 v key = true) by (unfold may_sync in *; by rewrite N2, Hs1).
  rewrite Em2, Ej in E3.
  destruct (run_prog burns (push_all v (push_entries req) 0) s2) as [s4 [n4|e4]] eqn:E4.
  - cbv zeta in E3. injection E3 as <- <-.
    destruct (push_all_run burns v (push_entries req) 0 s2 s4 (Ok n4) E4)
      as (new4 & En4 & Hs4 & _ & -> & _ & Hnone).
    rewrite Hnone, app_nil_r in En4.
    2: { intros w d Hw Hd. destruct (Hall w Hw) as (d' & Hd' & Hh). rewrite Hd in Hd'.
         injection Hd' as <-. by rewrite N1. }
    rewrite Hnone by (intros w d Hw Hd; destruct (Hall w Hw) as (d' & Hd' & Hh);
      rewrite Hd in Hd'; injection Hd' as <-; by rewrite N1).
    eexists _, _. split; [done|]. simpl.
    destruct (notify_all_tables burns v (vault_head v (t_entries s4)) (0 + Z.of_nat 0) s4) as (-> & _).
    split; [by rewrite En4, N1 | done].
  - destruct (push_all_run burns v (push_entries req) 0 s2 s4 (Err e4) E4) as (_ & _ & _ & _ & _ & w & Hw & Hd).
    destruct (Hall w Hw) as (d & Hd' & _). congruence.
Qed.

(** A pull run alone returns exactly the entries of the vault past the
    cursor that are in the default share or in a share the device is a member
    of, in sequence order, changes nothing, and its head covers all of them:
    no visible entry is skipped by the next pull from that head. *)
Theorem pull_complete q s s' resp :
  db_inv s → 0 ≤ pq_since q ≤ i64_max → t_sequence s ≤ i64_max →
  run_prog burns (pull q) s = (s', Ok resp) →
  s' = s ∧ ∃ v key, authenticate burns (r_now s) (pull_signed q) = Ok (v, key) ∧
    may_sync s v key = true ∧
    pull_entries resp = wire <$> filter (λ e, en_vault e = v ∧ pq_since q < en_seq e ∧
                                             visible s (arr_bytes key) e = true) (t_entries s) ∧
    pq_since q ≤ pull_head resp ∧
    (∀ e, e ∈ t_entries s → en_vault e = v → visible s (arr_bytes key) e = true →
       en_seq e ≤ pull_head resp ∧ (pq_since q < en_seq e → wire e ∈ pull_entries resp)).
Proof.
  intros Hinv Hsince Hseq. rewrite pull_run.
  destruct (authenticate burns (r_now s) (pull_signed q)) as [[v key]|] eqn:Ea; [|done].
  destruct (may_sync s v key) eqn:Em; [|done].
  rewrite (i64_wrap_small (pq_since q)) by (unfold i64_min; lia).
  pose proof (vault_head_range s v Hinv) as Hh.
  rewrite u64_wrap_small by (unfold u64_max, i64_max in *; lia).
  intros [= <- <-]. split; [done|]. exists v, key. split_and!; try done; simpl; [lia|].
  intros e He Hv Hvis. split.
  - pose proof (vault_head_ub v (t_entries s) e He Hv). lia.
  - intros Hlt. apply list_elem_of_fmap_2, list_elem_of_filter. done.
Qed.

(** C37: rotation happens at most once per epoch.  A successful rotation moved
    the vault from the epoch before to its own, and the same request replayed
    at any later time, after any concurrent traffic, is refused without
    touching the vaults or the devices. *)
Theorem rotate_at_most_once signed s s' resp s2 ps s3 r :
  run_prog burns (rotate signed) s = (s', Ok resp) →
  rtc (pool_step burns (λ _, True)) (s', []) (s2, ps) →
  run_prog burns (rotate signed) s2 = (s3, r) →
  (∃ v req, json_from_str (sg_body signed) = Some req ∧ sg_vault_b64 signed = v ∧
     vault_epoch s v = Some (rotate_epoch req - 1) ∧ vault_epoch s' v = Some (rotate_epoch req)) ∧
  (∃ e, r = Err e) ∧ t_vaults s3 = t_vaults s2 ∧ t_devices s3 = t_devices s2.
Proof.
  intros H1' Hrun H2'.
  apply rotate_run in H1' as [(_ & _ & e & He)|(v & key & req & row & Ha & Hm & Hj & Hv & Hep & Hs')];
    [done|].
  apply authenticate_ok in Ha as (-> & _).
  assert (Hv' : vault_lookup (sg_vault_b64 signed) (t_vaults s') =
    Some (mkVaultRow (vr_recovery_pub row) (rotate_epoch req))).
  { by rewrite Hs', vault_lookup_update, decide_True, Hv. }
  split.
  - exists (sg_vault_b64 signed), req. unfold vault_epoch. rewrite Hv, Hv'. simpl. by rewrite Hep.
  - destruct (grows_vaults _ _ (pool_grows _ _ _ Hrun) _ _ Hv') as (row2 & Hv2 & _ & Hle). simpl in Hle.
    apply rotate_run in H2' as [(E1 & E2 & e & ->)|(v2 & key2 & req2 & row3 & Ha2 & _ & Hj2 & Hv3 & Hep3 & _)].
    + eauto.
    + apply authenticate_ok in Ha2 as (-> & _). rewrite Hj in Hj2. injection Hj2 as <-.
      rewrite Hv2 in Hv3. injection Hv3 as <-. lia.
Qed.

(** Enrollment never grants more than the vault's first device gets: the
    device that creates the vault is approved, any other device is pending
    unless it was approved before, a revoked device is refused, and no other
    device's row changes. *)
Theorem enroll_grants_only_bootstrap signed s s' resp :
  run_prog burns (enroll signed) s = (s', Ok resp) →
  ∃ v key row, authenticate burns (r_now s) signed = Ok (v, key) ∧
    t_devices s' !! (v, arr_bytes key) = Some row ∧ dr_revoked row = false ∧
    enroll_approved resp = match vault_lookup v (t_vaults s) with Some _ => false | None => true end ∧
    dr_approved row = match t_devices s !! (v, arr_bytes key) with
                      | Some old => dr_approved old | None => enroll_approved resp end ∧
    (∀ k, k ≠ (v, arr_bytes key) → t_devices s' !! k = t_devices s !! k) ∧
    t_entries s' = t_entries s.
Proof.
  unfold enroll. rewrite run_hbind, verify_run.
  destruct (authenticate burns (r_now s) signed) as [[v key]|] eqn:Ea; [|done].
  rewrite json_body_run. destruct (json_from_str (sg_body signed)) as [req|]; [|done].
  destruct (bool_decide _); [|done]. unfold device_row. rewrite run_hbind. cbn [run_prog exec_stmt hret].
  destruct (t_devices s !! (v, arr_bytes key)) as [old|] eqn:Eo;
    [destruct (dr_revoked old) eqn:Er; [done|]|]; cbn [negb];
    (rewrite b64_bytes_run; destruct (b64_decode (enroll_x25519_b64 req)) as [x|]; [|done]);
    (rewrite b64_bytes_run; destruct (b64_decode (enroll_recovery_b64 req)) as [rp|]; [|done]);
    cbn [run_prog exec_stmt]; destruct (vault_lookup v (t_vaults s)) eqn:Ev;
    cbn [t_devices set_vaults]; rewrite ?Eo; unfold head; simpl; intros [= <- <-]; simpl;
    eexists v, key, _; rewrite lookup_insert_eq, ?Eo, Ev;
    (split; [done|]; split; [done|]; simpl; split_and!; try done; intros k Hk; by rewrite lookup_insert_ne).
Qed.
End props.
