(* ===== verification/Setup.v ===== *)
(** * Setup: starting the relay ([serve] and [migrate] of [src/src/relay.rs])

    The database file as it may be found: every table absent or present, the
    two that grew a column in their earlier or current form.  [migrate] runs
    its statements in order, those that add a column with their outcome
    ignored; [serve] reads what is then there into the state of [RelayDb.v],
    with no channel open.  The listener, TLS and the router are the crates'. *)

From Stdlib Require Import ZArith Lia String.
From S2P Require Import Prelude Text Extern Proto RelayDb Relay RelayFacts RelayProps.

#[local] Open Scope string_scope.
#[local] Open Scope list_scope.
#[local] Open Scope Z_scope.

(** ** The file *)

(** [vaults] before the column [epoch], and with it. *)
Inductive VaultsTable :=
  | VaultsBare (rows : list (string * bytes))
  | VaultsEpoch (rows : list (string * VaultRow)).

(** [entries] before the column [share_id], and with it. *)
Record BareEntry := mkBareEntry { be_vault : string; be_seq : Z; be_id : bytes; be_blob : bytes }.
Inductive EntriesTable :=
  | EntriesBare (rows : list BareEntry)
  | EntriesShare (rows : list Entry).

(** [sqlite_sequence] keeps the AUTOINCREMENT value, 0 before the first insert. *)
Record Stored := mkStored {
  s_vaults : option VaultsTable;
  s_devices : option (gmap (string * bytes) DeviceRow);
  s_entries : option EntriesTable;
  s_sequence : Z;
  s_shares : option (gmap (string * bytes) Z);
  s_members : option (gmap (string * bytes * bytes) bytes);
  s_seen : option (gmap bytes Z)
}.

Definition set_s_vaults x (s : Stored) := mkStored x (s_devices s) (s_entries s) (s_sequence s) (s_shares s) (s_members s) (s_seen s).
Definition set_s_devices x (s : Stored) := mkStored (s_vaults s) x (s_entries s) (s_sequence s) (s_shares s) (s_members s) (s_seen s).
Definition set_s_entries x (s : Stored) := mkStored (s_vaults s) (s_devices s) x (s_sequence s) (s_shares s) (s_members s) (s_seen s).
Definition set_s_shares x (s : Stored) := mkStored (s_vaults s) (s_devices s) (s_entries s) (s_sequence s) x (s_members s) (s_seen s).
Definition set_s_members x (s : Stored) := mkStored (s_vaults s) (s_devices s) (s_entries s) (s_sequence s) (s_shares s) x (s_seen s).
Definition set_s_seen x (s : Stored) := mkStored (s_vaults s) (s_devices s) (s_entries s) (s_sequence s) (s_shares s) (s_members s) x.

(** A file that does not exist yet, created empty. *)
Definition empty_file : Stored := mkStored None None None 0 None None None.

(** ** The statements *)

Inductive Ddl :=
  | CreateVaults | AddEpoch | CreateDevices | CreateEntries | AddShareId
  | CreateShares | CreateMembers | CreateSeen.
Inductive DdlError := NoSuchTable | DuplicateColumn.

(** The defaults of the added columns. *)
Definition with_epoch (row : string * bytes) : string * VaultRow := (row.1, mkVaultRow row.2 0).
Definition with_nil_share (e : BareEntry) : Entry := mkEntry (be_vault e) (be_seq e) (be_id e) (be_blob e) nil_share.

(** [CREATE TABLE IF NOT EXISTS] leaves a table that is there as it is;
    [ALTER TABLE ... ADD COLUMN] fails on a column that is there. *)
Definition exec_ddl (st : Ddl) (s : Stored) : res DdlError Stored :=
  match st with
  | CreateVaults => Ok (set_s_vaults (Some (default (VaultsEpoch []) (s_vaults s))) s)
  | AddEpoch =>
      match s_vaults s with
      | Some (VaultsBare rows) => Ok (set_s_vaults (Some (VaultsEpoch (with_epoch <$> rows))) s)
      | Some (VaultsEpoch _) => Err DuplicateColumn
      | None => Err NoSuchTable
      end
  | CreateDevices => Ok (set_s_devices (Some (default ∅ (s_devices s))) s)
  | CreateEntries => Ok (set_s_entries (Some (default (EntriesShare []) (s_entries s))) s)
  | AddShareId =>
      match s_entries s with
      | Some (EntriesBare rows) => Ok (set_s_entries (Some (EntriesShare (with_nil_share <$> rows))) s)
      | Some (EntriesShare _) => Err DuplicateColumn
      | None => Err NoSuchTable
      end
  | CreateShares => Ok (set_s_shares (Some (default ∅ (s_shares s))) s)
  | CreateMembers => Ok (set_s_members (Some (default ∅ (s_members s))) s)
  | CreateSeen => Ok (set_s_seen (Some (default ∅ (s_seen s))) s)
  end.

(** [execute(db).await?], and [let _ = execute(db).await]. *)
Definition execute (st : Ddl) (s : Stored) : res DdlError Stored := exec_ddl st s.
Definition execute_ignored (st : Ddl) (s : Stored) : res DdlError Stored :=
  match exec_ddl st s with Ok s' => Ok s' | Err _ => Ok s end.

Definition migrate (s : Stored) : res DdlError Stored :=
  res_bind (execute CreateVaults s) (λ s,
  res_bind (execute_ignored AddEpoch s) (λ s,
  res_bind (execute CreateDevices s) (λ s,
  res_bind (execute CreateEntries s) (λ s,
  res_bind (execute_ignored AddShareId s) (λ s,
  res_bind (execute CreateShares s) (λ s,
  res_bind (execute CreateMembers s) (λ s,
  execute CreateSeen s))))))).

(** ** Starting and stopping *)

(** The state the handlers run on: the tables, at the server's clock, with
    [notify: Default::default()].  [None] when the handlers' statements would
    not find their tables and columns. *)
Definition load (now : Z) (s : Stored) : option Relay :=
  match s_vaults s, s_devices s, s_entries s, s_shares s, s_members s, s_seen s with
  | Some (VaultsEpoch vaults), Some devices, Some (EntriesShare entries), Some shares, Some members, Some seen =>
      Some (mkRelay vaults devices entries (s_sequence s) shares members seen now ∅)
  | _, _, _, _, _, _ => None
  end.

(** What a relay leaves in the file when its process ends. *)
Definition left_by (s : Relay) : Stored :=
  mkStored (Some (VaultsEpoch (t_vaults s))) (Some (t_devices s)) (Some (EntriesShare (t_entries s)))
    (t_sequence s) (Some (t_shares s)) (Some (t_members s)) (Some (t_seen s)).

Definition start (now : Z) (file : Stored) : res DdlError (option Relay) :=
  res_bind (migrate file) (λ file, Ok (load now file)).

(** ** What an earlier relay may have left *)

(** The rows of the file, in the current form. *)
Definition vaults_of (s : Stored) : list (string * VaultRow) :=
  match s_vaults s with
  | Some (VaultsBare rows) => with_epoch <$> rows
  | Some (VaultsEpoch rows) => rows
  | None => []
  end.
Definition entries_of (s : Stored) : list Entry :=
  match s_entries s with
  | Some (EntriesBare rows) => with_nil_share <$> rows
  | Some (EntriesShare rows) => rows
  | None => []
  end.

(** What the schema's constraints and the handlers keep of a file of any age. *)
Record file_inv (s : Stored) : Prop := {
  fi_devices : ∀ devices k r, s_devices s = Some devices → devices !! k = Some r → dr_revoked r = true →
    dr_approved r = false ∧ dr_wrapped_key r = None;
  fi_seq : ∀ i e, entries_of s !! i = Some e → 0 < en_seq e ≤ s_sequence s;
  fi_order : ∀ i j e f, entries_of s !! i = Some e → entries_of s !! j = Some f → (i < j)%nat → en_seq e < en_seq f;
  fi_unique : ∀ i j e f, entries_of s !! i = Some e → entries_of s !! j = Some f →
    en_vault e = en_vault f → en_id e = en_id f → i = j;
  fi_sequence : 0 ≤ s_sequence s;
  fi_vaults : NoDup (vaults_of s).*1
}.

(** The relay a file becomes. *)
Definition upgraded (now : Z) (s : Stored) : Relay :=
  mkRelay (vaults_of s) (default ∅ (s_devices s)) (entries_of s) (s_sequence s)
    (default ∅ (s_shares s)) (default ∅ (s_members s)) (default ∅ (s_seen s)) now ∅.

Lemma start_run now s : start now s = Ok (Some (upgraded now s)).
Proof. by destruct s as [[[]|] ? [[]|] ? ? ? ?]. Qed.

Lemma migrate_current s : migrate (left_by s) = Ok (left_by s).
Proof. by destruct s. Qed.

Lemma start_left now s : start now (left_by s) = Ok (Some (set_now now (set_channels ∅ s))).
Proof. by destruct s. Qed.

Lemma upgraded_inv now s : file_inv s → db_inv (upgraded now s).
Proof.
  intros [Hd Hs Ho Hu Hq Hv]. split; try done. intros k r Hr Hrev. simpl in Hr.
  destruct (s_devices s) as [devices|] eqn:E; [by eapply Hd|].
  simpl in Hr. rewrite lookup_empty in Hr. done.
Qed.

Section life.
Context `{Ed25519Laws} `{Base64Laws}.
Context `{JsonTextLaws EnrollReq} `{JsonTextLaws ApproveReq} `{JsonTextLaws RevokeReq}.
Context `{JsonTextLaws RotateReq} `{JsonTextLaws ShareGrantReq} `{JsonTextLaws ShareRotateReq}.
Context `{JsonTextLaws PushReq}.
Context (burns : bool).

(** The life of a relay: it serves, or its process ends wherever its handlers
    are, and another is started on the file at some reading of the clock. *)
Inductive life_step : Relay * list (hprog Reply) → Relay * list (hprog Reply) → Prop :=
  | life_served a b : pool_step burns (λ _, True) a b → life_step a b
  | life_restarted s ps now s' : start now (left_by s) = Ok (Some s') → life_step (s, ps) (s', []).

Lemma restarted_grows now s s' : start now (left_by s) = Ok (Some s') → grows s s' ∧ (db_inv s → db_inv s').
Proof.
  rewrite start_left. intros [= <-]. split; [|by apply db_inv_ext].
  split; [exists []; by rewrite app_nil_r | |]; eauto 10 using Z.le_refl.
Qed.

Lemma served_grows s ps s' ps' : pool_step burns (λ _, True) (s, ps) (s', ps') → Forall (prog_all guarded) ps →
  grows s s' ∧ (db_inv s → db_inv s') ∧ Forall (prog_all guarded) ps'.
Proof.
  intros Hstep Hps. pose proof (rtc_once _ _ Hstep) as Hrun.
  destruct (pool_invariant burns guarded (λ _, True) grows s ps s' ps') as [Hg Hps']; try done.
  - intros r _. apply handler_guarded.
  - intros B st x. apply exec_stmt_grows.
  - intros x now. split; [exists []; by rewrite app_nil_r | |]; eauto 10 using Z.le_refl.
  - split; [exact Hg|]. split; [|exact Hps'].
    apply (pool_preserves burns guarded (λ _, True) db_inv _ ps s' ps'); try done.
    + intros r _. apply handler_guarded.
    + intros B st x _. apply exec_stmt_inv.
    + intros x now. by apply db_inv_ext.
Qed.

Lemma life_grows s ps s' ps' : rtc life_step (s, ps) (s', ps') → Forall (prog_all guarded) ps →
  grows s s' ∧ (db_inv s → db_inv s').
Proof.
  intros Hrun. remember (s, ps) as x eqn:Ex. remember (s', ps') as y eqn:Ey.
  revert s ps Ex Ey. induction Hrun as [x|x z y Hstep Hrun IH]; intros s ps -> Ey Hps.
  { by injection Ey as <- <-. }
  destruct z as [s1 ps1]. assert (Hz : grows s s1 ∧ (db_inv s → db_inv s1) ∧ Forall (prog_all guarded) ps1).
  { inversion Hstep; subst; [by eapply served_grows|].
    match goal with E : start _ _ = _ |- _ => destruct (restarted_grows _ _ _ E) end. by split_and!. }
  destruct Hz as (Hg & Hi & Hps1). destruct (IH s1 ps1 eq_refl Ey Hps1) as [Hg' Hi'].
  split; [by transitivity s1 | auto].
Qed.

(** C17: upgrades and restarts lose nothing.  On a database of any earlier
    version, or none, the relay starts: every row is there, with epoch 0 and the
    default share where the columns were missing, so that every device of a
    vault sees all entries of before; and from there, through any requests, any
    interleaving of their handlers and any number of processes ended at any
    statement and started again, the tables stay in order, no entry is lost or
    changed, no epoch falls and no vault changes its recovery key. *)
Theorem restarts_lose_nothing now file : file_inv file →
  ∃ s0, start now file = Ok (Some s0) ∧
    t_vaults s0 = vaults_of file ∧ t_entries s0 = entries_of file ∧ t_devices s0 = default ∅ (s_devices file) ∧
    t_shares s0 = default ∅ (s_shares file) ∧ t_members s0 = default ∅ (s_members file) ∧
    t_seen s0 = default ∅ (s_seen file) ∧ t_sequence s0 = s_sequence file ∧
    (∀ rows, s_entries file = Some (EntriesBare rows) → ∀ p e, e ∈ t_entries s0 → visible s0 p e = true) ∧
    (∀ rows v r, s_vaults file = Some (VaultsBare rows) → vault_lookup v (t_vaults s0) = Some r → vr_epoch r = 0) ∧
    ∀ s ps, rtc life_step (s0, []) (s, ps) → db_inv s ∧ grows s0 s.
Proof.
  intros Hf. exists (upgraded now file). split; [apply start_run|]. split_and!; try done.
  - intros rows E p e He. simpl in He. unfold entries_of in He. rewrite E in He.
    apply list_elem_of_fmap in He as (b & -> & _). apply orb_true_iff. left. by apply bool_decide_eq_true_2.
  - intros rows v r E Hr. simpl in Hr. unfold vaults_of in Hr. rewrite E in Hr. clear E.
    induction rows as [|[v' rp] rows IH]; [done|]. simpl in Hr. case_decide; [by injection Hr as <- | auto].
  - intros s ps Hrun. destruct (life_grows _ _ _ _ Hrun (Forall_nil_2 _)) as [Hg Hi].
    split; [by apply Hi, upgraded_inv | exact Hg].
Qed.
End life.
