(* ===== verification/RelaySamples.v ===== *)
(** * RelaySamples: the relay properties at a concrete relay

    A vault with two devices, served with the codecs and keys of [Toy]: one
    device creates the vault, approves the other, pushes an entry, revokes the
    other device and rotates the key.  [schedule] runs handlers in a given
    interleaving, and is sound for [pool_step]. *)

From Stdlib Require Import ZArith Lia String.
From S2P Require Import Prelude Text Extern Proto RelayDb Relay RelayFacts RelayProps Setup.
Import Toy.

#[local] Open Scope string_scope.
#[local] Open Scope list_scope.
#[local] Open Scope Z_scope.

(** A turn of the handler [i]: its next statement, or the failure of the
    database at it. *)
Inductive Act := Runs (i : nat) | Faults (i : nat).
Definition act (burns : bool) (a : Act) (w : Relay * list (hprog Reply)) : option (Relay * list (hprog Reply)) :=
  match a with
  | Runs i =>
      match w.2 !! i with
      | Some (Step st k) | Some (Query st k _) =>
          let '(s, x) := exec_stmt burns st w.1 in Some (s, <[i := k x]> w.2)
      | _ => None
      end
  | Faults i =>
      match w.2 !! i with Some (Query _ _ failed) => Some (w.1, <[i := failed]> w.2) | _ => None end
  end.
Fixpoint schedule (burns : bool) (l : list Act) (w : Relay * list (hprog Reply))
    : option (Relay * list (hprog Reply)) :=
  match l with
  | [] => Some w
  | a :: l => w ← act burns a w; schedule burns l w
  end.

Lemma act_step burns allowed a w w' : act burns a w = Some w' → pool_step burns allowed w w'.
Proof.
  destruct w as [s ps], a as [i|i]; simpl; destruct (ps !! i) as [[r|B st k|B st k failed]|] eqn:Ei; try done;
    [| |intros [= <-]; by eapply pool_fails];
    destruct (exec_stmt burns st s) as [s1 x] eqn:Ex; intros [= <-]; [by eapply pool_run | by eapply pool_query].
Qed.

Lemma schedule_rtc burns allowed l w w' :
  schedule burns l w = Some w' → rtc (pool_step burns allowed) w w'.
Proof.
  revert w. induction l as [|a l IH]; intros w Hs; simpl in Hs; [injection Hs as <-; apply rtc_refl|].
  destruct (act burns a w) as [w1|] eqn:Ea; [|done]. eapply rtc_l; [by eapply act_step | by apply IH].
Qed.

(** What [f] sees after a schedule, without computing the whole state. *)
Lemma schedule_observe {B} burns allowed (f : Relay * list (hprog Reply) → B) l w b :
  f <$> schedule burns l w = Some b → ∃ w', rtc (pool_step burns allowed) w w' ∧ f w' = b.
Proof.
  destruct (schedule burns l w) as [w'|] eqn:Hs; simpl; [|done].
  intros [= <-]. exists w'. split; [by eapply schedule_rtc | done].
Qed.

Lemma insert_last {A} (l : list A) (x y : A) : <[length l := y]> (l ++ [x]) = l ++ [y].
Proof. by rewrite insert_app_r_alt, Nat.sub_diag by done. Qed.

(** A handler served with no other in flight. *)
Lemma pool_serve burns (allowed : request → Prop) r s s' a ps :
  allowed r → run_prog burns (handler r) s = (s', a) →
  rtc (pool_step burns allowed) (s, ps) (s', ps ++ [Ret a]).
Proof.
  intros Hr Hrun. eapply rtc_l; [by apply pool_request|].
  revert s Hrun. generalize (handler r) as p.
  induction p as [b|B st k IH|B st k IH failed _]; intros s Hrun; simpl in Hrun.
  - injection Hrun as -> ->. apply rtc_refl.
  - destruct (exec_stmt burns st s) as [s1 x] eqn:Ex. eapply rtc_l; [|by apply (IH x s1)].
    rewrite <- (insert_last ps (Step st k) (k x)). eapply pool_run; [apply list_lookup_middle | exact Ex]; done.
  - destruct (exec_stmt burns st s) as [s1 x] eqn:Ex. eapply rtc_l; [|by apply (IH x s1)].
    rewrite <- (insert_last ps (Query st k failed) (k x)). eapply pool_query; [apply list_lookup_middle | exact Ex]; done.
Qed.

Module SampleRelay.
Definition key (n : Z) : arr 32 := arr_fill 32 (byte_of n).
Definition pub_b64 (n : Z) : string := b64_encode (arr_bytes (ed_public (key n))).
Definition now0 : Z := 1700000000.
Definition vault : string := "v".
(** A request of device [n] for the vault, at the relay's time. *)
Definition signed_by (n : Z) (body : string) : Signed :=
  mkSigned vault (pub_b64 n)
    (b64_encode (arr_bytes (ed_sign (key n) (as_bytes (signing_message now0 body))))) now0 body.
Definition enrolling (n : Z) : Signed :=
  signed_by n (json_to_string (mkEnrollReq "dev" (pub_b64 n) (b64_encode (arr_bytes (key (n + 1)))) (pub_b64 9))).
Definition approving : Signed := signed_by 1 (json_to_string (mkApproveReq (pub_b64 2) "wrapped2")).
Definition wire_entry (n : Z) : WireEntry :=
  mkWireEntry (b64_encode (replicate 16 (byte_of n))) "blob" "".
Definition pushing (n : Z) : Signed :=
  signed_by 1 (json_to_string (mkPushReq [wire_entry n])).
Definition revoking : Signed := signed_by 1 (json_to_string (mkRevokeReq (pub_b64 2))).
Definition rotating : Signed :=
  signed_by 1 (json_to_string (mkRotateReq 1 [mkWrappedFor (pub_b64 1) "wrapped1"])).
(** The holder of the recovery key (9) recovers device 2. *)
Definition recovering : RecoverReq :=
  mkRecoverReq (pub_b64 9) "dev" (pub_b64 2) (b64_encode (arr_bytes (key 3)))
    (b64_encode (arr_bytes (ed_sign (key 9) (arr_bytes (key 2))))).
Definition pull_query (n since : Z) : PullQuery :=
  mkPullQuery vault (pub_b64 n) (b64_encode (arr_bytes (ed_sign (key n)
    (as_bytes (signing_message now0 ("pull:" +:+ show_int since)))))) since now0.

Definition served {A} (p : hprog A) (s : Relay) : Relay := (run_prog false p s).1.
Definition s0 : Relay := empty_relay now0.
Definition s1 : Relay := served (handler (ReqEnroll (enrolling 1))) s0.
Definition s2 : Relay := served (handler (ReqEnroll (enrolling 2))) s1.
Definition s3 : Relay := served (handler (ReqApprove approving)) s2.
Definition s4 : Relay := served (handler (ReqPush (pushing 7))) s3.
Definition s5 : Relay := served (handler (ReqRevoke revoking)) s4.
Definition s6 : Relay := served (handler (ReqRotate rotating)) s5.
End SampleRelay.
Import SampleRelay.

(** A request's outcome, by evaluating it. *)
Lemma run_served {A} (p : hprog A) s r : (run_prog false p s).2 = r → run_prog false p s = (served p s, r).
Proof. unfold served. intros <-. by destruct (run_prog false p s). Qed.

(** Answering a request leaves the tables as its handler's body does. *)
Lemma served_reply {A} (f : A → Reply) p s : served (reply f p) s = served p s.
Proof. unfold served, reply. rewrite run_hbind. by destruct (run_prog false p s) as [s' [a|e]]. Qed.
Lemma run_sample {A} (f : A → Reply) p s a :
  (run_prog false p s).2 = Ok a → run_prog false p s = (served (reply f p) s, Ok a).
Proof. rewrite served_reply. apply run_served. Qed.

Example pool6 : ∃ ps, rtc (pool_step false (λ _, True)) (s0, []) (s6, ps).
Proof.
  eexists. unfold s6, s5, s4, s3, s2, s1.
  do 6 (etrans; [eapply (pool_serve false); [exact I | apply run_served; reflexivity] |]).
  apply rtc_refl.
Qed.

(** The relay's invariant along the sample run. *)
Lemma sample_invariant : db_inv s0 ∧ db_inv s3 ∧ db_inv s4 ∧ db_inv s5 ∧ db_inv s6.
Proof.
  assert (Hserve : ∀ r s, db_inv s → db_inv (served (handler r) s)).
  { intros r s Hs.
    destruct (run_prog false (handler r) s) as [s' a] eqn:Hrun. unfold served. rewrite Hrun.
    eapply (pool_preserves false (λ _ _, True) (λ _, True) db_inv s [] s' ([] ++ [Ret a])); try done.
    - intros r' _. eapply prog_all_impl; [|apply handler_guarded]. done.
    - intros B st x _. apply exec_stmt_inv.
    - intros x t. by apply db_inv_ext.
    - by eapply pool_serve. }
  assert (Hs0 : db_inv s0) by (split; simpl; try done; apply NoDup_nil_2).
  unfold s6, s5, s4, s3, s2, s1. split_and!; eauto 10.
Qed.

Lemma relay_invariant_witness : db_inv s6.
Proof. destruct pool6 as [ps Hrun]. exact (relay_invariant false now0 s6 ps Hrun). Defined.

(** A revoked device enrolls while the database fails at the look-up of its row:
    the handler takes it for unknown and goes on; the row stays revoked. *)
Lemma revocation_sticky_witness :
  ∃ s' resp r, rtc (pool_step false (λ r, is_recover r = false)) (s5, []) (s', [Ret (Ok (RepEnroll resp))]) ∧
    t_devices s' !! (vault, arr_bytes (key 2)) = Some r ∧ dr_revoked r = true ∧ dr_wrapped_key r = None.
Proof.
  destruct (schedule_observe false (λ r, is_recover r = false) (λ w, w.2)
    [Runs 0; Faults 0; Runs 0; Runs 0; Runs 0] (s5, [handler (ReqEnroll (enrolling 2))])
    [Ret (Ok (RepEnroll (mkEnrollResp false 1)))]) as ([s' ps] & Hrun & Hps); [vm_compute; reflexivity|].
  simpl in Hps. subst ps.
  assert (Hall : rtc (pool_step false (λ r, is_recover r = false)) (s5, []) (s', [Ret (Ok (RepEnroll (mkEnrollResp false 1)))])).
  { eapply rtc_l; [apply (pool_request false _ _ _ (ReqEnroll (enrolling 2))); reflexivity | exact Hrun]. }
  destruct (revocation_sticky false s5 [] s' [Ret (Ok (RepEnroll (mkEnrollResp false 1)))]
    (vault, arr_bytes (key 2))) as (r & Hr & Hrev & _ & Hw).
  - apply sample_invariant.
  - exists (mkDeviceRow (arr_bytes (key 3)) "dev" false true None). split; [vm_compute |]; reflexivity.
  - reflexivity.
  - exact Hall.
  - exists s', (mkEnrollResp false 1), r. split_and!; [exact Hall | exact Hr | exact Hrev | exact Hw].
Defined.

Lemma relay_only_grows_witness : grows s0 s6.
Proof. destruct pool6 as [ps Hrun]. exact (relay_only_grows false s0 s6 ps Hrun). Defined.

(** A pending device may do nothing but wait. *)
Lemma unauthorized_changes_nothing_witness :
  refused false s2 (push (signed_by 2 (json_to_string (mkPushReq [wire_entry 9])))).
Proof.
  apply (unauthorized_changes_nothing false s2 (signed_by 2 (json_to_string (mkPushReq [wire_entry 9])))).
  intros k sg row Hk _ _ _ Hrow. left.
  assert (Ek : b64_decode (sg_device_b64 (signed_by 2 (json_to_string (mkPushReq [wire_entry 9])))) = Some (arr_bytes (key 2)))
    by (vm_compute; reflexivity).
  rewrite Ek in Hk. injection Hk as Hk. rewrite <- Hk in Hrow. vm_compute in Hrow. injection Hrow as <-. reflexivity.
Defined.

Lemma verify_exact_witness :
  authenticate false now0 (signed_by 1 "body") = Ok (vault, key 1) ∧ outside_window now0 (now0 - 301) = true.
Proof.
  destruct (verify_exact false now0 (signed_by 1 "body") vault (key 1)) as (_ & Hs & Hw).
  split; [exact (Hs (key 1) vault "body")|].
  destruct (outside_window now0 (now0 - 301)) eqn:E; [reflexivity|].
  apply Hw in E; unfold now0 in *; lia.
Defined.

Lemma push_stores_once_witness :
  ∃ s'' resp, run_prog false (push (pushing 7)) s4 = (s'', Ok resp) ∧ t_entries s'' = t_entries s4 ∧ stored resp = 0.
Proof.
  assert (Hp : run_prog false (push (pushing 7)) s3 = (s4, Ok (mkPushResp 1 1))).
  { apply run_sample. vm_compute. reflexivity. }
  destruct (push_stores_once false (pushing 7) s3 s4 _ Hp)
    as (_ & _ & _ & _ & _ & _ & _ & _ & _ & _ & _ & _ & _ & _ & _ & s'' & resp & Hr & He & Hst).
  exists s'', resp. split_and!; [exact Hr | exact He | exact Hst].
Defined.

Lemma pull_complete_witness :
  ∃ resp, run_prog false (pull (pull_query 1 0)) s4 = (s4, Ok resp) ∧
    ∀ e, e ∈ t_entries s4 → en_vault e = vault → en_seq e ≤ pull_head resp.
Proof.
  set (resp := mkPullResp [mkWireEntry (entry_id_b64 (wire_entry 7)) "blob" (b64_encode nil_share)] 1).
  assert (Hp : run_prog false (pull (pull_query 1 0)) s4 = (s4, Ok resp)).
  { rewrite (run_served _ _ (Ok resp)) by (vm_compute; reflexivity). reflexivity. }
  destruct (pull_complete false (pull_query 1 0) s4 s4 resp) as (_ & v & k & Ha & _ & _ & _ & Hall).
  - apply sample_invariant.
  - vm_compute. split; discriminate.
  - vm_compute. discriminate.
  - exact Hp.
  - exists resp. split; [exact Hp|]. intros e He Hv. apply Hall; [exact He | |].
    + vm_compute in Ha. injection Ha as <- _. exact Hv.
    + revert He. change (t_entries s4) with [mkEntry vault 1 (replicate 16 (byte_of 7)) (as_bytes "blob") nil_share].
      intros He. apply list_elem_of_singleton in He as ->. reflexivity.
Defined.

Lemma rotate_at_most_once_witness :
  ∃ e, run_prog false (rotate rotating) s6 = (served (rotate rotating) s6, Err e).
Proof.
  assert (Hp : run_prog false (rotate rotating) s5 = (s6, Ok (mkPushResp 1 0))).
  { apply run_sample. vm_compute. reflexivity. }
  destruct (rotate_at_most_once false rotating s5 s6 _ s6 [] (served (rotate rotating) s6)
    (Err (Status.CONFLICT, "replayed request")) Hp) as (_ & [e He] & _).
  - apply rtc_refl.
  - apply run_served. vm_compute. reflexivity.
  - exists e. rewrite <-He. apply run_served. vm_compute. reflexivity.
Defined.

Lemma enroll_grants_only_bootstrap_witness :
  ∃ row, t_devices s2 !! (vault, arr_bytes (key 2)) = Some row ∧ dr_approved row = false.
Proof.
  assert (Hp : run_prog false (enroll (enrolling 2)) s1 = (s2, Ok (mkEnrollResp false 0))).
  { apply run_sample. vm_compute. reflexivity. }
  destruct (enroll_grants_only_bootstrap false (enrolling 2) s1 s2 _ Hp)
    as (v & k & row & Ha & Hrow & _ & _ & Happ & _).
  vm_compute in Ha. injection Ha as <- <-. exists row. split; [exact Hrow|].
  rewrite Happ. vm_compute. reflexivity.
Defined.

(** [pull] reads the entries and the head in two statements.  A push that runs
    between them is reported as read by the head and missing from the
    entries: the client's next pull starts after it. *)
Example pull_race_skips_entry :
  ∃ w resp e, rtc (pool_step false (λ _, True))
      (s4, [handler (ReqPull (pull_query 1 0)); handler (ReqPush (pushing 8))]) w ∧
    w.2 !! 0%nat = Some (Ret (Ok (RepPull resp))) ∧
    t_entries w.1 !! 1%nat = Some e ∧ en_seq e ≤ pull_head resp ∧ wire e ∉ pull_entries resp.
Proof.
  pose (resp := mkPullResp [mkWireEntry (entry_id_b64 (wire_entry 7)) "blob" (b64_encode nil_share)] 2).
  pose (e := mkEntry vault 2 (replicate 16 (byte_of 8)) (as_bytes "blob") nil_share).
  destruct (schedule_observe false (λ _, True) (λ w, (w.2 !! 0%nat, t_entries w.1 !! 1%nat))
    (Runs <$> [0; 0; 0; 1; 1; 1; 1; 1; 0]%nat)
    (s4, [handler (ReqPull (pull_query 1 0)); handler (ReqPush (pushing 8))])
    (Some (Ret (Ok (RepPull resp))), Some e)) as (w & Hrun & Hw); [vm_compute; reflexivity|].
  injection Hw as Hr He. exists w, resp, e. split_and!; [exact Hrun | exact Hr | exact He | done |].
  intros Hin. apply list_elem_of_singleton in Hin. discriminate.
Qed.

(** The window test on [i64] accepts a timestamp 2^63 seconds in the past. *)
Example skew_check_wraps : outside_window now0 (now0 - 2 ^ 63) = false.
Proof. vm_compute. reflexivity. Qed.

(** Recovery readmits a device the vault had revoked. *)
Example recovery_readmits :
  (dr_revoked <$> t_devices s5 !! (vault, arr_bytes (key 2)),
   (λ r, (dr_revoked r, dr_approved r)) <$> t_devices (served (recover recovering) s5) !! (vault, arr_bytes (key 2)))
  = (Some true, Some (false, true)).
Proof. vm_compute. reflexivity. Qed.


(** ** A database of an earlier version *)

Module SampleFile.
Definition old_entry (n : Z) : BareEntry := mkBareEntry vault n (replicate 16 (byte_of n)) (as_bytes "old").
Definition old_file : Stored :=
  mkStored (Some (VaultsBare [(vault, arr_bytes (key 9))])) None (Some (EntriesBare [old_entry 3; old_entry 5])) 5 None None None.
(** Started, and ended in the middle of serving an enrollment. *)
Definition upgraded_s : Relay := upgraded now0 old_file.
Definition halfway_s : Relay * list (hprog Reply) :=
  default (upgraded_s, []) (schedule false [Runs 0; Runs 0] (upgraded_s, [handler (ReqEnroll (enrolling 2))])).
Definition restarted_s : Relay := set_now (now0 - 5) (set_channels ∅ halfway_s.1).
End SampleFile.
Import SampleFile.

Lemma old_file_inv : file_inv old_file.
Proof.
  split; try done.
  - intros [|[|i]] e; [intros [= <-]; vm_compute; by split.. | done].
  - intros [|[|i]] [|[|j]] e f; simpl; intros He Hf Hij; try done; try lia. by injection He as <-; injection Hf as <-.
  - intros [|[|i]] [|[|j]] e f; simpl; intros He Hf _ Hid; try done; injection He as <-; injection Hf as <-; discriminate.
  - apply NoDup_singleton.
Qed.

Lemma sample_life : rtc (life_step false) (upgraded_s, []) (restarted_s, []).
Proof.
  etransitivity; [|apply rtc_once, (life_restarted false halfway_s.1 halfway_s.2 (now0 - 5)), start_left].
  eapply rtc_l; [apply life_served, (pool_request false _ _ _ (ReqEnroll (enrolling 2))); exact I|].
  assert (Hrun : rtc (pool_step false (λ _, True)) (upgraded_s, [] ++ [handler (ReqEnroll (enrolling 2))]) (halfway_s.1, halfway_s.2)).
  { eapply (schedule_rtc false _ [Runs 0; Runs 0]). vm_compute. reflexivity. }
  revert Hrun. apply rtc_subrel. intros a b. apply life_served.
Qed.

Lemma restarts_lose_nothing_witness : db_inv restarted_s ∧ grows upgraded_s restarted_s ∧
  t_entries upgraded_s = [with_nil_share (old_entry 3); with_nil_share (old_entry 5)].
Proof.
  destruct (restarts_lose_nothing false now0 old_file old_file_inv) as (s0 & Hs & _ & He & _ & _ & _ & _ & _ & _ & _ & Hlife).
  assert (s0 = upgraded_s) as ->.
  { rewrite start_run in Hs. injection Hs as <-. reflexivity. }
  destruct (Hlife restarted_s [] sample_life) as [Hi Hg]. split; [exact Hi | split; [exact Hg | exact He]].
Defined.
