(* ===== verification/Sync.v ===== *)
(** * Sync: the sync client ([src/src/sync.rs])

    The client talks to a relay through [Transport], the one operation it
    needs: send a request, get a typed reply or an error.  The relay of
    [Relay.v] is one transport; the client's safety is proved against any.
    URLs, JSON framing of replies and timeouts are the HTTP crate's; a reply of
    the wrong shape is its decoding error.  Clocks and random values come from
    [Entropy], one draw per call. *)

From Stdlib Require Import ZArith Lia Ascii String.
From S2P Require Import Prelude Text Record Merge Extern Crypto Log Keyring Validate Vault Crud Lifecycle Proto RelayDb Relay.

#[local] Open Scope string_scope.
#[local] Open Scope list_scope.
#[local] Open Scope Z_scope.

Module SyncError.
Inductive t :=
  | NoRelay
  | Http
  | Rejected (status : Z) (body : string)
  | Vault (e : VaultError).
End SyncError.
Abbreviation SyncError := SyncError.t.

Definition bad (what : string) : SyncError :=
  SyncError.Vault (VaultError.Corrupt ("relay sent malformed " +:+ what)).

(** What a client draws, by the number of draws before. *)
Record Entropy := mkEntropy {
  e_now : nat → Z;
  e_nonce : nat → Nonce;
  e_uuid : nat → Uuid;
  e_key : nat → arr 32
}.

(** The relay as a client sees it. *)
Class Transport (N : Type) := send : request → N → N * res SyncError Reply.

Record Client (N : Type) := mkClient { c_net : N; c_world : World; c_draws : nat }.
Arguments mkClient {N} _ _ _.
Arguments c_net {N} _.
Arguments c_world {N} _.
Arguments c_draws {N} _.

(** [StatusCode::as_u16]. *)
Definition status_code (s : Status) : Z :=
  match s with
  | Status.BAD_REQUEST => 400
  | Status.UNAUTHORIZED => 401
  | Status.FORBIDDEN => 403
  | Status.NOT_FOUND => 404
  | Status.CONFLICT => 409
  | Status.INTERNAL_SERVER_ERROR => 500
  end.

(** [str::replace] of one character. *)
Fixpoint replace_char (c : ascii) (to s : string) : string :=
  match s with
  | EmptyString => EmptyString
  | String d s => (if Ascii.eqb d c then to else String d EmptyString) +:+ replace_char c to s
  end.
(** Minimal percent-encoding for base64 in a query string. *)
Definition urlencode (s : string) : string :=
  replace_char "="%char "%3D" (replace_char "/"%char "%2F" (replace_char "+"%char "%2B" s)).

(** The typed replies: [None] when the body does not decode as the type. *)
Definition as_enroll (r : Reply) : option EnrollResp := match r with RepEnroll r => Some r | _ => None end.
Definition as_push (r : Reply) : option PushResp := match r with RepPush r => Some r | _ => None end.
Definition as_shares (r : Reply) : option SharesResp := match r with RepShares r => Some r | _ => None end.
Definition as_devices (r : Reply) : option DevicesResp := match r with RepDevices r => Some r | _ => None end.
Definition as_wrapped (r : Reply) : option WrappedResp := match r with RepWrapped r => Some r | _ => None end.
Definition as_recover (r : Reply) : option RecoverResp := match r with RepRecover r => Some r | _ => None end.
Definition as_pull (r : Reply) : option PullResp := match r with RepPull r => Some r | _ => None end.

(** Worth retrying, or fatal. *)
Definition transient (e : SyncError) : bool :=
  match e with
  | SyncError.Http => true
  | SyncError.Rejected status _ => 500 <=? status
  | SyncError.NoRelay | SyncError.Vault _ => false
  end.

Section sync.
Context `{Aead} `{Hkdf} `{X25519} `{Ed25519} `{Argon2} `{Bip39} `{Base64} `{HashOrder}.
Context `{MsgPack Keyring} `{MsgPack Rec} `{MsgPack Snapshot} `{JsonText Meta}.
Context `{JsonText EnrollReq} `{JsonText PushReq}.
Context {N : Type} `{RT : Transport N} (rng : Entropy).
#[local] Open Scope mon_scope.

Abbreviation SM := (M (Client N) SyncError).

Definition fresh {E A} (f : nat → A) : M (Client N) E A :=
  λ c, (mkClient (c_net c) (c_world c) (S (c_draws c)), Ok (f (c_draws c))).
Definition now_unix : SM Z := fresh (e_now rng).
Definition the_vault {E} : M (Client N) E Vault := sget (λ c, (c_world c).2).
Definition vault {A} (m : VM A) : SM A :=
  λ c, let '(w, r) := m (c_world c) in
       (mkClient (c_net c) w (c_draws c), res_map_err SyncError.Vault r).
(** [client.….send().await?] and [parse]. *)
Definition http {A} (parse : Reply → option A) (r : request) : SM A :=
  λ c, let '(n, rep) := send r (c_net c) in
       (mkClient n (c_world c) (c_draws c), res_bind rep (λ rep, ok_or SyncError.Http (parse rep))).

Definition ed25519_pub (v : Vault) : PubKey := ed_public (kr_ed25519_secret (v_keyring v)).
Definition vault_b64 (v : Vault) : string := b64_encode (arr_bytes (vault_id (v_meta v))).
Definition device_b64 (v : Vault) : string := b64_encode (arr_bytes (ed25519_pub v)).
Definition signature_b64 (v : Vault) (ts : Z) (body : string) : string :=
  b64_encode (arr_bytes (ed_sign (kr_ed25519_secret (v_keyring v)) (as_bytes (signing_message ts body)))).

Definition sign (v : Vault) (ts : Z) (body : string) : Signed :=
  mkSigned (vault_b64 v) (device_b64 v) (signature_b64 v ts body) ts body.
Definition post {A} (parse : Reply → option A) (route : Signed → request) (body : string) : SM A :=
  do v <- the_vault;
  do ts <- now_unix;
  http parse (route (sign v ts body)).

Definition signed_query (v : Vault) (ts : Z) (action : string) : SignedQuery :=
  mkSignedQuery (vault_b64 v) (device_b64 v) (signature_b64 v ts (action +:+ ":" +:+ vault_b64 v)) ts.
Definition signed_get {A} (parse : Reply → option A) (route : SignedQuery → request) (action : string) : SM A :=
  do v <- the_vault;
  do ts <- now_unix;
  http parse (route (signed_query v ts action)).

(** Whether this device is already approved. *)
Definition enroll : SM bool :=
  do v <- the_vault;
  let req := mkEnrollReq (device_name (v_meta v)) (device_b64 v) (x25519_pub_b64 (v_meta v))
               (recovery_pub_b64 (v_meta v)) in
  do resp <- post as_enroll ReqEnroll (json_to_string req);
  sret (enroll_approved resp).

(** Unwrap a key list addressed to this device. *)
Definition unwrap_for (wrapped_b64 : string) : SM bytes :=
  do v <- the_vault;
  do wrapped <- slift (ok_or (bad "wrapped_key") (b64_decode wrapped_b64));
  slift (res_map_err (λ e, SyncError.Vault (VaultError.Crypto e))
    (unwrap_vault_key (kr_x25519_secret (v_keyring v)) wrapped (arr_bytes (ed25519_pub v)))).

(** The named shares, one membership at a time. *)
Fixpoint heal_memberships (l : list ShareMembership) (gained : bool) : SM bool :=
  match l with
  | [] => sret gained
  | m :: l =>
      match b ← b64_decode (sm_share_b64 m); try_into 16 b with
      | None => heal_memberships l gained
      | Some share =>
          if bool_decide (share = uuid_nil) then heal_memberships l gained
          else
            do v <- the_vault;
            let had := has_share (v_keyring v) share in
            if negb had || (share_epoch (v_keyring v) share <? sm_epoch m)
            then
              do list <- unwrap_for (sm_wrapped_b64 m);
              do nonce <- fresh (e_nonce rng);
              run vault (absorb_share_key share list nonce);
              heal_memberships l (if had then gained else true)
            else heal_memberships l gained
      end
  end.

(** Whether the device gained a share it did not hold. *)
Definition heal_shares : SM bool :=
  do resp <- signed_get as_wrapped ReqWrapped "wrapped";
  do v <- the_vault;
  run (if epoch v <? wr_epoch resp
       then match wr_wrapped_b64 resp with
            | Some wrapped_b64 =>
                do list <- unwrap_for wrapped_b64;
                do nonce <- fresh (e_nonce rng);
                vault (absorb_vault_key_list list nonce)
            | None => sret tt
            end
       else sret tt);
  do resp <- signed_get as_shares ReqShares "shares";
  heal_memberships (shares_list resp) false.

Definition wire_entry (e : RawEntry * Uuid) : WireEntry :=
  mkWireEntry (b64_encode (arr_bytes e.1.1)) (b64_encode e.1.2) (b64_encode (arr_bytes e.2)).

Definition decode16 (b64 : string) : res SyncError (arr 16) :=
  ok_or (bad "entry_id") (b ← b64_decode b64; try_into 16 b).

(** Apply the entries not held locally; returns their number. *)
Fixpoint apply_pulled (have : list (arr 16)) (l : list WireEntry) (pulled : nat) : SM nat :=
  match l with
  | [] => sret pulled
  | e :: l =>
      do id <- slift (decode16 (entry_id_b64 e));
      if bool_decide (id ∈ have) then apply_pulled have l pulled
      else
        do blob <- slift (ok_or (bad "blob") (b64_decode (blob_b64 e)));
        run vault (apply_remote_entry id blob);
        apply_pulled have l (S pulled)
  end.

Definition pull_query (v : Vault) (ts since : Z) : PullQuery :=
  mkPullQuery (vault_b64 v) (device_b64 v) (signature_b64 v ts ("pull:" +:+ show_int since)) since ts.

(** One round: heal, push, pull.  Returns the numbers pushed and pulled. *)
Definition sync_once : SM (Z * nat) :=
  do v <- the_vault;
  run slift (ok_or SyncError.NoRelay (relay_url (v_meta v)));
  do membership_changed <- heal_shares;
  do local <- vault raw_entries_tagged;
  do pushed <- post as_push ReqPush (json_to_string (mkPushReq (wire_entry <$> local)));
  run (if membership_changed then vault reset_sync_cursor else sret tt);
  do v <- the_vault;
  let since := sync_cursor (v_meta v) in
  do ts <- now_unix;
  do resp <- http as_pull (ReqPull (pull_query v ts since));
  do pulled <- apply_pulled ((λ e, e.1.1) <$> local) (pull_entries resp) 0;
  run vault (set_sync_cursor (pull_head resp));
  sret (stored pushed, pulled).

(** One daemon round; a transient error is swallowed.  [on_round] is the
    caller's callback: it sees the vault and the counts of a round that
    succeeded, and acts on the caller's side of the state. *)
Definition round (on_round : Vault → Z → nat → N → N) : SM unit :=
  do nonce <- fresh (e_nonce rng);
  run vault (reload nonce);
  λ c, match sync_once c with
       | (c, Ok (pushed, pulled)) =>
           (mkClient (on_round (c_world c).2 pushed pulled (c_net c)) (c_world c) (c_draws c), Ok tt)
       | (c, Err e) => if transient e then (c, Ok tt) else (c, Err e)
       end.
End sync.

(** The relay, with no other request in flight. *)
Section relay_transport.
Context `{Ed25519} `{Base64}.
Context `{JsonText EnrollReq} `{JsonText ApproveReq} `{JsonText RevokeReq} `{JsonText RotateReq}.
Context `{JsonText ShareGrantReq} `{JsonText ShareRotateReq} `{JsonText PushReq}.

Definition rejection (e : HttpErr) : SyncError := SyncError.Rejected (status_code e.1) e.2.
#[export] Instance relay_transport (burns : bool) : Transport Relay := λ r s,
  let '(s', rep) := run_prog burns (handler r) s in (s', res_map_err rejection rep).
End relay_transport.

(* ------------------------------------------------------------------ *)
(** ** The daemon: rounds, reconnects and backoff *)

Definition SYNCD_POLL : Z := 30.
Definition HEALTHY_CONN : Z := 30.
Definition syncd_poll (var : option string) : Z :=
  match s ← var; parse_uint u64_max s with Some n => n | None => SYNCD_POLL end.

(** Where the loop is, with its backoff in seconds. *)
Inductive Daemon :=
  | Connecting (backoff_secs : Z)
  | Listening (backoff_secs : Z).

(** What the loop waits for: the outcome of connecting, a message or the end of
    the socket (with how long it was up), the poll tick. *)
Inductive Event :=
  | ConnectFailed
  | ConnectOk
  | Text (head : string)
  | OtherMessage
  | Tick
  | Dropped (elapsed : Z).

(** What the loop does in answer. *)
Inductive Action := ARound | ASleep (secs : Z).

Definition next_backoff (b : Z) : Z := Z.min (u64_wrap (b * 2)) 60.

(** An announced head is stale unless it is a number at or below the cursor. *)
Definition announces_news (head : string) (cursor : Z) : bool :=
  match parse_uint u64_max (trim head) with
  | Some h => cursor <? h
  | None => true
  end.

(** One event: the actions in order and where the loop is after them; [None]
    for an event it does not wait for there. *)
Definition syncd_step (d : Daemon) (e : Event) (cursor : Z) : option (list Action * Daemon) :=
  match d, e with
  | Connecting b, ConnectFailed => Some ([ASleep b; ARound], Connecting (next_backoff b))
  | Connecting b, ConnectOk => Some ([], Listening b)
  | Listening b, Text head => Some (if announces_news head cursor then [ARound] else [], Listening b)
  | Listening b, OtherMessage => Some ([], Listening b)
  | Listening b, Tick => Some ([ARound], Listening b)
  | Listening b, Dropped elapsed =>
      if HEALTHY_CONN <=? elapsed then Some ([ARound], Connecting 1)
      else Some ([ASleep b; ARound], Connecting (next_backoff b))
  | _, _ => None
  end.

Section syncd.
Context `{Aead} `{Hkdf} `{X25519} `{Ed25519} `{Argon2} `{Bip39} `{Base64} `{HashOrder}.
Context `{MsgPack Keyring} `{MsgPack Rec} `{MsgPack Snapshot} `{JsonText Meta}.
Context `{JsonText EnrollReq} `{JsonText PushReq}.
Context {N : Type} `{RT : Transport N} (rng : Entropy) (on_round : Vault → Z → nat → N → N).
#[local] Open Scope mon_scope.

Fixpoint run_actions (l : list Action) : M (Client N) SyncError unit :=
  match l with
  | [] => sret tt
  | ARound :: l => run round rng on_round; run_actions l
  | ASleep _ :: l => run_actions l
  end.

(** The loop over the events that happen, until a round fails for good. *)
Fixpoint syncd_loop (d : Daemon) (events : list Event) : M (Client N) SyncError Daemon :=
  match events with
  | [] => sret d
  | e :: events =>
      do v <- the_vault;
      match syncd_step d e (sync_cursor (v_meta v)) with
      | Some (actions, d) => run run_actions actions; syncd_loop d events
      | None => syncd_loop d events
      end
  end.

Definition syncd (events : list Event) : M (Client N) SyncError Daemon :=
  do v <- the_vault;
  run slift (ok_or SyncError.NoRelay (relay_url (v_meta v)));
  run round rng on_round;
  syncd_loop (Connecting 1) events.
End syncd.
