(* ===== verification/SyncFacts.v ===== *)
(** * SyncFacts: what a sync does to the vault, whatever the relay answers

    Every step of the client is one of a few vault operations or leaves the
    vault alone; [vault_ext] is what any sequence of them keeps. *)

From Stdlib Require Import ZArith Lia String.
From S2P Require Import Prelude Text Record Merge Extern Crypto Log Keyring Validate Vault Crud Lifecycle VaultInv CrudFacts VaultProps KeyGrowth Proto RelayDb Relay Sync.

#[local] Open Scope string_scope.
#[local] Open Scope list_scope.
#[local] Open Scope Z_scope.

(** The number of keys of a keyring: absorbing a list that is news adds some. *)
Definition nkeys (k : Keyring) : nat := sum_list_with (λ s, length (sk_keys s)) (kr_shares k).

Lemma nkeys_update id f fresh l :
  sum_list_with (λ s, length (sk_keys s)) (update_share id f fresh l) =
  match find_share id l with
  | Some s => (sum_list_with (λ s, length (sk_keys s)) l - length (sk_keys s) + length (f (sk_keys s)))%nat
  | None => (sum_list_with (λ s, length (sk_keys s)) l + length fresh)%nat
  end.
Proof.
  induction l as [|x l IH]; simpl; [lia|]. destruct (decide (sk_id x = id)); simpl; [lia|].
  rewrite IH. destruct (find_share id l) as [s|] eqn:E; [|lia].
  apply find_share_in in E as [Hs _].
  assert (length (sk_keys s) ≤ sum_list_with (λ s, length (sk_keys s)) l)%nat; [|lia].
  clear -Hs. induction l as [|y l IH]; [by apply not_elem_of_nil in Hs|].
  simpl. apply elem_of_cons in Hs as [->|Hs]; [lia|]. specialize (IH Hs). lia.
Qed.

(** Unchanged, or with more keys and the same device secrets. *)
Definition keys_grow (k k' : Keyring) : Prop :=
  k' = k ∨ ((nkeys k < nkeys k')%nat ∧ kr_x25519_secret k' = kr_x25519_secret k ∧
            kr_ed25519_secret k' = kr_ed25519_secret k).

#[export] Instance keys_grow_preorder : PreOrder keys_grow.
Proof.
  split; [by left|]. intros k1 k2 k3 [->|(H1 & X1 & E1)] [->|(H2 & X2 & E2)];
    [by left | by right | by right |]. right. split_and!; [lia | congruence..].
Qed.

Lemma keys_grow_same k1 k2 k3 : keys_grow k1 k2 → keys_grow k2 k3 → k3 = k1 → k2 = k1 ∧ k3 = k2.
Proof. intros [->|(H1 & _)] [->|(H2 & _)] E; subst; try done; lia. Qed.

Lemma absorb_keys_grow id list k k' : absorb_keys id list k = Ok (Some k') →
  (nkeys k < nkeys k')%nat ∧ kr_x25519_secret k' = kr_x25519_secret k ∧ kr_ed25519_secret k' = kr_ed25519_secret k.
Proof.
  unfold absorb_keys. destruct (split_key_list list) as [keys|] eqn:E; simpl; [|done].
  apply split_key_list_sound in E as [_ Hne].
  assert (0 < length keys)%nat by (destruct keys; simpl; [done | lia]).
  unfold share. destruct (find_share id (kr_shares k)) as [s|] eqn:Es.
  - destruct (Nat.leb_spec (length keys) (length (sk_keys s))) as [|Hlt]; [done|].
    intros [= <-]. split; [|done]. unfold nkeys. simpl. rewrite nkeys_update, Es. lia.
  - intros [= <-]. split; [|done]. unfold nkeys. simpl. rewrite nkeys_update, Es. lia.
Qed.

Section facts.
Context `{AeadLaws} `{!AeadCommit} `{MsgPackLaws Keyring} `{MsgPackLaws Rec}.
Context `{MsgPackLaws Snapshot} `{JsonTextLaws Meta} `{HashOrderLaws}.
Context `{Base64Laws} `{Argon2} `{X25519} `{Ed25519} `{Hkdf} `{Bip39}.
Context `{JsonText EnrollReq} `{JsonText PushReq}.
Context {N : Type} `{RT : Transport N} (rng : Entropy).

(** The log has whole frames, and a snapshot of keys held, now or before, is of
    a part of it. *)
Definition log_ok (w : World) : Prop :=
  ∃ data frames, f_log w.1 = Some data ∧ parse_frames data = Ok frames ∧
    ∀ s, read_snapshot w.1 w.2 = Some s → covers (v_keyring w.2) frames s ∧ from_past (v_keyring w.2) s.

(** The files agree with the handle, up to the state in memory: what remains
    when a new key makes old entries readable. *)
Record on_disk (w : World) : Prop := {
  od_keyring : keyring_wf (v_keyring w.2);
  od_meta : f_meta w.1 = Some (json_to_string (v_meta w.2));
  od_keyfile : ∃ n, f_keyring w.1 = Some (seal n (v_kek w.2) (mp_encode (v_keyring w.2))
                                           (arr_bytes (vault_id (v_meta w.2))));
  od_log : log_ok w;
  od_lamport : 0 ≤ meta_lamport (v_meta w.2)
}.

Lemma on_disk_inv w : vault_inv w → snapshot_from_past w → on_disk w.
Proof.
  intros [Hk Hm Hf [recs [[frames Hh] _]] Hs Hl] Hp. pose proof Hh as (data & Hd & Hpf & _).
  split; [done..| |done]. exists data, frames. split_and!; [done..|]. intros s Hr. split; [by eapply Hs | by apply Hp].
Qed.

(** The log and the key counts stay within what their formats can describe. *)
Definition fits (w : World) : Prop := log_small w.1 ∧ counts_fit (v_keyring w.2).

(** What a sync keeps of a vault: the log only grows, the files agree with the
    handle, identity and secrets stay, a key list is replaced by longer ones
    only, and while none is the whole invariant holds. *)
Record vault_ext (w w' : World) : Prop := {
  ext_log : log_ext w w';
  ext_shares : shares_grow (v_keyring w.2) (v_keyring w'.2);
  ext_disk : on_disk w → fits w' → on_disk w' ∧ identity (v_meta w'.2) = identity (v_meta w.2);
  ext_kek : v_kek w'.2 = v_kek w.2;
  ext_keys : keys_grow (v_keyring w.2) (v_keyring w'.2);
  ext_kept : vault_inv w → log_small w'.1 → v_keyring w'.2 = v_keyring w.2 → kept w w'
}.

Lemma fits_before w w' : vault_ext w w' → fits w' → fits w.
Proof.
  intros Hx [Hs Hc]. split; [by eapply log_ext_small; [apply Hx|] | by eapply counts_fit_before; [apply Hx|]].
Qed.

#[export] Instance vault_ext_preorder : PreOrder vault_ext.
Proof.
  split.
  - intros w. split; try done; [intros d; by apply log_same | intros; by apply kept_refl].
  - intros w1 w2 w3 X12 X23. pose proof X12 as [L1 S1 D1 K1 G1 P1]. pose proof X23 as [L2 S2 D2 K2 G2 P2].
    split; try congruence.
    + intros data Hd. destruct (L1 _ Hd) as [m1 E1], (L2 _ E1) as [m2 E2].
      exists (m1 ++ m2). by rewrite app_assoc.
    + by transitivity (v_keyring w2.2).
    + intros Hw Hs. destruct (D1 Hw) as [Hw2 E1]; [by eapply fits_before|].
      destruct (D2 Hw2 Hs) as [Hw3 E2]. split; [done | congruence].
    + by transitivity (v_keyring w2.2).
    + intros Hw Hs Hk. destruct (keys_grow_same _ _ _ G1 G2 Hk) as [E1 E2].
      assert (log_small w2.1) by (by eapply log_ext_small).
      assert (Hk1 : kept w1 w2) by auto. eapply kept_trans; [exact Hk1|]. apply P2; [apply Hk1 | done..].
Qed.

(** What every operation leaves alone in any world, in order or not. *)
Definition frame_ok (w w' : World) : Prop :=
  log_ext w w' ∧ v_kek w'.2 = v_kek w.2 ∧ v_keyring w'.2 = v_keyring w.2.

Lemma frame_same w w' : f_log w'.1 = f_log w.1 → v_kek w'.2 = v_kek w.2 →
  v_keyring w'.2 = v_keyring w.2 → frame_ok w w'.
Proof. intros El Hk Hr. split; [|done]. intros d. by apply log_same. Qed.

Definition sync_op (o : op) : Prop :=
  match o with OpRemote _ _ | OpCursor _ | OpResetCursor | OpReload _ => True | _ => False end.

Lemma sync_op_frame o w w' r : sync_op o → run_op o w = (w', r) → frame_ok w w'.
Proof.
  destruct o; try done; intros _; destruct w as [d v]; simpl.
  - unfold apply_remote_entry, absorb_disk_meta, write_frame, write_meta, read_file, sbind, slift,
      sget, sput, self, disk, sret; simpl.
    destruct (open_entry _ _ _) as [o|]; simpl; [|intros [= <- <-]; by apply frame_same].
    destruct (f_log d) as [data|] eqn:Ed; simpl; [|intros [= <- <-]; by apply frame_same].
    assert (Hext : ∀ x m, log_ext (d, v) (set_f_meta m (set_f_log (data ++ frame entry_id blob) d), x)).
    { intros x m y Hy. simpl in Hy. rewrite Ed in Hy. injection Hy as <-. simpl. eauto. }
    destruct o as [rec|]; simpl; intros [= <- <-]; (split; [apply Hext|]); [|done].
    by destruct (_ <? _).
  - intros [= <- <-]. by apply frame_same.
  - intros [= <- <-]. by apply frame_same.
  - unfold reload, read_file, sbind, slift, sget, sput, self. simpl.
    destruct (f_meta d) as [text|]; simpl; [|intros [= <- <-]; by apply frame_same].
    destruct (json_from_str text) as [m|]; simpl; [|intros [= <- <-]; by apply frame_same].
    intros (_ & _ & El & _ & Ek & Ekek)%replay_frame. by apply frame_same.
Qed.

Lemma on_disk_ext w w' :
  on_disk w → v_keyring w'.2 = v_keyring w.2 → v_kek w'.2 = v_kek w.2 →
  f_keyring w'.1 = f_keyring w.1 → f_meta w'.1 = Some (json_to_string (v_meta w'.2)) →
  vault_id (v_meta w'.2) = vault_id (v_meta w.2) → 0 ≤ meta_lamport (v_meta w'.2) →
  log_ok w' → on_disk w'.
Proof.
  intros [Hk Hm [n Hf] Hl Hc] E1 E2 E3 Hm' Hid Hc' Hl'. split; try done; [by rewrite E1|].
  exists n. by rewrite E3, Hf, E2, E1, Hid.
Qed.

(** The operations a sync runs, on a vault whose files are in order. *)
Lemma sync_op_disk o w w' r :
  sync_op o → run_op o w = (w', r) → on_disk w → log_small w'.1 →
  on_disk w' ∧ identity (v_meta w'.2) = identity (v_meta w.2).
Proof.
  intros Ho Hrun Hw Hs. pose proof (od_meta _ Hw) as Hm. pose proof (od_lamport _ Hw) as Hc.
  destruct (od_log _ Hw) as (data & frames & Hd & Hp & Hsn).
  destruct o; try done; simpl in Hrun.
  - rewrite apply_remote_eq in Hrun by done.
    destruct (open_entry _ _ _) as [o|]; [|by injection Hrun as <- _].
    rewrite Hd in Hrun. injection Hrun as <- _. split.
    + eapply on_disk_ext; simpl; try done.
      * by unfold observe; destruct o; [case_match|].
      * unfold observe. destruct o as [x|]; [|done].
        destruct (Z.ltb_spec (meta_lamport (v_meta w.2)) (lamport (rec_clock x))); simpl; lia.
      * eexists _, _. split; [done|]. split; [apply parse_frames_append; [done|]; by eapply log_small_fits|].
        intros s Hr. assert (Hr' : read_snapshot w.1 w.2 = Some s).
        { revert Hr. unfold read_snapshot, observe. simpl. destruct o; [case_match|]; done. }
        destruct (Hsn s Hr') as [Hcov Hpast]. split; [by apply covers_more | done].
    + simpl. by unfold observe; destruct o; [case_match|].
  - unfold set_sync_cursor in Hrun.
    rewrite (update_meta_eq (λ m, with_cursor (Z.max (sync_cursor m) cursor) m)) in Hrun by done.
    injection Hrun as <- _. split; [|done]. eapply on_disk_ext; simpl; eauto. by exists data, frames.
  - unfold reset_sync_cursor in Hrun. rewrite (update_meta_eq (with_cursor 0)) in Hrun by done.
    injection Hrun as <- _. split; [|done]. eapply on_disk_ext; simpl; eauto. by exists data, frames.
  - assert (Hr : reload nonce w = replay_log nonce w).
    { destruct w as [d v]. unfold reload, read_file, sbind at 1 2 3 4, slift, sget, self, sput. simpl in *.
      rewrite Hm. simpl. rewrite json_round. simpl. by destruct v. }
    rewrite Hr in Hrun. pose proof (replay_snapshot _ _ _ _ Hrun) as Hsnap.
    apply replay_frame in Hrun as (E1 & E2 & E3 & E4 & E5 & E6).
    split; [|by rewrite E4]. eapply on_disk_ext; try done; rewrite ?E1, ?E4; try done.
    exists data, frames. rewrite E3. split_and!; [done..|]. intros s Hs'. rewrite E5.
    destruct Hsnap as [E|(s' & Ht & Hs'')].
    + apply Hsn. unfold read_snapshot in *. by rewrite E, E6, E4 in Hs'.
    + rewrite Hs' in Hs''. injection Hs'' as <-.
      eapply taken_sound; [apply (od_keyring _ Hw) | done |]. unfold frames_of. by rewrite Hd, Hp.
Qed.

Lemma ext_sync_op o w w' r : sync_op o → run_op o w = (w', r) → vault_ext w w'.
Proof.
  intros Ho Hrun. destruct (sync_op_frame _ _ _ _ Ho Hrun) as (Hl & Hk & Hr). split; try done.
  - intros id. rewrite Hr. by left.
  - intros Hw [Hs _]. by eapply sync_op_disk.
  - by left.
  - intros Hw Hs _. apply vault_step_kept; [done|]. by exists o, r.
Qed.

Lemma on_disk_with_share X keys nonce w : on_disk w →
  (length (keys_of (v_keyring w.2) X) < length keys)%nat → counts_fit (v_keyring (with_share X keys nonce w).2) →
  on_disk (with_share X keys nonce w).
Proof.
  intros [Hk Hm Hf (data & frames & Hd & Hp & Hsn) Hc] Hl Hfit.
  assert (Hwf : keyring_wf (set_share_keys X keys (v_keyring w.2))).
  { apply set_share_keys_wf; [done|]. intros ->. simpl in Hl. lia. }
  split; simpl; try done; [eauto|]. exists data, frames. split_and!; [done..|]. intros s Hr.
  destruct (Hsn s Hr) as [[Hcov _] Hpast]. apply covers_longer; [apply Hwf | done..].
Qed.

Lemma ext_absorb share list n w w' r : absorb_share_key share list n w = (w', r) → vault_ext w w'.
Proof.
  intros Hrun. assert (Hg : w' = w ∨ (nkeys (v_keyring w.2) < nkeys (v_keyring w'.2))%nat ∧
      kr_x25519_secret (v_keyring w'.2) = kr_x25519_secret (v_keyring w.2) ∧
      kr_ed25519_secret (v_keyring w'.2) = kr_ed25519_secret (v_keyring w.2)).
  { revert Hrun. destruct w as [d v]. unfold absorb_share_key, rekey, write_keyring, sbind, slift, sget, sput, self, disk, sret.
    simpl. destruct (absorb_keys share list (v_keyring v)) as [[k|]|] eqn:Ea; simpl; [|intros [= <- <-]; by left..].
    intros [= <- <-]. right. by eapply absorb_keys_grow. }
  destruct (absorb_share_cases _ _ _ _ _ _ Hrun) as [->|(keys & Hl & ->)]; [reflexivity|].
  destruct Hg as [E|Hg]; [rewrite E; reflexivity|]. split; simpl; try done.
  - intros x Hx. exists []. by rewrite app_nil_r.
  - by apply set_longer_grow.
  - intros Hw [_ Hc]. split; [by apply on_disk_with_share | done].
  - by right.
  - intros _ _ E. simpl in Hg. rewrite E in Hg. lia.
Qed.

(** Reopening a vault whose files are in order reads the log with the keys held:
    all of it, or up to the first entry that opens and does not parse. *)
Lemma reopen_on_disk passphrase n w : on_disk w → vault_kek (v_meta w.2) passphrase = Ok (v_kek w.2) →
  match open_entries (v_keyring w.2) (frames_of w) with
  | Ok recs => ∃ w', open_vault passphrase n w.1 = (w'.1, Ok w'.2) ∧ session passphrase w' ∧ refines w' recs ∧
      v_keyring w'.2 = v_keyring w.2 ∧ f_log w'.1 = f_log w.1
  | Err e => open_vault passphrase n w.1 = (w.1, Err e)
  end.
Proof.
  intros [Hk Hm [n' Hf] (data & frames & Hd & Hp & Hsn) Hc] Hkek. destruct w as [d v]. simpl in *.
  set (w0 := (d, mkVault (v_meta v) (v_keyring v) (v_kek v) ∅) : World).
  assert (Hopen : open_vault passphrase n d = let '(w1, r) := replay_log n w0 in (w1.1, res_bind r (λ _, Ok w1.2))).
  { unfold open_vault. rewrite Hm. simpl. rewrite json_round. simpl. rewrite Hkek. simpl. rewrite Hf. simpl.
    rewrite open_seal. simpl. rewrite mp_round. simpl. by rewrite normalize_wf_id. }
  rewrite Hopen. unfold frames_of. simpl. rewrite Hd, Hp.
  destruct (open_entries (v_keyring v) frames) as [recs|e] eqn:Eo.
  - assert (Hl : log_holds w0 frames recs) by (by exists data).
    destruct (replay_log_ok w0 frames recs n) as (w' & Hrun & Hi & Hr & El & Em & Ef & E1 & E2 & E3);
      [done | exact Hm | by exists n' | done | | exact Hl |].
    { intros s fs rs Hs Hl'. destruct (log_holds_fun _ _ _ _ _ Hl Hl') as [<- _]. by apply Hsn. }
    exists w'. rewrite Hrun. split; [done|]. split.
    + split; [done|]. by rewrite E1, E3.
    + split; [done|]. split; [done|]. by rewrite El.
  - assert (Hfold : fold_from_snapshot (v_keyring v) frames
      (read_snapshot d (mkVault (v_meta v) (v_keyring v) (v_kek v) ∅)) = Err e).
    { apply fold_covers_err; [|done]. intros s Hs. by apply Hsn. }
    unfold w0, replay_log, raw_entries, read_file, sbind, slift, sget, self, sput. simpl. rewrite Hd. simpl.
    rewrite Hp. simpl. by rewrite Hfold.
Qed.

Lemma tagged_still w : (raw_entries_tagged w).1 = w.
Proof.
  destruct w as [d v]. unfold raw_entries_tagged, raw_entries, read_file, sbind, slift, sget. simpl.
  destruct (f_log d); simpl; [|done]. by destruct (parse_frames _).
Qed.
End facts.

(* ------------------------------------------------------------------ *)
(** ** Everything a client does *)

(** What a step of a syncing client can do to its state: draw, send, run one
    of a few vault operations.  A relation that allows these steps holds along
    every client action; [vault_ext] is one, a fact of the relay another. *)
Section client_steps.
Context `{Aead} `{Hkdf} `{X25519} `{Ed25519} `{Argon2} `{Bip39} `{Base64} `{HashOrder}.
Context `{MsgPack Keyring} `{MsgPack Rec} `{MsgPack Snapshot} `{JsonText Meta}.
Context `{JsonText EnrollReq} `{JsonText PushReq}.
Context {N : Type} `{RT : Transport N} (rng : Entropy).

Class ClientSteps (R : relation (Client N)) : Prop := {
  steps_preorder :: PreOrder R;
  steps_draw n w k k' : R (mkClient n w k) (mkClient n w k');
  steps_send req n w k : R (mkClient n w k) (mkClient (send req n).1 w k);
  steps_op o n w k : sync_op o → R (mkClient n w k) (mkClient n (run_op o w).1 k);
  steps_absorb share list nonce n w k :
    R (mkClient n w k) (mkClient n (absorb_share_key share list nonce w).1 k)
}.

Context (R : relation (Client N)) `{!ClientSteps R}.
Abbreviation SM := (M (Client N) SyncError).

Definition keeps {A} (m : SM A) : Prop := ∀ c c' r, m c = (c', r) → R c c'.

Lemma keeps_bind {A B} (m : SM A) (k : A → SM B) : keeps m → (∀ a, keeps (k a)) → keeps (sbind m k).
Proof.
  intros Hm Hk c c' r. unfold sbind. destruct (m c) as [c1 [a|e]] eqn:E.
  - intros E'. transitivity c1; [by eapply Hm | by eapply Hk].
  - intros [= <- <-]. by eapply Hm.
Qed.

Lemma keeps_ret {A} (a : A) : keeps (sret a).
Proof. by intros c c' r [= <- _]. Qed.
Lemma keeps_lift {A} (x : res SyncError A) : keeps (slift x).
Proof. by intros c c' r [= <- _]. Qed.
Lemma keeps_the_vault : keeps the_vault.
Proof. by intros c c' r [= <- _]. Qed.
Lemma keeps_fresh {A} (f : nat → A) : keeps (fresh f).
Proof. intros [n w k] c' r [= <- _]. apply steps_draw. Qed.
Lemma keeps_http {A} (parse : Reply → option A) req : keeps (http parse req).
Proof.
  intros [n w k] c' r. unfold http. pose proof (steps_send req n w k) as Hs.
  cbn [c_net c_world c_draws]. destruct (send req n). by intros [= <- _].
Qed.
Lemma keeps_vault {A} (m : VM A) :
  (∀ n w k, R (mkClient n w k) (mkClient n (m w).1 k)) → keeps (vault (N := N) m).
Proof.
  intros Hm [n w k] c' r. unfold vault. specialize (Hm n w k). cbn [c_net c_world c_draws].
  destruct (m w). by intros [= <- _].
Qed.

Lemma keeps_op o : sync_op o → keeps (vault (run_op o)).
Proof. intros Ho. apply keeps_vault. intros. by apply steps_op. Qed.
Lemma keeps_remote id blob : keeps (vault (apply_remote_entry id blob)).
Proof. exact (keeps_op (OpRemote id blob) I). Qed.
Lemma keeps_cursor x : keeps (vault (set_sync_cursor x)).
Proof. exact (keeps_op (OpCursor x) I). Qed.
Lemma keeps_reset : keeps (vault reset_sync_cursor).
Proof. exact (keeps_op OpResetCursor I). Qed.
Lemma keeps_reload n : keeps (vault (reload n)).
Proof. exact (keeps_op (OpReload n) I). Qed.
Lemma keeps_absorb share list n : keeps (vault (absorb_share_key share list n)).
Proof. apply keeps_vault. intros. apply steps_absorb. Qed.
Lemma keeps_absorb_vault list n : keeps (vault (absorb_vault_key_list list n)).
Proof. apply keeps_absorb. Qed.
Lemma keeps_tagged : keeps (vault raw_entries_tagged).
Proof. apply keeps_vault. intros. by rewrite tagged_still. Qed.

Lemma keeps_now : keeps (now_unix rng).
Proof. apply keeps_fresh. Qed.
#[local] Hint Resolve keeps_ret keeps_lift keeps_the_vault keeps_fresh keeps_now keeps_http keeps_remote
  keeps_cursor keeps_reset keeps_reload keeps_absorb keeps_absorb_vault keeps_tagged : keeps.
(** Decompose a client action down to its steps. *)
#[local] Ltac keeps_steps :=
  repeat (first [solve [auto with keeps] | simple apply keeps_bind; [|intros ?] | case_match]).

Lemma keeps_heal_memberships l gained : keeps (heal_memberships rng l gained).
Proof.
  revert gained. induction l as [|m l IH]; intros gained; cbn [heal_memberships]; [auto with keeps|].
  destruct (_ ≫= _); [|apply IH]. destruct (bool_decide _); [apply IH|].
  unfold unwrap_for. keeps_steps; apply IH.
Qed.

Lemma keeps_heal : keeps (heal_shares rng).
Proof.
  unfold heal_shares, signed_get, unwrap_for. keeps_steps.
  apply keeps_heal_memberships.
Qed.

Lemma keeps_pulled have l n : keeps (apply_pulled have l n).
Proof.
  revert n. induction l as [|e l IH]; intros n; cbn [apply_pulled]; [auto with keeps|].
  keeps_steps; apply IH.
Qed.
#[local] Hint Resolve keeps_heal keeps_pulled : keeps.

Lemma keeps_sync_once : keeps (sync_once rng).
Proof. unfold sync_once, post. keeps_steps. Qed.

(** A callback is a step of its own. *)
Context (on_round : Vault → Z → nat → N → N).
Context (Hcall : ∀ n w k v pushed pulled, R (mkClient n w k) (mkClient (on_round v pushed pulled n) w k)).

Lemma keeps_round : keeps (round rng on_round).
Proof.
  unfold round. apply keeps_bind; [auto with keeps|]. intros n. apply keeps_bind; [auto with keeps|].
  intros _ c c' r. destruct (sync_once rng c) as [[n1 w1 k1] [[pushed pulled]|e]] eqn:E;
    pose proof (keeps_sync_once _ _ _ E) as Hs.
  - intros [= <- <-]. etransitivity; [exact Hs | apply Hcall].
  - destruct (transient e); by intros [= <- <-].
Qed.

Lemma keeps_actions l : keeps (run_actions rng on_round l).
Proof.
  induction l as [|[|secs] l IH]; cbn [run_actions]; [auto with keeps | | done].
  apply keeps_bind; [apply keeps_round | done].
Qed.

Lemma keeps_loop d events : keeps (syncd_loop rng on_round d events).
Proof.
  revert d. induction events as [|e events IH]; intros d; cbn [syncd_loop]; [auto with keeps|].
  apply keeps_bind; [auto with keeps|]. intros v.
  destruct (syncd_step _ _ _) as [[actions d']|]; [|apply IH].
  apply keeps_bind; [apply keeps_actions | intros _; apply IH].
Qed.

Lemma keeps_syncd events : keeps (syncd rng on_round events).
Proof.
  unfold syncd. apply keeps_bind; [auto with keeps|]. intros v. apply keeps_bind; [auto with keeps|]. intros _.
  apply keeps_bind; [apply keeps_round | intros _; apply keeps_loop].
Qed.
End client_steps.

(** The vault's side is one such relation. *)
Definition vaults_ext {N : Type} `{Aead} `{MsgPack Keyring} `{MsgPack Rec} `{JsonText Meta} `{MsgPack Snapshot}
  : relation (Client N) := λ c c', vault_ext (c_world c) (c_world c').
#[export] Instance vault_steps `{AeadLaws} `{!AeadCommit} `{MsgPackLaws Keyring} `{MsgPackLaws Rec}
    `{MsgPackLaws Snapshot} `{JsonTextLaws Meta} `{HashOrderLaws} `{Base64} `{Argon2} {N : Type} `{RT : Transport N} :
  ClientSteps (N := N) vaults_ext.
Proof.
  split.
  - unfold vaults_ext. split; [intros c; reflexivity|]. intros c1 c2 c3 Hab Hbc. by apply (transitivity (y := c_world c2)).
  - intros n w k k'. unfold vaults_ext. reflexivity.
  - intros req n w k. unfold vaults_ext. reflexivity.
  - intros o n w k Ho. unfold vaults_ext. simpl. destruct (run_op o w) as [w' r] eqn:E. by eapply ext_sync_op.
  - intros share list nonce n w k. unfold vaults_ext. simpl. destruct (absorb_share_key _ _ _ w) as [w' r] eqn:E. by eapply ext_absorb.
Qed.
