(* ===== verification/SyncRound.v ===== *)
(** * SyncRound: one sync round against the relay's handlers

    The relay of [Relay.v] serves the requests of one client at a time.  A
    round by an approved device that holds its current keys succeeds, and
    exchanges what is missing on either side. *)

From Stdlib Require Import ZArith Lia String.
From S2P Require Import Prelude Text Record Merge Extern Crypto Log Keyring Validate Vault Crud Lifecycle VaultInv CrudFacts VaultProps Proto RelayDb Relay RelayFacts RelayProps Sync SyncFacts.

#[local] Open Scope string_scope.
#[local] Open Scope list_scope.
#[local] Open Scope Z_scope.

(** Two relays that differ in their entries and channels only. *)
Definition same_tables (s s' : Relay) : Prop :=
  t_devices s' = t_devices s ∧ t_members s' = t_members s ∧ t_vaults s' = t_vaults s ∧
  t_shares s' = t_shares s ∧ r_now s' = r_now s.

#[export] Instance same_tables_preorder : PreOrder same_tables.
Proof. split; [done|]. intros s1 s2 s3 (?&?&?&?&?) (?&?&?&?&?). split_and!; congruence. Qed.

Lemma visible_tables s s' k e : t_members s' = t_members s → visible s' k e = visible s k e.
Proof. intros E. unfold visible. by rewrite E. Qed.

(** The head is the number of some entry, or 0. *)
Lemma vault_head_attained v l :
  vault_head v l = 0 ∨ ∃ e, e ∈ l ∧ en_vault e = v ∧ en_seq e = vault_head v l.
Proof.
  induction l as [|x l IH]; [by left|]. cbn [vault_head foldr]. fold (vault_head v l).
  case_decide as Hv.
  - destruct (Z.max_spec (en_seq x) (vault_head v l)) as [[_ ->]|[_ ->]].
    + destruct IH as [->|(e & He & Hve & Hs)]; [by left|]. right. exists e. split; [by constructor | done].
    + right. exists x. split; [constructor | done].
  - destruct IH as [->|(e & He & Hve & Hs)]; [by left|]. right. exists e. split; [by constructor | done].
Qed.

(** Entries appended to a relay are numbered past its heads. *)
Lemma appended_seq s' old new v e :
  db_inv s' → t_entries s' = old ++ new → e ∈ new → vault_head v old < en_seq e.
Proof.
  intros Hinv Hs He. apply list_elem_of_lookup in He as [j Hj].
  assert (Hj' : t_entries s' !! (length old + j)%nat = Some e).
  { rewrite Hs, lookup_app_r by lia. by replace (length old + j - length old)%nat with j by lia. }
  destruct (vault_head_attained v old) as [->|(x & Hx & _ & <-)].
  - by apply (inv_seq _ Hinv _ _ Hj').
  - apply list_elem_of_lookup in Hx as [i Hi].
    assert (i < length old)%nat by (by eapply lookup_lt_Some).
    eapply (inv_order _ Hinv i (length old + j)%nat); [|exact Hj' | lia].
    by rewrite Hs, lookup_app_l.
Qed.

(** Running one handler keeps the relay's invariant. *)
Lemma run_prog_inv burns {A} (p : prog A) s s' a :
  db_inv s → run_prog burns p s = (s', a) → db_inv s'.
Proof.
  revert s. induction p as [x|B st k IH|B st k IH failed _]; intros s Hs; cbn [run_prog]; [by intros [= <- _] | |];
    destruct (exec_stmt burns st s) as [s1 x] eqn:E; apply IH;
    pose proof (exec_stmt_inv burns st s Hs) as Hi; by rewrite E in Hi.
Qed.

Section relay_side.
Context `{Ed25519Laws} `{Base64Laws}.
Context `{JsonText EnrollReq} `{JsonText ApproveReq} `{JsonText RevokeReq} `{JsonText RotateReq}.
Context `{JsonText ShareGrantReq} `{JsonText ShareRotateReq} `{JsonTextLaws PushReq}.
Context (burns : bool).

Lemma reply_run {A} (f : A → Reply) p s :
  run_prog burns (reply f p) s =
  match run_prog burns p s with (s', Ok a) => (s', Ok (f a)) | (s', Err e) => (s', Err e) end.
Proof. unfold reply. rewrite run_hbind. by destruct (run_prog burns p s) as [s' [a|e]]. Qed.

(** The relay verifies what a device signs. *)
Lemma authenticate_signed s v ts body :
  outside_window (r_now s) ts = false →
  authenticate burns (r_now s) (sign v ts body) = Ok (vault_b64 v, ed25519_pub v).
Proof.
  intros Hts. apply authenticate_ok. unfold sign, device_b64, signature_b64. simpl.
  rewrite !b64_round. split_and!; try done; [apply ed_public_valid|].
  eexists. split; [done|]. apply ed_sign_verify.
Qed.

Lemma query_signed v ts action :
  into_signed (signed_query v ts action) action = sign v ts (action +:+ ":" +:+ vault_b64 v).
Proof. done. Qed.

Lemma wrapped_run s v ts row :
  outside_window (r_now s) ts = false →
  t_devices s !! (vault_b64 v, arr_bytes (ed25519_pub v)) = Some row → dr_revoked row = false →
  send (Transport := relay_transport burns) (ReqWrapped (signed_query v ts "wrapped")) s =
  (s, Ok (RepWrapped (mkWrappedResp (dr_approved row) (b64_encode <$> dr_wrapped_key row)
     (match vr_epoch <$> vault_lookup (vault_b64 v) (t_vaults s) with Some e => u32_wrap e | None => 0 end)))).
Proof.
  intros Hts Hrow Hrev. unfold send, relay_transport. cbn [handler]. rewrite reply_run.
  unfold wrapped. rewrite query_signed, run_hbind, verify_run, authenticate_signed by done.
  cbn [run_prog exec_stmt]. rewrite Hrow. cbn [run_prog exec_stmt]. rewrite Hrev. simpl.
  by destruct (vr_epoch <$> _).
Qed.

(** The shares a device is a member of, as the relay lists them. *)
Definition memberships (s : Relay) (v : Vault) : list ShareMembership :=
  (λ row : bytes * bytes * Z,
     mkShareMembership (b64_encode row.1.1) (u32_wrap row.2) (b64_encode row.1.2)) <$>
  (exec_stmt burns (SSelectShares (vault_b64 v) (arr_bytes (ed25519_pub v))) s).2.

Lemma shares_run s v ts :
  outside_window (r_now s) ts = false → may_sync s (vault_b64 v) (ed25519_pub v) = true →
  send (Transport := relay_transport burns) (ReqShares (signed_query v ts "shares")) s =
  (s, Ok (RepShares (mkSharesResp (memberships s v)))).
Proof.
  intros Hts Hm. unfold send, relay_transport. cbn [handler]. rewrite reply_run.
  unfold shares. rewrite query_signed, gated_run, authenticate_signed by done. rewrite Hm. done.
Qed.

Lemma pull_send s v ts since :
  outside_window (r_now s) ts = false → may_sync s (vault_b64 v) (ed25519_pub v) = true →
  send (Transport := relay_transport burns) (ReqPull (pull_query v ts since)) s =
  (s, Ok (RepPull (mkPullResp
     (wire <$> filter (λ e, en_vault e = vault_b64 v ∧ i64_wrap since < en_seq e ∧
                            visible s (arr_bytes (ed25519_pub v)) e = true) (t_entries s))
     (Z.max (u64_wrap (vault_head (vault_b64 v) (t_entries s))) since)))).
Proof.
  intros Hts Hm. unfold send, relay_transport. cbn [handler]. rewrite reply_run, pull_run.
  change (pull_signed (pull_query v ts since)) with (sign v ts ("pull:" +:+ show_int since)).
  rewrite authenticate_signed by done. by rewrite Hm.
Qed.

(** The wire form of a tagged frame decodes to the frame. *)
Lemma decode_wire_entry (e : RawEntry * Uuid) :
  decode_wire (wire_entry e) = Some (arr_bytes e.1.1, e.1.2, arr_bytes e.2).
Proof.
  unfold decode_wire, wire_entry. simpl. rewrite !b64_round. simpl.
  rewrite bool_decide_eq_false_2.
  - by rewrite (proj2 (Nat.eqb_eq _ _)) by apply arr_length.
  - rewrite <-b64_empty. intros E. apply (f_equal b64_decode) in E. rewrite !b64_round in E.
    injection E as E. pose proof (arr_length e.2) as Hl. rewrite E in Hl. done.
Qed.

(** Pushing tagged frames stores exactly the new ones, under their tags. *)
Lemma push_send s v ts local :
  outside_window (r_now s) ts = false → may_sync s (vault_b64 v) (ed25519_pub v) = true → db_inv s →
  ∃ s' new st,
    send (Transport := relay_transport burns)
      (ReqPush (sign v ts (json_to_string (mkPushReq (wire_entry <$> local))))) s =
      (s', Ok (RepPush (mkPushResp (vault_head (vault_b64 v) (t_entries s')) st))) ∧
    db_inv s' ∧ same_tables s s' ∧ t_entries s' = t_entries s ++ new ∧ st = Z.of_nat (length new) ∧
    (∀ e, e ∈ local → has_entry (vault_b64 v) (arr_bytes e.1.1) (t_entries s')) ∧
    (∀ x, x ∈ new → en_vault x = vault_b64 v ∧ ∃ e, e ∈ local ∧
       en_id x = arr_bytes e.1.1 ∧ en_blob x = e.1.2 ∧ en_share x = arr_bytes e.2) ∧
    ((∀ e, e ∈ local → has_entry (vault_b64 v) (arr_bytes e.1.1) (t_entries s)) → new = []).
Proof.
  intros Hts Hm Hinv. destruct (send _ s) as [s' r] eqn:Hsend.
  unfold send, relay_transport in Hsend. cbn [handler] in Hsend.
  destruct (run_prog burns (reply RepPush _) s) as [s1 r1] eqn:Hrun. injection Hsend as <- <-.
  pose proof (run_prog_inv _ _ _ _ _ Hinv Hrun) as Hinv'.
  rewrite reply_run, push_run, authenticate_signed, Hm in Hrun by done.
  change (sg_body (sign _ _ ?b)) with b in Hrun. rewrite json_round in Hrun. cbn [push_entries] in Hrun.
  destruct (run_prog burns (push_all _ _ 0) s) as [s2 [n|e]] eqn:Hpush;
    destruct (push_all_run burns _ _ _ _ _ _ Hpush) as (new & En & Hs2 & Hnew & Hr).
  2: { destruct Hr as (_ & w & Hw & Hd). apply list_elem_of_fmap in Hw as (e' & -> & _).
       by rewrite decode_wire_entry in Hd. }
  destruct Hr as (-> & Hall & Hnone). injection Hrun as <- <-.
  destruct (notify_all_tables burns (vault_b64 v) (vault_head (vault_b64 v) (t_entries s2)) (0 + Z.of_nat (length new)) s2)
    as (E1 & E2 & E3 & E4 & E5 & E6).
  exists (notify_all burns (vault_b64 v) (vault_head (vault_b64 v) (t_entries s2)) (0 + Z.of_nat (length new)) s2),
    new, (0 + Z.of_nat (length new)).
  rewrite E1. split_and!; try done.
  - split_and!; rewrite ?E2, ?E3, ?E4, ?E5, ?E6, Hs2; done.
  - intros e He. destruct (Hall (wire_entry e)) as (d & Hd & Hh); [by apply list_elem_of_fmap_2|].
    rewrite decode_wire_entry in Hd. by injection Hd as <-.
  - intros x Hx. destruct (Hnew x Hx) as (Hv & w & Hw & Hd). split; [done|].
    apply list_elem_of_fmap in Hw as (e & -> & He). exists e. rewrite decode_wire_entry in Hd.
    injection Hd as Hid Hb Hsh. by split_and!.
  - intros Hpre. apply Hnone. intros w d Hw Hd. apply list_elem_of_fmap in Hw as (e & -> & He).
    rewrite decode_wire_entry in Hd. injection Hd as <-. by apply Hpre.
Qed.
End relay_side.

(* ------------------------------------------------------------------ *)
(** ** The client's side *)

Section client_side.
Context `{AeadLaws} `{!AeadCommit} `{MsgPackLaws Keyring} `{MsgPackLaws Rec}.
Context `{MsgPackLaws Snapshot} `{JsonTextLaws Meta} `{HashOrderLaws}.
Context `{Ed25519Laws} `{Base64Laws} `{Argon2} `{X25519} `{Hkdf} `{Bip39}.
Context `{JsonText EnrollReq} `{JsonText ApproveReq} `{JsonText RevokeReq} `{JsonText RotateReq}.
Context `{JsonText ShareGrantReq} `{JsonText ShareRotateReq} `{JsonTextLaws PushReq}.
Context (burns : bool) (rng : Entropy).

(** A sync against this relay. *)
Definition relay_sync : M (Client Relay) SyncError (Z * nat) :=
  sync_once (RT := relay_transport burns) rng.

(** A membership with nothing to absorb. *)
Definition healed_membership (k : Keyring) (m : ShareMembership) : Prop :=
  ∀ b share, b64_decode (sm_share_b64 m) = Some b → try_into 16 b = Some share →
    share = uuid_nil ∨ has_share k share = true ∧ sm_epoch m ≤ share_epoch k share.

(** The device holds every key the relay could hand it. *)
Definition epoch_current (s : Relay) (v : Vault) : Prop :=
  ∀ row, vault_lookup (vault_b64 v) (t_vaults s) = Some row → u32_wrap (vr_epoch row) ≤ epoch v.
Definition keys_current (s : Relay) (v : Vault) : Prop :=
  epoch_current s v ∧ Forall (healed_membership (v_keyring v)) (memberships burns s v).

Lemma heal_memberships_skip l1 l2 g (c : Client Relay) :
  Forall (healed_membership (v_keyring (c_world c).2)) l1 →
  heal_memberships rng (l1 ++ l2) g c = heal_memberships rng l2 g c.
Proof.
  induction 1 as [|m l1 Hm _ IH]; [done|]. cbn [app heal_memberships].
  destruct (b64_decode (sm_share_b64 m)) as [b|] eqn:Eb; simpl; [|exact IH].
  destruct (try_into 16 b) as [share|] eqn:Es; simpl; [|exact IH].
  case_bool_decide as Hnil; [exact IH|]. destruct (Hm b share Eb Es) as [|[Hh He]]; [done|].
  unfold sbind at 1, the_vault, sget. rewrite Hh. simpl.
  destruct (Z.ltb_spec (share_epoch (v_keyring (c_world c).2) share) (sm_epoch m)); [lia | exact IH].
Qed.

Lemma heal_memberships_noop l g (c : Client Relay) :
  Forall (healed_membership (v_keyring (c_world c).2)) l → heal_memberships rng l g c = (c, Ok g).
Proof. intros Hl. by rewrite <- (app_nil_r l), heal_memberships_skip. Qed.

Lemma share_epoch_nonneg k id : 0 ≤ share_epoch k id.
Proof. unfold share_epoch. destruct (share k id); [|done]. unfold u32_wrap. apply Z.mod_pos_bound. lia. Qed.

(** Healing a device whose default share is current: its memberships. *)
Lemma heal_named s w n :
  (∀ k, outside_window (r_now s) (e_now rng k) = false) →
  may_sync s (vault_b64 w.2) (ed25519_pub w.2) = true → epoch_current s w.2 →
  heal_shares (RT := relay_transport burns) rng (mkClient s w n) =
  heal_memberships rng (memberships burns s w.2) false (mkClient s w (2 + n)%nat).
Proof.
  intros Hclock Hm Hep. pose proof Hm as Hm'. unfold may_sync in Hm'.
  destruct (t_devices s !! _) as [row|] eqn:Hrow; [|done]. apply andb_prop in Hm' as [Hap Hrev].
  apply negb_true_iff in Hrev.
  unfold heal_shares, signed_get, sbind, the_vault, sget, now_unix, fresh, http. cbn [c_net c_world c_draws].
  rewrite (wrapped_run burns s w.2 (e_now rng n) row) by done. simpl.
  assert (Hlt : epoch w.2 <? match vr_epoch <$> vault_lookup (vault_b64 w.2) (t_vaults s) with
                             | Some e => u32_wrap e | None => 0 end = false).
  { apply Z.ltb_ge. destruct (vault_lookup _ _) as [x|] eqn:E; simpl; [by apply Hep | apply share_epoch_nonneg]. }
  rewrite Hlt. simpl. by rewrite (shares_run burns s w.2 (e_now rng (S n))) by done.
Qed.

(** Healing is a no-op for a device that is current. *)
Lemma heal_noop s w n :
  (∀ k, outside_window (r_now s) (e_now rng k) = false) →
  may_sync s (vault_b64 w.2) (ed25519_pub w.2) = true → keys_current s w.2 →
  heal_shares (RT := relay_transport burns) rng (mkClient s w n) = (mkClient s w (2 + n)%nat, Ok false).
Proof.
  intros Hclock Hm [Hep Hmem]. rewrite heal_named by done. by apply heal_memberships_noop.
Qed.

(** Applying a list of frames. *)
Definition absorb_frames (fs : list RawEntry) (w : World) : World :=
  foldl (λ w f, exec (apply_remote_entry f.1 f.2) w) w fs.

(** The frames among pulled entries that are not held yet. *)
Definition fresh_frames (have : list (arr 16)) (l : list (arr 16 * Entry)) : list RawEntry :=
  omap (λ p : arr 16 * Entry, if decide (p.1 ∈ have) then None else Some (p.1, en_blob p.2)) l.

Lemma apply_remote_ok eid blob w o data :
  f_meta w.1 = Some (json_to_string (v_meta w.2)) → f_log w.1 = Some data →
  open_entry (v_keyring w.2) eid blob = Ok o →
  ∃ w', apply_remote_entry eid blob w = (w', Ok tt) ∧
    f_meta w'.1 = Some (json_to_string (v_meta w'.2)) ∧ f_log w'.1 = Some (data ++ frame eid blob) ∧
    v_keyring w'.2 = v_keyring w.2 ∧ vault_id (v_meta w'.2) = vault_id (v_meta w.2) ∧
    relay_url (v_meta w'.2) = relay_url (v_meta w.2) ∧ sync_cursor (v_meta w'.2) = sync_cursor (v_meta w.2).
Proof.
  intros Hm Hd Ho. rewrite apply_remote_eq by done. rewrite Ho, Hd.
  eexists. split; [done|]. simpl. split_and!; try done; unfold observe; destruct o; try done; by case_match.
Qed.

(** The pull loop applies exactly the frames not held. *)
Lemma apply_pulled_run (s : Relay) have l : ∀ w n k data,
  f_meta w.1 = Some (json_to_string (v_meta w.2)) → f_log w.1 = Some data →
  (∀ p, p ∈ l → arr_bytes p.1 = en_id p.2 ∧ ∃ o, open_entry (v_keyring w.2) p.1 (en_blob p.2) = Ok o) →
  apply_pulled have (wire ∘ snd <$> l) n (mkClient s w k) =
    (mkClient s (absorb_frames (fresh_frames have l) w) k, Ok (n + length (fresh_frames have l))%nat).
Proof.
  induction l as [|[id e] l IH]; intros w n k data Hm Hd Hl.
  { cbn. by rewrite Nat.add_0_r. }
  destruct (Hl (id, e)) as [Hid [o Ho]]; [constructor|]. simpl in Hid, Ho.
  cbn [fmap list_fmap apply_pulled compose snd]. unfold sbind at 1, slift, decode16. simpl.
  rewrite b64_round. simpl. rewrite <-Hid, try_into_bytes. simpl.
  unfold fresh_frames. simpl. destruct (decide (id ∈ have)) as [Hin|Hin].
  - rewrite bool_decide_eq_true_2 by done. apply (IH _ _ _ data); try done.
    intros p Hp. apply Hl. by constructor.
  - rewrite bool_decide_eq_false_2 by done. unfold sbind at 1. rewrite b64_round. simpl.
    unfold sbind at 1, vault. simpl.
    destruct (apply_remote_ok id (en_blob e) w o data Hm Hd Ho) as (w' & Hrun & Hm' & Hd' & Hk & _).
    rewrite Hrun. simpl. rewrite (IH w' _ _ _ Hm' Hd'); [|intros p Hp; rewrite Hk; apply Hl; by constructor].
    unfold absorb_frames, fresh_frames, exec. simpl. rewrite Hrun. simpl. do 2 f_equal. lia.
Qed.

(** The share a frame is pushed under. *)
Definition tag_of (k : Keyring) (f : RawEntry) : Uuid :=
  match open_entry k f.1 f.2 with Ok (Some r) => rec_share_id r | _ => uuid_nil end.

Lemma tag_entries_ok k frames recs :
  open_entries k frames = Ok recs → tag_entries k frames = Ok ((λ f, (f, tag_of k f)) <$> frames).
Proof.
  revert recs. induction frames as [|[id blob] frames IH]; intros recs; simpl; [done|].
  unfold tag_of at 1. simpl. destruct (open_entry k id blob) as [o|]; simpl; [|done].
  destruct (open_entries k frames) as [rs|]; simpl; [|done]. intros _. rewrite (IH rs) by done. simpl.
  by destruct o.
Qed.

(** Applying readable frames, in a world in order. *)
Lemma absorb_frames_meta fs : ∀ w data,
  f_meta w.1 = Some (json_to_string (v_meta w.2)) → f_log w.1 = Some data →
  (∀ f, f ∈ fs → ∃ o, open_entry (v_keyring w.2) f.1 f.2 = Ok o) →
  let w' := absorb_frames fs w in
  f_meta w'.1 = Some (json_to_string (v_meta w'.2)) ∧ log_ext w w' ∧
  vault_id (v_meta w'.2) = vault_id (v_meta w.2) ∧ v_keyring w'.2 = v_keyring w.2 ∧
  relay_url (v_meta w'.2) = relay_url (v_meta w.2) ∧ sync_cursor (v_meta w'.2) = sync_cursor (v_meta w.2).
Proof.
  induction fs as [|[id blob] fs IH]; intros w data Hm Hd Hfs; cbv zeta.
  { split_and!; try done. intros d. by apply log_same. }
  destruct (Hfs (id, blob)) as [o Ho]; [constructor|]. simpl in Ho.
  destruct (apply_remote_ok id blob w o data Hm Hd Ho) as (w1 & Hrun & Hm1 & Hd1 & Hk1 & Hi1 & Hu1 & Hc1).
  destruct (IH w1 _ Hm1 Hd1) as (Hm2 & Hl2 & Hi2 & Hk2 & Hu2 & Hc2).
  { intros f Hf. rewrite Hk1. apply Hfs. by constructor. }
  assert (E : absorb_frames ((id, blob) :: fs) w = absorb_frames fs w1).
  { unfold absorb_frames, exec. simpl. by rewrite Hrun. }
  rewrite E. split_and!; try congruence.
  intros x Hx. rewrite Hd in Hx. injection Hx as <-. destruct (Hl2 _ Hd1) as [more Hmore].
  exists (frame id blob ++ more). by rewrite app_assoc.
Qed.

(** Applying readable frames appends them to the log. *)
Lemma absorb_frames_kept fs : ∀ w,
  vault_inv w → (∀ f, f ∈ fs → ∃ o, open_entry (v_keyring w.2) f.1 f.2 = Ok o) →
  log_small (absorb_frames fs w).1 →
  kept w (absorb_frames fs w) ∧ frames_of (absorb_frames fs w) = frames_of w ++ fs.
Proof.
  induction fs as [|[id blob] fs IH]; intros w Hw Hfs Hs.
  { split; [by apply kept_refl | by rewrite app_nil_r]. }
  destruct (Hfs (id, blob)) as [o Ho]; [constructor|]. simpl in Ho.
  destruct (inv_log _ Hw) as [recs [[frames Hl] _]]. pose proof Hl as (data & Hd & Hp & _).
  destruct (apply_remote_ok id blob w o data (inv_meta _ Hw) Hd Ho) as (w1 & Hrun & Hm1 & Hd1 & Hk1 & _).
  assert (E : absorb_frames ((id, blob) :: fs) w = absorb_frames fs w1).
  { unfold absorb_frames, exec. simpl. by rewrite Hrun. }
  rewrite E in *. assert (Hfs' : ∀ f, f ∈ fs → ∃ o, open_entry (v_keyring w1.2) f.1 f.2 = Ok o).
  { intros f Hf. rewrite Hk1. apply Hfs. by constructor. }
  assert (Hs1 : log_small w1.1).
  { eapply log_ext_small; [|exact Hs]. by eapply (absorb_frames_meta fs w1). }
  assert (Hkept : kept w w1) by (apply vault_step_kept; [done|]; exists (OpRemote id blob), (Ok tt); done).
  destruct (IH w1 (kept_inv _ _ Hkept) Hfs' Hs) as [Hk2 Hf2].
  split; [by eapply kept_trans|]. rewrite Hf2.
  assert (frames_of w1 = frames_of w ++ [(id, blob)]) as ->; [|by rewrite <-app_assoc].
  unfold frames_of. rewrite Hd1, Hd, Hp.
  rewrite (parse_frames_append _ frames) by (try done; by eapply log_small_fits). done.
Qed.

(** The device has everything up to its cursor that it may see. *)
Definition may_see (s : Relay) (v : Vault) (e : Entry) : Prop :=
  e ∈ t_entries s ∧ en_vault e = vault_b64 v ∧ visible s (arr_bytes (ed25519_pub v)) e = true.
Definition holds_entry (w : World) (e : Entry) : Prop := ∃ f, f ∈ frames_of w ∧ arr_bytes f.1 = en_id e.
Definition caught_up (s : Relay) (w : World) : Prop :=
  0 ≤ sync_cursor (v_meta w.2) ≤ vault_head (vault_b64 w.2) (t_entries s) ∧
  ∀ e, may_see s w.2 e → en_seq e ≤ sync_cursor (v_meta w.2) → holds_entry w e.

(** What a round needs: a configured, approved device within the clock window,
    holding its keys, and entries on the relay that it can take in. *)
Record ready (s : Relay) (w : World) : Prop := {
  rd_inv : vault_inv w;
  rd_url : is_Some (relay_url (v_meta w.2));
  rd_clock : ∀ k, outside_window (r_now s) (e_now rng k) = false;
  rd_auth : may_sync s (vault_b64 w.2) (ed25519_pub w.2) = true;
  rd_keys : keys_current s w.2;
  rd_entries : ∀ e, may_see s w.2 e →
    ∃ id : arr 16, arr_bytes id = en_id e ∧ ∃ o, open_entry (v_keyring w.2) id (en_blob e) = Ok o;
  rd_cursor : caught_up s w
}.

(** What a round does. *)
Record exchanged (s : Relay) (w : World) (s' : Relay) (w' : World) : Prop := {
  ex_inv : db_inv s';
  ex_tables : same_tables s s';
  ex_kept : kept w w';
  ex_url : relay_url (v_meta w'.2) = relay_url (v_meta w.2);
  ex_stored : ∃ new, t_entries s' = t_entries s ++ new ∧
    (∀ x, x ∈ new → en_vault x = vault_b64 w.2 ∧ ∃ f, f ∈ frames_of w ∧
       en_id x = arr_bytes f.1 ∧ en_blob x = f.2 ∧ en_share x = arr_bytes (tag_of (v_keyring w.2) f)) ∧
    ((∀ f, f ∈ frames_of w → has_entry (vault_b64 w.2) (arr_bytes f.1) (t_entries s)) → new = []);
  ex_pushed : ∀ f, f ∈ frames_of w → has_entry (vault_b64 w.2) (arr_bytes f.1) (t_entries s');
  ex_pulled : ∃ got, frames_of w' = frames_of w ++ got ∧
    ∀ f, f ∈ got → ∃ e, may_see s' w.2 e ∧ en_id e = arr_bytes f.1 ∧ en_blob e = f.2;
  ex_complete : ∀ e, may_see s' w.2 e → holds_entry w' e;
  ex_cursor : sync_cursor (v_meta w'.2) = vault_head (vault_b64 w.2) (t_entries s')
}.

(** Pair entries with their ids as arrays. *)
Lemma entry_ids (l : list Entry) :
  (∀ e, e ∈ l → ∃ id : arr 16, arr_bytes id = en_id e) →
  ∃ ps : list (arr 16 * Entry), l = snd <$> ps ∧ ∀ p, p ∈ ps → arr_bytes p.1 = en_id p.2.
Proof.
  induction l as [|e l IH]; intros Hl; [exists []; by split; [|intros p ?%not_elem_of_nil]|].
  destruct (Hl e) as [id Hid]; [constructor|].
  destruct IH as (ps & -> & Hps); [intros x Hx; apply Hl; by constructor|].
  exists ((id, e) :: ps). split; [done|]. intros p [->|Hp]%elem_of_cons; auto.
Qed.

Lemma fresh_frames_elem have ps f :
  f ∈ fresh_frames have ps ↔ f.1 ∉ have ∧ ∃ e, (f.1, e) ∈ ps ∧ en_blob e = f.2.
Proof.
  unfold fresh_frames. rewrite list_elem_of_omap. split.
  - intros ([id e] & Hp & Hf). simpl in Hf. case_decide; [done|]. injection Hf as <-. eauto.
  - intros (Hn & e & Hp & Hb). exists (f.1, e). split; [done|]. simpl. rewrite decide_False by done.
    rewrite Hb. by destruct f.
Qed.

(** The first half of a round: the keys healed, and the cursor rewound when a
    share was gained. *)
Record heals (s : Relay) (w : World) (n : nat) (w1 : World) (n1 : nat) (gained : bool) (wp : World) : Prop := {
  hl_url : is_Some (relay_url (v_meta w.2));
  hl_run : heal_shares (RT := relay_transport burns) rng (mkClient s w n) = (mkClient s w1 n1, Ok gained);
  hl_rewind : (if gained then reset_sync_cursor w1 else (w1, Ok tt)) = (wp, Ok tt);
  hl_log : f_log wp.1 = f_log w1.1;
  hl_keyring : v_keyring wp.2 = v_keyring w1.2;
  hl_vault : vault_id (v_meta wp.2) = vault_id (v_meta w1.2)
}.

Lemma heals_noop s w n : ready s w → heals s w n w (2 + n) false w.
Proof.
  intros [Hw Hurl Hclock Hm Hkeys Hent Hcur]. split; try done. by apply heal_noop.
Qed.

(** A round up to the point where it has the entries pulled. *)
Lemma sync_steps s w n w1 n1 gained wp local s1 head st es head' :
  heals s w n w1 n1 gained wp → raw_entries_tagged wp = (wp, Ok local) →
  send (Transport := relay_transport burns)
    (ReqPush (sign wp.2 (e_now rng n1) (json_to_string (mkPushReq (wire_entry <$> local))))) s =
    (s1, Ok (RepPush (mkPushResp head st))) →
  send (Transport := relay_transport burns)
    (ReqPull (pull_query wp.2 (e_now rng (S n1)) (sync_cursor (v_meta wp.2)))) s1 =
    (s1, Ok (RepPull (mkPullResp es head'))) →
  relay_sync (mkClient s w n) =
  sbind (apply_pulled ((λ e, e.1.1) <$> local) es 0) (λ pulled,
    sbind (vault (set_sync_cursor head')) (λ _, sret (st, pulled))) (mkClient s1 wp (2 + n1)%nat).
Proof.
  intros [[url Hurl] Hheal Hrew Elog Ekr Eid] Htag Hpush Hpull.
  assert (Htag1 : raw_entries_tagged w1 = (w1, Ok local)).
  { destruct wp as [dp vp], w1 as [d1 v1]. unfold raw_entries_tagged, raw_entries, read_file, sbind, slift, sget in *.
    simpl in *. rewrite <- Elog. destruct (f_log dp); simpl in *; [|done].
    destruct (parse_frames _); simpl in *; [|done]. rewrite Ekr in Htag. by injection Htag as ->. }
  assert (Esign : ∀ ts body, sign wp.2 ts body = sign w1.2 ts body).
  { intros ts body. unfold sign, vault_b64, device_b64, signature_b64, ed25519_pub. by rewrite Ekr, Eid. }
  rewrite Esign in Hpush. unfold relay_sync, sync_once.
  unfold sbind at 1, the_vault at 1, sget at 1. cbn [c_world].
  unfold sbind at 1, slift at 1. rewrite Hurl. cbn [ok_or].
  unfold sbind at 1. rewrite Hheal.
  unfold sbind at 1, vault at 1. cbn [c_world]. rewrite Htag1. cbn [res_map_err c_net c_draws].
  unfold sbind at 1, post, sbind at 1 2, the_vault at 1, sget at 1, now_unix at 1, fresh at 1, http at 1.
  cbn [c_world c_draws c_net]. rewrite Hpush. cbn [res_bind as_push ok_or].
  assert (Hreset : (if gained then vault reset_sync_cursor else sret tt) (mkClient s1 w1 (S n1)) =
    (mkClient s1 wp (S n1), Ok tt)).
  { destruct gained; [unfold vault; cbn [c_world c_net c_draws]; by rewrite Hrew|]. by injection Hrew as ->. }
  unfold sbind at 1. rewrite Hreset. unfold sbind at 1, the_vault at 1, sget at 1. cbn [c_world].
  unfold sbind at 1, now_unix at 1, fresh at 1. cbn [c_world c_draws c_net].
  unfold sbind at 1, http at 1. cbn [c_world c_draws c_net].
  rewrite Hpull. reflexivity.
Qed.

(** The run of a round, step by step. *)
Lemma round_run s w0 n w1 n1 gained w : db_inv s → heals s w0 n w1 n1 gained w → ready s w →
  ∃ s' new k ps,
    let fs := fresh_frames (fst <$> frames_of w) ps in
    relay_sync (mkClient s w0 n) =
      (mkClient s' (set_meta (with_cursor (Z.max (sync_cursor (v_meta w.2))
         (Z.max (u64_wrap (vault_head (vault_b64 w.2) (t_entries s'))) (sync_cursor (v_meta w.2))))
         (v_meta (absorb_frames fs w).2)) (absorb_frames fs w)) k, Ok (Z.of_nat (length new), length fs)) ∧
    db_inv s' ∧ same_tables s s' ∧ t_entries s' = t_entries s ++ new ∧
    (∀ f, f ∈ frames_of w → has_entry (vault_b64 w.2) (arr_bytes f.1) (t_entries s')) ∧
    (∀ x, x ∈ new → en_vault x = vault_b64 w.2 ∧ ∃ f, f ∈ frames_of w ∧
       en_id x = arr_bytes f.1 ∧ en_blob x = f.2 ∧ en_share x = arr_bytes (tag_of (v_keyring w.2) f)) ∧
    ((∀ f, f ∈ frames_of w → has_entry (vault_b64 w.2) (arr_bytes f.1) (t_entries s)) → new = []) ∧
    (∀ p, p ∈ ps → arr_bytes p.1 = en_id p.2 ∧ ∃ o, open_entry (v_keyring w.2) p.1 (en_blob p.2) = Ok o) ∧
    filter (λ e, en_vault e = vault_b64 w.2 ∧ i64_wrap (sync_cursor (v_meta w.2)) < en_seq e ∧
                 visible s' (arr_bytes (ed25519_pub w.2)) e = true) (t_entries s') = snd <$> ps.
Proof.
  intros Hdb Hheal [Hw _ Hclock Hm Hkeys Hent Hcur].
  destruct (inv_log _ Hw) as [recs [[frames Hl] _]].
  pose proof (frames_of_holds _ _ _ Hl) as Hf. pose proof Hl as (data & Hd & Hp & Ho).
  set (local := (λ f, (f, tag_of (v_keyring w.2) f)) <$> frames).
  assert (Hloc : ∀ f, f ∈ frames ↔ ∃ e, e ∈ local ∧ e.1 = f).
  { intros f. unfold local. split; [intros Hin; eexists; split; [by apply list_elem_of_fmap_2 | done]|].
    intros (e & (x & -> & Hx)%list_elem_of_fmap & <-). done. }
  destruct (push_send burns s w.2 (e_now rng n1) local) as
    (s' & new & st & Hpush & Hdb' & Htab & En & -> & Hall & Hnew & Hnone); [done..|].
  destruct Htab as (Td & Tm & Tv & Ts & Tn).
  assert (Hm' : may_sync s' (vault_b64 w.2) (ed25519_pub w.2) = true) by (unfold may_sync; by rewrite Td).
  pose proof (pull_send burns s' w.2 (e_now rng (S n1)) (sync_cursor (v_meta w.2))) as Hpull.
  rewrite Tn in Hpull. specialize (Hpull (Hclock _) Hm').
  set (L := filter _ (t_entries s')) in Hpull.
  assert (Hopen : ∀ e, e ∈ L → ∃ id : arr 16, arr_bytes id = en_id e ∧
    ∃ o, open_entry (v_keyring w.2) id (en_blob e) = Ok o).
  { intros e [(Hv & _ & Hvis) He]%list_elem_of_filter. rewrite En in He. apply elem_of_app in He as [He|He].
    - apply Hent. split_and!; [done..|]. by rewrite <-(visible_tables s s').
    - destruct (Hnew e He) as (_ & [f t] & Ht & Hid & Hb & _). exists f.1. split; [done|].
      rewrite Hb. eapply open_entries_in; [exact Ho|]. apply Hloc. by eexists. }
  destruct (entry_ids L) as (ps & HL & Hps).
  { intros e (id & Hid & _)%Hopen. eauto. }
  assert (Hps' : ∀ p, p ∈ ps → arr_bytes p.1 = en_id p.2 ∧
    ∃ o, open_entry (v_keyring w.2) p.1 (en_blob p.2) = Ok o).
  { intros p Hp'. split; [by apply Hps|]. destruct (Hopen p.2) as (id & Hid & Hop).
    - rewrite HL. by apply list_elem_of_fmap_2.
    - assert (id = p.1) as -> by (apply arr_eq; rewrite Hid; symmetry; by apply Hps). done. }
  rewrite Hf. exists s', new, (2 + n1)%nat, ps. split; cbv zeta.
  - assert (Htag : raw_entries_tagged w = (w, Ok local)).
    { destruct w as [d v]. unfold raw_entries_tagged, raw_entries, read_file, sbind, slift, sget. simpl in *.
      rewrite Hd. simpl. rewrite Hp. simpl. by rewrite (tag_entries_ok _ _ _ Ho). }
    rewrite (sync_steps s w0 n w1 n1 gained w local s' _ _ _ _ Hheal Htag Hpush Hpull).
    rewrite HL, <-list_fmap_compose. unfold local at 1. rewrite <-list_fmap_compose.
    unfold sbind at 1.
    match goal with |- context [apply_pulled ?h _ _ _] => replace h with (fst <$> frames) by done end.
    rewrite (apply_pulled_run s' _ ps w 0 _ data) by (done || apply Hw).
    unfold sbind at 1, vault at 1. cbn [c_world c_draws c_net].
    destruct (absorb_frames_meta (fresh_frames (fst <$> frames) ps) w data) as (Hm1 & _ & _ & _ & _ & Hc1).
    { apply Hw. } { done. }
    { intros f (_ & e & Hpe & Hb)%fresh_frames_elem. destruct (Hps' _ Hpe) as [_ Hop]. simpl in Hop. by rewrite <-Hb. }
    unfold set_sync_cursor.
    rewrite (update_meta_eq (λ m, with_cursor (Z.max (sync_cursor m) _) m)) by done.
    cbn [res_map_err c_net c_draws]. unfold sret. rewrite Hc1. cbn [stored]. by rewrite Nat.add_0_l.
  - split_and!; try done.
    + intros f Hin. apply Hloc in Hin as (e & He & <-). by apply Hall.
    + intros x Hx. destruct (Hnew x Hx) as (Hv & e & He & Hid & Hb & Hsh). split; [done|].
      unfold local in He. apply list_elem_of_fmap in He as (f & -> & Hin). exists f. by split_and!.
    + intros Hpre. apply Hnone. intros e He. apply Hpre. apply Hloc. by exists e.
Qed.

Lemma vault_head_app v l k : vault_head v l ≤ vault_head v (l ++ k).
Proof.
  destruct (vault_head_attained v l) as [->|(e & He & Hv & <-)].
  - unfold vault_head. induction (l ++ k) as [|x m IH]; simpl; [done|]. case_decide; lia.
  - apply vault_head_ub; [|done]. apply elem_of_app. by left.
Qed.

(** A round by a device that is ready once healed succeeds and exchanges
    everything. *)
Lemma round_healed s w0 n w1 n1 gained w : db_inv s → heals s w0 n w1 n1 gained w → ready s w →
  ∃ s' w' k st pl, relay_sync (mkClient s w0 n) = (mkClient s' w' k, Ok (st, pl)) ∧
    (log_small w'.1 → t_sequence s' ≤ i64_max → exchanged s w s' w').
Proof.
  intros Hdb Hheal Hready.
  destruct (round_run s w0 n w1 n1 gained w Hdb Hheal Hready) as (s' & new & k & ps & Hrun & Hdb' & Htab & En & Hpush & Hnew & Hnone & Hps & HL).
  set (fs := fresh_frames (fst <$> frames_of w) ps) in *. cbv zeta in Hrun.
  eexists s', _, k, _, _. split; [exact Hrun|]. intros Hs Hseq.
  destruct Hready as [Hw Hurl Hclock Hm Hkeys Hent [Hcur Hcaught]].
  assert (Hopen : ∀ f, f ∈ fs → ∃ o, open_entry (v_keyring w.2) f.1 f.2 = Ok o).
  { intros f (_ & e & Hpe & Hb)%fresh_frames_elem. destruct (Hps _ Hpe) as [_ Hop]. simpl in Hop. by rewrite <-Hb. }
  simpl in Hs. destruct (absorb_frames_kept fs w Hw Hopen Hs) as [Hkept Hfr].
  destruct (inv_log _ Hw) as [recs [[frames (data & Hd & _)] _]].
  destruct (absorb_frames_meta fs w data (inv_meta _ Hw) Hd Hopen) as (Hm1 & _ & Hi1 & Hk1 & Hu1 & Hc1).
  pose proof (vault_head_range s' (vault_b64 w.2) Hdb') as Hhr.
  rewrite u64_wrap_small by (unfold u64_max, i64_max in *; lia).
  set (h := vault_head (vault_b64 w.2) (t_entries s')) in *.
  assert (Hle : sync_cursor (v_meta w.2) ≤ h).
  { transitivity (vault_head (vault_b64 w.2) (t_entries s)); [lia|]. unfold h. rewrite En. apply vault_head_app. }
  replace (Z.max (sync_cursor (v_meta w.2)) (Z.max h (sync_cursor (v_meta w.2)))) with h by lia.
  set (w' := set_meta _ _).
  assert (Hfr' : frames_of w' = frames_of w ++ fs) by (rewrite <-Hfr; done).
  rewrite i64_wrap_small in HL by (unfold i64_min, i64_max in *; lia).
  assert (Hsee : ∀ e, e ∈ snd <$> ps ↔ may_see s' w.2 e ∧ sync_cursor (v_meta w.2) < en_seq e).
  { intros e. rewrite <-HL, list_elem_of_filter. unfold may_see. naive_solver. }
  split; try done.
  - eapply kept_trans; [exact Hkept|]. apply kept_set_meta; [apply Hkept | done |].
    simpl. apply (inv_lamport _ (kept_inv _ _ Hkept)).
  - exists new. by split_and!.
  - exists fs. split; [done|]. intros f (_ & e & Hpe & Hb)%fresh_frames_elem.
    destruct (Hps _ Hpe) as [Hid _]. simpl in Hid. exists e. split_and!; [|done..].
    apply Hsee. by apply (list_elem_of_fmap_2 snd ps (f.1, e)).
  - intros e He. destruct (Z.leb_spec (en_seq e) (sync_cursor (v_meta w.2))) as [Hle'|Hgt].
    + destruct He as (Hin & Hv & Hvis). rewrite En in Hin. apply elem_of_app in Hin as [Hin|Hin].
      * destruct (Hcaught e) as (f & Hf & Hid); [|done|].
        { split_and!; [done..|]. rewrite <-(visible_tables s s'); [done | apply Htab]. }
        exists f. split; [|done]. rewrite Hfr'. apply elem_of_app. by left.
      * pose proof (appended_seq s' _ _ (vault_b64 w.2) e Hdb' En Hin). lia.
    + assert (Hp : e ∈ snd <$> ps) by by apply Hsee.
      apply list_elem_of_fmap in Hp as ([id e'] & -> & Hp). destruct (Hps _ Hp) as [Hid _]. simpl in *.
      destruct (decide (id ∈ fst <$> frames_of w)) as [Hin|Hin].
      * apply list_elem_of_fmap in Hin as (f & -> & Hf). exists f. split; [|done].
        rewrite Hfr'. apply elem_of_app. by left.
      * exists (id, en_blob e'). split; [|done]. rewrite Hfr'. apply elem_of_app. right.
        apply fresh_frames_elem. simpl. eauto.
Qed.

Lemma round_ok s w n : db_inv s → ready s w →
  ∃ s' w' k st pl, relay_sync (mkClient s w n) = (mkClient s' w' k, Ok (st, pl)) ∧
    (log_small w'.1 → t_sequence s' ≤ i64_max → exchanged s w s' w').
Proof. intros Hdb Hr. eapply round_healed; [done | by apply heals_noop | done]. Qed.

(** A device that has everything, all of it pushed, and its cursor at the head. *)
Record settled_at (s : Relay) (w : World) : Prop := {
  st_inv : db_inv s;
  st_ready : ready s w;
  st_pushed : ∀ f, f ∈ frames_of w → has_entry (vault_b64 w.2) (arr_bytes f.1) (t_entries s);
  st_cursor : sync_cursor (v_meta w.2) = vault_head (vault_b64 w.2) (t_entries s)
}.

Lemma set_meta_same w : vault_inv w → set_meta (v_meta w.2) w = w.
Proof.
  intros Hw. destruct w as [d v]. unfold set_meta. f_equal; [|by destruct v]. simpl.
  pose proof (inv_meta _ Hw) as Hm. simpl in Hm. destruct d. simpl in *. unfold set_f_meta. simpl. by rewrite Hm.
Qed.

(** Its next round moves nothing and changes nothing on either side. *)
Lemma round_idle s w n : settled_at s w → vault_head (vault_b64 w.2) (t_entries s) ≤ i64_max →
  ∃ s' k, relay_sync (mkClient s w n) = (mkClient s' w k, Ok (0, 0%nat)) ∧
    db_inv s' ∧ same_tables s s' ∧ t_entries s' = t_entries s.
Proof.
  intros [Hdb Hr Hpushed Hcur] Hseq.
  destruct (round_run s w n w _ false w Hdb (heals_noop s w n Hr) Hr) as (s' & new & k & ps & Hrun & Hdb' & Htab & En & _ & _ & Hnone & _ & HL).
  rewrite (Hnone Hpushed), app_nil_r in En.
  pose proof (vault_head_range s (vault_b64 w.2) Hdb) as Hhr.
  assert (Eps : ps = []).
  { destruct ps as [|p ps]; [done|]. exfalso.
    assert (Hp : p.2 ∈ snd <$> (p :: ps)) by constructor. rewrite <- HL in Hp.
    apply list_elem_of_filter in Hp as [(Hv & Hlt & _) He]. rewrite En in He.
    rewrite Hcur, i64_wrap_small in Hlt by (unfold i64_min, i64_max in *; lia).
    pose proof (vault_head_ub _ _ _ He Hv). lia. }
  exists s', k. rewrite Hrun, Eps, (Hnone Hpushed), En. split_and!; try done.
  cbn [fresh_frames omap list_omap length Z.of_nat].
  change (absorb_frames [] w) with w.
  rewrite u64_wrap_small by (unfold u64_max, i64_max in *; lia).
  rewrite <- Hcur, !Z.max_id. assert (with_cursor (sync_cursor (v_meta w.2)) (v_meta w.2) = v_meta w.2) as -> by by destruct (v_meta w.2).
  by rewrite set_meta_same by apply Hr.
Qed.

(* ---------------------------------------------------------------- *)
(** ** Rounds one after the other *)

Lemma kept_vault_b64 w w' : kept w w' → vault_b64 w'.2 = vault_b64 w.2.
Proof. intros Hk. unfold vault_b64. pose proof (kept_identity _ _ Hk) as Hi. by injection Hi as ->. Qed.
Lemma kept_pub w w' : kept w w' → ed25519_pub w'.2 = ed25519_pub w.2.
Proof. intros Hk. unfold ed25519_pub. by rewrite (kept_keyring _ _ Hk). Qed.

Lemma keys_current_tables s s' v v' :
  same_tables s s' → vault_b64 v' = vault_b64 v → v_keyring v' = v_keyring v →
  keys_current s v → keys_current s' v'.
Proof.
  intros (_ & Tm & Tv & Ts & _) Ev Ek [Hep Hmem]. split.
  - unfold epoch_current. intros row. rewrite Tv, Ev. unfold epoch. rewrite Ek. apply Hep.
  - assert (memberships burns s' v' = memberships burns s v) as ->.
    { unfold memberships. cbn [exec_stmt snd]. unfold ed25519_pub. by rewrite Tm, Ts, Ev, Ek. }
    by rewrite Ek.
Qed.

(** The entries of the relay after a round: those before, and frames pushed. *)
Lemma exchanged_entry s w s' w' e : exchanged s w s' w' → e ∈ t_entries s' →
  e ∈ t_entries s ∨
  (vault_head (vault_b64 w.2) (t_entries s) < en_seq e ∧ ∃ f, f ∈ frames_of w ∧
     en_id e = arr_bytes f.1 ∧ en_blob e = f.2 ∧ en_share e = arr_bytes (tag_of (v_keyring w.2) f)).
Proof.
  intros Hex He. destruct (ex_stored _ _ _ _ Hex) as (new & En & Hnew & _).
  rewrite En in He. apply elem_of_app in He as [He|He]; [by left|]. right. split.
  - by eapply appended_seq; [apply Hex| |].
  - by apply Hnew.
Qed.

(** A device that just synced is ready to sync again. *)
Lemma ready_after s w s' w' : ready s w → exchanged s w s' w' → ready s' w'.
Proof.
  intros [Hw Hurl Hclock Hm Hkeys Hent Hcur] Hex. pose proof (ex_kept _ _ _ _ Hex) as Hk.
  pose proof (ex_tables _ _ _ _ Hex) as Htab. pose proof Htab as (Td & Tm & Tv & Ts & Tn).
  pose proof (kept_vault_b64 _ _ Hk) as Ev. pose proof (kept_pub _ _ Hk) as Ep.
  assert (Hsee : ∀ e, may_see s' w'.2 e ↔ may_see s' w.2 e) by (intros e; unfold may_see; by rewrite Ev, Ep).
  split.
  - apply Hk.
  - by rewrite (ex_url _ _ _ _ Hex).
  - by rewrite Tn.
  - unfold may_sync. by rewrite Td, Ev, Ep.
  - eapply keys_current_tables; [done | done | apply Hk | done].
  - intros e (He & Hv & Hvis)%Hsee. rewrite (kept_keyring _ _ Hk).
    destruct (exchanged_entry _ _ _ _ _ Hex He) as [Hold|(_ & f & Hf & Hid & Hb & _)].
    + apply Hent. split_and!; [done..|]. by rewrite <-(visible_tables s s').
    + exists f.1. split; [done|]. rewrite Hb. destruct (inv_log _ Hw) as [recs [[frames Hl] _]].
      rewrite (frames_of_holds _ _ _ Hl) in Hf. destruct Hl as (_ & _ & _ & Ho). by eapply open_entries_in.
  - unfold caught_up. rewrite Ev, (ex_cursor _ _ _ _ Hex). split.
    + split; [|done]. eapply vault_head_range, Hex.
    + intros e He%Hsee _. by apply (ex_complete _ _ _ _ Hex).
Qed.

(** A device stays ready while entries it can open are stored. *)
Lemma ready_appended s w s' new :
  ready s w → db_inv s' → same_tables s s' → t_entries s' = t_entries s ++ new →
  (∀ e, e ∈ new → may_see s' w.2 e →
     ∃ id : arr 16, arr_bytes id = en_id e ∧ ∃ o, open_entry (v_keyring w.2) id (en_blob e) = Ok o) →
  ready s' w.
Proof.
  intros [Hw Hurl Hclock Hm Hkeys Hent [Hcur Hcaught]] Hdb Htab En Hopen.
  pose proof Htab as (Td & Tm & Tv & Ts & Tn).
  assert (Hold : ∀ e, e ∈ t_entries s → may_see s' w.2 e → may_see s w.2 e).
  { intros e He (_ & Hv & Hvis). split_and!; [done..|]. by rewrite <-(visible_tables s s'). }
  split; try done.
  - by rewrite Tn.
  - unfold may_sync. by rewrite Td.
  - by apply (keys_current_tables s s' w.2 w.2).
  - intros e He. pose proof He as [Hin _]. rewrite En in Hin. apply elem_of_app in Hin as [Hin|Hin]; auto.
  - split; [rewrite En; pose proof (vault_head_app (vault_b64 w.2) (t_entries s) new); lia|].
    intros e He Hle. pose proof He as [Hin _]. rewrite En in Hin. apply elem_of_app in Hin as [Hin|Hin]; [auto|].
    pose proof (appended_seq s' _ _ (vault_b64 w.2) e Hdb En Hin). lia.
Qed.

(** In particular while another device syncs. *)
Lemma ready_other s w s' wo wo' : ready s w → exchanged s wo s' wo' → vault_b64 wo.2 = vault_b64 w.2 →
  (∀ f, f ∈ frames_of wo → ∃ o, open_entry (v_keyring w.2) f.1 f.2 = Ok o) → ready s' w.
Proof.
  intros Hr Hex Ev Hopen. destruct (ex_stored _ _ _ _ Hex) as (new & En & Hnew & _).
  apply (ready_appended s w s' new Hr); [apply Hex | apply Hex | done |].
  intros e He _. destruct (Hnew e He) as (_ & f & Hf & Hid & Hb & _).
  exists f.1. split; [done|]. rewrite Hb. by apply Hopen.
Qed.

(** Or while one pushes. *)
Lemma ready_push s w v ts local :
  ready s w → db_inv s → outside_window (r_now s) ts = false → may_sync s (vault_b64 v) (ed25519_pub v) = true →
  (∀ e, e ∈ local → ∃ o, open_entry (v_keyring w.2) e.1.1 e.1.2 = Ok o) →
  ready (send (Transport := relay_transport burns)
           (ReqPush (sign v ts (json_to_string (mkPushReq (wire_entry <$> local))))) s).1 w.
Proof.
  intros Hr Hdb Hts Hm Hopen.
  destruct (push_send burns s v ts local Hts Hm Hdb) as (s' & new & st & -> & Hdb' & Htab & En & _ & _ & Hnew & _).
  apply (ready_appended s w s' new); [done..|].
  intros e He _. destruct (Hnew e He) as (_ & x & Hx & Hid & -> & _). exists x.1.1. split; [done | by apply Hopen].
Qed.

Lemma settled_after s w s' w' : ready s w → exchanged s w s' w' → settled_at s' w'.
Proof.
  intros Hr Hex. pose proof (kept_vault_b64 _ _ (ex_kept _ _ _ _ Hex)) as Ev.
  split; [apply Hex | by eapply ready_after | | by rewrite Ev; apply Hex].
  intros f Hf. destruct (ex_pulled _ _ _ _ Hex) as (got & Eg & Hgot). rewrite Ev.
  rewrite Eg in Hf. apply elem_of_app in Hf as [Hf|Hf]; [by apply (ex_pushed _ _ _ _ Hex)|].
  destruct (Hgot f Hf) as (e & (He & Hv & _) & Hid & _). by exists e.
Qed.

Lemma settled_stays s w s' : settled_at s w → db_inv s' → same_tables s s' → t_entries s' = t_entries s → settled_at s' w.
Proof.
  intros [_ [Hw Hurl Hclock Hm Hkeys Hent Hcaught] Hpushed Hcur] Hdb Htab Een.
  pose proof Htab as (Td & Tm & Tv & Ts & Tn).
  assert (Hsee : ∀ e, may_see s' w.2 e ↔ may_see s w.2 e).
  { intros e. unfold may_see. by rewrite Een, (visible_tables s s'). }
  split; [done | | by rewrite Een | by rewrite Een]. split; try done.
  - by rewrite Tn.
  - unfold may_sync. by rewrite Td.
  - by apply (keys_current_tables s s' w.2 w.2).
  - intros e He%Hsee. by apply Hent.
  - unfold caught_up. rewrite Een. split; [apply Hcaught|]. intros e He%Hsee. by apply Hcaught.
Qed.

Lemma open_entry_shares k k' id blob : kr_shares k' = kr_shares k → open_entry k' id blob = open_entry k id blob.
Proof. intros E. unfold open_entry, trial_keys. by rewrite E. Qed.
Lemma tag_of_shares k k' f : kr_shares k' = kr_shares k → tag_of k' f = tag_of k f.
Proof. intros E. unfold tag_of. by rewrite (open_entry_shares k k'). Qed.
End client_side.
