(* ===== verification/SyncProps.v ===== *)
(** * SyncProps: the properties of syncing *)

From Stdlib Require Import ZArith Lia String.
From S2P Require Import Prelude Text Numerals Record Merge Extern Crypto Log Keyring Validate Vault Crud Lifecycle VaultInv CrudFacts VaultProps KeyGrowth Proto RelayDb Relay RelayFacts RelayProps Sync SyncFacts SyncRound.

#[local] Open Scope string_scope.
#[local] Open Scope list_scope.
#[local] Open Scope Z_scope.

(** ** Against any relay *)

Section any_relay.
Context `{AeadLaws} `{!AeadCommit} `{MsgPackLaws Keyring} `{MsgPackLaws Rec}.
Context `{MsgPackLaws Snapshot} `{JsonTextLaws Meta} `{HashOrderLaws}.
Context `{Base64Laws} `{Argon2} `{X25519} `{Ed25519} `{Hkdf} `{Bip39}.
Context `{JsonText EnrollReq} `{JsonText PushReq}.
Context {N : Type} `{RT : Transport N} (rng : Entropy).

End any_relay.

(** ** Against this relay *)

Section this_relay.
Context `{AeadLaws} `{!AeadCommit} `{MsgPackLaws Keyring} `{MsgPackLaws Rec}.
Context `{MsgPackLaws Snapshot} `{JsonTextLaws Meta} `{HashOrderLaws}.
Context `{Ed25519Laws} `{Base64Laws} `{Argon2} `{X25519} `{Hkdf} `{Bip39}.
Context `{JsonText EnrollReq} `{JsonText ApproveReq} `{JsonText RevokeReq} `{JsonText RotateReq}.
Context `{JsonText ShareGrantReq} `{JsonText ShareRotateReq} `{JsonTextLaws PushReq}.
Context (burns : bool) (rng : Entropy).

(** C4: a sync round exchanges everything.  For an approved device that holds
    its current keys, within the clock window, a round succeeds; afterwards
    the relay stores every frame of the device's log, under the share of its
    record, the device's log has every entry the relay lets it see, the cursor
    is the vault's head, and nothing else changed; and the device is ready for
    the next round. *)
Theorem sync_exchanges s w n :
  db_inv s → ready burns rng s w →
  ∃ s' w' k st pl, relay_sync burns rng (mkClient s w n) = (mkClient s' w' k, Ok (st, pl)) ∧
    (log_small w'.1 → t_sequence s' ≤ i64_max → exchanged s w s' w' ∧ ready burns rng s' w').
Proof.
  intros Hdb Hr. destruct (round_ok burns rng s w n Hdb Hr) as (s' & w' & k & st & pl & Hrun & Hex).
  exists s', w', k, st, pl. split; [exact Hrun|]. intros Hs Hq. split; [by apply Hex|].
  eapply ready_after; [exact Hr | by apply Hex].
Qed.

(** Rounds in a row, with what each reports. *)
Fixpoint sync_rounds (m : nat) : M (Client Relay) SyncError (list (Z * nat)) :=
  match m with
  | O => sret []
  | S m => sbind (relay_sync burns rng) (λ c, sbind (sync_rounds m) (λ l, sret (c :: l)))
  end.

Lemma rounds_idle m : ∀ s w n, settled_at burns rng s w → vault_head (vault_b64 w.2) (t_entries s) ≤ i64_max →
  ∃ s' k, sync_rounds m (mkClient s w n) = (mkClient s' w k, Ok (repeat (0, 0%nat) m)) ∧
    same_tables s s' ∧ t_entries s' = t_entries s.
Proof.
  induction m as [|m IH]; intros s w n Hs Hq; [by exists s, n|].
  destruct (round_idle burns rng s w n Hs Hq) as (s1 & k1 & Hrun & Hdb & Htab & En).
  destruct (IH s1 w k1) as (s2 & k2 & Hruns & Htab2 & En2); [by eapply settled_stays | by rewrite En|].
  exists s2, k2. cbn [sync_rounds repeat]. unfold sbind. rewrite Hrun, Hruns. split_and!; [done | by transitivity s1 | congruence].
Qed.

(** C5: syncing comes to rest.  After a round of an approved device with
    current keys, however many more it runs while no one else writes, each
    moves nothing in either direction and leaves its vault, its files and the
    entries of the relay as they are; and its daemon, told of the head it has
    reached, does not start another. *)
Theorem sync_settles s w n s' w' k c :
  db_inv s → ready burns rng s w → relay_sync burns rng (mkClient s w n) = (mkClient s' w' k, Ok c) →
  log_small w'.1 → t_sequence s' ≤ i64_max →
  (∀ m n', ∃ s'' k', sync_rounds m (mkClient s' w' n') = (mkClient s'' w' k', Ok (repeat (0, 0%nat) m)) ∧
     same_tables s' s'' ∧ t_entries s'' = t_entries s') ∧
  ∀ b, syncd_step (Listening b) (Text (show_int (vault_head (vault_b64 w.2) (t_entries s')))) (sync_cursor (v_meta w'.2)) =
    Some ([], Listening b).
Proof.
  intros Hdb Hr Hrun Hs Hq. destruct (round_ok burns rng s w n Hdb Hr) as (s1 & w1 & k1 & st & pl & Hrun1 & Hex).
  rewrite Hrun in Hrun1. injection Hrun1 as <- <- <- ->. specialize (Hex Hs Hq).
  pose proof (settled_after _ _ _ _ _ _ Hr Hex) as Hset.
  pose proof (vault_head_range s' (vault_b64 w.2) (ex_inv _ _ _ _ Hex)) as Hhead. split.
  - intros m n'. apply rounds_idle; [done|]. rewrite (kept_vault_b64 _ _ (ex_kept _ _ _ _ Hex)). lia.
  - intros b. rewrite (ex_cursor _ _ _ _ Hex). cbn [syncd_step]. unfold announces_news.
    rewrite parse_shown by (unfold u64_max, i64_max in *; lia). by rewrite Z.ltb_irrefl.
Qed.

(** The (id, blob) pairs two devices and their relay hold. *)
Definition held (s : Relay) (wa wb : World) (f : RawEntry) : Prop :=
  f ∈ frames_of wa ∨ f ∈ frames_of wb ∨
  ∃ e, e ∈ t_entries s ∧ en_vault e = vault_b64 wa.2 ∧ en_id e = arr_bytes f.1 ∧ en_blob e = f.2.

(** Two devices of one vault with the same keys, both members of every share in
    use; an entry id names one blob, and in the records a clock names one write. *)
Record team (s : Relay) (wa wb : World) : Prop := {
  tm_vault : vault_b64 wb.2 = vault_b64 wa.2;
  tm_keys : kr_shares (v_keyring wb.2) = kr_shares (v_keyring wa.2);
  tm_entries : ∀ e k, e ∈ t_entries s → en_vault e = vault_b64 wa.2 →
    k = ed25519_pub wa.2 ∨ k = ed25519_pub wb.2 → visible s (arr_bytes k) e = true;
  tm_frames : ∀ f e k, f ∈ frames_of wa ∨ f ∈ frames_of wb →
    en_vault e = vault_b64 wa.2 → en_share e = arr_bytes (tag_of (v_keyring wa.2) f) →
    k = ed25519_pub wa.2 ∨ k = ed25519_pub wb.2 → visible s (arr_bytes k) e = true;
  tm_agree : ∀ f g, held s wa wb f → held s wa wb g → f.1 = g.1 → f = g;
  tm_history : ∃ W, ∀ f r, held s wa wb f →
    open_entry (v_keyring wa.2) f.1 f.2 = Ok (Some r) → consistent W r
}.

(** Two vaults that open the same frames with the same keys have the same state. *)
Lemma same_frames_same_state W w1 w2 :
  vault_inv w1 → vault_inv w2 → kr_shares (v_keyring w2.2) = kr_shares (v_keyring w1.2) →
  (∀ f, f ∈ frames_of w1 ↔ f ∈ frames_of w2) →
  (∀ f r, f ∈ frames_of w1 → open_entry (v_keyring w1.2) f.1 f.2 = Ok (Some r) → consistent W r) →
  v_state w1.2 = v_state w2.2.
Proof.
  intros H1w H2w Hk Hf Hc.
  destruct (inv_log _ H1w) as [r1 [[f1 Hl1] ->]], (inv_log _ H2w) as [r2 [[f2 Hl2] ->]].
  rewrite (frames_of_holds _ _ _ Hl1), (frames_of_holds _ _ _ Hl2) in *.
  destruct Hl1 as (_ & _ & _ & Ho1), Hl2 as (_ & _ & _ & Ho2).
  apply (merge_all_same_set W).
  - apply Forall_forall. intros r Hr. apply (open_entries_records _ _ _ _ Ho1) in Hr as (f & Hin & Hop). eauto.
  - intros r. rewrite (open_entries_records _ _ _ _ Ho1), (open_entries_records _ _ _ _ Ho2).
    setoid_rewrite Hf. by setoid_rewrite (open_entry_shares _ _ _ _ Hk).
Qed.

(** A relay that holds nothing but what the team held at first. *)
Definition shared_relay (s : Relay) (wa wb : World) (s' : Relay) : Prop :=
  same_tables s s' ∧ ∀ e, e ∈ t_entries s' → en_vault e = vault_b64 wa.2 →
    (∀ k, k = ed25519_pub wa.2 ∨ k = ed25519_pub wb.2 → visible s (arr_bytes k) e = true) ∧
    (∀ f : RawEntry, en_id e = arr_bytes f.1 → en_blob e = f.2 → held s wa wb f).

Lemma shared_start s wa wb : team s wa wb → shared_relay s wa wb s.
Proof.
  intros Ht. split; [done|]. intros e He Hv. split; [intros k; by apply (tm_entries _ _ _ Ht)|].
  intros f Hid Hb. right. right. eauto.
Qed.

Lemma shared_step s wa wb s1 wo s2 wo' :
  team s wa wb → shared_relay s wa wb s1 → exchanged s1 wo s2 wo' →
  (∀ f, f ∈ frames_of wo → f ∈ frames_of wa ∨ f ∈ frames_of wb) →
  kr_shares (v_keyring wo.2) = kr_shares (v_keyring wa.2) → shared_relay s wa wb s2.
Proof.
  intros Ht [Htab Hall] Hex Hfr Hk. split; [by transitivity s1; [|apply Hex]|].
  intros e He Hv. destruct (exchanged_entry _ _ _ _ _ Hex He) as [Hold|(_ & g & Hg & Hid' & Hb' & Hsh)]; [by apply Hall|].
  split.
  - intros k. apply (tm_frames _ _ _ Ht g); [by apply Hfr | done |]. by rewrite Hsh, (tag_of_shares _ _ _ Hk).
  - intros [i b] Hid Hb. destruct g as [j c]. simpl in *.
    assert ((i, b) = (j, c)) as -> by (f_equal; [apply arr_eq; congruence | congruence]).
    destruct (Hfr _ Hg); [by left | by right; left].
Qed.

Lemma shared_frames s wa wb s1 wo s2 wo' :
  shared_relay s wa wb s2 → exchanged s1 wo s2 wo' → vault_b64 wo.2 = vault_b64 wa.2 →
  (∀ f, f ∈ frames_of wo → held s wa wb f) → ∀ f, f ∈ frames_of wo' → held s wa wb f.
Proof.
  intros [_ Hall] Hex Hv Hfr f Hf. destruct (ex_pulled _ _ _ _ Hex) as (got & Eg & Hgot).
  rewrite Eg in Hf. apply elem_of_app in Hf as [Hf|Hf]; [by apply Hfr|].
  destruct (Hgot f Hf) as (e & (He & Hve & _) & Hid & Hb). rewrite Hv in Hve. by apply (Hall e He Hve).
Qed.

(** After a round, the frames of a device's log are those of the relay. *)
Lemma round_frames s wa wb s1 wo s2 wo' :
  team s wa wb → shared_relay s wa wb s2 → exchanged s1 wo s2 wo' → vault_b64 wo.2 = vault_b64 wa.2 →
  (ed25519_pub wo.2 = ed25519_pub wa.2 ∨ ed25519_pub wo.2 = ed25519_pub wb.2) →
  (∀ f, f ∈ frames_of wo → held s wa wb f) →
  ∀ f, f ∈ frames_of wo' ↔ held s wa wb f ∧ has_entry (vault_b64 wa.2) (arr_bytes f.1) (t_entries s2).
Proof.
  intros Ht Hsh Hex Hv Hp Hfr f. pose proof (shared_frames _ _ _ _ _ _ _ Hsh Hex Hv Hfr) as Hheld. split.
  - intros Hf. split; [by apply Hheld|]. destruct (ex_pulled _ _ _ _ Hex) as (got & Eg & Hgot).
    rewrite Eg in Hf. apply elem_of_app in Hf as [Hf|Hf].
    + rewrite <-Hv. by apply (ex_pushed _ _ _ _ Hex).
    + destruct (Hgot f Hf) as (e & (He & Hve & _) & Hid & _). exists e. rewrite <-Hv. done.
  - intros [Hf (e & He & Hve & Hid)]. destruct Hsh as [Htab Hall].
    destruct (ex_complete _ _ _ _ Hex e) as (g & Hg & Hgid).
    { split_and!; [done | by rewrite Hv |]. rewrite (visible_tables s s2) by apply Htab.
      apply (Hall e He Hve). done. }
    assert (f = g) as ->; [|done]. apply (tm_agree _ _ _ Ht); [done | by apply Hheld |].
    apply arr_eq. congruence.
Qed.

(** A device whose frames the relay has already pushes nothing. *)
Lemma settled s1 wo s2 wo' w s3 w' :
  exchanged s1 wo s2 wo' → exchanged s2 w s3 w' →
  (∀ f, f ∈ frames_of w → has_entry (vault_b64 w.2) (arr_bytes f.1) (t_entries s1)) →
  t_entries s3 = t_entries s2.
Proof.
  intros X2 X3 Hf. destruct (ex_stored _ _ _ _ X3) as (new & -> & _ & Hnone). rewrite Hnone, app_nil_r; [done|].
  intros f (e & He & Hve)%Hf. destruct (ex_stored _ _ _ _ X2) as (new2 & E2 & _).
  exists e. rewrite E2. split; [apply elem_of_app; by left | done].
Qed.

Lemma opens_shared (w w' : World) :
  vault_inv w → kr_shares (v_keyring w'.2) = kr_shares (v_keyring w.2) →
  ∀ f, f ∈ frames_of w → ∃ o, open_entry (v_keyring w'.2) f.1 f.2 = Ok o.
Proof.
  intros Hw E f Hf. rewrite (open_entry_shares _ _ _ _ E).
  destruct (inv_log _ Hw) as [recs [[frames Hl] _]]. rewrite (frames_of_holds _ _ _ Hl) in Hf.
  destruct Hl as (_ & _ & _ & Ho). by eapply open_entries_in.
Qed.

Lemma round_of_run s w n s' w' k r :
  db_inv s → ready burns rng s w → relay_sync burns rng (mkClient s w n) = (mkClient s' w' k, r) →
  log_small w'.1 → t_sequence s' ≤ i64_max → (∃ c, r = Ok c) ∧ exchanged s w s' w'.
Proof.
  intros Hdb Hr Hrun Hs Hq. destruct (round_ok burns rng s w n Hdb Hr) as (s2 & w2 & k2 & st & pl & Hrun2 & Hex).
  rewrite Hrun in Hrun2. injection Hrun2 as -> -> -> ->. split; [by eexists | by apply Hex].
Qed.

(** Two devices, in three rounds.  Two approved devices of a vault that hold the same
    keys and are members of every share in use, in any states and with any
    writes of their own not yet synced: after one syncs, then the other, then
    the first again, all three rounds have succeeded and the two vaults have
    the same state, provided entry ids name one blob and clocks one write. *)
Theorem devices_converge s wa wb n1 n2 n3 s1 wa1 k1 r1 s2 wb1 k2 r2 s3 wa2 k3 r3 :
  db_inv s → ready burns rng s wa → ready burns rng s wb → team s wa wb →
  relay_sync burns rng (mkClient s wa n1) = (mkClient s1 wa1 k1, r1) →
  relay_sync burns rng (mkClient s1 wb n2) = (mkClient s2 wb1 k2, r2) →
  relay_sync burns rng (mkClient s2 wa1 n3) = (mkClient s3 wa2 k3, r3) →
  log_small wa1.1 → log_small wb1.1 → log_small wa2.1 →
  t_sequence s1 ≤ i64_max → t_sequence s2 ≤ i64_max → t_sequence s3 ≤ i64_max →
  (∃ c1 c2 c3, r1 = Ok c1 ∧ r2 = Ok c2 ∧ r3 = Ok c3) ∧
  v_state wa2.2 = v_state wb1.2 ∧
  (∀ f, f ∈ frames_of wa ∨ f ∈ frames_of wb → f ∈ frames_of wa2 ∧ f ∈ frames_of wb1).
Proof.
  intros Hdb Hra Hrb Ht R1 R2 R3 L1 L2 L3 Q1 Q2 Q3.
  pose proof (tm_vault _ _ _ Ht) as Hv. pose proof (tm_keys _ _ _ Ht) as Hk.
  assert (Hha : ∀ f, f ∈ frames_of wa → held s wa wb f) by (intros f; by left).
  assert (Hhb : ∀ f, f ∈ frames_of wb → held s wa wb f) by (intros f; right; by left).
  (* the three rounds *)
  destruct (round_of_run _ _ _ _ _ _ _ Hdb Hra R1 L1 Q1) as [[c1 ->] X1].
  assert (Hrb1 : ready burns rng s1 wb).
  { eapply ready_other; [exact Hrb | exact X1 | done |]. by apply (opens_shared wa); [apply Hra|]. }
  destruct (round_of_run _ _ _ _ _ _ _ (ex_inv _ _ _ _ X1) Hrb1 R2 L2 Q2) as [[c2 ->] X2].
  pose proof (ex_kept _ _ _ _ X1) as K1. pose proof (kept_keyring _ _ K1) as Ek1.
  pose proof (kept_vault_b64 _ _ K1) as Ev1. pose proof (kept_pub _ _ K1) as Ep1.
  assert (Hra2 : ready burns rng s2 wa1).
  { eapply ready_other; [exact (ready_after _ _ _ _ _ _ Hra X1) | exact X2 | congruence |].
    apply (opens_shared wb); [apply Hrb | by rewrite Ek1, Hk]. }
  destruct (round_of_run _ _ _ _ _ _ _ (ex_inv _ _ _ _ X2) Hra2 R3 L3 Q3) as [[c3 ->] X3].
  (* what the relay and the logs hold *)
  assert (Sh1 : shared_relay s wa wb s1) by (eapply shared_step; [done | by apply shared_start | done | by left | done]).
  assert (Sh2 : shared_relay s wa wb s2) by (eapply shared_step; [done | exact Sh1 | done | by right | done]).
  assert (Hha1 : ∀ f, f ∈ frames_of wa1 → held s wa wb f) by (exact (shared_frames _ _ _ _ _ _ _ Sh1 X1 eq_refl Hha)).
  pose proof (round_frames _ _ _ _ _ _ _ Ht Sh1 X1 eq_refl (or_introl eq_refl) Hha) as F1.
  pose proof (round_frames _ _ _ _ _ _ _ Ht Sh2 X2 Hv (or_intror eq_refl) Hhb) as F2.
  assert (E3 : t_entries s3 = t_entries s2).
  { eapply settled; [exact X2 | exact X3 |]. rewrite Ev1. by intros f [_ ?]%F1. }
  assert (Sh3 : shared_relay s wa wb s3).
  { split; [transitivity s2; [apply Sh2 | apply X3]|]. rewrite E3. apply Sh2. }
  assert (F3 : ∀ f, f ∈ frames_of wa2 ↔ held s wa wb f ∧ has_entry (vault_b64 wa.2) (arr_bytes f.1) (t_entries s3)).
  { eapply round_frames; [done | exact Sh3 | exact X3 | done | by left | done]. }
  rewrite E3 in F3. assert (Fsame : ∀ f, f ∈ frames_of wa2 ↔ f ∈ frames_of wb1) by (intros f; by rewrite F2, F3).
  split_and!; [by exists c1, c2, c3 | |].
  - destruct (tm_history _ _ _ Ht) as [W HW]. pose proof (ex_kept _ _ _ _ X3) as K3.
    pose proof (ex_kept _ _ _ _ X2) as K2. pose proof (kept_keyring _ _ K3) as Ek3.
    apply (same_frames_same_state W); [apply K3 | apply K2 | | exact Fsame |].
    + by rewrite (kept_keyring _ _ K2), Ek3, Ek1.
    + intros f r [Hf _]%F3. rewrite Ek3, Ek1. by apply HW.
  - assert (Hb : ∀ f, f ∈ frames_of wa ∨ f ∈ frames_of wb → f ∈ frames_of wb1).
    { intros f Hf. apply F2. split; [naive_solver|]. destruct Hf as [Hf|Hf].
      - destruct (ex_pushed _ _ _ _ X1 _ Hf) as (e & He & Hve). exists e. split; [|done].
        destruct (ex_stored _ _ _ _ X2) as (new2 & -> & _). apply elem_of_app. by left.
      - rewrite <-Hv. by apply (ex_pushed _ _ _ _ X2). }
    intros f Hf. split; [apply Fsame|]; by apply Hb.
Qed.
End this_relay.

(** ** The daemon *)

(** The loop of [syncd] over any events, with the cursor it has at each. *)
Inductive daemon_run : Daemon → list Action → Daemon → Prop :=
  | run_none d : daemon_run d [] d
  | run_event d e cursor l d1 l1 d2 :
      syncd_step d e cursor = Some (l, d1) → daemon_run d1 l1 d2 → daemon_run d (l ++ l1) d2.

Definition backoff_of (d : Daemon) : Z := match d with Connecting b | Listening b => b end.

Lemma next_backoff_range b : 1 ≤ b ≤ 60 → 1 ≤ next_backoff b ≤ 60 ∧ next_backoff b = Z.min (2 * b) 60.
Proof. intros Hb. unfold next_backoff. rewrite u64_wrap_small by (unfold u64_max; lia). lia. Qed.

Lemma daemon_step_range d e cursor l d' :
  1 ≤ backoff_of d ≤ 60 → syncd_step d e cursor = Some (l, d') →
  1 ≤ backoff_of d' ≤ 60 ∧ (l = [] ∨ l = [ARound] ∨ l = [ASleep (backoff_of d); ARound]).
Proof.
  intros Hb. pose proof (next_backoff_range _ Hb) as [Hn _].
  destruct d as [b|b], e; simpl in *; try done; try (case_match; simpl);
    intros [= <- <-]; simpl; (split; [lia | auto]).
Qed.

(** C35: the daemon backs off.  Whatever happens to its socket, it never sleeps
    less than a second or more than a minute, and always runs a round after
    sleeping; successive failures to connect double the sleep from one second
    up to the minute; and a connection that held for half a minute resets it,
    a shorter one does not. *)
Theorem daemon_backs_off d actions n b e cursor :
  (daemon_run (Connecting 1) actions d →
     1 ≤ backoff_of d ≤ 60 ∧
     ∀ i secs, actions !! i = Some (ASleep secs) → 1 ≤ secs ≤ 60 ∧ actions !! S i = Some ARound) ∧
  daemon_run (Connecting 1)
    (concat ((λ k : nat, [ASleep (Z.min (2 ^ Z.of_nat k) 60); ARound]) <$> seq 0 n))
    (Connecting (Z.min (2 ^ Z.of_nat n) 60)) ∧
  syncd_step (Listening b) (Dropped e) cursor =
    Some (if 30 <=? e then ([ARound], Connecting 1)
          else ([ASleep b; ARound], Connecting (next_backoff b))).
Proof.
  split_and!.
  - assert (Hgen : ∀ d0, daemon_run d0 actions d → 1 ≤ backoff_of d0 ≤ 60 → 1 ≤ backoff_of d ≤ 60 ∧
      ∀ i secs, actions !! i = Some (ASleep secs) → 1 ≤ secs ≤ 60 ∧ actions !! S i = Some ARound).
    { intros d0 Hrun. induction Hrun as [d0|d0 ev cu l d1 l1 d2 Hstep Hrun IH]; intros Hb; [done|].
      destruct (daemon_step_range _ _ _ _ _ Hb Hstep) as [Hb1 Hl]. destruct (IH Hb1) as [Hb2 Hs].
      split; [done|]. intros i secs Hi.
      destruct Hl as [->|[->| ->]]; simpl in *; [by apply Hs | |].
      - destruct i as [|i]; [done|]. by apply Hs.
      - destruct i as [|[|i]]; [injection Hi as <-; done | done | by apply Hs]. }
    intros Hrun. by apply (Hgen (Connecting 1)).
  - change (Connecting 1) with (Connecting (Z.min (2 ^ Z.of_nat 0) 60)).
    replace (2 ^ Z.of_nat n) with (2 ^ Z.of_nat (0 + n)) by (f_equal; lia).
    generalize 0%nat as k. induction n as [|n IH]; intros k; simpl.
    + rewrite Nat.add_0_r. constructor.
    + apply (run_event _ ConnectFailed 0 [_; _] (Connecting (next_backoff (Z.min (2 ^ Z.of_nat k) 60)))); [done|].
      assert (1 ≤ 2 ^ Z.of_nat k) by (apply (Z.pow_le_mono_r 2 0); lia).
      destruct (next_backoff_range (Z.min (2 ^ Z.of_nat k) 60)) as [_ ->]; [lia|].
      replace (Z.min (2 * Z.min (2 ^ Z.of_nat k) 60) 60) with (Z.min (2 ^ Z.of_nat (S k)) 60)
        by (rewrite Nat2Z.inj_succ, Z.pow_succ_r by lia; lia).
      replace (k + S n)%nat with (S k + n)%nat by lia. apply IH.
  - simpl. unfold HEALTHY_CONN. by destruct (30 <=? e).
Qed.
