(* ===== verification/Fleet.v ===== *)
(** * Fleet: any number of devices of a vault, working and syncing in turns

    The devices of one vault and their relay.  A turn is a sync round of one
    device or an operation of one device on its own vault; turns come in any
    order.  Once every device has synced since it last worked, each round
    brings its device to one common state. *)

From Stdlib Require Import ZArith Lia String.
From S2P Require Import Prelude Text Record Merge Extern Crypto Log Keyring Validate Vault Crud Lifecycle VaultInv CrudFacts VaultProps Proto RelayDb Relay RelayFacts RelayProps Sync SyncFacts SyncRound SyncProps.

#[local] Open Scope string_scope.
#[local] Open Scope list_scope.
#[local] Open Scope Z_scope.

(** A device syncs, so many values already drawn, or works on its own vault. *)
Inductive turn : Type :=
  | Syncs (device draws : nat)
  | Works (device : nat) (o : op).

Record Fleet := mkFleet { fl_relay : Relay; fl_devices : list World }.

(** The cursor is moved by rounds and resets alone. *)
Definition permitted (t : turn) : bool := match t with Works _ (OpCursor _) => false | _ => true end.

(** The devices whose log is on the relay, and those that have synced since all
    logs were there: one turn more. *)
Definition note (n : nat) (acc : list nat * list nat) (t : turn) : list nat * list nat :=
  match t with
  | Syncs i _ =>
      let seen := i :: acc.1 in
      (seen, if forallb (λ d, bool_decide (d ∈ seen)) (seq 0 n) then i :: acc.2 else acc.2)
  | Works i _ => (filter (λ d, d ≠ i) acc.1, [])
  end.
Definition notes (n : nat) (ts : list turn) (acc : list nat * list nat) : list nat * list nat := foldl (note n) acc ts.
Definition up_to_date (n : nat) (ts : list turn) : list nat := (notes n ts ([], [])).2.

Lemma elem_of_insert_inv {A} (x y : A) i (l : list A) : x ∈ <[i:=y]> l → x = y ∨ x ∈ l.
Proof.
  intros [j Hj]%list_elem_of_lookup. destruct (decide (j = i)) as [->|Hne].
  - apply list_lookup_insert_Some in Hj as [(_ & <- & _)|(? & _)]; [by left | done].
  - rewrite list_lookup_insert_ne in Hj by done. right. by eapply list_elem_of_lookup_2.
Qed.

Section fleet.
Context `{AeadLaws} `{!AeadCommit} `{MsgPackLaws Keyring} `{MsgPackLaws Rec}.
Context `{MsgPackLaws Snapshot} `{JsonTextLaws Meta} `{HashOrderLaws}.
Context `{Ed25519Laws} `{Base64Laws} `{Argon2} `{X25519} `{Hkdf} `{Bip39}.
Context `{JsonText EnrollReq} `{JsonText ApproveReq} `{JsonText RevokeReq} `{JsonText RotateReq}.
Context `{JsonText ShareGrantReq} `{JsonText ShareRotateReq} `{JsonTextLaws PushReq}.
Context (burns : bool) (rng : Entropy).

(** A turn, and whether the round in it, if any, succeeded. *)
Definition take_turn (t : turn) (f : Fleet) : Fleet * bool :=
  match t with
  | Syncs i n =>
      match fl_devices f !! i with
      | None => (f, true)
      | Some w =>
          let '(c, r) := relay_sync burns rng (mkClient (fl_relay f) w n) in
          (mkFleet (c_net c) (<[i := c_world c]> (fl_devices f)), match r with Ok _ => true | Err _ => false end)
      end
  | Works i o =>
      match fl_devices f !! i with
      | None => (f, true)
      | Some w => (mkFleet (fl_relay f) (<[i := (run_op o w).1]> (fl_devices f)), true)
      end
  end.

Fixpoint take_turns (ts : list turn) (f : Fleet) : Fleet * bool :=
  match ts with
  | [] => (f, true)
  | t :: ts =>
      let '(f1, ok) := take_turn t f in
      let '(f2, oks) := take_turns ts f1 in
      (f2, ok && oks)
  end.

(** The bounds of the formats, kept at every turn. *)
Definition small (f : Fleet) : Prop :=
  (∀ w, w ∈ fl_devices f → log_small w.1) ∧ t_sequence (fl_relay f) ≤ i64_max.
Fixpoint stays_small (ts : list turn) (f : Fleet) : Prop :=
  match ts with
  | [] => True
  | t :: ts => let f1 := (take_turn t f).1 in small f1 ∧ stays_small ts f1
  end.

(** Devices of the vault [v] that hold the keys [ks], each ready to sync. *)
Record sound (v : string) (ks : list ShareKeys) (f : Fleet) : Prop := {
  so_db : db_inv (fl_relay f);
  so_ready : ∀ w, w ∈ fl_devices f → ready burns rng (fl_relay f) w;
  so_vault : ∀ w, w ∈ fl_devices f → vault_b64 w.2 = v;
  so_keys : ∀ w, w ∈ fl_devices f → kr_shares (v_keyring w.2) = ks
}.

(** What the relay stores and the devices hold only grows. *)
Definition grows (f f' : Fleet) : Prop :=
  (∀ e, e ∈ t_entries (fl_relay f) → e ∈ t_entries (fl_relay f')) ∧
  t_members (fl_relay f') = t_members (fl_relay f) ∧
  length (fl_devices f') = length (fl_devices f) ∧
  ∀ i w, fl_devices f !! i = Some w → ∃ w', fl_devices f' !! i = Some w' ∧
    v_keyring w'.2 = v_keyring w.2 ∧ ∀ g, g ∈ frames_of w → g ∈ frames_of w'.

#[local] Instance grows_preorder : PreOrder grows.
Proof.
  split; [intros f; split_and!; eauto|]. intros f1 f2 f3 (E1 & M1 & L1 & D1) (E2 & M2 & L2 & D2).
  split_and!; [auto | congruence.. |]. intros i w Hw.
  destruct (D1 i w Hw) as (w2 & Hw2 & K2 & F2), (D2 i w2 Hw2) as (w3 & Hw3 & K3 & F3).
  exists w3. split_and!; [done | congruence | auto].
Qed.

(** The (id, blob) pairs on the relay, and on the relay or a device. *)
Definition stored (v : string) (f : Fleet) (g : RawEntry) : Prop :=
  ∃ e, e ∈ t_entries (fl_relay f) ∧ en_vault e = v ∧ en_id e = arr_bytes g.1 ∧ en_blob e = g.2.
Definition present (v : string) (f : Fleet) (g : RawEntry) : Prop :=
  (∃ w, w ∈ fl_devices f ∧ g ∈ frames_of w) ∨ stored v f g.

(** An entry id names one blob, a clock names one write, and every device is a
    member of the shares in use. *)
Record agreed (v : string) (f : Fleet) : Prop := {
  ag_ids : ∀ g h, present v f g → present v f h → g.1 = h.1 → g = h;
  ag_visible : ∀ e w, e ∈ t_entries (fl_relay f) → en_vault e = v → w ∈ fl_devices f →
    visible (fl_relay f) (arr_bytes (ed25519_pub w.2)) e = true;
  ag_clocks : ∃ W, ∀ g w r, present v f g → w ∈ fl_devices f →
    open_entry (v_keyring w.2) g.1 g.2 = Ok (Some r) → consistent W r
}.

(** All of a device's frames are on the relay; it holds just those there. *)
Definition pushed (v : string) (f : Fleet) (i : nat) : Prop :=
  ∀ w, fl_devices f !! i = Some w → ∀ g, g ∈ frames_of w → has_entry v (arr_bytes g.1) (t_entries (fl_relay f)).
Definition synced (v : string) (f : Fleet) (i : nat) : Prop :=
  ∀ w, fl_devices f !! i = Some w → ∀ g, g ∈ frames_of w ↔ stored v f g.

(** What the notes on the turns so far mean. *)
Record noted (v : string) (f : Fleet) (acc : list nat * list nat) : Prop := {
  no_pushed : ∀ i, i ∈ acc.1 → pushed v f i;
  no_synced : ∀ i, i ∈ acc.2 → synced v f i;
  no_all : acc.2 ≠ [] → ∀ i, (i < length (fl_devices f))%nat → i ∈ acc.1
}.

(** ** A device at work *)

Lemma append_meta w w' rec eid n r :
  vault_inv w → append rec eid n (ticked w) = (w', r) → log_small w'.1 → v_meta w'.2 = tick (v_meta w.2).
Proof.
  intros Hw Ha Hsm. destruct (inv_log _ Hw) as [recs Hr].
  pose proof (inv_append _ _ recs _ _ _ _ (inv_ticked _ Hw) (refines_ticked _ _ Hr) Ha Hsm) as Hres.
  destruct r as [u|e]; [by apply (append_ticked _ _ _ _ _ _ Hw Ha Hsm) | by subst w'].
Qed.

(** The relay stays set, and the cursor where it was or at 0. *)
Definition still_caught_up (m m' : Meta) : Prop :=
  (is_Some (relay_url m) → is_Some (relay_url m')) ∧ (sync_cursor m' = sync_cursor m ∨ sync_cursor m' = 0).

Lemma still_same m : still_caught_up m m.
Proof. by split; [|left]. Qed.
Lemma still_tick m : still_caught_up m (tick m).
Proof. by split; [|left]. Qed.
#[local] Hint Resolve still_same still_tick : core.

Lemma op_still_caught_up w w' o r :
  vault_inv w → permitted (Works 0 o) = true → run_op o w = (w', r) → log_small w'.1 →
  still_caught_up (v_meta w.2) (v_meta w'.2).
Proof.
  intros Hw Hp Hrun Hsm. pose proof (inv_meta _ Hw) as Hm. destruct o; simpl in Hrun.
  - unfold ignore, sbind in Hrun. rewrite add_in_eq in Hrun by done.
    destruct (validate_payload kind p) as [u|e]; [|by injection Hrun as <- _].
    destruct (has_share _ _); [|by injection Hrun as <- _].
    destruct (find_record _ _ _ _); [by injection Hrun as <- _|].
    cbv zeta in Hrun. destruct (append _ _ _ _) as [w1 r1] eqn:Ha.
    assert (w1 = w') as -> by (destruct r1; unfold sret in Hrun; simpl in Hrun; congruence).
    by rewrite (append_meta _ _ _ _ _ _ Hw Ha Hsm).
  - rewrite edit_eq in Hrun by done.
    destruct (validate_payload kind p) as [u|e]; [|by injection Hrun as <- _].
    destruct (find_record _ _ _ _); [|by injection Hrun as <- _].
    by rewrite (append_meta _ _ _ _ _ _ Hw Hrun Hsm).
  - rewrite remove_eq in Hrun by done.
    destruct (find_record _ _ _ _); [|by injection Hrun as <- _].
    by rewrite (append_meta _ _ _ _ _ _ Hw Hrun Hsm).
  - destruct (inv_log _ Hw) as [recs Hr]. pose proof (inv_apply_remote _ _ recs _ _ _ Hw Hr Hrun Hsm) as Hres.
    destruct r as [u|e]; [|by subst]. destruct Hres as (x & _ & _ & _ & _ & -> & _).
    unfold observe. destruct x; [case_match|]; (split; [done | by left]).
  - done.
  - unfold reset_sync_cursor in Hrun. rewrite (update_meta_eq (with_cursor 0)) in Hrun by done.
    injection Hrun as <- _. by split; [|right].
  - unfold set_relay_url in Hrun. rewrite (update_meta_eq (with_relay_url url)) in Hrun by done.
    injection Hrun as <- _. split; [by eexists | by left].
  - destruct (inv_log _ Hw) as [recs [[frames Hl] Hst]].
    destruct (inv_compact _ _ _ nonce Hw Hl) as (w1 & b & Hc & _ & _ & _ & _ & _ & E1 & _).
    unfold ignore, sbind in Hrun. rewrite Hc in Hrun. injection Hrun as <- _. by rewrite E1.
  - destruct (inv_log _ Hw) as [recs [[frames Hl] Hst]]. rewrite reload_eq in Hrun by done.
    destruct (replay_log_ok w frames recs nonce) as (w1 & Hc & _ & _ & _ & _ & _ & E1 & _);
      try done; try apply Hw.
    rewrite Hc in Hrun. injection Hrun as <- _. by rewrite E1.
Qed.

(** The log of an open vault only gains frames. *)
Lemma kept_frames w w' : vault_inv w → kept w w' → ∀ g, g ∈ frames_of w → g ∈ frames_of w'.
Proof.
  intros Hw Hk g Hg. destruct (inv_log _ Hw) as [recs [[fs Hl] _]], (inv_log _ (kept_inv _ _ Hk)) as [recs' [[fs' Hl'] _]].
  rewrite (frames_of_holds _ _ _ Hl) in Hg. rewrite (frames_of_holds _ _ _ Hl').
  destruct Hl as (data & Hd & [-> Hf]%parse_frames_iff & _), Hl' as (data' & Hd' & [-> Hf']%parse_frames_iff & _).
  destruct (kept_log _ _ Hk _ Hd) as [ext Hx]. rewrite Hd' in Hx. injection Hx as Hx.
  destruct (frames_bytes_prefix _ _ _ Hf Hf' Hx) as (hs & -> & _). apply elem_of_app. by left.
Qed.

(** A device at work stays ready to sync. *)
Lemma ready_works s w w' o r :
  db_inv s → ready burns rng s w → permitted (Works 0 o) = true → run_op o w = (w', r) → log_small w'.1 →
  ready burns rng s w' ∧ kept w w'.
Proof.
  intros Hdb Hr Hp Hrun Hsm. pose proof (rd_inv _ _ _ _ Hr) as Hw.
  assert (Hk : kept w w') by (apply vault_step_kept; [done | by exists o, r]).
  destruct (op_still_caught_up _ _ _ _ Hw Hp Hrun Hsm) as [Hu Hc]. split; [|done].
  destruct Hr as [_ Hurl Hclock Hm Hkeys Hent [[Hpos Hle] Hcaught]].
  pose proof (kept_vault_b64 _ _ Hk) as Ev. pose proof (kept_pub _ _ Hk) as Ep.
  assert (Hsee : ∀ e, may_see s w'.2 e ↔ may_see s w.2 e) by (intros e; unfold may_see; by rewrite Ev, Ep).
  split.
  - apply Hk.
  - by apply Hu.
  - done.
  - by rewrite Ev, Ep.
  - eapply keys_current_tables; [reflexivity | done | apply Hk | done].
  - intros e He%Hsee. rewrite (kept_keyring _ _ Hk). by apply Hent.
  - unfold caught_up. rewrite Ev. split.
    + pose proof (vault_head_range s (vault_b64 w.2) Hdb). destruct Hc as [-> | ->]; lia.
    + intros e He%Hsee Hlt. destruct (Hcaught e He) as (g & Hg & Hid); [destruct Hc as [Hc|Hc]; rewrite Hc in Hlt; lia|].
      exists g. split; [by eapply kept_frames | done].
Qed.

(** ** A turn *)

(** What one device holds, every device can open. *)
Lemma fleet_opens v ks f w x : sound v ks f → w ∈ fl_devices f → x ∈ fl_devices f →
  ∀ g, g ∈ frames_of w → ∃ o, open_entry (v_keyring x.2) g.1 g.2 = Ok o.
Proof.
  intros Hs Hw Hx. apply opens_shared; [by eapply so_ready|]. by rewrite !(so_keys _ _ _ Hs).
Qed.

(** One device replaced, the relay moved on. *)
Lemma sound_insert v ks f i w s' w' :
  sound v ks f → fl_devices f !! i = Some w → db_inv s' → kept w w' → ready burns rng s' w' →
  (∀ x, x ∈ fl_devices f → ready burns rng s' x) →
  (∀ e, e ∈ t_entries (fl_relay f) → e ∈ t_entries s') → t_members s' = t_members (fl_relay f) →
  let f' := mkFleet s' (<[i := w']> (fl_devices f)) in sound v ks f' ∧ grows f f'.
Proof.
  intros Hs Hi Hdb Hk Hr Hothers He Hm f'. pose proof (list_elem_of_lookup_2 _ _ _ Hi) as Hin.
  split; [split; simpl; [done | ..]|].
  - by intros x [->|Hx]%elem_of_insert_inv; [|apply Hothers].
  - intros x [->|Hx]%elem_of_insert_inv; [|by apply Hs]. rewrite (kept_vault_b64 _ _ Hk). by apply Hs.
  - intros x [->|Hx]%elem_of_insert_inv; [|by apply Hs]. rewrite (kept_keyring _ _ Hk). by apply Hs.
  - split_and!; simpl; [done | done | apply length_insert |]. intros j x Hj.
    destruct (decide (j = i)) as [->|Hne].
    + rewrite Hi in Hj. injection Hj as <-. exists w'. split_and!; [|apply Hk | apply kept_frames; [by eapply so_ready | done]].
      apply list_lookup_insert_eq. by eapply lookup_lt_Some.
    + exists x. by rewrite list_lookup_insert_ne.
Qed.

Lemma round_turn v ks f i n w :
  sound v ks f → fl_devices f !! i = Some w → small (take_turn (Syncs i n) f).1 →
  ∃ s' w', take_turn (Syncs i n) f = (mkFleet s' (<[i := w']> (fl_devices f)), true) ∧
    exchanged (fl_relay f) w s' w'.
Proof.
  intros Hs Hi. cbn [take_turn]. rewrite Hi. pose proof (list_elem_of_lookup_2 _ _ _ Hi) as Hin.
  destruct (relay_sync _ _ _) as [[s' w' k] r] eqn:Hrun. intros [Hsm Hq]. simpl in Hsm, Hq.
  destruct (round_of_run burns rng _ _ _ _ _ _ _ (so_db _ _ _ Hs) (so_ready _ _ _ Hs w Hin) Hrun) as [[c ->] Hex].
  - apply Hsm. apply list_elem_of_lookup_2 with i. apply list_lookup_insert_eq. by eapply lookup_lt_Some.
  - done.
  - by exists s', w'.
Qed.

Lemma turn_sound v ks f t :
  sound v ks f → permitted t = true → small (take_turn t f).1 →
  (take_turn t f).2 = true ∧ sound v ks (take_turn t f).1 ∧ grows f (take_turn t f).1.
Proof.
  intros Hs Hp Hsm. destruct t as [i n|i o].
  - destruct (fl_devices f !! i) as [w|] eqn:Hi; [|cbn [take_turn]; by rewrite Hi].
    destruct (round_turn _ _ _ _ n _ Hs Hi Hsm) as (s' & w' & E & Hex). rewrite E. split; [done|].
    pose proof (list_elem_of_lookup_2 _ _ _ Hi) as Hin. apply (sound_insert v ks f i w); try done; try apply Hex.
    + eapply ready_after; [|done]. by apply Hs.
    + intros x Hx. eapply ready_other; [by apply Hs | done | by rewrite !(so_vault _ _ _ Hs) |].
      by apply (fleet_opens v ks f).
    + destruct (ex_stored _ _ _ _ Hex) as (new & -> & _). intros e He. apply elem_of_app. by left.
  - cbn [take_turn] in *. destruct (fl_devices f !! i) as [w|] eqn:Hi; [|done]. split; [done|].
    destruct (run_op o w) as [w' r] eqn:Hrun. pose proof (list_elem_of_lookup_2 _ _ _ Hi) as Hin.
    destruct (ready_works (fl_relay f) w w' o r) as [Hr Hk]; try done; [apply Hs | by apply Hs | |].
    + apply Hsm. apply list_elem_of_lookup_2 with i. apply list_lookup_insert_eq. by eapply lookup_lt_Some.
    + apply (sound_insert v ks f i w); try done; apply Hs.
Qed.

Lemma turns_sound v ks ts : ∀ f, sound v ks f → forallb permitted ts = true → stays_small ts f →
  (take_turns ts f).2 = true ∧ sound v ks (take_turns ts f).1 ∧ grows f (take_turns ts f).1.
Proof.
  induction ts as [|t ts IH]; intros f Hs Hp Hsm; [done|].
  apply andb_prop in Hp as [Hp Hps]. destruct Hsm as [Hsm Hsms].
  destruct (turn_sound v ks f t Hs Hp Hsm) as (Hok & Hs1 & Hg1). cbn [take_turns].
  destruct (take_turn t f) as [f1 ok]. simpl in Hok, Hs1, Hg1, Hsms. subst ok.
  destruct (IH f1 Hs1 Hps Hsms) as (Hok & Hs2 & Hg2). destruct (take_turns ts f1) as [f2 oks].
  split_and!; [done.. |]. by etransitivity.
Qed.

(** ** What the turns so far have brought *)

Lemma agreed_before v f f' : grows f f' → agreed v f' → agreed v f.
Proof.
  intros (He & Hm & _ & Hd) [Hids Hvis [W HW]].
  assert (Hdev : ∀ w, w ∈ fl_devices f → ∃ w', w' ∈ fl_devices f' ∧ v_keyring w'.2 = v_keyring w.2 ∧
    ∀ g, g ∈ frames_of w → g ∈ frames_of w').
  { intros w [i (w' & Hi & Hw')%Hd]%list_elem_of_lookup. exists w'. split; [by eapply list_elem_of_lookup_2 | done]. }
  assert (Hp : ∀ g, present v f g → present v f' g).
  { intros g [(w & (w' & Hw' & _ & Hf)%Hdev & Hg)|(e & Hin & Hrest)]; [left | right; exists e; auto].
    exists w'. auto. }
  split.
  - intros g h Hg Hh. by apply Hids; apply Hp.
  - intros e w Hin Hv (w' & Hw' & Ek & _)%Hdev. rewrite <- (visible_tables (fl_relay f) (fl_relay f')) by done.
    unfold ed25519_pub. rewrite <- Ek. apply Hvis; auto.
  - exists W. intros g w r Hg (w' & Hw' & Ek & _)%Hdev. rewrite <- Ek. apply HW; auto.
Qed.

(** A round leaves the frames of the relay on the device. *)
Lemma round_synced v f f1 w w' :
  ready burns rng (fl_relay f) w → vault_b64 w.2 = v → exchanged (fl_relay f) w (fl_relay f1) w' →
  w' ∈ fl_devices f1 → agreed v f1 →
  (∀ g, g ∈ frames_of w' → has_entry v (arr_bytes g.1) (t_entries (fl_relay f1))) ∧
  ∀ g, g ∈ frames_of w' ↔ stored v f1 g.
Proof.
  intros Hr Hv Hex Hin Ha. pose proof (ex_kept _ _ _ _ Hex) as Hk.
  assert (Hpush : ∀ g, g ∈ frames_of w' → has_entry v (arr_bytes g.1) (t_entries (fl_relay f1))).
  { intros g Hg. rewrite <- Hv, <- (kept_vault_b64 _ _ Hk).
    eapply st_pushed; [by eapply settled_after | done]. }
  assert (Hown : ∀ g, g ∈ frames_of w' → present v f1 g) by (intros g Hg; left; eauto).
  split; [done|]. intros g. split.
  - intros Hg. destruct (Hpush g Hg) as (e & He & Hve & Hid).
    assert (Hst : stored v f1 (g.1, en_blob e)) by (exists e; done).
    assert (g = (g.1, en_blob e)) as ->; [|done].
    apply (ag_ids _ _ Ha); [by apply Hown | by right | done].
  - intros Hst. pose proof Hst as (e & He & Hve & Hid & Hb).
    destruct (ex_complete _ _ _ _ Hex e) as (h & Hh & Hhid).
    { split_and!; [done | congruence |]. rewrite <- (kept_pub _ _ Hk). by apply (ag_visible _ _ Ha). }
    assert (g = h) as ->; [|done]. apply (ag_ids _ _ Ha); [by right | by apply Hown |].
    apply arr_eq. congruence.
Qed.

(** A round of a device whose frames are all there adds nothing to the relay. *)
Lemma round_adds_nothing s w s' w' v :
  exchanged s w s' w' → vault_b64 w.2 = v → (∀ g, g ∈ frames_of w → has_entry v (arr_bytes g.1) (t_entries s)) →
  t_entries s' = t_entries s.
Proof.
  intros Hex <- Hp. destruct (ex_stored _ _ _ _ Hex) as (new & -> & _ & Hnone). by rewrite (Hnone Hp), app_nil_r.
Qed.

Lemma noted_works v f acc n i o : noted v f acc → noted v (take_turn (Works i o) f).1 (note n acc (Works i o)).
Proof.
  intros [Hp Hsy Hall]. cbn [take_turn note]. split; simpl.
  - intros d [Hne Hd]%list_elem_of_filter. specialize (Hp d Hd).
    destruct (fl_devices f !! i) as [w|]; [|done]. unfold pushed. simpl. by rewrite list_lookup_insert_ne.
  - by intros d ?%not_elem_of_nil.
  - done.
Qed.

Lemma noted_syncs v ks f acc i n :
  sound v ks f → small (take_turn (Syncs i n) f).1 → agreed v (take_turn (Syncs i n) f).1 →
  noted v f acc → noted v (take_turn (Syncs i n) f).1 (note (length (fl_devices f)) acc (Syncs i n)).
Proof.
  intros Hs Hsm Ha [Hp Hsy Hall]. cbn [note].
  set (seen := i :: acc.1). set (all := forallb _ _).
  assert (Hseen : all = true → ∀ d, (d < length (fl_devices f))%nat → d ∈ seen).
  { intros E d Hd. subst all. rewrite forallb_forall in E.
    specialize (E d). rewrite bool_decide_eq_true in E. apply E, in_seq. lia. }
  assert (Hall' : (if all then i :: acc.2 else acc.2) ≠ [] → ∀ d, (d < length (fl_devices f))%nat → d ∈ seen).
  { destruct all; [intros _; by apply Hseen|]. intros Hne d Hd. apply elem_of_cons. right. auto. }
  destruct (fl_devices f !! i) as [w|] eqn:Hi.
  2: { cbn [take_turn] in *. rewrite Hi in *. split; simpl; [..|done].
       - intros d [->|Hd]%elem_of_cons; [|auto]. intros w Hw. congruence.
       - intros d Hd w Hw. assert (Hd' : d ∈ acc.2); [|by apply (Hsy d Hd')].
         destruct all; [|done]. apply elem_of_cons in Hd as [->|Hd]; [congruence | done]. }
  destruct (round_turn _ _ _ _ n _ Hs Hi Hsm) as (s' & w' & E & Hex). rewrite E in *. simpl in Ha |- *.
  pose proof (list_elem_of_lookup_2 _ _ _ Hi) as Hin. pose proof (lookup_lt_Some _ _ _ Hi) as Hlt.
  assert (Hi' : <[i := w']> (fl_devices f) !! i = Some w') by (by apply list_lookup_insert_eq).
  destruct (round_synced v f (mkFleet s' (<[i := w']> (fl_devices f))) w w' (so_ready _ _ _ Hs _ Hin) (so_vault _ _ _ Hs _ Hin) Hex
    (list_elem_of_lookup_2 _ _ _ Hi') Ha) as [Hpush Hsync].
  split; simpl.
  - intros d Hd x Hx g Hg. simpl in Hx. destruct (decide (d = i)) as [->|Hne]; [rewrite Hi' in Hx; injection Hx as <-; by apply Hpush|].
    apply elem_of_cons in Hd as [?|Hd]; [done|]. rewrite list_lookup_insert_ne in Hx by done.
    destruct (Hp d Hd x Hx g Hg) as (e & He & Hve). exists e. split; [|done].
    destruct (ex_stored _ _ _ _ Hex) as (new & En & _). simpl. rewrite En. apply elem_of_app. by left.
  - intros d Hd x Hx. simpl in Hx. destruct (decide (d = i)) as [->|Hne]; [rewrite Hi' in Hx; by injection Hx as <-|].
    assert (Hd' : d ∈ acc.2) by (destruct all; [apply elem_of_cons in Hd as [?|?]|]; done).
    rewrite list_lookup_insert_ne in Hx by done.
    assert (En : t_entries s' = t_entries (fl_relay f)).
    { eapply round_adds_nothing; [done | by eapply so_vault |]. apply (Hp i); [|done].
      apply Hall; [|done]. intros E0. rewrite E0 in Hd'. by apply not_elem_of_nil in Hd'. }
    intros g. unfold stored. simpl. rewrite En. by apply (Hsy d Hd').
  - rewrite length_insert. exact Hall'.
Qed.

Lemma turns_noted v ks ts : ∀ f acc, sound v ks f → forallb permitted ts = true → stays_small ts f →
  agreed v (take_turns ts f).1 → noted v f acc → noted v (take_turns ts f).1 (notes (length (fl_devices f)) ts acc).
Proof.
  induction ts as [|t ts IH]; intros f acc Hs Hp Hsm Ha Hn; [done|].
  pose proof Hp as [Hpt Hps]%andb_prop. pose proof Hsm as [Hsmt Hsms].
  destruct (turn_sound v ks f t Hs Hpt Hsmt) as (_ & Hs1 & Hg1).
  pose proof (turns_sound v ks ts _ Hs1 Hps Hsms) as (_ & _ & Hg2).
  cbn [take_turns notes foldl] in *. destruct (take_turn t f) as [f1 ok] eqn:Et.
  simpl in Hg2. destruct (take_turns ts f1) as [f2 oks] eqn:Ets. simpl in *.
  assert (Hlen : length (fl_devices f1) = length (fl_devices f)) by apply Hg1.
  assert (Hn1 : noted v f1 (note (length (fl_devices f)) acc t)).
  { destruct t as [i n|i o].
    - pose proof (noted_syncs v ks f acc i n Hs) as Hstep. rewrite Et in Hstep.
      apply Hstep; [done | exact (agreed_before v f1 f2 Hg2 Ha) | done].
    - pose proof (noted_works v f acc (length (fl_devices f)) i o Hn) as Hstep. by rewrite Et in Hstep. }
  specialize (IH f1 (note (length (fl_devices f)) acc t) Hs1 Hps Hsms). rewrite Ets, Hlen in IH. by apply IH.
Qed.

(** C1: devices converge.  Any number of approved devices of a vault that hold
    the same keys take turns in any order, each turn a sync round or an
    operation of a device on its own vault.  Every round succeeds and no frame
    is lost.  The devices that have synced since all have synced since they last
    worked hold every frame any device holds, and have one state, provided
    entry ids name one blob, clocks one write, and every device is a member of
    the shares in use. *)
Theorem fleet_converges v ks f ts f' ok :
  sound v ks f → forallb permitted ts = true → stays_small ts f →
  take_turns ts f = (f', ok) → agreed v f' →
  ok = true ∧ sound v ks f' ∧ grows f f' ∧
  ∀ i wi, i ∈ up_to_date (length (fl_devices f)) ts → fl_devices f' !! i = Some wi →
    (∀ w g, w ∈ fl_devices f' → g ∈ frames_of w → g ∈ frames_of wi) ∧
    ∀ j wj, j ∈ up_to_date (length (fl_devices f)) ts → fl_devices f' !! j = Some wj →
      v_state wi.2 = v_state wj.2.
Proof.
  intros Hs Hp Hsm Hrun Ha. pose proof (turns_sound v ks ts f Hs Hp Hsm) as (Hok & Hs' & Hg).
  pose proof (turns_noted v ks ts f ([], []) Hs Hp Hsm) as Hn.
  rewrite Hrun in *. simpl in *. split_and!; [done..|]. intros i wi Hui Hi.
  destruct Hn as [Hpush Hsync Hall]; [done | split; [by intros ? ?%not_elem_of_nil.. | done] |].
  pose proof (Hsync i Hui wi Hi) as Hfi. destruct (ag_clocks _ _ Ha) as [W HW].
  pose proof (list_elem_of_lookup_2 _ _ _ Hi) as Hini. split.
  - intros w g Hw Hgw. apply Hfi. pose proof Hw as [j Hj]%list_elem_of_lookup.
    destruct (Hpush j) with w g as (e & He & Hve & Hid); [|done..|].
    { apply Hall; [|by eapply lookup_lt_Some].
      intros E. unfold up_to_date in Hui. rewrite E in Hui. by apply not_elem_of_nil in Hui. }
    assert (Hst : stored v f' (g.1, en_blob e)) by (exists e; done).
    assert (g = (g.1, en_blob e)) as ->; [|done].
    apply (ag_ids _ _ Ha); [left; eauto | by right | done].
  - intros j wj Huj Hj. pose proof (list_elem_of_lookup_2 _ _ _ Hj) as Hinj.
    apply (same_frames_same_state W); [by eapply rd_inv, so_ready | by eapply rd_inv, so_ready | | |].
    + by rewrite !(so_keys _ _ _ Hs').
    + intros g. rewrite Hfi. symmetry. by apply (Hsync j).
    + intros g r Hgw. apply HW; [left; eauto | done].
Qed.
End fleet.
