(* ===== verification/Notify.v ===== *)
(** * Notify: from a push on one device to a round on another

    A push that stores something announces the vault's new head on the vault's
    channel; the task of every subscribed socket sends what the channel carries;
    the daemon at the other end of the socket runs a round when it is told of a
    head past its cursor, or when the socket ends.  Together: no push is missed
    by a daemon that is listening. *)

From Stdlib Require Import ZArith Lia String.
From S2P Require Import Prelude Text Numerals Record Merge Extern Crypto Log Keyring Validate Vault Crud Lifecycle VaultInv CrudFacts VaultProps Proto RelayDb Relay RelayFacts Sync SyncFacts SyncRound SyncProps.

#[local] Open Scope string_scope.
#[local] Open Scope list_scope.
#[local] Open Scope Z_scope.

(** ** The relay's side *)

(** What a vault's channel has carried, if anyone ever subscribed. *)
Definition carried (s : Relay) (v : string) : option (list Z) := r_channels s !! v.
Definition head_of (s : Relay) (v : string) : Z := vault_head v (t_entries s).

Lemma exec_stmt_quiet burns {B} (st : Stmt B) s : quiet B st →
  t_entries (exec_stmt burns st s).1 = t_entries s ∧
  ∀ v log, carried s v = Some log → carried (exec_stmt burns st s).1 v = Some log.
Proof.
  destruct st; try done; intros _; simpl; repeat case_match; try done. split; [done|].
  intros v log Hv. unfold carried in *. simpl. destruct (decide (vault = v)) as [->|Hne]; [congruence|].
  by rewrite lookup_insert_ne.
Qed.

(** The channel of [v] gains [new]: nothing while the head stays, and whenever
    the head rises, at the end, the new one. *)
Definition announces (v : string) (s s' : Relay) (new : list Z) : Prop :=
  head_of s v ≤ head_of s' v ∧
  (∀ h, h ∈ new → head_of s v < h ≤ head_of s' v) ∧
  (new = [] → head_of s' v = head_of s v).

Definition extends (v : string) (s s' : Relay) : Prop :=
  ∀ log, carried s v = Some log → ∃ new, carried s' v = Some (log ++ new) ∧ announces v s s' new.

Lemma extends_same v s s' :
  t_entries s' = t_entries s → (∀ log, carried s v = Some log → carried s' v = Some log) → extends v s s'.
Proof.
  intros He Hc log Hl. exists []. rewrite app_nil_r. split; [by apply Hc|].
  unfold announces, head_of. rewrite He. split_and!; [lia | by intros h ?%not_elem_of_nil | done].
Qed.

#[export] Instance extends_preorder v : PreOrder (extends v).
Proof.
  split; [intros s; by apply extends_same|]. intros s1 s2 s3 H12 H23 log Hl.
  destruct (H12 _ Hl) as (n1 & Hl1 & Hle1 & Hn1 & Hz1), (H23 _ Hl1) as (n2 & Hl2 & Hle2 & Hn2 & Hz2).
  exists (n1 ++ n2). rewrite app_assoc. split; [done|]. split_and!; [lia | |].
  - intros h [Hh|Hh]%elem_of_app; [specialize (Hn1 _ Hh) | specialize (Hn2 _ Hh)]; lia.
  - intros [-> ->]%app_eq_nil. rewrite Hz2, Hz1; done.
Qed.

(** Entries of other vaults do not move a head; new ones of this vault raise it. *)
Lemma head_app_other v l new : (∀ e, e ∈ new → en_vault e ≠ v) → vault_head v (l ++ new) = vault_head v l.
Proof.
  intros Hn. induction l as [|x l IH]; simpl.
  - induction new as [|x new IH]; [done|]. simpl. rewrite decide_False by (apply Hn; constructor).
    apply IH. intros e He. apply Hn. by constructor.
  - by rewrite IH.
Qed.

(** Entries are only appended. *)
Definition appends (s s' : Relay) : Prop := ∃ more, t_entries s' = t_entries s ++ more.
#[export] Instance appends_preorder : PreOrder appends.
Proof.
  split; [intros x; exists []; by rewrite app_nil_r|].
  intros x y z [m1 E1] [m2 E2]. exists (m1 ++ m2). by rewrite E2, E1, app_assoc.
Qed.

Section relay_side.
Context `{Ed25519} `{Base64}.
Context `{JsonText EnrollReq} `{JsonText ApproveReq} `{JsonText RevokeReq} `{JsonText RotateReq}.
Context `{JsonText ShareGrantReq} `{JsonText ShareRotateReq} `{JsonText PushReq}.
Context (burns : bool).

(** What the relay does for others: it serves requests, none of them refused
    after storing a part of a push, and time passes. *)
Inductive serves : Relay → Relay → Prop :=
  | serves_request s r s' reply :
      run_prog burns (handler r) s = (s', reply) →
      (∀ e, reply = Err e → t_entries s' = t_entries s) → serves s s'
  | serves_tick s now : r_now s ≤ now → serves s (set_now now s).

Lemma serves_ok r s : let answer := send (Transport := relay_transport burns) r s in
  match answer.2 with Ok _ => true | Err _ => false end = true → serves s answer.1.
Proof.
  unfold send, relay_transport. destruct (run_prog burns (handler r) s) as [x y] eqn:E. simpl. intros Hr.
  apply (serves_request s r x y E). intros e ->. done.
Qed.

Lemma notify_carried vault h n s v log :
  carried s v = Some log →
  carried (notify_all burns vault h n s) v =
  Some (if bool_decide (0 < n ∧ vault = v) then log ++ [h] else log).
Proof.
  unfold carried, notify_all. intros Hl. destruct (Z.ltb_spec 0 n) as [Hn|Hn];
    [|by rewrite bool_decide_eq_false_2 by lia]. simpl.
  destruct (decide (vault = v)) as [->|Hne].
  - rewrite Hl, bool_decide_eq_true_2 by done. simpl. by rewrite lookup_insert_eq.
  - rewrite bool_decide_eq_false_2 by naive_solver. destruct (r_channels s !! vault); simpl; [|done].
    by rewrite lookup_insert_ne.
Qed.

Lemma push_extends signed s s' r v :
  db_inv s → run_prog burns (push signed) s = (s', r) →
  (∀ e, r = Err e → t_entries s' = t_entries s) → extends v s s'.
Proof.
  intros Hdb Hrun Hrefused. pose proof (run_prog_inv _ _ _ _ _ Hdb Hrun) as Hdb'.
  rewrite push_run in Hrun. destruct (authenticate _ _) as [[vault key]|e0]; [|injection Hrun as <- <-; reflexivity].
  destruct (may_sync _ _ _); [|injection Hrun as <- <-; reflexivity].
  destruct (json_from_str _) as [req|]; [|injection Hrun as <- <-; reflexivity].
  destruct (run_prog burns (push_all _ _ 0) s) as [s1 [n|e]] eqn:Hpush;
    destruct (push_all_run burns _ _ _ _ _ _ Hpush) as (new & En & Hs1 & Hnew & Hn); injection Hrun as <- <-.
  2: { apply extends_same; [by eapply Hrefused|]. intros log. by rewrite Hs1. }
  destruct Hn as (-> & _). destruct (notify_all_tables burns vault (vault_head vault (t_entries s1)) (0 + Z.of_nat (length new)) s1)
    as (Ee & _).
  intros log Hl. assert (Hl1 : carried s1 v = Some log) by (by rewrite Hs1).
  rewrite (notify_carried _ _ _ _ _ _ Hl1). unfold announces, head_of. rewrite Ee, En.
  assert (Hle : vault_head v (t_entries s) ≤ vault_head v (t_entries s ++ new)) by apply vault_head_app.
  destruct (decide (vault = v)) as [->|Hne].
  - destruct new as [|x new]; [exists []; rewrite !app_nil_r; split; [done|]; split_and!; [lia | by intros h ?%not_elem_of_nil | done]|].
    rewrite bool_decide_eq_true_2 by (split; [simpl length; lia | done]).
    eexists. split; [done|]. split_and!; [done | | done]. intros h ->%list_elem_of_singleton. split; [|done].
    assert (Hx : x ∈ x :: new) by constructor. destruct (Hnew _ Hx) as [Hv _].
    assert (vault_head v (t_entries s) < en_seq x).
    { eapply appended_seq; [exact Hdb' | by rewrite Ee, En | done]. }
    assert (en_seq x ≤ vault_head v (t_entries s ++ x :: new)); [|lia].
    apply vault_head_ub; [apply elem_of_app; by right | done].
  - rewrite bool_decide_eq_false_2 by naive_solver. exists []. rewrite app_nil_r. split; [done|].
    rewrite head_app_other; [split_and!; [lia | by intros h ?%not_elem_of_nil | done]|].
    intros e He. by destruct (Hnew e He) as [-> _].
Qed.

Lemma serves_appends s s' : serves s s' → appends s s'.
Proof.
  intros [s0 r s1 rep Hrun _|s0 now _]; [|exists []; by rewrite app_nil_r].
  apply (run_prog_all burns guarded appends) in Hrun; [done | | apply handler_guarded].
  intros B st x _. apply exec_stmt_entries.
Qed.

Lemma serves_extends v s s' : serves s s' → db_inv s → db_inv s' ∧ extends v s s'.
Proof.
  intros [s0 r s1 rep Hrun Href|s0 now Hnow] Hdb.
  - split; [by eapply run_prog_inv|]. destruct (is_push r) eqn:Hp.
    + destruct r as [| | | | | | | | | |signed| |]; try done. cbn [handler] in Hrun.
      rewrite reply_run in Hrun. destruct (run_prog burns (push signed) s0) as [s2 x] eqn:Hpush.
      assert (s2 = s1 ∧ ∀ e, x = Err e → t_entries s2 = t_entries s0) as [<- Hx].
      { destruct x; injection Hrun as <- <-; split; try done. intros e' _. by eapply Href. }
      by eapply push_extends.
    + apply (run_prog_all burns quiet (extends v)) in Hrun; [done | | by apply handler_quiet].
      intros B st s2 Hq. destruct (exec_stmt_quiet burns st s2 Hq) as [He Hc]. apply extends_same; [exact He | exact (Hc v)].
  - split; [by apply (db_inv_ext s0) | by apply extends_same].
Qed.

Lemma served_extends v s s' : db_inv s → rtc serves s s' → db_inv s' ∧ extends v s s'.
Proof.
  intros Hdb Hrun. induction Hrun as [s|s s1 s2 Hs Hrun IH]; [done|].
  destruct (serves_extends v _ _ Hs Hdb) as [Hdb1 H1s]. destruct (IH Hdb1) as [Hdb2 H2s].
  split; [done | by transitivity s1].
Qed.

Lemma served_appends s s' : rtc serves s s' → appends s s'.
Proof. induction 1; [reflexivity|]. etransitivity; [by apply serves_appends | done]. Qed.
End relay_side.

(** Subscribing makes sure there is a channel, and that is all. *)
Lemma subscribed burns v s : let s' := (run_prog burns (ws v) s).1 in
  (db_inv s → db_inv s') ∧ same_tables s s' ∧ t_entries s' = t_entries s.
Proof.
  unfold ws. simpl. destruct (r_channels s !! v); (split_and!; [|done..]); intros Hs; by apply (db_inv_ext s).
Qed.

(** ** The socket's task *)

(** Whenever it gets to run, and whatever it saw then, it has sent what the
    channel carried from where it stood, in order and without gaps. *)
Lemma ws_loop_sends `{BroadcastLaws} final turns : ∀ i messages open,
  Forall (λ t, t.1 `prefix_of` final) turns → ws_loop turns i = (messages, open) →
  ∃ k, messages = show_int <$> take k (drop i final).
Proof.
  induction turns as [|[carried taken] turns IH]; intros i messages open Hall; cbn [ws_loop].
  { intros [= <- _]. by exists 0%nat. }
  apply Forall_cons in Hall as [[more Hf] Hall]. simpl in Hf. unfold ws_turn.
  destruct (recv _ _ _) as [h| |] eqn:Er; [|by intros [= <- _]; exists 0%nat | by apply IH].
  destruct taken; [|by intros [= <- _]; exists 0%nat].
  destruct (ws_loop turns (S i)) as [ms o] eqn:El. intros [= <- _].
  destruct (IH _ _ _ Hall El) as [k ->]. exists (S k).
  apply recv_received in Er. rewrite (drop_S final h i); [done|]. rewrite Hf. by apply lookup_app_l_Some.
Qed.

(** Once it waits it has sent everything. *)
Lemma ws_loop_parked `{BroadcastLaws} final turns i messages :
  Forall (λ t, t.1 `prefix_of` final) turns → ws_loop turns i = (messages, true) →
  ws_turn final (i + length messages) true = Parked → messages = show_int <$> drop i final.
Proof.
  intros Hall Hrun Hpark. destruct (ws_loop_sends _ _ _ _ _ Hall Hrun) as [k ->].
  unfold ws_turn in Hpark. destruct (recv _ _ _) eqn:Er; [done..|]. apply recv_waiting in Er.
  rewrite length_fmap, length_take, length_drop in Er. f_equal. apply take_ge. rewrite length_drop. lia.
Qed.

(** ** The daemon's side *)

(** The numbers a relay gives only rise. *)
Definition numbers_rise (c c' : Client Relay) : Prop := t_sequence (c_net c) ≤ t_sequence (c_net c').

#[export] Instance number_steps `{Aead} `{Hkdf} `{X25519} `{Ed25519} `{Argon2} `{Bip39} `{Base64} `{HashOrder}
    `{MsgPack Keyring} `{MsgPack Rec} `{MsgPack Snapshot} `{JsonText Meta}
    `{JsonText EnrollReq} `{JsonText ApproveReq} `{JsonText RevokeReq} `{JsonText RotateReq}
    `{JsonText ShareGrantReq} `{JsonText ShareRotateReq} `{JsonText PushReq} burns :
  ClientSteps (RT := relay_transport burns) numbers_rise.
Proof.
  unfold numbers_rise. split; simpl; try done.
  - split; [intros c; lia | intros c1 c2 c3; lia].
  - intros req n w k. unfold send, relay_transport.
    destruct (run_prog burns (handler req) n) as [n' rep] eqn:E. simpl.
    assert (Hr : Reflexive (λ a b : Relay, t_sequence a ≤ t_sequence b)) by (intros x; lia).
    assert (Ht : Transitive (λ a b : Relay, t_sequence a ≤ t_sequence b)) by (intros x y z; lia).
    apply (run_prog_all burns guarded (λ a b, t_sequence a ≤ t_sequence b)) in E; [done | | apply handler_guarded].
    intros B st x _. apply exec_stmt_sequence.
Qed.

Section daemon.
Context `{AeadLaws} `{!AeadCommit} `{MsgPackLaws Keyring} `{MsgPackLaws Rec}.
Context `{MsgPackLaws Snapshot} `{JsonTextLaws Meta} `{HashOrderLaws}.
Context `{Ed25519Laws} `{Base64Laws} `{Argon2} `{X25519} `{Hkdf} `{Bip39}.
Context `{JsonText EnrollReq} `{JsonText ApproveReq} `{JsonText RevokeReq} `{JsonText RotateReq}.
Context `{JsonText ShareGrantReq} `{JsonText ShareRotateReq} `{JsonTextLaws PushReq}.
Context (burns : bool) (rng : Entropy).
(** The caller's callback does not talk to the relay. *)
Context (on_round : Vault → Z → nat → Relay → Relay) (Hcall : ∀ v p q s, on_round v p q s = s).
Abbreviation DM := (M (Client Relay) SyncError).
#[local] Instance RT : Transport Relay := relay_transport burns.

(** Within the bounds of the numbers in use. *)
Definition in_bounds (c : Client Relay) : Prop := log_small (c_world c).1 ∧ t_sequence (c_net c) ≤ i64_max.

Lemma bounds_before {A} (m : DM A) c c' r :
  keeps vaults_ext m → keeps numbers_rise m → m c = (c', r) → in_bounds c' → in_bounds c.
Proof.
  intros Hv Hn Hrun [Hs Hq]. specialize (Hv _ _ _ Hrun). specialize (Hn _ _ _ Hrun). split.
  - eapply log_ext_small; [apply Hv | done].
  - unfold numbers_rise in Hn. lia.
Qed.

Lemma calls_quiet n w k v p q : numbers_rise (mkClient n w k) (mkClient (on_round v p q n) w k).
Proof. unfold numbers_rise. simpl. by rewrite Hcall. Qed.
Lemma calls_still n w k v p q : vaults_ext (mkClient n w k) (mkClient (on_round v p q n) w k).
Proof. unfold vaults_ext. reflexivity. Qed.
Lemma bounds_actions l c c' r : run_actions rng on_round l c = (c', r) → in_bounds c' → in_bounds c.
Proof.
  apply bounds_before; [exact (keeps_actions rng vaults_ext on_round calls_still l)|].
  exact (keeps_actions rng numbers_rise on_round calls_quiet l).
Qed.
Lemma bounds_loop d events c c' r : syncd_loop rng on_round d events c = (c', r) → in_bounds c' → in_bounds c.
Proof.
  apply bounds_before; [exact (keeps_loop rng vaults_ext on_round calls_still d events)|].
  exact (keeps_loop rng numbers_rise on_round calls_quiet d events).
Qed.

(** A reload by the only process on the directory. *)
Lemma ready_reloaded s w nonce : ready burns rng s w →
  ∃ w0, reload nonce w = (w0, Ok tt) ∧ kept w w0 ∧ ready burns rng s w0 ∧ f_log w0.1 = f_log w.1 ∧
    v_meta w0.2 = v_meta w.2 ∧ v_keyring w0.2 = v_keyring w.2.
Proof.
  intros [Hw Hurl Hclock Hm Hkeys Hent Hcur]. destruct (inv_log _ Hw) as [recs [[frames Hl] Hst]].
  destruct (replay_log_ok w frames recs nonce) as (w0 & Hrun & Hi & Hr & El & _ & _ & E1 & E2 & E3);
    [apply Hw.. | done |].
  exists w0. rewrite reload_eq by done. split_and!; try done; [by eapply kept_quiet|].
  assert (Ev : vault_b64 w0.2 = vault_b64 w.2) by (unfold vault_b64; by rewrite E1).
  assert (Ep : ed25519_pub w0.2 = ed25519_pub w.2) by (unfold ed25519_pub; by rewrite E2).
  assert (Hsee : ∀ e, may_see s w0.2 e ↔ may_see s w.2 e) by (intros e; unfold may_see; by rewrite Ev, Ep).
  split; rewrite ?E1, ?E2, ?Ev, ?Ep; try done.
  - by apply (keys_current_tables burns s s w.2 w0.2).
  - intros e He%Hsee. by apply Hent.
  - destruct Hcur as [Hc Hall]. unfold caught_up. rewrite E1, Ev. split; [done|].
    intros e He%Hsee Hle. destruct (Hall e He Hle) as (f & Hf & Hid). exists f. split; [|done].
    unfold frames_of in *. by rewrite El.
Qed.

(** Where a round leaves the daemon: with everything, everything pushed, and
    its cursor at the head. *)
Definition arrived (s : Relay) (w : World) (c' : Client Relay) : Prop :=
  settled_at burns rng (c_net c') (c_world c') ∧ kept w (c_world c') ∧
  same_tables s (c_net c') ∧ appends s (c_net c').

Lemma arrived_trans s w c1 c2 :
  arrived s w c1 → arrived (c_net c1) (c_world c1) c2 → arrived s w c2.
Proof.
  intros (_ & K1 & T1 & A1) (S2 & K2 & T2 & A2). split_and!; [done | by eapply kept_trans | by etransitivity..].
Qed.

Lemma daemon_round s w n c' r :
  db_inv s → ready burns rng s w → round rng on_round (mkClient s w n) = (c', r) → in_bounds c' →
  r = Ok tt ∧ arrived s w c'.
Proof.
  intros Hdb Hr. destruct (ready_reloaded s w (e_nonce rng n) Hr) as (w0 & Hrel & Hk & Hr0 & _).
  unfold round, sbind, fresh, vault. cbn [c_net c_world c_draws]. rewrite Hrel. cbn [res_map_err].
  destruct (sync_once rng _) as [[s1 w1 k1] x] eqn:Hrun. intros E Hb.
  assert (Hb1 : in_bounds (mkClient s1 w1 k1)).
  { destruct x as [[p q]|e]; [injection E as <- _; by rewrite Hcall in Hb|].
    destruct (transient e); by injection E as <- _. }
  destruct (round_of_run burns rng _ _ _ _ _ _ _ Hdb Hr0 Hrun (proj1 Hb1) (proj2 Hb1)) as [[[p q] ->] Hex].
  injection E as <- <-. split; [done|]. rewrite Hcall. split_and!; simpl.
  - by eapply settled_after.
  - eapply kept_trans; [exact Hk | apply Hex].
  - apply Hex.
  - destruct (ex_stored _ _ _ _ Hex) as (new & En & _). by exists new.
Qed.

Lemma settled_arrived c : settled_at burns rng (c_net c) (c_world c) → arrived (c_net c) (c_world c) c.
Proof.
  intros Hs. split_and!; [done | apply kept_refl, Hs | reflexivity..].
Qed.

(** The actions of the loop, from a place where a round is possible. *)
Lemma actions_arrive l : ∀ s w n c' r,
  db_inv s → ready burns rng s w → run_actions rng on_round l (mkClient s w n) = (c', r) → in_bounds c' →
  ARound ∈ l ∨ settled_at burns rng s w → r = Ok tt ∧ arrived s w c'.
Proof.
  induction l as [|[|secs] l IH]; intros s w n c' r Hdb Hr; cbn [run_actions].
  - intros [= <- <-] _ [Hin|Hs]; [by apply not_elem_of_nil in Hin|]. split; [done|].
    by apply (settled_arrived (mkClient s w n)).
  - unfold sbind. destruct (round _ _ _) as [c1 r1] eqn:Hround. intros Hrest Hb _.
    assert (Hb1 : in_bounds c1).
    { destruct r1 as [[]|e]; [|by injection Hrest as <- _].
      by eapply bounds_actions. }
    destruct (daemon_round _ _ _ _ _ Hdb Hr Hround Hb1) as [-> Ha].
    pose proof Ha as (Hs1 & _). destruct c1 as [s1 w1 k1].
    destruct (IH s1 w1 k1 c' r) as [-> Ha2]; [apply Hs1.. | exact Hrest | done | by right |].
    split; [done|]. by eapply (arrived_trans s w (mkClient s1 w1 k1)).
  - intros Hrest Hb Hor. eapply IH; try done. destruct Hor as [Hin|]; [left|by right].
    apply elem_of_cons in Hin as [|]; done.
Qed.

(** From a place where nothing is missing, whatever happens to the socket. *)
Lemma loop_settled events : ∀ d s w n c' r,
  settled_at burns rng s w → syncd_loop rng on_round d events (mkClient s w n) = (c', r) → in_bounds c' →
  (∃ d', r = Ok d') ∧ arrived s w c'.
Proof.
  induction events as [|e events IH]; intros d s w n c' r Hs; cbn [syncd_loop].
  { intros [= <- <-] _. split; [by eexists | by apply (settled_arrived (mkClient s w n))]. }
  unfold sbind at 1, the_vault, sget. cbn [c_world].
  destruct (syncd_step _ _ _) as [[actions d1]|]; [|by apply IH].
  unfold sbind. destruct (run_actions _ _ _ _) as [c1 r1] eqn:Hact. intros Hrest Hb.
  assert (Hb1 : in_bounds c1) by (destruct r1 as [[]|e1]; [by eapply bounds_loop | by injection Hrest as <- _]).
  destruct (actions_arrive _ _ _ _ _ _ (st_inv _ _ _ _ Hs) (st_ready _ _ _ _ Hs) Hact Hb1 (or_intror Hs)) as [-> Ha].
  pose proof Ha as (Hs1 & _). destruct c1 as [s1 w1 k1].
  destruct (IH d1 s1 w1 k1 c' r Hs1 Hrest Hb) as [Hok Ha2]. split; [done|].
  by eapply (arrived_trans s w (mkClient s1 w1 k1)).
Qed.

(** From any other place where a round is possible, an event that starts one. *)
Lemma loop_woken d e events s w n actions d1 c' r :
  db_inv s → ready burns rng s w → syncd_step d e (sync_cursor (v_meta w.2)) = Some (actions, d1) →
  ARound ∈ actions → syncd_loop rng on_round d (e :: events) (mkClient s w n) = (c', r) → in_bounds c' →
  (∃ d', r = Ok d') ∧ arrived s w c'.
Proof.
  intros Hdb Hr Hstep Hin. cbn [syncd_loop]. unfold sbind at 1, the_vault, sget. cbn [c_world]. rewrite Hstep.
  unfold sbind. destruct (run_actions _ _ _ _) as [c1 r1] eqn:Hact. intros Hrest Hb.
  assert (Hb1 : in_bounds c1) by (destruct r1 as [[]|e1]; [by eapply bounds_loop | by injection Hrest as <- _]).
  destruct (actions_arrive _ _ _ _ _ _ Hdb Hr Hact Hb1 (or_introl Hin)) as [-> Ha].
  pose proof Ha as (Hs1 & _). destruct c1 as [s1 w1 k1].
  destruct (loop_settled _ d1 s1 w1 k1 c' r Hs1 Hrest Hb) as [Hok Ha2]. split; [done|].
  by eapply (arrived_trans s w (mkClient s1 w1 k1)).
Qed.

(** What the daemon hears of a socket: the messages, then its end. *)
Definition heard (messages : list string) (open : bool) (elapsed : Z) : list Event :=
  (Text <$> messages) ++ (if open then [] else [Dropped elapsed]).

Lemma text_wakes b h cursor : 0 ≤ h ≤ u64_max → cursor < h →
  syncd_step (Listening b) (Text (show_int h)) cursor = Some ([ARound], Listening b).
Proof.
  intros Hh Hc. cbn [syncd_step]. unfold announces_news. rewrite parse_shown by done.
  by rewrite (proj2 (Z.ltb_lt _ _)).
Qed.

Lemma drop_wakes b elapsed cursor : ∃ actions d,
  syncd_step (Listening b) (Dropped elapsed) cursor = Some (actions, d) ∧ ARound ∈ actions.
Proof.
  cbn [syncd_step]. case_match; eexists _, _; (split; [done|]); [|apply list_elem_of_further]; apply list_elem_of_here.
Qed.

Lemma settled_served s w s' log final :
  settled_at burns rng s w → carried s (vault_b64 w.2) = Some log → rtc (serves burns) s s' →
  carried s' (vault_b64 w.2) = Some final → ready burns rng s' w →
  ∃ new, final = log ++ new ∧ (∀ h, h ∈ new → sync_cursor (v_meta w.2) < h ≤ head_of s' (vault_b64 w.2)) ∧
    (new = [] → settled_at burns rng s' w).
Proof.
  intros Hs Hlog Hserve Hfin Hr. destruct (served_extends burns (vault_b64 w.2) _ _ (st_inv _ _ _ _ Hs) Hserve) as [Hdb' Hext].
  destruct (Hext _ Hlog) as (new & Hnew & Hle & Hin & Hnil). exists new. rewrite (st_cursor _ _ _ _ Hs).
  split_and!; [congruence | done |]. intros ->. split; try done.
  - intros f Hf. destruct (st_pushed _ _ _ _ Hs f Hf) as (e & He & Hve). exists e. split; [|done].
    destruct (served_appends _ _ _ Hserve) as [more ->]. apply elem_of_app. by left.
  - rewrite (st_cursor _ _ _ _ Hs). symmetry. by apply Hnil.
Qed.

(** C18: no push is missed by a listening daemon.  A daemon has synced and its
    socket is subscribed; others are served, pushes among them, none refused
    after storing a part; the socket's task runs as it is scheduled, until it
    waits for more or the socket ends, by lagging behind or by failing to send.
    Then the loop, run on what the daemon hears of the socket, succeeds and
    leaves it holding every entry that was stored in the meantime and it may
    see, with everything of its own pushed and its cursor at the head. *)
Theorem no_push_missed `{!Broadcast, !BroadcastLaws} s w n s' log final turns messages open elapsed b c' r :
  settled_at burns rng s w → carried s (vault_b64 w.2) = Some log →
  rtc (serves burns) s s' → carried s' (vault_b64 w.2) = Some final → ready burns rng s' w →
  Forall (λ t, t.1 `prefix_of` final) turns → ws_loop turns (length log) = (messages, open) →
  (open = true → ws_turn final (length log + length messages) true = Parked) →
  syncd_loop rng on_round (Listening b) (heard messages open elapsed) (mkClient s' w n) = (c', r) → in_bounds c' →
  (∃ d, r = Ok d) ∧ kept w (c_world c') ∧ settled_at burns rng (c_net c') (c_world c') ∧
  ∀ e, may_see s' w.2 e → holds_entry (c_world c') e.
Proof.
  intros Hs Hlog Hserve Hfin Hr Hviews Hws Hpark Hloop Hb.
  destruct (served_extends burns (vault_b64 w.2) _ _ (st_inv _ _ _ _ Hs) Hserve) as [Hdb' _].
  destruct (settled_served _ _ _ _ _ Hs Hlog Hserve Hfin Hr) as (new & -> & Hnews & Hnone).
  assert (Hok : (∃ d, r = Ok d) ∧ arrived s' w c').
  { destruct (ws_loop_sends _ _ _ _ _ Hviews Hws) as [j Hj]. rewrite drop_app_length in Hj.
    destruct messages as [|m messages].
    - destruct open.
      + pose proof (ws_loop_parked _ _ _ _ Hviews Hws (Hpark eq_refl)) as Hall. rewrite drop_app_length in Hall.
        symmetry in Hall. apply fmap_nil_inv in Hall. specialize (Hnone Hall). by eapply loop_settled.
      + change (heard [] false elapsed) with [Dropped elapsed] in Hloop. destruct (drop_wakes b elapsed (sync_cursor (v_meta w.2))) as (l & d & Hstep & Hin).
        by eapply loop_woken.
    - destruct new as [|h new]; [by rewrite take_nil in Hj|]. destruct j as [|j]; [done|]. injection Hj as -> _.
      destruct (Hnews h) as [Hgt Hle]; [constructor|].
      eapply loop_woken; [done | done | apply text_wakes; [|exact Hgt] | constructor | exact Hloop | done].
      pose proof (rd_cursor _ _ _ _ Hr) as [Hc _]. pose proof (vault_head_range s' (vault_b64 w.2) Hdb').
      destruct (bounds_loop _ _ _ _ _ Hloop Hb) as [_ Hq]. unfold head_of, u64_max, i64_max in *. simpl in Hq. lia. }
  destruct Hok as [Hok (Hset & Hk & Htab & [more Ha])]. split_and!; try done.
  intros e (He & Hv & Hvis). pose proof (kept_vault_b64 _ _ Hk) as Ev. pose proof (kept_pub _ _ Hk) as Ep.
  apply (rd_cursor _ _ _ _ (st_ready _ _ _ _ Hset)).
  - unfold may_see. rewrite Ev, Ep, Ha. split_and!; [apply elem_of_app; by left | done |].
    rewrite (visible_tables s'); [done | apply Htab].
  - rewrite (st_cursor _ _ _ _ Hset), Ev. apply vault_head_ub; [|done]. rewrite Ha. apply elem_of_app. by left.
Qed.
End daemon.
