(* ===== verification/SyncSamples.v ===== *)
(** * SyncSamples: two devices of one vault syncing through one relay

    The sample vault of [VaultSamples.v], with one host in it, and a second,
    empty device of the same vault, enrolled with the sample relay and
    approved, with the codecs and ciphers of [Toy]. *)

From Stdlib Require Import ZArith Lia String.
From S2P Require Import Prelude Text Record Merge Extern Crypto Log Keyring Validate Vault Crud Lifecycle VaultInv CrudFacts VaultProps VaultSamples Proto RelayDb Relay RelayFacts RelayProps RelaySamples Sync SyncFacts SyncRound SyncProps.
Import Toy SampleVault.

#[local] Open Scope string_scope.
#[local] Open Scope list_scope.
#[local] Open Scope Z_scope.

Module SampleSync.
Definition now0 : Z := 1700000000.
Definition rng : Entropy := mkEntropy (λ _, now0) (λ n, b24 (Z.of_nat n)) (λ n, b16 (Z.of_nat n)) (λ n, b32 (Z.of_nat n)).
Definition url : string := "https://relay.example".
(** The laptop, with one host added, and a phone with the same vault key. *)
Definition laptop : World := exec (set_relay_url url) world1.
Definition phone_created : Disk * res VaultError Vault :=
  create_with_keys "phone" "pin" (b16 1) (b32 2) (b32 3) (mkDeviceKeys (b32 14) (b32 15))
    (mkInitDraw (b16 16) (b16 17) (b24 11)) empty_disk.
Definition phone0 : World :=
  (phone_created.1, match phone_created.2 with Ok v => v | Err _ => nobody end).
Definition phone : World := exec (set_relay_url url) phone0.
(** The relay after both have enrolled and the laptop has approved the phone. *)
Definition enrolled (w : World) (s : Relay) : Relay :=
  c_net (exec (enroll (RT := relay_transport false) rng) (mkClient s w 0)).
Definition approved : Relay :=
  (run_prog false (approve (sign laptop.2 now0
     (json_to_string (mkApproveReq (device_b64 phone.2) "wrapped"))))
   (enrolled phone (enrolled laptop (empty_relay now0)))).1.
Definition round_of (s : Relay) (w : World) : Client Relay * res SyncError (Z * nat) :=
  relay_sync false rng (mkClient s w 0).
End SampleSync.
Import SampleSync.

(** ** The devices and the relay are as the theorems need them *)

Lemma laptop_inv : vault_inv laptop.
Proof.
  apply (kept_inv world1), vault_step_kept; [apply session1|]. exists (OpRelayUrl url), (Ok tt).
  split; [reflexivity | log_small].
Qed.

Lemma phone_inv : vault_inv phone.
Proof.
  assert (Hs : session "pin" phone0).
  { destruct (create_session "phone" "pin" (b16 1) (b32 2) (b32 3) (mkDeviceKeys (b32 14) (b32 15))
      (mkInitDraw (b16 16) (b16 17) (b24 11)) empty_disk phone0.1 phone0.2); [reflexivity..|]. done. }
  apply (kept_inv phone0), vault_step_kept; [apply Hs|]. exists (OpRelayUrl url), (Ok tt).
  split; [reflexivity | log_small].
Qed.

Lemma enrolled_inv w s : db_inv s → db_inv (enrolled w s).
Proof.
  intros Hs. unfold enrolled, exec, enroll, post, sbind, the_vault, sget, now_unix, fresh, http, send, relay_transport.
  simpl. destruct (run_prog false _ s) as [s' r] eqn:E. simpl. apply run_prog_inv in E; [|done].
  by destruct r as [[]|].
Qed.

Lemma approved_inv : db_inv approved.
Proof.
  unfold approved. set (p := approve _). destruct (run_prog false p _) as [s r] eqn:E.
  apply run_prog_inv in E; [exact E|]. apply enrolled_inv, enrolled_inv. apply sample_invariant.
Qed.

Lemma approved_entries : t_entries approved = [].
Proof. vm_compute. reflexivity. Qed.

(** An approved device is ready at a relay that stores nothing yet. *)
Lemma fresh_ready s w :
  t_entries s = [] → (∀ k, outside_window (r_now s) (e_now rng k) = false) →
  vault_inv w → relay_url (v_meta w.2) = Some url → may_sync s (vault_b64 w.2) (ed25519_pub w.2) = true →
  memberships false s w.2 = [] → sync_cursor (v_meta w.2) = 0 →
  (∀ row, vault_lookup (vault_b64 w.2) (t_vaults s) = Some row → vr_epoch row = 0) →
  ready false rng s w.
Proof.
  intros He Hclock Hw Hu Hm Hmem Hc Hrow. split.
  - exact Hw.
  - rewrite Hu. eauto.
  - exact Hclock.
  - exact Hm.
  - split.
    + intros row Hr. rewrite (Hrow _ Hr). apply share_epoch_nonneg.
    + rewrite Hmem. constructor.
  - intros e [Hin _]. rewrite He in Hin. destruct (not_elem_of_nil _ Hin).
  - split; [rewrite Hc, He; cbn [vault_head foldr]; clear; lia|].
    intros e [Hin _]. rewrite He in Hin. destruct (not_elem_of_nil _ Hin).
Qed.

Lemma sample_ready w :
  vault_inv w → relay_url (v_meta w.2) = Some url → may_sync approved (vault_b64 w.2) (ed25519_pub w.2) = true →
  memberships false approved w.2 = [] → sync_cursor (v_meta w.2) = 0 →
  (∀ row, vault_lookup (vault_b64 w.2) (t_vaults approved) = Some row → vr_epoch row = 0) →
  ready false rng approved w.
Proof. apply fresh_ready; [apply approved_entries|]. intros k. vm_compute. reflexivity. Qed.

Lemma laptop_ready : ready false rng approved laptop.
Proof.
  apply sample_ready; [apply laptop_inv | reflexivity | vm_compute; reflexivity.. |].
  intros row Hr. vm_compute in Hr. injection Hr as <-. reflexivity.
Qed.
Lemma phone_ready : ready false rng approved phone.
Proof.
  apply sample_ready; [apply phone_inv | reflexivity | vm_compute; reflexivity.. |].
  intros row Hr. vm_compute in Hr. injection Hr as <-. reflexivity.
Qed.

(** The history of one snapshot. *)
Definition history_of (r : Rec) : History :=
  mkHistory (λ _ k _, default JNull (value <$> rec_fields r !! k)) (λ _ _, (rec_device_id r, rec_share_id r)).
Lemma history_of_consistent r : consistent (history_of r) r.
Proof. split; [|done]. intros k f Hf. simpl. by rewrite Hf. Qed.

(** The laptop's one frame, and the record in it. *)
Definition laptop_frame : RawEntry := default (b16 0, []) (frames_of laptop !! 0%nat).
Definition laptop_record : Rec :=
  match open_entry (v_keyring laptop.2) laptop_frame.1 laptop_frame.2 with
  | Ok (Some r) => r
  | _ => mkRec (b16 0) Kind.Host ∅ None (mkClock 0 (b16 0)) (b16 0) 0 (b16 0)
  end.
Lemma laptop_frames : frames_of laptop = [laptop_frame].
Proof. vm_compute. reflexivity. Qed.
Lemma phone_frames : frames_of phone = [].
Proof. vm_compute. reflexivity. Qed.
Lemma laptop_opens : open_entry (v_keyring laptop.2) laptop_frame.1 laptop_frame.2 = Ok (Some laptop_record).
Proof. vm_compute. reflexivity. Qed.
Lemma laptop_opens_only r : open_entry (v_keyring laptop.2) laptop_frame.1 laptop_frame.2 = Ok (Some r) → laptop_record = r.
Proof.
  intros Hr. exact (f_equal (λ x, match x with Ok (Some y) => y | _ => r end) (eq_trans (eq_sym laptop_opens) Hr)).
Qed.
Lemma laptop_tag : arr_bytes (tag_of (v_keyring laptop.2) laptop_frame) = nil_share.
Proof. vm_compute. reflexivity. Qed.

Lemma sample_held f : held approved laptop phone f → f = laptop_frame.
Proof.
  unfold held. rewrite laptop_frames, phone_frames, approved_entries.
  intros [Hf|[Hf|(e & He & _)]]; [by apply list_elem_of_singleton in Hf | |].
  - destruct (not_elem_of_nil _ Hf).
  - destruct (not_elem_of_nil _ He).
Qed.

Lemma sample_team : team approved laptop phone.
Proof.
  split.
  - vm_compute. reflexivity.
  - vm_compute. reflexivity.
  - intros e k He. rewrite approved_entries in He. destruct (not_elem_of_nil _ He).
  - intros f e k Hf _ Hsh _. assert (f = laptop_frame) as ->.
    { apply sample_held. unfold held. destruct Hf; [by left | right; by left]. }
    rewrite laptop_tag in Hsh. unfold visible. by rewrite Hsh, bool_decide_eq_true_2.
  - intros f g ->%sample_held ->%sample_held _. reflexivity.
  - exists (history_of laptop_record). intros f r ->%sample_held Hr.
    rewrite <- (laptop_opens_only r Hr). apply history_of_consistent.
Qed.

(** ** The properties *)

Lemma run_client (s : Relay) w :
  relay_sync false rng (mkClient s w 0) = (mkClient (c_net (round_of s w).1) (c_world (round_of s w).1) (c_draws (round_of s w).1),
                  (round_of s w).2).
Proof. unfold round_of. by destruct (relay_sync false rng (mkClient s w 0)) as [[] r]. Qed.

Lemma sync_exchanges_witness :
  ∃ s' w' k st pl, relay_sync false rng (mkClient approved laptop 0) = (mkClient s' w' k, Ok (st, pl)).
Proof.
  destruct (sync_exchanges false rng approved laptop 0 approved_inv laptop_ready)
    as (s' & w' & k & st & pl & Hrun & _).
  exists s', w', k, st, pl. exact Hrun.
Defined.

Module SampleRounds.
Definition c1 : Client Relay := (round_of approved laptop).1.
Definition c2 : Client Relay := (round_of (c_net c1) phone).1.
Definition c3 : Client Relay := (round_of (c_net c2) (c_world c1)).1.
End SampleRounds.
Import SampleRounds.

Lemma run1 : relay_sync false rng (mkClient approved laptop 0) =
  (mkClient (c_net c1) (c_world c1) (c_draws c1), (round_of approved laptop).2).
Proof. exact (run_client _ _). Qed.
Lemma run2 : relay_sync false rng (mkClient (c_net c1) phone 0) =
  (mkClient (c_net c2) (c_world c2) (c_draws c2), (round_of (c_net c1) phone).2).
Proof. exact (run_client _ _). Qed.
Lemma run3 : relay_sync false rng (mkClient (c_net c2) (c_world c1) 0) =
  (mkClient (c_net c3) (c_world c3) (c_draws c3), (round_of (c_net c2) (c_world c1)).2).
Proof. exact (run_client _ _). Qed.

Lemma devices_converge_witness :
  v_state (c_world c3).2 = v_state (c_world c2).2 ∧ laptop_frame ∈ frames_of (c_world c2).
Proof.
  destruct (devices_converge false rng approved laptop phone 0 0 0
    (c_net c1) (c_world c1) (c_draws c1) (round_of approved laptop).2
    (c_net c2) (c_world c2) (c_draws c2) (round_of (c_net c1) phone).2
    (c_net c3) (c_world c3) (c_draws c3) (round_of (c_net c2) (c_world c1)).2
    approved_inv laptop_ready phone_ready sample_team run1 run2 run3) as (_ & Hst & Hall).
  - log_small.
  - log_small.
  - log_small.
  - vm_compute. discriminate.
  - vm_compute. discriminate.
  - vm_compute. discriminate.
  - split; [exact Hst|]. apply Hall. left. rewrite laptop_frames. by constructor.
Defined.

Lemma sync_settles_witness :
  ∃ s'' k', sync_rounds false rng 3 (mkClient (c_net c1) (c_world c1) 0) =
    (mkClient s'' (c_world c1) k', Ok (repeat (0, 0%nat) 3)).
Proof.
  destruct (sync_exchanges false rng approved laptop 0 approved_inv laptop_ready) as (s' & w' & k & st & pl & Hrun & _).
  assert (Hok : (round_of approved laptop).2 = Ok (st, pl)) by (unfold round_of; rewrite Hrun; reflexivity).
  destruct (sync_settles false rng approved laptop 0 (c_net c1) (c_world c1) (c_draws c1) (st, pl)
    approved_inv laptop_ready) as [Hidle _].
  - rewrite <- Hok. exact run1.
  - log_small.
  - vm_compute. discriminate.
  - destruct (Hidle 3%nat 0%nat) as (s'' & k' & Hruns & _). exists s'', k'. exact Hruns.
Defined.

Lemma daemon_backs_off_witness : 1 ≤ backoff_of (Connecting 2) ≤ 60.
Proof.
  apply (daemon_backs_off (Connecting 2) ([ASleep 1; ARound] ++ []) 0 1 0 0).
  apply (run_event (Connecting 1) ConnectFailed 0 _ (Connecting 2)); [reflexivity | apply run_none].
Defined.
