(* ===== verification/HostileSamples.v ===== *)
(** * HostileSamples: a relay that lies

    A relay of [Transport] that is not the one of [Relay.v]: it knows a device's
    public keys, as any relay does, and hands it a key list of its own. *)

From Stdlib Require Import ZArith Lia String.
From S2P Require Import Prelude Text Record Merge Extern Crypto Log Keyring Validate Vault Crud Lifecycle VaultInv CrudFacts VaultProps KeyGrowth VaultSamples Proto RelayDb Relay Sync SyncFacts SyncRound SyncProps SyncSamples.
Import Toy SampleVault SampleSync.

#[local] Open Scope string_scope.
#[local] Open Scope list_scope.
#[local] Open Scope Z_scope.

Module HostileRelay.
(** A key the relay made up, as a list one longer than the laptop's, wrapped
    from nothing but the laptop's public keys. *)
Definition known : Secret32 := b32 99.
Definition laptop_public : PubKey := x_public (kr_x25519_secret (v_keyring laptop.2)).
Definition wrapped : string :=
  b64_encode (wrap_vault_key (b32 77) (b24 78) (join_key_list [known; known]) laptop_public (arr_bytes (ed25519_pub laptop.2))).
(** An entry that opens under the key, to something that is not a record. *)
Definition trap_id : arr 16 := b16 66.
Definition trap : bytes := seal (b24 79) known [Byte.x41] (arr_bytes trap_id).

(** It serves the entry in its first pull, and the list from then on. *)
#[export] Instance hostile : Transport nat := λ req pulls,
  match req with
  | ReqWrapped _ => (pulls, Ok (RepWrapped (mkWrappedResp true (Some wrapped) (if decide (pulls = 0%nat) then 0 else 1))))
  | ReqShares _ => (pulls, Ok (RepShares (mkSharesResp [])))
  | ReqPush _ => (pulls, Ok (RepPush (mkPushResp 0 0)))
  | ReqPull _ => (S pulls, Ok (RepPull (mkPullResp
      (if decide (pulls = 0%nat) then [mkWireEntry (b64_encode (arr_bytes trap_id)) (b64_encode trap) (b64_encode (arr_bytes uuid_nil))] else []) 1)))
  | _ => (pulls, Err SyncError.Http)
  end.

(** The laptop after one round that brings the list, and after two rounds of
    its daemon that bring the entry first. *)
Definition robbed : World := c_world (exec (sync_once (RT := hostile) rng) (mkClient 1%nat laptop 0)).
Definition two_rounds : M (Client nat) SyncError Daemon := syncd (RT := hostile) rng (λ _ _ _ n, n) [ConnectOk; Tick].
Definition trapped : World := c_world (exec two_rounds (mkClient 0%nat laptop 0)).
Definition reopened (w : World) : res VaultError (nat * bool) :=
  res_bind (open_vault "pw" (b24 80) w.1).2 (λ v, Ok (size (v_state v), bool_decide (v_state v = ∅))).
End HostileRelay.
Import HostileRelay.

(** One round, and the laptop holds the relay's key alone: reopened, its host is
    gone, though the entry is still in the log. *)
Example relay_replaces_keys :
  arr_bytes <$> trial_keys (v_keyring robbed.2) = [arr_bytes known; arr_bytes known] ∧
  reopened laptop = Ok (1%nat, false) ∧ reopened robbed = Ok (0%nat, true) ∧ f_log robbed.1 = f_log laptop.1.
Proof. split_and!; vm_compute; reflexivity. Qed.

(** What it writes then, the relay reads. *)
Example relay_reads_new_writes :
  let w' := exec (add_in Kind.Host "alias" "db" host1 uuid_nil (draw 5)) robbed in
  (f ← last (frames_of w'); match open known f.2 (arr_bytes f.1) with Ok plain => Some (bool_decide (mp_decode plain = None (A := Rec))) | Err _ => None end) = Some false.
Proof. vm_compute. reflexivity. Qed.

(** With the entry served first, the daemon stops and the vault does not open any more. *)
Example relay_blocks_opening :
  reopened trapped = Err (VaultError.Corrupt "log entry") ∧
  outcome two_rounds (mkClient 0%nat laptop 0) = Err (SyncError.Vault (VaultError.Corrupt "log entry")).
Proof. split; vm_compute; reflexivity. Qed.


