(* ===== verification/FleetSamples.v ===== *)
(** * FleetSamples: the laptop and the phone of [SyncSamples] at work

    The two devices write, sync and compact in turns; the boolean checks here
    decide the hypotheses of [Fleet] at the fleet they reach. *)

From Stdlib Require Import ZArith Lia String.
From S2P Require Import Prelude Text Record Merge Extern Crypto Log Keyring Validate Vault Crud Lifecycle VaultInv CrudFacts VaultProps VaultSamples Proto RelayDb Relay RelayFacts RelayProps RelaySamples Sync SyncFacts SyncRound SyncProps SyncSamples Fleet.
Import Toy SampleVault SampleSync.

#[local] Open Scope string_scope.
#[local] Open Scope list_scope.
#[local] Open Scope Z_scope.

(** ** Checks *)

(** Every (id, blob) pair of a fleet. *)
Definition entry_pair (v : string) (e : Entry) : option RawEntry :=
  if decide (en_vault e = v) then (λ i, (i, en_blob e)) <$> try_into 16 (en_id e) else None.
Definition pairs_of (v : string) (f : Fleet) : list RawEntry :=
  concat (frames_of <$> fl_devices f) ++ omap (entry_pair v) (t_entries (fl_relay f)).

Definition ids_distinct (l : list RawEntry) : bool :=
  forallb (λ g, forallb (λ h, negb (bool_decide (g.1 = h.1)) || bool_decide (g = h)) l) l.

(** The history some records tell, the first of them that speaks of a write. *)
Definition history_from (recs : list Rec) : History := mkHistory
  (λ i k c, default JNull (hd_error (omap (λ r,
     if decide (rec_id r = i) then
       x ← rec_fields r !! k; if decide (field_clock x = c) then Some (value x) else None
     else None) recs)))
  (λ i c, default (i, i) (hd_error (omap (λ r,
     if decide (rec_id r = i ∧ rec_clock r = c) then Some (rec_device_id r, rec_share_id r) else None) recs))).
Definition is_consistent (W : History) (r : Rec) : bool :=
  forallb (λ kx : string * Field, bool_decide (value kx.2 = written W (rec_id r) kx.1 (field_clock kx.2)))
    (map_to_list (rec_fields r)) &&
  bool_decide ((rec_device_id r, rec_share_id r) = header W (rec_id r) (rec_clock r)).

Definition records_at (k : Keyring) (l : list RawEntry) : list Rec :=
  omap (λ g, match open_entry k g.1 g.2 with Ok r => r | Err _ => None end) l.
Definition clocks_distinct (l : list RawEntry) (ws : list World) : bool :=
  let recs := concat ((λ w : World, records_at (v_keyring w.2) l) <$> ws) in
  let W := history_from recs in forallb (is_consistent W) recs.
Definition all_visible (v : string) (f : Fleet) : bool :=
  forallb (λ e, negb (bool_decide (en_vault e = v)) ||
    forallb (λ w : World, visible (fl_relay f) (arr_bytes (ed25519_pub w.2)) e) (fl_devices f))
    (t_entries (fl_relay f)).
Definition agrees (v : string) (f : Fleet) : bool :=
  let l := pairs_of v f in ids_distinct l && all_visible v f && clocks_distinct l (fl_devices f).

Definition is_small (f : Fleet) : bool :=
  forallb (λ w : World, match f_log w.1 with Some d => Z.of_nat (length d) <=? u32_max | None => true end) (fl_devices f) &&
  (t_sequence (fl_relay f) <=? i64_max).
Definition rounds_small : list turn → Fleet → bool :=
  fix go ts f := match ts with
  | [] => true
  | t :: ts => let f1 := (take_turn false rng t f).1 in is_small f1 && go ts f1
  end.

Lemma present_pairs v f g : present v f g → g ∈ pairs_of v f.
Proof.
  unfold pairs_of. rewrite elem_of_app. intros [(w & Hw & Hg)|(e & He & Hv & Hid & Hb)]; [left | right].
  - apply list_elem_of_In, in_concat. exists (frames_of w). split; [|by apply list_elem_of_In].
    apply list_elem_of_In, list_elem_of_fmap. by exists w.
  - apply list_elem_of_omap. exists e. split; [done|]. unfold entry_pair. rewrite decide_True by done.
    rewrite Hid, try_into_bytes, Hb. by destruct g.
Qed.

Lemma is_consistent_spec W r : is_consistent W r = true → consistent W r.
Proof.
  unfold is_consistent. intros [Hf Hh%bool_decide_eq_true]%andb_prop. split; [|done].
  intros k x Hx. rewrite forallb_forall in Hf. specialize (Hf (k, x)). rewrite bool_decide_eq_true in Hf.
  apply Hf, list_elem_of_In, elem_of_map_to_list, Hx.
Qed.

Lemma agrees_spec v f : agrees v f = true → agreed v f.
Proof.
  intros [[Hids Hvis]%andb_prop Hcl]%andb_prop. split.
  - intros g h Hg%present_pairs%list_elem_of_In Hh%present_pairs%list_elem_of_In E.
    unfold ids_distinct in Hids. rewrite forallb_forall in Hids. specialize (Hids g Hg).
    rewrite forallb_forall in Hids. specialize (Hids h Hh).
    rewrite (bool_decide_eq_true_2 _ E) in Hids. by apply bool_decide_eq_true in Hids.
  - intros e w He%list_elem_of_In Hv Hw%list_elem_of_In.
    unfold all_visible in Hvis. rewrite forallb_forall in Hvis. specialize (Hvis e He).
    rewrite (bool_decide_eq_true_2 _ Hv) in Hvis. simpl in Hvis. rewrite forallb_forall in Hvis. by apply Hvis.
  - eexists. intros g w r Hg%present_pairs Hw Ho. apply is_consistent_spec.
    unfold clocks_distinct in Hcl. rewrite forallb_forall in Hcl. apply Hcl.
    apply in_concat. exists (records_at (v_keyring w.2) (pairs_of v f)). split; apply list_elem_of_In.
    + apply list_elem_of_fmap. by exists w.
    + apply list_elem_of_omap. exists g. by rewrite Ho.
Qed.

Lemma is_small_spec f : is_small f = true → small f.
Proof.
  unfold is_small, small. intros [Hl Hq%Z.leb_le]%andb_prop. split; [|done].
  intros w Hw%list_elem_of_In d Hd. rewrite forallb_forall in Hl. specialize (Hl w Hw).
  rewrite Hd in Hl. by apply Z.leb_le.
Qed.
Lemma rounds_small_spec ts : ∀ f, rounds_small ts f = true → stays_small false rng ts f.
Proof.
  induction ts as [|t ts IH]; intros f; simpl; [done|].
  intros [Hs%is_small_spec Hr%IH]%andb_prop. done.
Qed.

(** ** A day of two devices *)

Module SampleFleet.
Definition v : string := vault_b64 laptop.2.
Definition ks : list ShareKeys := kr_shares (v_keyring laptop.2).
Definition start : Fleet := mkFleet approved [laptop; phone].
Definition logs : Snippet := mkSnippet "logs" "tail -f x" None [].
Definition moved : Host := mkHost "web" (Some "web.example.org") (Some 2222) None None None [].
(** Both write; the laptop also compacts, edits and resets its cursor. *)
Definition day : list turn := [
  Syncs 0 0;
  Works 1 (OpAdd Snippet _ Kind.Snippet "name" "logs" logs NIL (mkDraw (b16 40) (b16 41) (b24 42) 43));
  Syncs 1 0;
  Works 0 (OpEdit Host _ Kind.Host "alias" "web" moved (mkDraw (b16 50) (b16 51) (b24 52) 53));
  Works 0 (OpCompact (b24 60));
  Works 0 OpResetCursor;
  Syncs 1 0; Syncs 0 0; Syncs 1 0].
Definition evening : Fleet := (take_turns false rng day start).1.
End SampleFleet.
Import SampleFleet.

Lemma phone_same_vault : vault_b64 phone.2 = v.
Proof. vm_compute. reflexivity. Qed.
Lemma phone_same_keys : kr_shares (v_keyring phone.2) = ks.
Proof. vm_compute. reflexivity. Qed.

Lemma two_devices (P : World → Prop) : P laptop → P phone → ∀ w, w ∈ fl_devices start → P w.
Proof.
  intros Hl Hp w Hw. change (w ∈ [laptop; phone]) in Hw.
  apply elem_of_cons in Hw as [->|Hw]; [exact Hl|]. apply list_elem_of_singleton in Hw as ->. exact Hp.
Qed.

Lemma start_sound : sound false rng v ks start.
Proof.
  split.
  - exact approved_inv.
  - apply two_devices; [exact laptop_ready | exact phone_ready].
  - apply two_devices; [reflexivity | exact phone_same_vault].
  - apply two_devices; [reflexivity | exact phone_same_keys].
Qed.

Lemma day_small : stays_small false rng day start.
Proof. apply rounds_small_spec. vm_compute. reflexivity. Qed.
Lemma evening_agreed : agreed v evening.
Proof. apply agrees_spec. vm_compute. reflexivity. Qed.
Lemma day_run : take_turns false rng day start = (evening, (take_turns false rng day start).2).
Proof. exact (surjective_pairing _). Qed.
Lemma day_up_to_date : up_to_date 2 day = [1; 0]%nat.
Proof. reflexivity. Qed.

(** In the evening both devices have one state. *)
Lemma fleet_converges_witness :
  (take_turns false rng day start).2 = true ∧
  ∀ w1 w2, fl_devices evening !! 0%nat = Some w1 → fl_devices evening !! 1%nat = Some w2 → v_state w1.2 = v_state w2.2.
Proof.
  destruct (fleet_converges false rng v ks start day evening (take_turns false rng day start).2
    start_sound eq_refl day_small day_run evening_agreed) as (Hok & _ & _ & Hdevs).
  split; [exact Hok|]. intros w1 w2 H1 H2.
  destruct (Hdevs 0%nat w1 (list_elem_of_further _ _ _ (list_elem_of_here _ _)) H1) as [_ Hst].
  exact (Hst 1%nat w2 (list_elem_of_here _ _) H2).
Defined.
