(* ===== verification/NotifySamples.v ===== *)
(** * NotifySamples: a phone that hears of the laptop's push

    The sample devices of [SyncSamples.v]: the phone has synced and listens,
    the laptop pushes its one host. *)

From Stdlib Require Import ZArith Lia String.
From S2P Require Import Prelude Text Record Merge Extern Crypto Log Keyring Validate Vault Crud Lifecycle VaultInv CrudFacts VaultProps VaultSamples Proto RelayDb Relay RelayFacts RelayProps RelaySamples Sync SyncFacts SyncRound SyncProps SyncSamples Notify.
Import Toy SampleVault SampleSync.

#[local] Open Scope string_scope.
#[local] Open Scope list_scope.
#[local] Open Scope Z_scope.

Module SampleNotify.
Definition synced : Client Relay := (round_of approved phone).1.
Definition phone1 : World := c_world synced.
Definition watched : Relay := (run_prog false (ws (vault_b64 phone1.2)) (c_net synced)).1.
Definition push_of_laptop : Signed :=
  sign laptop.2 now0 (json_to_string (mkPushReq (wire_entry <$> [(laptop_frame, uuid_nil)]))).
Definition answered : Relay * res SyncError Reply :=
  send (Transport := relay_transport false) (ReqPush push_of_laptop) watched.
Definition pushed : Relay := answered.1.
Definition ignored (v : Vault) (p : Z) (q : nat) (s : Relay) : Relay := s.
Definition woken : Client Relay * res SyncError Daemon :=
  syncd_loop (RT := relay_transport false) rng ignored (Listening 1) (heard ["1"] true 0) (mkClient pushed phone1 0).
End SampleNotify.
Import SampleNotify.

Lemma phone_round : relay_sync false rng (mkClient approved phone 0) = (mkClient (c_net synced) phone1 (c_draws synced), (round_of approved phone).2).
Proof. exact (run_client _ _). Qed.

Lemma phone_settled : settled_at false rng watched phone1.
Proof.
  destruct (round_of_run false rng _ _ _ _ _ _ _ approved_inv phone_ready phone_round) as [_ Hex]; [log_small | vm_compute; discriminate |].
  pose proof (settled_after _ _ _ _ _ _ phone_ready Hex) as Hs.
  destruct (subscribed false (vault_b64 phone1.2) (c_net synced)) as (Hinv & Htab & He).
  exact (settled_stays _ _ (c_net synced) phone1 watched Hs (Hinv (st_inv _ _ _ _ Hs)) Htab He).
Qed.

Lemma phone_opens e : e ∈ [(laptop_frame, uuid_nil)] → ∃ o, open_entry (v_keyring phone1.2) e.1.1 e.1.2 = Ok o.
Proof. intros ->%list_elem_of_singleton. eexists. vm_compute. reflexivity. Qed.

Lemma phone_ready_again : ready false rng pushed phone1.
Proof.
  apply ready_push; [apply phone_settled | apply phone_settled | vm_compute; reflexivity.. | exact phone_opens].
Qed.

Lemma laptop_serves : rtc (serves false) watched pushed.
Proof. apply rtc_once. unfold pushed, answered. apply serves_ok. vm_compute. reflexivity. Qed.

Lemma woken_run : syncd_loop (RT := relay_transport false) rng ignored (Listening 1) (heard ["1"] true 0)
  (mkClient pushed phone1 0) = (woken.1, woken.2).
Proof. unfold woken. apply surjective_pairing. Qed.

Lemma no_push_missed_witness :
  (∃ d, woken.2 = Ok d) ∧ Forall (holds_entry (c_world woken.1)) (t_entries pushed).
Proof.
  destruct (no_push_missed false rng ignored (λ _ _ _ _, eq_refl) watched phone1 0 pushed [] [1]
    [([1], true)] ["1"] true 0 1 woken.1 woken.2) as (Hok & _ & _ & Hall).
  - exact phone_settled.
  - vm_compute. reflexivity.
  - exact laptop_serves.
  - vm_compute. reflexivity.
  - exact phone_ready_again.
  - apply Forall_singleton. reflexivity.
  - vm_compute. reflexivity.
  - intros _. vm_compute. reflexivity.
  - exact woken_run.
  - split; [log_small | vm_compute; discriminate].
  - split; [exact Hok|]. apply Forall_forall. intros e He. apply Hall. split; [exact He|]. clear -He. revert e He.
    apply Forall_forall. vm_compute. repeat constructor.
Defined.

(** A push refused at its second entry has stored the first, and the channel
    carries nothing of it. *)
Example refused_push_is_silent :
  let s := (send (Transport := relay_transport false) (ReqPush (sign laptop.2 now0 (json_to_string
    (mkPushReq [wire_entry (laptop_frame, uuid_nil); mkWireEntry "id" "blob" "short"])))) watched).1 in
  (length (t_entries s), carried s (vault_b64 laptop.2)) = (1%nat, Some []).
Proof. vm_compute. reflexivity. Qed.
