(* ===== verification/Device.v ===== *)
(** * Device: enrolling, approving and revoking devices, shares, recovery
    ([src/src/device.rs])

    The client calls of [Sync.v] composed as the program composes them.  The
    wait for approval is a loop over the polls, with what others do to the
    relay between two of them. *)

From Stdlib Require Import ZArith Lia Ascii String.
From S2P Require Import Prelude Text Record Merge Extern Crypto Log Keyring Validate Vault Crud Lifecycle Proto RelayDb Relay Sync.

#[local] Open Scope string_scope.
#[local] Open Scope list_scope.
#[local] Open Scope Z_scope.

Module EnrollError.
Inductive t :=
  | Sync (e : SyncError)
  | Vault (e : VaultError)
  | NoSuchDevice (code : string)
  | AmbiguousCode (code : string).
End EnrollError.
Abbreviation EnrollError := EnrollError.t.

(** [{b:02x}]. *)
Definition hex_digit (n : Z) : ascii := ascii_of_nat (Z.to_nat (if n <? 10 then 48 + n else 87 + n)).
Definition hex_byte (b : byte) : string :=
  String (hex_digit (byte_val b / 16)) (String (hex_digit (byte_val b mod 16)) "").

Section device.
Context `{Aead} `{Hkdf} `{X25519} `{Ed25519} `{Argon2} `{Bip39} `{Base64} `{HashOrder}.
Context `{MsgPack Keyring} `{MsgPack Rec} `{MsgPack Snapshot} `{JsonText Meta}.
Context `{JsonText EnrollReq} `{JsonText PushReq} `{JsonText ApproveReq} `{JsonText RevokeReq}.
Context `{JsonText RotateReq} `{JsonText ShareGrantReq} `{JsonText ShareRotateReq}.
Context {N : Type} `{RT : Transport N} (rng : Entropy).
#[local] Open Scope mon_scope.

Abbreviation DM := (M (Client N) EnrollError).

(** [?] on a client call and on a vault operation. *)
Definition from_sync {A} (m : M (Client N) SyncError A) : DM A :=
  λ c, let '(c, r) := m c in (c, res_map_err EnrollError.Sync r).
Definition from_vault {A} (m : VM A) : DM A :=
  λ c, let '(w, r) := m (c_world c) in
       (mkClient (c_net c) w (c_draws c), res_map_err EnrollError.Vault r).

(** A fingerprint of a public key: its first four bytes in hex, grouped. *)
Definition short_code (ed25519_pub_b64 : string) : string :=
  let bytes := default [] (b64_decode ed25519_pub_b64) in
  String.concat "" (imap (λ i b, (if Nat.eqb i 2 then "-" else "") +:+ hex_byte b) (take 4 bytes)).

Definition list_devices : DM (list DeviceInfo) :=
  from_sync (do resp <- signed_get rng as_devices ReqDevices "devices"; sret (devices_list resp)).

(** [to_lowercase] on the code: a code with letters outside ASCII names no
    device either way, only the error would spell it differently. *)
Definition find_by_code (code : string) : DM DeviceInfo :=
  let code := to_ascii_lowercase code in
  do devices <- list_devices;
  match filter (λ d, short_code (di_ed25519_b64 d) = code) devices with
  | [] => sfail (EnrollError.NoSuchDevice code)
  | [d] => sret d
  | _ => sfail (EnrollError.AmbiguousCode code)
  end.

(** The key list sealed for one device. *)
Definition decode_pub (b64 what : string) : DM PubKey :=
  slift (ok_or (EnrollError.Sync (bad what)) (b ← b64_decode b64; try_into 32 b)).
Definition wrap_for (key_list : bytes) (d : DeviceInfo) : DM WrappedFor :=
  do x_pub <- decode_pub (di_x25519_b64 d) "x25519_pub";
  do ed <- decode_pub (di_ed25519_b64 d) "ed25519_pub";
  do eph <- fresh (e_key rng);
  do nonce <- fresh (e_nonce rng);
  sret (mkWrappedFor (di_ed25519_b64 d)
          (b64_encode (wrap_vault_key eph nonce key_list x_pub (arr_bytes ed)))).

Definition post_ok (route : Signed → request) (body : string) : DM unit :=
  from_sync (do _ <- post rng as_push route body; sret tt).

(** Approve a pending device; returns its name. *)
Definition approve (code : string) : DM string :=
  do target <- find_by_code code;
  do v <- the_vault;
  do w <- wrap_for (share_key_list (v_keyring v) NIL) target;
  run post_ok ReqApprove (json_to_string (mkApproveReq (wf_device_b64 w) (wf_wrapped_b64 w)));
  sret (di_name target).

Definition revoke (code : string) : DM string :=
  do target <- find_by_code code;
  run post_ok ReqRevoke (json_to_string (mkRevokeReq (di_ed25519_b64 target)));
  sret (di_name target).

(** The devices of a list, in order, each with the key list wrapped for it. *)
Fixpoint wrap_all (key_list : bytes) (l : list DeviceInfo) : DM (list WrappedFor) :=
  match l with
  | [] => sret []
  | d :: l =>
      do w <- wrap_for key_list d;
      do ws <- wrap_all key_list l;
      sret (w :: ws)
  end.

Definition revoke_and_rotate (code phrase : string) : DM string :=
  do target <- find_by_code code;
  do name <- revoke code;
  do nonce <- fresh (e_nonce rng);
  do epoch <- from_vault (Lifecycle.rotate phrase nonce);
  do v <- the_vault;
  let key_list := share_key_list (v_keyring v) NIL in
  do devices <- list_devices;
  do wrapped <- wrap_all key_list
    (filter (λ d, ¬ (di_revoked d = true ∨ di_ed25519_b64 d = di_ed25519_b64 target)) devices);
  run post_ok ReqRotate (json_to_string (mkRotateReq epoch wrapped));
  sret name.

(* ---------------------------------------------------------------- *)
(** ** Shares *)

Fixpoint wrap_for_codes (key_list : bytes) (codes : list string) : DM (list WrappedFor) :=
  match codes with
  | [] => sret []
  | code :: codes =>
      do d <- find_by_code code;
      do w <- wrap_for key_list d;
      do ws <- wrap_for_codes key_list codes;
      sret (w :: ws)
  end.

Definition grant (share : Uuid) (wrapped : list WrappedFor) : DM unit :=
  do v <- the_vault;
  post_ok ReqShareGrant (json_to_string
    (mkShareGrantReq (b64_encode (arr_bytes share)) (share_epoch (v_keyring v) share) wrapped)).

(** The draws of [v.add]. *)
Definition fresh_draw {E} : M (Client N) E Draw :=
  do record_id <- fresh (e_uuid rng);
  do entry_id <- fresh (e_uuid rng);
  do nonce <- fresh (e_nonce rng);
  do now <- fresh (e_now rng);
  sret (mkDraw record_id entry_id nonce now).

Definition create_share (name : string) (member_codes : list string) : DM Uuid :=
  do v <- the_vault;
  run sguard (match resolve_share v name with None => true | Some _ => false end)
        (EnrollError.Vault (VaultError.Duplicate "share" name));
  do id <- fresh (e_uuid rng);
  do key <- fresh (e_key rng);
  do nonce <- fresh (e_nonce rng);
  do share <- from_vault (Lifecycle.create_share id key nonce);
  do draw <- fresh_draw;
  run from_vault (add Kind.ShareName "name" name (mkShareName name (b64_encode (arr_bytes share))) draw);
  do v <- the_vault;
  let key_list := share_key_list (v_keyring v) share in
  do wrapped <- wrap_for_codes key_list member_codes;
  do own <- wrap_for_codes key_list [short_code (ed25519_pub_b64 (v_meta v))];
  run grant share (wrapped ++ own);
  sret share.

Definition not_member : EnrollError :=
  EnrollError.Vault (VaultError.Corrupt "you are not a member of this share").

Definition share_add (share : Uuid) (member_codes : list string) : DM unit :=
  do v <- the_vault;
  run sguard (has_share (v_keyring v) share) not_member;
  do wrapped <- wrap_for_codes (share_key_list (v_keyring v) share) member_codes;
  grant share wrapped.

(** Every approved device: a rotation rewraps for the members among them. *)
Definition share_members : DM (list string) :=
  do devices <- list_devices;
  sret (di_ed25519_b64 <$> filter (λ d, di_approved d = true ∧ di_revoked d = false) devices).

Definition share_remove (share : Uuid) (member_code : string) : DM string :=
  do v <- the_vault;
  run sguard (has_share (v_keyring v) share) not_member;
  do target <- find_by_code member_code;
  do key <- fresh (e_key rng);
  do nonce <- fresh (e_nonce rng);
  do epoch <- from_vault (rotate_share share key nonce);
  do v <- the_vault;
  do members <- share_members;
  do wrapped <- wrap_for_codes (share_key_list (v_keyring v) share)
    (short_code <$> filter (λ ed_b64, ed_b64 ≠ di_ed25519_b64 target) members);
  run post_ok ReqShareRotate (json_to_string
    (mkShareRotateReq (b64_encode (arr_bytes share)) epoch wrapped [di_ed25519_b64 target]));
  sret (di_name target).

(* ---------------------------------------------------------------- *)
(** ** Joining *)

(** One poll: the wrapped key, once approved. *)
Definition poll_wrapped : M (Client N) SyncError (option string) :=
  do resp <- signed_get rng as_wrapped ReqWrapped "wrapped";
  sret (if wr_approved resp then wr_wrapped_b64 resp else None).

(** Poll, install the key list or wait: [None] while pending after every poll.
    Each element of [between] is what happens to the relay before a poll. *)
Fixpoint wait_for_key (between : list (N → N)) : DM (option unit) :=
  match between with
  | [] => sret None
  | others :: between =>
      run sput (λ c, mkClient (others (c_net c)) (c_world c) (c_draws c));
      do wrapped <- from_sync poll_wrapped;
      match wrapped with
      | None => wait_for_key between
      | Some wrapped_b64 =>
          do v <- the_vault;
          do blob <- slift (ok_or (EnrollError.Sync (bad "wrapped_key")) (b64_decode wrapped_b64));
          do list <- slift (res_map_err (λ e, EnrollError.Vault (VaultError.Crypto e))
            (unwrap_vault_key (kr_x25519_secret (v_keyring v)) blob (arr_bytes (Sync.ed25519_pub v))));
          do nonce <- fresh (e_nonce rng);
          run from_vault (set_vault_key list nonce);
          sret (Some tt)
      end
  end.

(** [on_pending] is the caller's callback: it shows the code to approve. *)
Definition join (relay : string) (on_pending : string → N → N) (between : list (N → N)) : DM (option unit) :=
  run from_vault (set_relay_url relay);
  do approved <- from_sync (enroll rng);
  if approved : bool then sret (Some tt)
  else
    do v <- the_vault;
    let code := short_code (ed25519_pub_b64 (v_meta v)) in
    run sput (λ c, mkClient (on_pending code (c_net c)) (c_world c) (c_draws c));
    wait_for_key between.

(** The recovery key a joining device does not know: [[0u8; 32]]. *)
Definition zeros : PubKey := dexist (replicate 32 Byte.x00) eq_refl.

(** A provisional vault under a throwaway key, then [join].  The disk is part of
    the result on every branch: what a failed or unfinished enrollment leaves
    behind is the provisional vault. *)
Definition enroll_and_wait (device_name passphrase : string) (id : Uuid) (provisional : Secret32)
    (x e : Secret32) (draw : InitDraw) (relay : string) (on_pending : string → N → N)
    (between : list (N → N)) (d : Disk) (net : N) : N * Disk * res EnrollError (option Vault) :=
  let '(d, r) := create device_name passphrase id provisional zeros x e draw d in
  match r with
  | Err err => (net, d, Err (EnrollError.Vault err))
  | Ok v =>
      let '(c, r) := join relay on_pending between (mkClient net (d, v) 0) in
      (c_net c, (c_world c).1, res_bind r (λ o, Ok ((λ _, (c_world c).2) <$> o)))
  end.

Definition uuid_from_b64 (b64 : string) : res EnrollError Uuid :=
  ok_or (EnrollError.Sync (bad "vault_id")) (b ← b64_decode b64; try_into 16 b).

(** Recovery on a machine whose disk is [d]: prove the phrase to the relay, and
    create a vault under the id it answers. *)
Definition recover (device_name passphrase phrase : string) (device : DeviceKeys) (draw : InitDraw)
    (relay : string) (d : Disk) (net : N) : N * Disk * res EnrollError Vault :=
  match keys_from_phrase phrase with
  | Err e => (net, d, Err (EnrollError.Vault (VaultError.Crypto e)))
  | Ok keys =>
      let recovery_pub := ed_public (recovery_signing keys) in
      let ed_pub := ed_public (ed25519 device) in
      let req := mkRecoverReq (b64_encode (arr_bytes recovery_pub)) device_name
        (b64_encode (arr_bytes ed_pub)) (b64_encode (arr_bytes (x_public (x25519 device))))
        (b64_encode (arr_bytes (ed_sign (recovery_signing keys) (arr_bytes ed_pub)))) in
      let '(net, rep) := send (ReqRecover req) net in
      match res_bind (res_map_err EnrollError.Sync
                        (res_bind rep (λ rep, ok_or SyncError.Http (as_recover rep))))
                     (λ resp, uuid_from_b64 (recovered_vault_b64 resp)) with
      | Err e => (net, d, Err e)
      | Ok id =>
          let '(d, r) :=
            create_with_keys device_name passphrase id (vault_key keys) recovery_pub device draw d in
          match r with
          | Err e => (net, d, Err (EnrollError.Vault e))
          | Ok v =>
              let '(w, r) := set_relay_url relay (d, v) in
              (net, w.1, res_map_err EnrollError.Vault (res_bind r (λ _, Ok w.2)))
          end
      end
  end.
End device.
