(* ===== verification/DeviceProps.v ===== *)
(** * DeviceProps: the properties of the device lifecycle

    The client calls of [Device.v] against the relay of [Relay.v]: keys reach
    the devices they are wrapped for, through approval and through rotation. *)

From Stdlib Require Import ZArith Lia Ascii String.
From S2P Require Import Prelude Text Record Merge Extern Crypto Log Keyring Validate Vault Crud Lifecycle VaultInv CrudFacts VaultProps Proto RelayDb Relay RelayFacts RelayProps Sync SyncFacts SyncRound Device.

#[local] Open Scope string_scope.
#[local] Open Scope list_scope.
#[local] Open Scope Z_scope.

Section device_props.
Context `{AeadLaws} `{!AeadCommit} `{MsgPackLaws Keyring} `{MsgPackLaws Rec}.
Context `{MsgPackLaws Snapshot} `{JsonTextLaws Meta} `{HashOrderLaws}.
Context `{Ed25519Laws} `{Base64Laws} `{X25519Laws} `{Argon2} `{Hkdf} `{Bip39}.
Context `{JsonTextLaws EnrollReq} `{JsonTextLaws ApproveReq} `{JsonTextLaws RevokeReq} `{JsonTextLaws RotateReq}.
Context `{JsonTextLaws ShareGrantReq} `{JsonTextLaws ShareRotateReq} `{JsonTextLaws PushReq}.
Context (burns : bool) (rng : Entropy).

Abbreviation relay_send := (send (Transport := relay_transport burns)).

(** What a device lists of the relay. *)
Definition device_info (row : bytes * DeviceRow) : DeviceInfo :=
  mkDeviceInfo (dr_name row.2) (b64_encode row.1) (b64_encode (dr_x25519_pub row.2))
    (dr_approved row.2) (dr_revoked row.2).
Definition device_rows (s : Relay) (v : string) : list (bytes * DeviceRow) :=
  (exec_stmt burns (SSelectDevices v) s).2.

Lemma device_rows_elem s v p r : (p, r) ∈ device_rows s v ↔ t_devices s !! (v, p) = Some r.
Proof.
  unfold device_rows. cbn [exec_stmt snd]. rewrite list_elem_of_omap. split.
  - intros ([[v' p'] r'] & Hin & Hr). apply elem_of_map_to_list in Hin. case_decide; [|done].
    injection Hr as -> ->. by subst.
  - intros Hr. exists ((v, p), r). split; [by apply elem_of_map_to_list|]. by rewrite decide_True.
Qed.

Lemma device_rows_nodup s v : NoDup (device_rows s v).*1.
Proof.
  unfold device_rows. cbn [exec_stmt snd].
  pose proof (NoDup_fst_map_to_list (t_devices s)) as Hnd. revert Hnd.
  generalize (map_to_list (t_devices s)) as l. induction l as [|[[v' p] r] l IH]; simpl; [constructor|].
  intros [Hn Hnd]%NoDup_cons. case_decide as Hv; simpl; [|by apply IH]. subst v'.
  apply NoDup_cons. split; [|by apply IH]. intros ([p' r'] & -> & Hin)%list_elem_of_fmap. simpl in *.
  apply Hn. apply list_elem_of_omap in Hin as ([[v' p''] r''] & Hin & Hr). case_decide; [|done].
  injection Hr as -> ->. subst. by apply (list_elem_of_fmap_2 fst l ((v, p'), r')).
Qed.

(** An approved device, with its clock inside the relay's window. *)
Definition approved_device (s : Relay) (v : Vault) : Prop :=
  (∀ k, outside_window (r_now s) (e_now rng k) = false) ∧ may_sync s (vault_b64 v) (ed25519_pub v) = true.

Lemma devices_send s v ts :
  outside_window (r_now s) ts = false → may_sync s (vault_b64 v) (ed25519_pub v) = true →
  relay_send (ReqDevices (signed_query v ts "devices")) s =
  (s, Ok (RepDevices (mkDevicesResp (device_info <$> device_rows s (vault_b64 v))))).
Proof.
  intros Hts Hm. unfold send, relay_transport. cbn [handler]. rewrite reply_run.
  unfold devices. rewrite query_signed, gated_run, authenticate_signed by done. by rewrite Hm.
Qed.

Lemma list_devices_run s w n : approved_device s w.2 →
  list_devices (RT := relay_transport burns) rng (mkClient s w n) =
  (mkClient s w (S n), Ok (device_info <$> device_rows s (vault_b64 w.2))).
Proof.
  intros [Hts Hm]. unfold list_devices, from_sync, signed_get, sbind, the_vault, sget, now_unix, fresh, http, sret.
  cbn [c_net c_world c_draws]. by rewrite devices_send.
Qed.

(** The only device of a code. *)
Definition names_device (s : Relay) (v : string) (code : string) (p : bytes) (r : DeviceRow) : Prop :=
  t_devices s !! (v, p) = Some r ∧ short_code (b64_encode p) = to_ascii_lowercase code ∧
  ∀ p' r', t_devices s !! (v, p') = Some r' → short_code (b64_encode p') = to_ascii_lowercase code → p' = p.

Lemma filter_single {A} (P : A → Prop) `{∀ x, Decision (P x)} (l : list A) x :
  NoDup l → x ∈ l → P x → (∀ y, y ∈ l → P y → y = x) → filter P l = [x].
Proof.
  intros Hnd Hx HPx Hu. apply Permutation_singleton_r, NoDup_Permutation.
  - by apply NoDup_filter.
  - apply NoDup_singleton.
  - intros y. rewrite list_elem_of_filter, list_elem_of_singleton. naive_solver.
Qed.

Lemma find_by_code_run s w n code p r :
  approved_device s w.2 → names_device s (vault_b64 w.2) code p r →
  find_by_code (RT := relay_transport burns) rng code (mkClient s w n) =
  (mkClient s w (S n), Ok (device_info (p, r))).
Proof.
  intros Hap (Hp & Hc & Hu). unfold find_by_code, sbind. rewrite list_devices_run by done.
  rewrite (filter_single _ _ (device_info (p, r))); [done| | |done|].
  - pose proof (device_rows_nodup s (vault_b64 w.2)) as Hnd. apply NoDup_fmap_1 in Hnd.
    apply NoDup_fmap_2_strong; [|done]. intros [p1 r1] [p2 r2] Hin1 Hin2 E.
    apply device_rows_elem in Hin1, Hin2. unfold device_info in E. simpl in E. injection E as _ E _ _ _.
    apply (f_equal b64_decode) in E. rewrite !b64_round in E. injection E as ->. congruence.
  - apply list_elem_of_fmap_2. by apply device_rows_elem.
  - intros y ([p' r'] & -> & Hin)%list_elem_of_fmap Hy. apply device_rows_elem in Hin.
    assert (p' = p) as -> by (by eapply Hu). f_equal. f_equal. congruence.
Qed.

(** ** Approval *)

Lemma wrap_for_run key_list s w n ed r (x : PubKey) :
  dr_x25519_pub r = arr_bytes x →
  wrap_for (N := Relay) rng key_list (device_info (arr_bytes (n := 32) ed, r)) (mkClient s w n) =
  (mkClient s w (2 + n)%nat, Ok (mkWrappedFor (b64_encode (arr_bytes ed))
     (b64_encode (wrap_vault_key (e_key rng n) (e_nonce rng (S n)) key_list x (arr_bytes ed))))).
Proof.
  intros Hx. unfold wrap_for, decode_pub, sbind, slift, fresh, sret, device_info. simpl.
  rewrite Hx, !b64_round. simpl. by rewrite !try_into_bytes.
Qed.

(** The row of a device once approved with a wrapped key. *)
Definition approved_row (r : DeviceRow) (wrapped : bytes) : DeviceRow :=
  mkDeviceRow (dr_x25519_pub r) (dr_name r) true (dr_revoked r) (Some wrapped).

Lemma approve_send s v ts p r wrapped :
  outside_window (r_now s) ts = false → may_sync s (vault_b64 v) (ed25519_pub v) = true →
  t_devices s !! (vault_b64 v, p) = Some r → dr_revoked r = false →
  relay_send (ReqApprove (sign v ts (json_to_string (mkApproveReq (b64_encode p) (b64_encode wrapped))))) s =
  (set_devices (<[(vault_b64 v, p) := approved_row r wrapped]> (t_devices s)) s, Ok (RepPush (mkPushResp (vault_head (vault_b64 v) (t_entries s)) 0))).
Proof.
  intros Hts Hm Hr Hrev.
  unfold send, relay_transport. cbn [handler]. rewrite reply_run.
  unfold Relay.approve. rewrite gated_run, authenticate_signed by done. rewrite Hm.
  change (sg_body (sign _ _ ?b)) with b. rewrite json_body_run, json_round.
  rewrite !b64_bytes_run. simpl. rewrite !b64_round, b64_bytes_run, b64_round.
  cbn [run_prog exec_stmt]. unfold approved_row. by rewrite Hr, Hrev.
Qed.

Lemma post_ok_run route body s w n s' h st :
  relay_send (route (sign w.2 (e_now rng n) body)) s = (s', Ok (RepPush (mkPushResp h st))) →
  post_ok (RT := relay_transport burns) rng route body (mkClient s w n) = (mkClient s' w (S n), Ok tt).
Proof.
  intros Hsend. unfold post_ok, from_sync, post, sbind, the_vault, sget, now_unix, fresh, http, sret.
  cbn [c_net c_world c_draws]. by rewrite Hsend.
Qed.

(** A device that waits: registered, not revoked, its vault just created. *)
Record waiting (s : Relay) (w : World) (r : DeviceRow) : Prop := {
  wt_row : t_devices s !! (vault_b64 w.2, arr_bytes (ed25519_pub w.2)) = Some r;
  wt_pub : dr_x25519_pub r = arr_bytes (x_public (kr_x25519_secret (v_keyring w.2)));
  wt_live : dr_revoked r = false;
  wt_clock : ∀ k, outside_window (r_now s) (e_now rng k) = false;
  wt_inv : vault_inv w;
  wt_empty : f_log w.1 = Some [] ∧ f_snapshot w.1 = None
}.

Lemma approve_run code s wa wb r n :
  approved_device s wa.2 → vault_b64 wb.2 = vault_b64 wa.2 → waiting s wb r →
  names_device s (vault_b64 wa.2) code (arr_bytes (ed25519_pub wb.2)) r →
  ∃ eph nonce k,
    let wrapped := wrap_vault_key eph nonce (share_key_list (v_keyring wa.2) NIL)
      (x_public (kr_x25519_secret (v_keyring wb.2))) (arr_bytes (ed25519_pub wb.2)) in
    approve (RT := relay_transport burns) rng code (mkClient s wa n) =
    (mkClient (set_devices (<[(vault_b64 wa.2, arr_bytes (ed25519_pub wb.2)) := approved_row r wrapped]>
       (t_devices s)) s) wa k, Ok (dr_name r)).
Proof.
  intros Hap Hv Hw Hn. destruct Hap as [Hclock Hm].
  destruct Hn as (Hrow & Hnames). pose proof (find_by_code_run s wa n code _ r (conj Hclock Hm) (conj Hrow Hnames)) as Hfind.
  pose proof (wrap_for_run (share_key_list (v_keyring wa.2) NIL) s wa (S n) (ed25519_pub wb.2) r _ (wt_pub _ _ _ Hw)) as Hwrap.
  set (wrapped := wrap_vault_key _ _ _ _ _) in Hwrap.
  exists (e_key rng (S n)), (e_nonce rng (S (S n))), (4 + n)%nat. cbv zeta. fold wrapped.
  unfold approve. unfold sbind at 1. rewrite Hfind.
  unfold sbind at 1, the_vault at 1, sget at 1. cbn [c_world].
  unfold sbind at 1. rewrite Hwrap. unfold sbind at 1. cbn [wf_device_b64 wf_wrapped_b64].
  rewrite (post_ok_run _ _ s wa _ _ _ _ (approve_send s wa.2 _ _ r wrapped (Hclock _) Hm Hrow (wt_live _ _ _ Hw))).
  done.
Qed.

(** ** The wait *)

Lemma poll_run s w n r : waiting s w r →
  poll_wrapped (RT := relay_transport burns) rng (mkClient s w n) =
  (mkClient s w (S n), Ok (if dr_approved r then b64_encode <$> dr_wrapped_key r else None)).
Proof.
  intros [Hrow _ Hlive Hclock _ _].
  unfold poll_wrapped, signed_get, sbind, the_vault, sget, now_unix, fresh, http, sret.
  cbn [c_net c_world c_draws]. rewrite (wrapped_run burns s w.2 _ r) by done. done.
Qed.

Lemma set_vault_key_run w keys nonce : vault_inv w → f_log w.1 = Some [] → f_snapshot w.1 = None → keys ≠ [] →
  ∃ w', set_vault_key (join_key_list keys) nonce w = (w', Ok tt) ∧ vault_inv w' ∧
    keys_of (v_keyring w'.2) NIL = keys ∧ v_meta w'.2 = v_meta w.2 ∧ v_kek w'.2 = v_kek w.2 ∧
    kr_x25519_secret (v_keyring w'.2) = kr_x25519_secret (v_keyring w.2) ∧
    kr_ed25519_secret (v_keyring w'.2) = kr_ed25519_secret (v_keyring w.2) ∧
    (∀ X, X ≠ NIL → share (v_keyring w'.2) X = share (v_keyring w.2) X) ∧ f_log w'.1 = Some [].
Proof.
  intros [Hk Hm Hf _ Hs Hl] Hlog Hsn Hne. destruct w as [d v]. simpl in *.
  unfold set_vault_key, raw_entries, read_file, rekey, write_keyring, sbind, slift, sguard, sget, sput, self, disk, sret.
  simpl. rewrite Hlog. change (parse_frames []) with (Ok [] : res VaultError (list RawEntry)). simpl.
  rewrite split_join_key_list by done. simpl. eexists. split; [done|].
  set (k := mkKeyring _ _ _ _ _).
  assert (Hkk : k = set_share_keys NIL keys (v_keyring v)).
  { destruct Hk as (_ & _ & _ & Hv & Hv'). unfold k, set_share_keys, with_shares. simpl. by rewrite Hv, Hv'. }
  assert (Hwf : keyring_wf k) by (rewrite Hkk; by apply set_share_keys_wf).
  split_and!; try done.
  - split; simpl; try done; [eauto | |].
    + exists []. split; [|done]. exists []. exists []. by split_and!.
    + intros sn frames recs Hr. unfold read_snapshot in Hr. simpl in Hr. by rewrite Hsn in Hr.
  - simpl. rewrite Hkk. unfold keys_of. by rewrite share_set, decide_True.
  - intros X HX. simpl. rewrite Hkk, share_set. by apply decide_False.
Qed.

Lemma keys_of_nil_list k : keyring_wf k →
  share_key_list k NIL = join_key_list (keys_of k NIL) ∧ keys_of k NIL ≠ [].
Proof.
  intros (_ & Hne & Hnil & _). unfold share_key_list, keys_of, share.
  destruct (find_share NIL (kr_shares k)) as [s|] eqn:E.
  - split; [done|]. apply find_share_in in E as [Hin _]. rewrite Forall_forall in Hne. by apply Hne.
  - by apply find_share_none in E.
Qed.

(** Approval delivers the keys.  When an approved device approves the one
    waiting device its code names, the relay marks that device approved, and at
    its next poll the device holds exactly the approver's vault keys, all
    epochs of them, in a sound vault of its own: nothing else on either side
    changed. *)
Lemma approval_delivers_keys code s wa wb r n m between :
  approved_device s wa.2 → vault_inv wa → vault_b64 wb.2 = vault_b64 wa.2 → waiting s wb r →
  names_device s (vault_b64 wa.2) code (arr_bytes (ed25519_pub wb.2)) r →
  ∃ wrapped k m' wb',
    let s' := set_devices (<[(vault_b64 wb.2, arr_bytes (ed25519_pub wb.2)) := approved_row r wrapped]> (t_devices s)) s in
    approve (RT := relay_transport burns) rng code (mkClient s wa n) = (mkClient s' wa k, Ok (dr_name r)) ∧
    wait_for_key (RT := relay_transport burns) rng ((λ _, s') :: between) (mkClient s wb m) =
      (mkClient s' wb' m', Ok (Some tt)) ∧
    vault_inv wb' ∧ keys_of (v_keyring wb'.2) NIL = keys_of (v_keyring wa.2) NIL ∧
    v_meta wb'.2 = v_meta wb.2 ∧ v_kek wb'.2 = v_kek wb.2 ∧ ed25519_pub wb'.2 = ed25519_pub wb.2 ∧
    (∀ X, X ≠ NIL → share (v_keyring wb'.2) X = share (v_keyring wb.2) X) ∧ f_log wb'.1 = Some [].
Proof.
  intros Hap Hwa Hv Hw Hn. destruct (approve_run code s wa wb r n Hap Hv Hw Hn) as (eph & nonce & k & Hrun).
  cbv zeta in Hrun. set (wrapped := wrap_vault_key _ _ _ _ _) in Hrun. set (s' := set_devices _ s) in Hrun.
  destruct (keys_of_nil_list _ (inv_keyring _ Hwa)) as [Hlist Hne].
  assert (Hrow : t_devices s' !! (vault_b64 wb.2, arr_bytes (ed25519_pub wb.2)) = Some (approved_row r wrapped))
    by (rewrite Hv; apply lookup_insert_eq).
  assert (Hw' : waiting s' wb (approved_row r wrapped)) by (destruct Hw; split; done).
  destruct (set_vault_key_run wb (keys_of (v_keyring wa.2) NIL) (e_nonce rng (S m)))
    as (wb' & Hset & Hi & Hkeys & Hmeta & Hkek & _ & Hed & Hother & Hlog); [apply Hw | apply Hw | apply Hw | done |].
  exists wrapped, k, (2 + m)%nat, wb'. cbv zeta. rewrite Hv. fold s'. split_and!; try done.
  - cbn [wait_for_key]. unfold sbind at 1, sput. cbn [c_net c_world c_draws].
    unfold sbind at 1, from_sync at 1. rewrite (poll_run _ _ _ _ Hw'). cbn [dr_approved dr_wrapped_key approved_row res_map_err fmap option_fmap option_map].
    unfold sbind at 1, from_sync, unwrap_for, sbind at 1, the_vault, sget, slift.
    cbn [c_world dr_approved dr_wrapped_key approved_row option_fmap option_map fmap]. rewrite b64_round. cbn [ok_or res_map_err].
    unfold sbind at 1. unfold wrapped. rewrite Hlist, unwrap_wrap. cbn [res_map_err c_net c_draws].
    unfold sbind at 1, fresh. unfold sbind at 1, from_vault. cbn [c_world c_draws c_net]. by rewrite Hset.
  - unfold ed25519_pub. by rewrite Hed.
Qed.

(** ** Rotation *)

(** A wrapped entry for a row: the key list sealed for the device of the row. *)
Definition wrapped_row (key_list : bytes) (row : bytes * DeviceRow) (w : WrappedFor) : Prop :=
  wf_device_b64 w = b64_encode row.1 ∧ ∃ eph nonce (x : PubKey),
    dr_x25519_pub row.2 = arr_bytes x ∧
    wf_wrapped_b64 w = b64_encode (wrap_vault_key eph nonce key_list x row.1).

(** Keys of the right length, as a device registers them. *)
Definition row_ok (row : bytes * DeviceRow) : Prop :=
  (∃ ed : PubKey, row.1 = arr_bytes ed) ∧ ∃ x : PubKey, dr_x25519_pub row.2 = arr_bytes x.

Lemma wrap_all_run key_list s w rows : ∀ n,
  Forall row_ok rows →
  ∃ k ws, wrap_all (N := Relay) rng key_list (device_info <$> rows) (mkClient s w n) = (mkClient s w k, Ok ws) ∧
    Forall2 (wrapped_row key_list) rows ws.
Proof.
  induction rows as [|[p r] rows IH]; intros n Hok; [exists n, []; by split|].
  apply Forall_cons in Hok as [[[ed Hed] [x Hx]] Hok]. simpl in Hed, Hx. subst p.
  destruct (IH (2 + n)%nat Hok) as (k & ws & Hrun & Hall).
  eexists k, (_ :: ws). cbn [fmap list_fmap wrap_all]. unfold sbind at 1.
  rewrite (wrap_for_run key_list s w n ed r x Hx). unfold sbind at 1. rewrite Hrun.
  split; [done|]. constructor; [|done]. split; [done|]. eauto.
Qed.

(** The row after a rotation: the wrapped key replaced. *)
Definition rekeyed (r : DeviceRow) (blob : bytes) : DeviceRow :=
  mkDeviceRow (dr_x25519_pub r) (dr_name r) (dr_approved r) (dr_revoked r) (Some blob).

Lemma rewrap_rows key_list v rows ws : ∀ s,
  Forall2 (wrapped_row key_list) rows ws → NoDup rows.*1 →
  (∀ p r, (p, r) ∈ rows → t_devices s !! (v, p) = Some r ∧ dr_revoked r = false) →
  ∃ s', run_prog burns (rewrap_all v ws) s = (s', Ok tt) ∧
    t_vaults s' = t_vaults s ∧ t_entries s' = t_entries s ∧
    (∀ x, (∀ p, x = (v, p) → p ∉ rows.*1) → t_devices s' !! x = t_devices s !! x) ∧
    (∀ p r, (p, r) ∈ rows → ∃ eph nonce (x : PubKey), dr_x25519_pub r = arr_bytes x ∧
       t_devices s' !! (v, p) = Some (rekeyed r (wrap_vault_key eph nonce key_list x p))).
Proof.
  intros s Hall. revert s. induction Hall as [|[p r] w rows ws (Hd & eph & nonce & x & Hx & Hb) Hall IH];
    intros s Hnd Hrows.
  { exists s. split_and!; try done. by intros p r ?%not_elem_of_nil. }
  simpl in Hd, Hb, Hx, Hnd. apply NoDup_cons in Hnd as [Hp Hnd].
  destruct (Hrows p r) as [Hr Hrev]; [constructor|].
  set (blob := wrap_vault_key eph nonce key_list x p) in *.
  set (s1 := set_devices (<[(v, p) := rekeyed r blob]> (t_devices s)) s).
  destruct (IH s1 Hnd) as (s' & Hrun & Ev & Ee & Hsame & Hnew).
  { intros p' r' Hin. destruct (Hrows p' r') as [Hr' Hrev']; [by constructor|]. split; [|done].
    simpl. rewrite lookup_insert_ne; [done|]. intros [= ->]. apply Hp.
    by apply (list_elem_of_fmap_2 fst rows (p', r')). }
  exists s'. split_and!; try done.
  - cbn [rewrap_all]. rewrite b64_bytes_run, Hd, b64_round, b64_bytes_run, Hb, b64_round.
    cbn [run_prog exec_stmt]. rewrite Hr, Hrev. rewrite <-Hrun. unfold s1, rekeyed. by rewrite Hrev.
  - intros y Hy. rewrite Hsame; [|intros p' Hp'; apply (not_elem_of_cons rows.*1 p' p), Hy, Hp'].
    simpl. rewrite lookup_insert_ne; [done|]. intros <-. apply (Hy p eq_refl). constructor.
  - intros p' r' [[= -> ->]|Hin]%elem_of_cons; [|by apply Hnew].
    exists eph, nonce, x. split; [done|]. rewrite Hsame; [apply lookup_insert_eq|].
    intros p'' [= <-]. done.
Qed.

Definition revoked_row (r : DeviceRow) : DeviceRow :=
  mkDeviceRow (dr_x25519_pub r) (dr_name r) false true None.

Lemma revoke_send s v ts p r :
  outside_window (r_now s) ts = false → may_sync s (vault_b64 v) (ed25519_pub v) = true →
  t_devices s !! (vault_b64 v, p) = Some r →
  relay_send (ReqRevoke (sign v ts (json_to_string (mkRevokeReq (b64_encode p))))) s =
  (set_devices (<[(vault_b64 v, p) := revoked_row r]> (t_devices s)) s,
   Ok (RepPush (mkPushResp (vault_head (vault_b64 v) (t_entries s)) 0))).
Proof.
  intros Hts Hm Hr. unfold send, relay_transport. cbn [handler]. rewrite reply_run.
  unfold Relay.revoke. rewrite gated_run, authenticate_signed by done. rewrite Hm.
  change (sg_body (sign _ _ ?b)) with b. rewrite json_body_run, json_round. simpl.
  rewrite b64_bytes_run, b64_round. cbn [run_prog exec_stmt]. by rewrite Hr.
Qed.

Lemma revoke_run code s w n p r :
  approved_device s w.2 → names_device s (vault_b64 w.2) code p r →
  revoke (RT := relay_transport burns) rng code (mkClient s w n) =
  (mkClient (set_devices (<[(vault_b64 w.2, p) := revoked_row r]> (t_devices s)) s) w (2 + n)%nat, Ok (dr_name r)).
Proof.
  intros Hap Hn. pose proof (find_by_code_run s w n code p r Hap Hn) as Hfind.
  destruct Hap as [Hclock Hm]. destruct Hn as [Hr _]. unfold revoke. unfold sbind at 1. rewrite Hfind.
  unfold sbind at 1. cbn [di_ed25519_b64 device_info fst].
  by rewrite (post_ok_run _ _ s w _ _ _ _ (revoke_send s w.2 _ p r (Hclock _) Hm Hr)).
Qed.

(** No request the device signs is in the replay cache. *)
Definition unseen (s : Relay) (v : Vault) : Prop :=
  ∀ ts body, t_seen s !! arr_bytes (ed_sign (kr_ed25519_secret (v_keyring v)) (as_bytes (signing_message ts body))) = None.

Lemma mark_seen_fresh s v ts body : unseen s v →
  ∃ seen, run_prog burns (mark_seen (sg_sig_b64 (sign v ts body))) s = (set_seen seen s, Ok true).
Proof.
  intros Hun. unfold mark_seen. rewrite b64_bytes_run. cbn [sg_sig_b64 sign]. unfold signature_b64.
  rewrite b64_round. cbn [run_prog exec_stmt t_seen set_seen].
  rewrite (proj2 (map_lookup_filter_None _ _ _)) by (left; apply Hun). by eexists.
Qed.

Lemma rotate_send s v ts e ws rows key_list :
  outside_window (r_now s) ts = false → may_sync s (vault_b64 v) (ed25519_pub v) = true → unseen s v →
  (vr_epoch <$> vault_lookup (vault_b64 v) (t_vaults s)) = Some (e - 1) →
  Forall2 (wrapped_row key_list) rows ws → NoDup rows.*1 →
  (∀ p r, (p, r) ∈ rows → t_devices s !! (vault_b64 v, p) = Some r ∧ dr_revoked r = false) →
  ∃ s', relay_send (ReqRotate (sign v ts (json_to_string (mkRotateReq e ws)))) s =
    (s', Ok (RepPush (mkPushResp (vault_head (vault_b64 v) (t_entries s')) 0))) ∧
    vr_epoch <$> vault_lookup (vault_b64 v) (t_vaults s') = Some e ∧ t_entries s' = t_entries s ∧
    (∀ x, (∀ p, x = (vault_b64 v, p) → p ∉ rows.*1) → t_devices s' !! x = t_devices s !! x) ∧
    (∀ p r, (p, r) ∈ rows → ∃ eph nonce (x : PubKey), dr_x25519_pub r = arr_bytes x ∧
       t_devices s' !! (vault_b64 v, p) = Some (rekeyed r (wrap_vault_key eph nonce key_list x p))).
Proof.
  intros Hts Hm Hun Hep Hall Hnd Hrows.
  destruct (vault_lookup (vault_b64 v) (t_vaults s)) as [vr|] eqn:Hv; simpl in Hep; [|done].
  injection Hep as Hep.
  destruct (mark_seen_fresh s v ts (json_to_string (mkRotateReq e ws)) Hun) as [seen Hseen].
  set (s1 := set_vaults (vault_update (vault_b64 v) (λ x, mkVaultRow (vr_recovery_pub x) e) (t_vaults s)) (set_seen seen s)).
  destruct (rewrap_rows key_list (vault_b64 v) rows ws s1 Hall Hnd Hrows) as (s' & Hrun & Ev & Ee & Hsame & Hnew).
  exists s'. split_and!; try done.
  - unfold send, relay_transport. cbn [handler]. rewrite reply_run.
    unfold Relay.rotate. rewrite gated_run, authenticate_signed by done. rewrite Hm, run_hbind, Hseen.
    change (sg_body (sign _ _ ?b)) with b. rewrite json_body_run, json_round.
    cbn [run_prog exec_stmt rotate_epoch rotate_wrapped]. cbn [t_vaults set_seen]. rewrite Hv, Hep, Z.eqb_refl.
    change (0 <? 1) with true. cbv iota. rewrite run_hbind. fold s1. rewrite Hrun. done.
  - rewrite Ev. simpl. rewrite vault_lookup_update, decide_True by done. by rewrite Hv.
Qed.

(** Minting the next epoch locally. *)
Lemma local_rotate_run phrase nonce w key :
  keyring_wf (v_keyring w.2) → epoch w.2 < u32_max → vault_key_at_epoch phrase (epoch w.2 + 1) = Ok key →
  ∃ w', Lifecycle.rotate phrase nonce w = (w', Ok (epoch w.2 + 1)) ∧ v_meta w'.2 = v_meta w.2 ∧
    f_log w'.1 = f_log w.1 ∧ keyring_wf (v_keyring w'.2) ∧
    keys_of (v_keyring w'.2) NIL = keys_of (v_keyring w.2) NIL ++ [key] ∧
    kr_ed25519_secret (v_keyring w'.2) = kr_ed25519_secret (v_keyring w.2).
Proof.
  intros Hwf He Hk. pose proof (share_epoch_nonneg (v_keyring w.2) NIL) as H0'. fold (epoch w.2) in H0'.
  destruct w as [d v]. simpl in *.
  assert (Hw : u32_wrap (epoch v + 1) = epoch v + 1) by (unfold u32_wrap, u32_max in *; apply Z.mod_small; lia).
  unfold Lifecycle.rotate, crypto, rekey, write_keyring, sbind, slift, sget, sput, self, disk, sret. simpl.
  rewrite Hw, Hk. simpl. eexists. split; [done|]. simpl. split_and!; try done.
  - by apply push_share_key_wf.
  - unfold keys_of. rewrite share_push, decide_True by done. simpl.
    by destruct (share (v_keyring v) NIL).
Qed.

(** The devices a rotation rewraps for. *)
Definition remaining (s : Relay) (v : string) (p : bytes) : list (bytes * DeviceRow) :=
  filter (λ row : bytes * DeviceRow, ¬ (dr_revoked row.2 = true ∨ b64_encode row.1 = b64_encode p)) (device_rows s v).

Lemma remaining_elem s v p q r :
  (q, r) ∈ remaining s v p ↔ t_devices s !! (v, q) = Some r ∧ dr_revoked r = false ∧ q ≠ p.
Proof.
  unfold remaining. rewrite list_elem_of_filter, device_rows_elem. simpl.
  assert (b64_encode q = b64_encode p ↔ q = p).
  { split; [|by intros ->]. intros E%(f_equal b64_decode). rewrite !b64_round in E. by injection E. }
  destruct (dr_revoked r); naive_solver.
Qed.
Lemma remaining_nodup s v p : NoDup (remaining s v p).*1.
Proof.
  unfold remaining. eapply sublist_NoDup; [apply (device_rows_nodup s v)|].
  apply fmap_sublist, sublist_filter.
Qed.

Lemma filter_infos s v p :
  filter (λ d, ¬ (di_revoked d = true ∨ di_ed25519_b64 d = b64_encode p)) (device_info <$> device_rows s v) =
  device_info <$> remaining s v p.
Proof.
  unfold remaining. induction (device_rows s v) as [|row l IH]; [done|].
  cbn [fmap list_fmap]. rewrite !filter_cons. rewrite IH. unfold device_info at 1 2. cbn [di_revoked di_ed25519_b64].
  by repeat case_decide.
Qed.

(** C10: revoking with rotation cuts the device off and keeps the others.  When
    an approved device revokes another by its code and rotates with the
    recovery phrase, it succeeds if its epoch is the relay's: the target is
    revoked and has no wrapped key, vault and device are one epoch on, the
    device's keys are the old ones and the epoch's key of the phrase, and
    every other device not revoked can unwrap exactly that list from its new
    row with its own secret. *)
Theorem rotation_rekeys_the_others code phrase s wa n p r key :
  approved_device s wa.2 → keyring_wf (v_keyring wa.2) → unseen s wa.2 →
  names_device s (vault_b64 wa.2) code p r → p ≠ arr_bytes (ed25519_pub wa.2) →
  epoch wa.2 < u32_max → vault_key_at_epoch phrase (epoch wa.2 + 1) = Ok key →
  vr_epoch <$> vault_lookup (vault_b64 wa.2) (t_vaults s) = Some (epoch wa.2) →
  (∀ q x, t_devices s !! (vault_b64 wa.2, q) = Some x → row_ok (q, x)) →
  ∃ s' wa' k,
    revoke_and_rotate (RT := relay_transport burns) rng code phrase (mkClient s wa n) =
      (mkClient s' wa' k, Ok (dr_name r)) ∧
    t_devices s' !! (vault_b64 wa.2, p) = Some (revoked_row r) ∧
    vr_epoch <$> vault_lookup (vault_b64 wa.2) (t_vaults s') = Some (epoch wa.2 + 1) ∧
    keys_of (v_keyring wa'.2) NIL = keys_of (v_keyring wa.2) NIL ++ [key] ∧
    t_entries s' = t_entries s ∧ f_log wa'.1 = f_log wa.1 ∧
    (∀ sk (ed : PubKey) x, t_devices s !! (vault_b64 wa.2, arr_bytes ed) = Some x → arr_bytes ed ≠ p →
       dr_revoked x = false → dr_x25519_pub x = arr_bytes (x_public sk) →
       ∃ blob, t_devices s' !! (vault_b64 wa.2, arr_bytes ed) = Some (rekeyed x blob) ∧
         unwrap_vault_key sk blob (arr_bytes ed) = Ok (join_key_list (keys_of (v_keyring wa'.2) NIL))).
Proof.
  intros Hap Hwf Hun Hn Hself He Hkey Hep Hok. pose proof Hap as [Hclock Hm].
  pose proof Hn as [Hrow _]. set (v := vault_b64 wa.2) in *.
  set (s1 := set_devices (<[(v, p) := revoked_row r]> (t_devices s)) s).
  destruct (local_rotate_run phrase (e_nonce rng (3 + n)%nat) wa key Hwf He Hkey)
    as (wa' & Hrot & Emeta & Elog & Hwf' & Hkeys & Eed).
  assert (Ev : vault_b64 wa'.2 = v) by (unfold vault_b64; by rewrite Emeta).
  assert (Ep : ed25519_pub wa'.2 = ed25519_pub wa.2) by (unfold ed25519_pub; by rewrite Eed).
  assert (Hm1 : may_sync s1 (vault_b64 wa'.2) (ed25519_pub wa'.2) = true).
  { rewrite Ev, Ep. unfold may_sync, s1. simpl. rewrite lookup_insert_ne; [exact Hm|]. by intros [= ->]. }
  assert (Hrem : ∀ q x, (q, x) ∈ remaining s1 v p ↔ t_devices s !! (v, q) = Some x ∧ dr_revoked x = false ∧ q ≠ p).
  { intros q x. rewrite remaining_elem. unfold s1. simpl.
    destruct (decide (q = p)) as [->|Hne]; [naive_solver|]. by rewrite lookup_insert_ne by congruence. }
  destruct (wrap_all_run (share_key_list (v_keyring wa'.2) NIL) s1 wa' (remaining s1 v p) (5 + n)%nat)
    as (k & ws & Hwrap & Hall).
  { apply Forall_forall. intros [q x] [Hq _]%Hrem. by apply Hok. }
  destruct (rotate_send s1 wa'.2 (e_now rng k) (epoch wa.2 + 1) ws (remaining s1 v p)
    (share_key_list (v_keyring wa'.2) NIL)) as (s' & Hsend & Hep' & Hent & Hsame & Hnew).
  { apply Hclock. } { exact Hm1. }
  { intros ts body. rewrite Eed. apply Hun. }
  { rewrite Ev. simpl. rewrite Hep. f_equal. lia. }
  { exact Hall. } { apply remaining_nodup. }
  { rewrite Ev. intros q x [Hq [Hl _]]%remaining_elem. done. }
  rewrite Ev in Hep', Hsame, Hnew.
  exists s', wa', (S k). split_and!; try done.
  - unfold revoke_and_rotate. unfold sbind at 1. rewrite (find_by_code_run s wa n code p r Hap Hn).
    unfold sbind at 1. rewrite (revoke_run code s wa (S n) p r Hap Hn). fold v s1.
    unfold sbind at 1, fresh at 1. cbn [c_net c_world c_draws].
    unfold sbind at 1, from_vault at 1. cbn [c_net c_world c_draws].
    change (2 + S n)%nat with (3 + n)%nat. rewrite Hrot. cbn [res_map_err].
    unfold sbind at 1, the_vault at 1, sget at 1. cbn [c_world].
    unfold sbind at 1. rewrite (list_devices_run s1 wa' (S (3 + n))) by done. rewrite Ev.
    unfold sbind at 1. cbn [di_ed25519_b64 device_info fst]. rewrite filter_infos.
    change (S (S (3 + n)))%nat with (5 + n)%nat. rewrite Hwrap.
    unfold sbind at 1. by rewrite (post_ok_run _ _ s1 wa' k _ _ _ Hsend).
  - rewrite Hsame.
    + apply lookup_insert_eq.
    + intros q [= <-] ([q' x] & Eq & Hin)%list_elem_of_fmap. simpl in Eq. subst. by apply Hrem in Hin as (_ & _ & ?).
  - intros sk ed x Hx Hne Hl Hpub. destruct (Hnew (arr_bytes ed) x) as (eph & nonce & xp & Hxp & Hrow').
    { by apply Hrem. }
    exists (wrap_vault_key eph nonce (share_key_list (v_keyring wa'.2) NIL) xp (arr_bytes ed)). split; [exact Hrow'|].
    assert (xp = x_public sk) as -> by (apply arr_eq; congruence).
    rewrite unwrap_wrap. f_equal. by apply keys_of_nil_list.
Qed.

(** ** Recovery *)

Definition recovered_row (device : DeviceKeys) (name : string) (old : option DeviceRow) : DeviceRow :=
  match old with
  | Some r => mkDeviceRow (arr_bytes (x_public (x25519 device))) (dr_name r) true false (dr_wrapped_key r)
  | None => mkDeviceRow (arr_bytes (x_public (x25519 device))) name true false None
  end.

(** A vault created on an empty disk, and told of a relay. *)
Lemma create_fresh name passphrase id key rp device draw relay d kek :
  derive_kek (as_bytes passphrase) (arr_bytes (in_salt draw)) ARGON2_M_KIB ARGON2_T ARGON2_P = Ok kek →
  f_meta d = None → f_snapshot d = None →
  ∃ d1 v w, create_with_keys name passphrase id key rp device draw d = (d1, Ok v) ∧
    set_relay_url relay (d1, v) = (w, Ok tt) ∧ session passphrase w ∧
    v_meta w.2 = mkMeta id (in_device_id draw) name (mkKdfParams (b64_encode (arr_bytes (in_salt draw))) ARGON2_M_KIB ARGON2_T ARGON2_P)
      (b64_encode (arr_bytes (x_public (x25519 device)))) (b64_encode (arr_bytes (ed_public (ed25519 device))))
      (b64_encode (arr_bytes rp)) 0 (Some relay) 0 ∧
    v_keyring w.2 = mkKeyring [mkShareKeys NIL [key]] [] None (x25519 device) (ed25519 device) ∧
    v_state w.2 = ∅ ∧ f_log w.1 = Some [] ∧ f_snapshot w.1 = None.
Proof.
  intros Hkek Hfresh Hsnap.
  destruct (create_with_keys name passphrase id key rp device draw d) as [d1 r1] eqn:Hc.
  pose proof Hc as Hrun. unfold create_with_keys, vault_kek in Hrun. rewrite Hfresh in Hrun.
  cbn [kdf salt_b64 m_kib kdf_t kdf_p] in Hrun. rewrite b64_round in Hrun. cbn [ok_or res_bind] in Hrun.
  rewrite Hkek in Hrun. cbn [res_map_err] in Hrun. injection Hrun as Hd <-.
  destruct (create_session _ _ _ _ _ _ _ _ _ _ Hsnap Hc) as [Hses _].
  eexists d1, _, _. split; [done|]. split; [exact (update_meta_eq (with_relay_url relay) _ (inv_meta _ (proj1 Hses)))|].
  split_and!; try done; try (subst d1; done).
  eapply session_kept; [exact Hses|]. apply kept_set_meta; [apply Hses | done | apply (inv_lamport _ (proj1 Hses))].
Qed.

Lemma recover_send s name rsk device v :
  (exec_stmt burns (SSelectVault (arr_bytes (ed_public rsk))) s).2 = Some v →
  relay_send (ReqRecover (mkRecoverReq (b64_encode (arr_bytes (ed_public rsk))) name
      (b64_encode (arr_bytes (ed_public (ed25519 device)))) (b64_encode (arr_bytes (x_public (x25519 device))))
      (b64_encode (arr_bytes (ed_sign rsk (arr_bytes (ed_public (ed25519 device)))))))) s =
  (set_devices (<[(v, arr_bytes (ed_public (ed25519 device))) :=
      recovered_row device name (t_devices s !! (v, arr_bytes (ed_public (ed25519 device))))]> (t_devices s)) s,
   Ok (RepRecover (mkRecoverResp v))).
Proof.
  intros Hv. unfold send, relay_transport. cbn [handler]. rewrite reply_run.
  unfold Relay.recover, b64_array, hlift. rewrite !run_hbind. simpl. rewrite b64_round. simpl.
  rewrite try_into_bytes. simpl. rewrite run_hbind. simpl. rewrite b64_round. simpl. rewrite try_into_bytes. simpl.
  rewrite run_hbind. simpl. rewrite b64_round. simpl. rewrite try_into_bytes. simpl.
  rewrite ed_public_valid, ed_sign_verify. simpl in Hv. cbn [run_prog exec_stmt]. rewrite Hv.
  rewrite b64_bytes_run, b64_round. reflexivity.
Qed.

(** Recovery on an empty disk, of a vault the relay knows by the phrase: the new
    device is approved, no other row changes, and the machine has a sound vault
    with the key of epoch 0 of the phrase. *)
Lemma recover_run name passphrase phrase device draw relay d s keys kek id :
  let p := ed_public (ed25519 device) in
  let v := b64_encode (arr_bytes (n := 16) id) in
  keys_from_phrase phrase = Ok keys →
  derive_kek (as_bytes passphrase) (arr_bytes (in_salt draw)) ARGON2_M_KIB ARGON2_T ARGON2_P = Ok kek →
  f_meta d = None → f_snapshot d = None →
  (exec_stmt burns (SSelectVault (arr_bytes (ed_public (recovery_signing keys)))) s).2 = Some v →
  ∃ w, recover (RT := relay_transport burns) name passphrase phrase device draw relay d s =
      (set_devices (<[(v, arr_bytes p) := recovered_row device name (t_devices s !! (v, arr_bytes p))]> (t_devices s)) s,
       w.1, Ok w.2) ∧
    session passphrase w ∧ vault_id (v_meta w.2) = id ∧ relay_url (v_meta w.2) = Some relay ∧ sync_cursor (v_meta w.2) = 0 ∧
    v_keyring w.2 = mkKeyring [mkShareKeys NIL [vault_key keys]] [] None (x25519 device) (ed25519 device) ∧
    v_state w.2 = ∅ ∧ f_log w.1 = Some [].
Proof.
  intros p v Hkeys Hkek Hfresh Hsnap Hvault.
  destruct (create_fresh name passphrase id (vault_key keys) (ed_public (recovery_signing keys)) device draw relay d kek)
    as (d1 & v1 & w & Hc & Hurl & Hses & Hmeta & Hkr & Hst & Hlog & _); [done..|].
  exists w. split_and!; try done; try (by rewrite Hmeta).
  unfold recover. rewrite Hkeys, (recover_send s name _ device _ Hvault). cbn [as_recover ok_or res_bind res_map_err].
  unfold uuid_from_b64. cbn [recovered_vault_b64]. unfold v. rewrite b64_round. cbn [option_bind mbind].
  rewrite try_into_bytes. cbn [ok_or res_bind]. rewrite Hc. by rewrite Hurl.
Qed.
End device_props.
