(* ===== verification/Shares.v ===== *)
(** * Shares: a grant delivers a share and its past

    [share add] of [Device.v] against the handlers of [Relay.v], followed by a
    round of the new member: the keys of the share reach it, its cursor goes
    back to the start, and what was written to the share before it was a member
    arrives as well. *)

From Stdlib Require Import ZArith Lia Ascii String.
From S2P Require Import Prelude Text Record Merge Extern Crypto Log Keyring Validate Vault Crud Lifecycle VaultInv CrudFacts VaultProps KeyGrowth Proto RelayDb Relay RelayFacts RelayProps Sync SyncFacts SyncRound Device DeviceProps.

#[local] Open Scope string_scope.
#[local] Open Scope list_scope.
#[local] Open Scope Z_scope.

#[export] Instance share_membership_eq_dec : EqDecision ShareMembership.
Proof. solve_decision. Defined.

Section shares.
Context `{AeadLaws} `{!AeadCommit} `{MsgPackLaws Keyring} `{MsgPackLaws Rec}.
Context `{MsgPackLaws Snapshot} `{JsonTextLaws Meta} `{HashOrderLaws}.
Context `{Ed25519Laws} `{Base64Laws} `{X25519Laws} `{Argon2} `{Hkdf} `{Bip39}.
Context `{JsonTextLaws EnrollReq} `{JsonTextLaws ApproveReq} `{JsonTextLaws RevokeReq} `{JsonTextLaws RotateReq}.
Context `{JsonTextLaws ShareGrantReq} `{JsonTextLaws ShareRotateReq} `{JsonTextLaws PushReq}.
Context (burns : bool) (rng : Entropy).

Abbreviation relay_send := (send (Transport := relay_transport burns)).

(** ** The grant *)

(** The devices a list of codes names, in order. *)
Definition names_devices (s : Relay) (v : string) : list string → list (bytes * DeviceRow) → Prop :=
  Forall2 (λ code row, names_device s v code row.1 row.2).

Lemma names_devices_rows s v codes rows : names_devices s v codes rows →
  ∀ p r, (p, r) ∈ rows → t_devices s !! (v, p) = Some r.
Proof.
  induction 1 as [|code [q x] codes rows (Hq & _) _ IH]; intros p r Hin; [by apply not_elem_of_nil in Hin|].
  apply elem_of_cons in Hin as [[= -> ->]|Hin]; [exact Hq | by apply IH].
Qed.

Lemma wrap_for_codes_run key_list s w codes rows : approved_device rng s w.2 →
  names_devices s (vault_b64 w.2) codes rows → Forall row_ok rows → ∀ n,
  ∃ k ws, wrap_for_codes (RT := relay_transport burns) rng key_list codes (mkClient s w n) = (mkClient s w k, Ok ws) ∧
    Forall2 (wrapped_row key_list) rows ws.
Proof.
  intros Hap Hn. induction Hn as [|code [p r] codes rows Hc Hn IH]; intros Hok n; [by exists n, []|].
  apply Forall_cons in Hok as [[[ed Hed] [x Hx]] Hok]. simpl in Hed, Hx, Hc. subst p.
  destruct (IH Hok (3 + n)%nat) as (k & ws & Hrun & Hall).
  eexists k, (_ :: ws). cbn [wrap_for_codes]. unfold sbind at 1.
  rewrite (find_by_code_run burns rng s w n code _ r Hap Hc).
  unfold sbind at 1. rewrite (wrap_for_run rng key_list s w (S n) ed r x Hx). unfold sbind at 1.
  change (2 + S n)%nat with (3 + n)%nat. rewrite Hrun.
  split; [done|]. constructor; [|exact Hall]. split; [done|]. eauto.
Qed.

(** What a grant writes: a row for each device named, with the list sealed for
    it, and no other row. *)
Definition granted (v : string) (X : Uuid) (key_list : bytes) (rows : list (bytes * DeviceRow))
    (m m' : gmap (string * bytes * bytes) bytes) : Prop :=
  (∀ p r, (p, r) ∈ rows → ∃ eph nonce (x : PubKey), dr_x25519_pub r = arr_bytes x ∧
     m' !! (v, arr_bytes X, p) = Some (wrap_vault_key eph nonce key_list x p)) ∧
  ∀ k, (∀ p, k = (v, arr_bytes X, p) → p ∉ rows.*1) → m' !! k = m !! k.

Lemma grant_rows v X key_list rows ws : Forall2 (wrapped_row key_list) rows ws →
  (∀ p r r', (p, r) ∈ rows → (p, r') ∈ rows → r = r') → ∀ s,
  ∃ m, run_prog burns (grant_all v (arr_bytes X) ws) s = (set_members m s, Ok tt) ∧
    granted v X key_list rows (t_members s) m.
Proof.
  induction 1 as [|[p r] w rows ws (Hd & eph & nonce & x & Hx & Hb) Hall IH]; intros Hfun s.
  { exists (t_members s). split; [by destruct s|]. split; [by intros p r ?%not_elem_of_nil | done]. }
  simpl in Hd, Hb, Hx. set (blob := wrap_vault_key eph nonce key_list x p) in *.
  destruct (IH (λ q a b Ha Hb, Hfun q a b (list_elem_of_further _ _ _ Ha) (list_elem_of_further _ _ _ Hb))
    (set_members (<[(v, arr_bytes X, p) := blob]> (t_members s)) s)) as (m & Hrun & Hnew & Hsame).
  exists m. split; [|split].
  - cbn [grant_all]. rewrite b64_bytes_run, Hd, b64_round, b64_bytes_run, Hb, b64_round.
    cbn [run_prog exec_stmt]. rewrite Hrun. by destruct s.
  - intros q y Hin. destruct (decide (q ∈ rows.*1)) as [([q' y'] & -> & Hq)%list_elem_of_fmap|Hq].
    + assert (y = y') as -> by (eapply Hfun; [exact Hin | by constructor]). by apply Hnew.
    + apply elem_of_cons in Hin as [[= -> ->]|Hin]; [|destruct Hq; by apply (list_elem_of_fmap_2 fst rows (q, y))].
      exists eph, nonce, x. split; [done|]. rewrite Hsame by (intros p' [= <-]; exact Hq). apply lookup_insert_eq.
  - intros k Hk. rewrite Hsame; [|intros q Hq; by apply (not_elem_of_cons rows.*1 q p), Hk].
    simpl. apply lookup_insert_ne. intros <-. apply (Hk p eq_refl). constructor.
Qed.

(** The relay after a grant. *)
Definition grants (s : Relay) (v : string) (X : Uuid) (epoch : Z) (m : gmap (string * bytes * bytes) bytes) : Relay :=
  set_members m (set_shares (<[(v, arr_bytes X) :=
    match t_shares s !! (v, arr_bytes X) with Some e => Z.max e epoch | None => epoch end]> (t_shares s)) s).

Lemma grants_inv s v X e m : db_inv s → db_inv (grants s v X e m).
Proof. by intros []. Qed.

Lemma grant_send s v ts X e key_list rows ws :
  outside_window (r_now s) ts = false → may_sync s (vault_b64 v) (ed25519_pub v) = true →
  Forall2 (wrapped_row key_list) rows ws → (∀ p r r', (p, r) ∈ rows → (p, r') ∈ rows → r = r') →
  ∃ m h st, relay_send (ReqShareGrant (sign v ts (json_to_string
      (mkShareGrantReq (b64_encode (arr_bytes X)) e ws)))) s =
      (grants s (vault_b64 v) X e m, Ok (RepPush (mkPushResp h st))) ∧
    granted (vault_b64 v) X key_list rows (t_members s) m.
Proof.
  intros Hts Hm Hall Hfun.
  destruct (grant_rows (vault_b64 v) X key_list rows ws Hall Hfun (grants s (vault_b64 v) X e (t_members s)))
    as (m & Hrun & Hg). eexists m, _, 0. split; [|exact Hg].
  unfold send, relay_transport. cbn [handler]. rewrite reply_run.
  unfold share_grant. rewrite gated_run, authenticate_signed by done. rewrite Hm.
  change (sg_body (sign _ _ ?b)) with b. rewrite json_body_run, json_round.
  cbn [grant_share_b64 grant_epoch grant_wrapped]. unfold decode_share, hlift. rewrite run_hbind. simpl.
  rewrite b64_round. simpl. rewrite (proj2 (Nat.eqb_eq _ _)) by apply arr_length. cbn [ok_or run_prog exec_stmt].
  rewrite run_hbind.
  change (set_shares _ s) with (grants s (vault_b64 v) X e (t_members s)).
  rewrite Hrun. reflexivity.
Qed.

Lemma share_add_run s w n X codes rows : approved_device rng s w.2 → has_share (v_keyring w.2) X = true →
  names_devices s (vault_b64 w.2) codes rows → Forall row_ok rows →
  ∃ m k, share_add (RT := relay_transport burns) rng X codes (mkClient s w n) =
      (mkClient (grants s (vault_b64 w.2) X (share_epoch (v_keyring w.2) X) m) w k, Ok tt) ∧
    granted (vault_b64 w.2) X (share_key_list (v_keyring w.2) X) rows (t_members s) m.
Proof.
  intros Hap Hh Hn Hok. destruct (wrap_for_codes_run (share_key_list (v_keyring w.2) X) s w codes rows Hap Hn Hok n)
    as (k & ws & Hrun & Hall).
  destruct (grant_send s w.2 (e_now rng k) X (share_epoch (v_keyring w.2) X) (share_key_list (v_keyring w.2) X) rows ws)
    as (m & h & st & Hsend & Hg); [apply Hap.. | done | |].
  { intros p r r' H1' H2'. apply (names_devices_rows _ _ _ _ Hn) in H1', H2'. congruence. }
  exists m, (S k). split; [|exact Hg]. unfold share_add.
  unfold sbind at 1, the_vault at 1, sget at 1. cbn [c_world]. unfold sbind at 1, sguard at 1. rewrite Hh. unfold sret at 1.
  unfold sbind at 1. rewrite Hrun. unfold grant. unfold sbind at 1, the_vault at 1, sget at 1. cbn [c_world].
  exact (post_ok_run burns rng ReqShareGrant _ s w k _ _ _ Hsend).
Qed.
(** ** The new member *)

(** A device that reads all of its log, with a snapshot, if any, of the keys it
    holds. *)
Definition readable (w : World) : Prop :=
  ∀ f, f ∈ frames_of w → ∃ rec, open_entry (v_keyring w.2) f.1 f.2 = Ok (Some rec).
Definition snapshot_current (w : World) : Prop :=
  ∀ sn, read_snapshot w.1 w.2 = Some sn → same_epoch_set (snap_shares sn) (held_share_epochs (v_keyring w.2)) = true.

Lemma absorb_share_run w X keys nonce : more_keys (v_keyring w.2) X keys →
  absorb_share_key X (join_key_list keys) nonce w = (with_share X keys nonce w, Ok tt).
Proof.
  intros Hmore. pose proof (more_keys_ne _ _ _ Hmore) as Hne. destruct Hmore as [_ Hlen], w as [d v]. unfold keys_of in Hlen.
  unfold absorb_share_key, absorb_keys, rekey, write_keyring, sbind, slift, sget, sput, self, disk, sret.
  rewrite split_join_key_list by done. simpl in *. destruct (share (v_keyring v) X) as [y|]; [|done].
  simpl in Hlen. by rewrite (proj2 (Nat.leb_gt _ _) Hlen).
Qed.

Lemma with_share_inv w X keys nonce : vault_inv w → readable w → snapshot_current w →
  more_keys (v_keyring w.2) X keys → vault_inv (with_share X keys nonce w).
Proof.
  intros [Hk Hm [n Hf] [recs [[frames Hl] Hst]] Hs Hl0] Hread Hcur Hkeys. pose proof (more_keys_ne _ _ _ Hkeys) as Hne.
  rewrite <- (frames_of_holds _ _ _ Hl) in Hl. set (k := set_share_keys X keys (v_keyring w.2)).
  assert (Hmore : ∀ fs, fs ⊆ frames_of w → open_entries k fs = open_entries (v_keyring w.2) fs).
  { intros fs Hfs. apply open_entries_more; [apply trial_keys_more; [apply Hk | apply Hkeys]|]. intros f Hin. by apply Hread, Hfs. }
  assert (Hh : log_holds (with_share X keys nonce w) (frames_of w) recs).
  { destruct Hl as (data & Hd & Hp & Ho). exists data. split_and!; [done..|]. rewrite <- Ho. by apply Hmore. }
  split; simpl; try done; [by apply set_share_keys_wf | eauto | exists recs; split; eauto |].
  intros sn fs rs Hsn Hfs. destruct (log_holds_fun _ _ _ _ _ Hfs Hh) as [-> ->].
  destruct (Hs sn _ _ Hsn Hl) as [Hc He]. split; [exact Hc|]. intros _.
  destruct (He (Hcur sn Hsn)) as (r0 & Hr0 & Hcol). exists r0. split; [|exact Hcol]. rewrite <- Hr0. apply Hmore.
  intros f Hin. rewrite <- (take_drop (Z.to_nat (covered sn)) (frames_of w)). apply elem_of_app. by left.
Qed.

(** ** Healing after a grant *)

Lemma memberships_elem s v m : m ∈ memberships burns s v ↔
  ∃ share wrapped, t_members s !! (vault_b64 v, share, arr_bytes (ed25519_pub v)) = Some wrapped ∧
    m = mkShareMembership (b64_encode share) (u32_wrap (default 0 (t_shares s !! (vault_b64 v, share)))) (b64_encode wrapped).
Proof.
  unfold memberships. cbn [exec_stmt snd]. rewrite list_elem_of_fmap. setoid_rewrite list_elem_of_omap. split.
  - intros ([[share wrapped] e] & -> & [[[v' share'] p] wrapped'] & Hin & Hr).
    apply elem_of_map_to_list in Hin. case_decide as Hd; [|done]. destruct Hd as [-> ->].
    injection Hr as -> -> <-. by exists share, wrapped.
  - intros (share & wrapped & Hm & ->). eexists (share, wrapped, _). split; [done|].
    exists ((vault_b64 v, share, arr_bytes (ed25519_pub v)), wrapped).
    split; [by apply elem_of_map_to_list|]. by rewrite decide_True.
Qed.

(** What a member reads of a grant. *)
Definition membership (s : Relay) (v : string) (X : Uuid) (blob : bytes) : ShareMembership :=
  mkShareMembership (b64_encode (arr_bytes X)) (u32_wrap (default 0 (t_shares s !! (v, arr_bytes X)))) (b64_encode blob).

(** Where only the rows of one share changed, a member's list differs in that share. *)
Lemma memberships_changed s s' v X blob :
  (∀ Y, Y ≠ arr_bytes X → t_members s' !! (vault_b64 v, Y, arr_bytes (ed25519_pub v)) = t_members s !! (vault_b64 v, Y, arr_bytes (ed25519_pub v)) ∧
     t_shares s' !! (vault_b64 v, Y) = t_shares s !! (vault_b64 v, Y)) →
  t_members s' !! (vault_b64 v, arr_bytes X, arr_bytes (ed25519_pub v)) = Some blob →
  membership s' (vault_b64 v) X blob ∈ memberships burns s' v ∧
  ∀ x, x ∈ memberships burns s' v → x ∈ memberships burns s v ∨ x = membership s' (vault_b64 v) X blob.
Proof.
  intros Hsame Hb. split; [apply memberships_elem; by exists (arr_bytes X), blob|].
  intros x (share & wrapped & Hm & ->)%memberships_elem.
  destruct (decide (share = arr_bytes X)) as [->|Hne].
  - right. rewrite Hb in Hm. by injection Hm as ->.
  - left. apply memberships_elem. destruct (Hsame share Hne) as [Em Es]. exists share, wrapped. by rewrite <- Em, Es.
Qed.

Lemma grants_changed s v X e key_list rows m p : granted v X key_list rows (t_members s) m →
  ∀ Y, Y ≠ arr_bytes X → t_members (grants s v X e m) !! (v, Y, p) = t_members s !! (v, Y, p) ∧
    t_shares (grants s v X e m) !! (v, Y) = t_shares s !! (v, Y).
Proof.
  intros [_ Hsame] Y HY. split; [by apply Hsame; intros q E; congruence|]. simpl. by rewrite lookup_insert_ne by congruence.
Qed.

Lemma healed_more k X keys x : (has_share k X = true → share_epoch k X ≤ share_epoch (set_share_keys X keys k) X) →
  healed_membership k x → healed_membership (set_share_keys X keys k) x.
Proof.
  intros Hx Hh b Y Hb Hy. destruct (Hh b Y Hb Hy) as [->|[Hk He]]; [by left|]. right.
  destruct (decide (X = Y)) as [<-|HY].
  - split; [unfold has_share; by rewrite share_set, decide_True | specialize (Hx Hk); lia].
  - unfold has_share, share_epoch in *. by rewrite share_set, decide_False.
Qed.

(** A membership with more keys than held is absorbed, the others of a device in
    order have nothing more for it. *)
Lemma heal_gain w X keys eph nonce x s l : vault_inv w → X ≠ uuid_nil → more_keys (v_keyring w.2) X keys →
  (has_share (v_keyring w.2) X = true → share_epoch (v_keyring w.2) X < sm_epoch x ∧
     share_epoch (v_keyring w.2) X ≤ share_epoch (set_share_keys X keys (v_keyring w.2)) X) →
  sm_share_b64 x = b64_encode (arr_bytes X) →
  sm_wrapped_b64 x = b64_encode (wrap_vault_key eph nonce (join_key_list keys)
    (x_public (kr_x25519_secret (v_keyring w.2))) (arr_bytes (ed25519_pub w.2))) →
  healed_membership (set_share_keys X keys (v_keyring w.2)) x →
  (∀ y, y ∈ l → healed_membership (v_keyring w.2) y ∨ y = x) → x ∈ l → ∀ n,
  ∃ k nonce', heal_memberships rng l false (mkClient s w n) = (mkClient (N := Relay) s (with_share X keys nonce' w) k,
    Ok (negb (has_share (v_keyring w.2) X))).
Proof.
  intros Hw HX Hmore Hx Eid Ewr Hok. induction l as [|y l IH]; intros Hl Hin n; [by apply not_elem_of_nil in Hin|].
  destruct (decide (y = x)) as [->|Hyx].
  - exists (S n), (e_nonce rng n). cbn [heal_memberships]. rewrite Eid, b64_round. cbn [option_bind mbind].
    rewrite try_into_bytes. rewrite bool_decide_eq_false_2 by done.
    unfold sbind at 1, the_vault, sget. cbn [c_world].
    assert (negb (has_share (v_keyring w.2) X) || (share_epoch (v_keyring w.2) X <? sm_epoch x) = true) as ->.
    { destruct (has_share (v_keyring w.2) X); [|done]. by apply Z.ltb_lt, Hx. }
    unfold sbind at 1, unwrap_for, sbind at 1, the_vault, sget, slift. cbn [c_world].
    rewrite Ewr, b64_round. cbn [ok_or res_map_err]. unfold sbind at 1. rewrite unwrap_wrap. cbn [res_map_err].
    unfold sbind at 1, fresh. cbn [c_net c_world c_draws]. unfold sbind at 1, vault. cbn [c_net c_world c_draws].
    rewrite absorb_share_run by done. cbn [res_map_err].
    rewrite heal_memberships_noop; [by destruct (has_share (v_keyring w.2) X)|].
    apply Forall_forall. intros z Hz. cbn [c_world snd].
    destruct (Hl z) as [Hhz| ->]; [by constructor | apply healed_more; [by apply Hx | done] | exact Hok].
  - destruct (Hl y) as [Hy|?]; [by constructor | | done].
    rewrite (heal_memberships_skip rng [y] l false) by by constructor.
    apply IH; [intros z Hz; apply Hl; by constructor|]. by apply elem_of_cons in Hin as [->|Hin].
Qed.

(** ** The delivery *)

(** A device reads an entry; and an entry sealed under the keys of a share. *)
Definition reads (k : Keyring) (e : Entry) : Prop :=
  ∃ (id : arr 16) rec, arr_bytes id = en_id e ∧ open_entry k id (en_blob e) = Ok (Some rec).
Definition sealed_for (k : Keyring) (X : Uuid) (e : Entry) : Prop :=
  ∃ (id : arr 16) rec, arr_bytes id = en_id e ∧ try_keys (keys_of k X) id (en_blob e) = Ok (Some rec).
Definition in_share (v : string) (X : Uuid) (e : Entry) : Prop := en_vault e = v ∧ en_share e = arr_bytes X.

Lemma reads_more k k' e : trial_keys k ⊆ trial_keys k' → reads k e → reads k' e.
Proof. intros Hsub (id & rec & Hid & Ho). exists id, rec. split; [done|]. by eapply open_entry_more. Qed.

Lemma sealed_reads k k' X e : keyring_wf k' → keys_of k' X = keys_of k X → sealed_for k X e → reads k' e.
Proof.
  intros [Hnd _] Hk (id & rec & Hid & (key & plain & Hin & Ho & Hd)%try_keys_some). exists id, rec. split; [done|].
  rewrite <- Hk in Hin. eapply try_keys_open; [by apply (trial_keys_in k' X) | done | done].
Qed.

(** A device about to be granted the share [X] held by another of its vault. *)
Record invited (s : Relay) (X : Uuid) (k : Keyring) (w : World) : Prop := {
  iv_ready : ready burns rng s w;
  iv_new : has_share (v_keyring w.2) X = false;
  iv_readable : readable w;
  iv_snapshot : snapshot_current w;
  iv_reads : ∀ e, may_see s w.2 e → reads (v_keyring w.2) e;
  iv_sealed : ∀ e, e ∈ t_entries s → in_share (vault_b64 w.2) X e → sealed_for k X e
}.

(** The new member once healed: the keys installed, the cursor at the start. *)
Definition joined (X : Uuid) (keys : list (arr 32)) (nonce : Nonce) (w : World) : World :=
  set_meta (with_cursor 0 (v_meta w.2)) (with_share X keys nonce w).

Section delivery.
Context (s : Relay) (X : Uuid) (k : Keyring) (w : World) (key_list : bytes) (rows : list (bytes * DeviceRow)).
Context (m : gmap (string * bytes * bytes) bytes) (nonce : Nonce).
Hypothesis Hdb : db_inv s.
Hypothesis Hinv : invited s X k w.
Hypothesis HX : X ≠ uuid_nil.
Hypothesis Hkeys : keys_of k X ≠ [].
Hypothesis Hepoch : ∀ e, t_shares s !! (vault_b64 w.2, arr_bytes X) = Some e → e ≤ share_epoch k X.
Hypothesis Hgranted : granted (vault_b64 w.2) X key_list rows (t_members s) m.

Let s1 : Relay := grants s (vault_b64 w.2) X (share_epoch k X) m.
Let wp : World := joined X (keys_of k X) nonce w.

Lemma joined_inv : vault_inv wp.
Proof.
  destruct Hinv as [Hr Hx Hread Hsn _ _]. pose proof (rd_inv _ _ _ _ Hr) as Hw. apply inv_set_meta; [|done|].
  - apply with_share_inv; [done.. |]. by apply more_keys_new.
  - apply (inv_lamport _ Hw).
Qed.

Lemma joined_keys Y : share (v_keyring wp.2) Y = if decide (X = Y) then Some (mkShareKeys Y (keys_of k X)) else share (v_keyring w.2) Y.
Proof. apply share_set. Qed.

Lemma joined_keys_of : keys_of (v_keyring wp.2) X = keys_of k X.
Proof. unfold keys_of at 1. by rewrite joined_keys, decide_True. Qed.

Lemma joined_trial : trial_keys (v_keyring w.2) ⊆ trial_keys (v_keyring wp.2).
Proof.
  apply trial_keys_more; [apply (inv_keyring _ (rd_inv _ _ _ _ (iv_ready _ _ _ _ Hinv)))|].
  rewrite (not_held _ _ (iv_new _ _ _ _ Hinv)). by intros x ?%not_elem_of_nil.
Qed.

Lemma joined_frames : frames_of wp = frames_of w.
Proof. done. Qed.

Lemma joined_reads e : may_see s1 wp.2 e → reads (v_keyring wp.2) e.
Proof.
  intros (He & Hv & Hvis). change (en_vault e = vault_b64 w.2) in Hv.
  destruct (decide (en_share e = arr_bytes X)) as [Es|Es].
  - eapply sealed_reads; [apply (inv_keyring _ joined_inv) | apply joined_keys_of |].
    by apply (iv_sealed _ _ _ _ Hinv).
  - eapply reads_more; [apply joined_trial|]. apply (iv_reads _ _ _ _ Hinv). split_and!; [done..|].
    unfold visible in *. destruct Hgranted as [_ Hsame]. simpl in Hvis.
    rewrite Hsame in Hvis by (intros p E; congruence). exact Hvis.
Qed.

Lemma granted_epoch : default 0 (t_shares s1 !! (vault_b64 w.2, arr_bytes X)) = share_epoch k X.
Proof.
  unfold s1. simpl. rewrite lookup_insert_eq. simpl. destruct (t_shares s !! _) as [e|] eqn:E; [|done].
  specialize (Hepoch e eq_refl). lia.
Qed.

Lemma share_epoch_keys k' : share k' X = Some (mkShareKeys X (keys_of k X)) → share_epoch k' X = share_epoch k X.
Proof.
  intros E. unfold share_epoch. rewrite E. unfold keys_of in *. destruct (share k X) as [x|]; simpl; [done|].
  by destruct Hkeys.
Qed.

Lemma share_epoch_wrap : u32_wrap (share_epoch k X) = share_epoch k X.
Proof.
  unfold share_epoch. destruct (share k X); [|done]. unfold u32_wrap. apply Z.mod_mod. lia.
Qed.

Lemma joined_healed blob : healed_membership (v_keyring wp.2) (membership s1 (vault_b64 w.2) X blob).
Proof.
  intros b Y Hb HY. simpl in Hb. rewrite b64_round in Hb. injection Hb as <-. rewrite try_into_bytes in HY.
  injection HY as <-. right. unfold membership. cbn [sm_epoch]. rewrite granted_epoch, share_epoch_wrap.
  assert (E : share (v_keyring wp.2) X = Some (mkShareKeys X (keys_of k X))) by by rewrite joined_keys, decide_True.
  split; [unfold has_share; by rewrite E|]. rewrite (share_epoch_keys (v_keyring wp.2)) by done. lia.
Qed.

Lemma joined_epoch : epoch_current s1 wp.2.
Proof.
  pose proof (rd_keys _ _ _ _ (iv_ready _ _ _ _ Hinv)) as [Hep _].
  assert (E : share (v_keyring wp.2) NIL = share (v_keyring w.2) NIL)
    by (rewrite joined_keys; by apply decide_False).
  intros row Hrow. unfold epoch, share_epoch. rewrite E. by apply Hep.
Qed.

Lemma joined_ready blob :
  m !! (vault_b64 w.2, arr_bytes X, arr_bytes (ed25519_pub w.2)) = Some blob → ready burns rng s1 wp.
Proof.
  intros Hblob. pose proof (iv_ready _ _ _ _ Hinv) as [Hw Hurl Hclock Hm Hks Hent Hcur].
  split; try done.
  - apply joined_inv.
  - split; [apply joined_epoch|]. apply Forall_forall. intros x Hx.
    destruct (memberships_changed s s1 w.2 X blob (grants_changed _ _ _ _ _ _ _ _ Hgranted) Hblob) as [_ Hall].
    destruct (Hall x Hx) as [Hold| ->]; [|apply joined_healed].
    apply healed_more; [by rewrite (iv_new _ _ _ _ Hinv)|]. destruct Hks as [_ Hks]. rewrite Forall_forall in Hks. by apply Hks.
  - intros e (id & rec & Hid & Ho)%joined_reads. eauto.
  - split; [simpl; split; [done|]; apply (vault_head_range s1), grants_inv, Hdb|].
    intros e [He _] Hle. apply list_elem_of_lookup in He as [i Hi]. pose proof (inv_seq _ Hdb i e Hi). simpl in Hle. lia.
Qed.
End delivery.

(** The first half of the new member's round: the keys arrive, the cursor goes
    back. *)
Lemma granted_heals s X k w rows m eph nonce' n : invited s X k w → X ≠ uuid_nil → keys_of k X ≠ [] →
  (∀ e, t_shares s !! (vault_b64 w.2, arr_bytes X) = Some e → e ≤ share_epoch k X) →
  granted (vault_b64 w.2) X (join_key_list (keys_of k X)) rows (t_members s) m →
  m !! (vault_b64 w.2, arr_bytes X, arr_bytes (ed25519_pub w.2)) =
    Some (wrap_vault_key eph nonce' (join_key_list (keys_of k X))
      (x_public (kr_x25519_secret (v_keyring w.2))) (arr_bytes (ed25519_pub w.2))) →
  ∃ nonce w1 n1, heals burns rng (grants s (vault_b64 w.2) X (share_epoch k X) m) w n w1 n1 true
    (joined X (keys_of k X) nonce w).
Proof.
  intros Hinv HX Hkeys Hep Hg Hm. set (s1 := grants s (vault_b64 w.2) X (share_epoch k X) m).
  destruct (memberships_changed s s1 w.2 X _ (grants_changed _ _ _ _ _ _ _ _ Hg) Hm) as [Hin Hall].
  pose proof (iv_ready _ _ _ _ Hinv) as [Hw Hurl Hclock Hmay [_ Hks] _ _]. rewrite Forall_forall in Hks.
  destruct (heal_gain w X (keys_of k X) eph nonce' (membership s1 (vault_b64 w.2) X
      (wrap_vault_key eph nonce' (join_key_list (keys_of k X)) (x_public (kr_x25519_secret (v_keyring w.2)))
        (arr_bytes (ed25519_pub w.2)))) s1 (memberships burns s1 w.2) Hw HX
      (more_keys_new _ _ _ (iv_new _ _ _ _ Hinv) Hkeys)) with (n := (2 + n)%nat) as (n1 & nonce & Hrun); [| done | done | ..].
  { by rewrite (iv_new _ _ _ _ Hinv). }
  { eapply (joined_healed s X k w m (e_nonce rng 0)); eassumption. }
  { intros y Hy. destruct (Hall y Hy) as [Hold| ->]; [left; by apply Hks | by right]. }
  { exact Hin. }
  exists nonce, (with_share X (keys_of k X) nonce w), n1. split; try done.
  - rewrite (iv_new _ _ _ _ Hinv) in Hrun. rewrite (heal_named burns rng s1 w n); [exact Hrun | done | done |].
    exact (proj1 (rd_keys _ _ _ _ (iv_ready _ _ _ _ Hinv))).
  - apply (update_meta_eq (with_cursor 0) (with_share X (keys_of k X) nonce w)). apply (inv_meta _ Hw).
Qed.

Lemma held_keys k X : keyring_wf k → has_share k X = true →
  share_key_list k X = join_key_list (keys_of k X) ∧ keys_of k X ≠ [].
Proof.
  intros (_ & Hne & _) Hx. unfold has_share, share_key_list, keys_of in *.
  destruct (share k X) as [y|] eqn:E; [|done]. split; [done|].
  apply find_share_in in E as [Hin _]. rewrite Forall_forall in Hne. by apply Hne.
Qed.

(** What a round of the new member brings, from its point of view. *)
Lemma joined_exchange s X k w rows m key_list nonce s2 w' :
  db_inv s → invited s X k w → X ≠ uuid_nil → keys_of k X ≠ [] →
  granted (vault_b64 w.2) X key_list rows (t_members s) m →
  is_Some (m !! (vault_b64 w.2, arr_bytes X, arr_bytes (ed25519_pub w.2))) →
  exchanged (grants s (vault_b64 w.2) X (share_epoch k X) m) (joined X (keys_of k X) nonce w) s2 w' →
  readable w' ∧ (∀ f, f ∈ frames_of w → f ∈ frames_of w') ∧
  ∀ e, e ∈ t_entries s → in_share (vault_b64 w.2) X e → holds_entry w' e.
Proof.
  intros Hdb Hinv HX Hkeys Hg [blob Hm] Hex. set (s1 := grants _ _ _ _ _) in *. set (wp := joined _ _ _ _) in *.
  pose proof (ex_kept _ _ _ _ Hex) as Hk. pose proof (kept_keyring _ _ Hk) as Ek.
  destruct (ex_pulled _ _ _ _ Hex) as (got & Eg & Hgot). change (frames_of wp) with (frames_of w) in Eg.
  assert (Hold : ∀ f, f ∈ frames_of w → ∃ rec, open_entry (v_keyring w'.2) f.1 f.2 = Ok (Some rec)).
  { intros f Hf. destruct (iv_readable _ _ _ _ Hinv f Hf) as [rec Ho]. exists rec. rewrite Ek.
    eapply open_entry_more; [by eapply joined_trial | exact Ho]. }
  split_and!.
  - intros f Hf. rewrite Eg in Hf. apply elem_of_app in Hf as [Hf|Hf]; [by apply Hold|].
    destruct (Hgot f Hf) as (e & Hsee & Hid & Hb). pose proof Hsee as (He & Hv & Hvis).
    destruct (exchanged_entry s1 wp s2 w' e Hex He) as [He1|(_ & f' & Hf' & Hid' & Hb' & _)].
    + assert (Hr : reads (v_keyring wp.2) e).
      { eapply joined_reads; try done. split_and!; [exact He1 | exact Hv |].
        rewrite <- Hvis. symmetry. apply visible_tables, (ex_tables _ _ _ _ Hex). }
      destruct Hr as (id & rec & Hid' & Ho). exists rec. rewrite Ek, <- Hb.
      assert (f.1 = id) as -> by (apply arr_eq; congruence). done.
    + destruct (Hold f' Hf') as [rec Ho]. exists rec. rewrite <- Hb, Hb'.
      assert (f.1 = f'.1) as -> by (apply arr_eq; congruence). done.
  - intros f Hf. rewrite Eg. apply elem_of_app. by left.
  - intros e He [Hv Hs]. apply (ex_complete _ _ _ _ Hex). destruct (ex_stored _ _ _ _ Hex) as (new & En & _).
    split_and!; [rewrite En; apply elem_of_app; by left | exact Hv |].
    unfold visible. destruct (ex_tables _ _ _ _ Hex) as (_ & Tm & _). rewrite Tm, Hv, Hs.
    change (t_members s1) with m. change (ed25519_pub wp.2) with (ed25519_pub w.2). rewrite Hm. apply orb_true_r.
Qed.

(** C15: a grant delivers a share and its past.  A device that holds a share and
    is current on it grants it to the devices some codes name; among them is one
    of its vault that is in order but lacks the share.  The grant succeeds and
    leaves devices and entries as they are; and the next round of that device
    succeeds and leaves it with exactly the granter's keys of the share, its
    other keys and its log kept, and every entry of the share that the relay
    has, also those numbered below the cursor it had; it reads all of its log and
    is ready for the rounds to come. *)
Theorem share_grant_delivers X codes rows s wa wb r n n' :
  db_inv s → approved_device rng s wa.2 → vault_inv wa → X ≠ uuid_nil → has_share (v_keyring wa.2) X = true →
  (∀ e, t_shares s !! (vault_b64 wa.2, arr_bytes X) = Some e → e ≤ share_epoch (v_keyring wa.2) X) →
  names_devices s (vault_b64 wa.2) codes rows → Forall row_ok rows →
  vault_b64 wb.2 = vault_b64 wa.2 → invited s X (v_keyring wa.2) wb →
  (arr_bytes (ed25519_pub wb.2), r) ∈ rows → dr_x25519_pub r = arr_bytes (x_public (kr_x25519_secret (v_keyring wb.2))) →
  ∃ s1 k s2 wb' k' counts,
    share_add (RT := relay_transport burns) rng X codes (mkClient s wa n) = (mkClient s1 wa k, Ok tt) ∧
    t_devices s1 = t_devices s ∧ t_entries s1 = t_entries s ∧
    relay_sync burns rng (mkClient s1 wb n') = (mkClient s2 wb' k', Ok counts) ∧
    (log_small wb'.1 → t_sequence s2 ≤ i64_max →
     vault_inv wb' ∧ keys_of (v_keyring wb'.2) X = keys_of (v_keyring wa.2) X ∧
     (∀ Y, Y ≠ X → share (v_keyring wb'.2) Y = share (v_keyring wb.2) Y) ∧
     db_inv s2 ∧ ready burns rng s2 wb' ∧ readable wb' ∧ (∀ f, f ∈ frames_of wb → f ∈ frames_of wb') ∧
     ∀ e, e ∈ t_entries s → in_share (vault_b64 wb.2) X e → holds_entry wb' e).
Proof.
  intros Hdb Hap Hwa HX Hh Hep Hn Hok Hv Hinv Hin Hpub.
  destruct (held_keys _ _ (inv_keyring _ Hwa) Hh) as [Hlist Hkeys].
  destruct (share_add_run s wa n X codes rows Hap Hh Hn Hok) as (m & k & Hadd & Hg).
  rewrite Hlist, <- Hv in Hg. rewrite <- Hv in Hadd, Hep.
  destruct (proj1 Hg _ _ Hin) as (eph & nonce' & x & Hx & Hm).
  assert (x = x_public (kr_x25519_secret (v_keyring wb.2))) as -> by (apply arr_eq; congruence).
  destruct (granted_heals s X _ wb rows m eph nonce' n' Hinv HX Hkeys Hep Hg Hm) as (nonce & w1 & n1 & Hheals).
  assert (Hready : ready burns rng (grants s (vault_b64 wb.2) X (share_epoch (v_keyring wa.2) X) m)
    (joined X (keys_of (v_keyring wa.2) X) nonce wb)) by by eapply joined_ready.
  destruct (round_healed burns rng _ wb n' w1 n1 true _ (grants_inv s _ X _ m Hdb) Hheals Hready)
    as (s2 & wb' & k' & st & pl & Hrun & Hex).
  eexists _, k, s2, wb', k', (st, pl). split; [exact Hadd|]. split_and!; try done. intros Hs Hq.
  specialize (Hex Hs Hq). pose proof (ex_kept _ _ _ _ Hex) as Hk.
  split; [apply Hk|]. rewrite (kept_keyring _ _ Hk). split; [apply joined_keys_of|]. split.
  - intros Y HY. rewrite joined_keys. by apply decide_False.
  - split; [apply Hex|]. split; [by eapply ready_after|]. by eapply joined_exchange.
Qed.
End shares.
