(* ===== verification/Joining.v ===== *)
(** * Joining: a new machine enrolls, is approved, and catches up

    [enroll_and_wait] of [Device.v] on an empty directory, the relay that serves
    it, and the machine on which somebody types the code it shows; then the
    first round of the new device. *)

From Stdlib Require Import ZArith Lia Ascii String.
From S2P Require Import Prelude Text Record Merge Extern Crypto Log Keyring Validate Vault Crud Lifecycle VaultInv CrudFacts VaultProps KeyGrowth Proto RelayDb Relay RelayFacts RelayProps Sync SyncFacts SyncRound Device DeviceProps Shares.

#[local] Open Scope string_scope.
#[local] Open Scope list_scope.
#[local] Open Scope Z_scope.

Section joining.
Context `{AeadLaws} `{!AeadCommit} `{MsgPackLaws Keyring} `{MsgPackLaws Rec}.
Context `{MsgPackLaws Snapshot} `{JsonTextLaws Meta} `{HashOrderLaws}.
Context `{Ed25519Laws} `{Base64Laws} `{X25519Laws} `{Argon2} `{Hkdf} `{Bip39}.
Context `{JsonTextLaws EnrollReq} `{JsonTextLaws ApproveReq} `{JsonTextLaws RevokeReq} `{JsonTextLaws RotateReq}.
Context `{JsonTextLaws ShareGrantReq} `{JsonTextLaws ShareRotateReq} `{JsonTextLaws PushReq}.
Context (burns : bool) (rng : Entropy).

Abbreviation relay_send := (send (Transport := relay_transport burns)).

(** ** The enrollment *)

(** The row of a device that joins a vault. *)
Definition pending_row (x : PubKey) (name : string) : DeviceRow := mkDeviceRow (arr_bytes x) name false false None.

(** The relay once it has stored it. *)
Definition with_pending (v : string) (p x : PubKey) (name : string) (s : Relay) : Relay :=
  set_devices (<[(v, arr_bytes p) := pending_row x name]> (t_devices s)) s.

Lemma enroll_send s v ts row name (x rp : PubKey) :
  outside_window (r_now s) ts = false → vault_lookup (vault_b64 v) (t_vaults s) = Some row →
  t_devices s !! (vault_b64 v, arr_bytes (ed25519_pub v)) = None →
  relay_send (ReqEnroll (sign v ts (json_to_string
    (mkEnrollReq name (device_b64 v) (b64_encode (arr_bytes x)) (b64_encode (arr_bytes rp)))))) s =
  (with_pending (vault_b64 v) (ed25519_pub v) x name s,
   Ok (RepEnroll (mkEnrollResp false (vault_head (vault_b64 v) (t_entries s))))).
Proof.
  intros Hts Hrow Hnone. unfold send, relay_transport. cbn [handler]. rewrite reply_run.
  unfold Relay.enroll. rewrite run_hbind, verify_run, authenticate_signed by done.
  change (sg_body (sign _ _ ?b)) with b. rewrite json_body_run, json_round. cbn [enroll_ed25519_b64].
  change (sg_device_b64 (sign v ts _)) with (device_b64 v). rewrite bool_decide_true by done.
  rewrite run_hbind. cbn [device_row run_prog exec_stmt hret]. rewrite Hnone. cbn [negb].
  cbn [enroll_x25519_b64 enroll_recovery_b64 enroll_name].
  rewrite b64_bytes_run, b64_round, b64_bytes_run, b64_round. cbn [run_prog exec_stmt]. rewrite Hrow, Hnone.
  rewrite run_hbind. reflexivity.
Qed.

(** ** The wait *)

(** A relay on which the device [p] waits for the owner of [wa] to type its
    code. *)
Record awaits (wa : World) (p x : PubKey) (name typed : string) (s : Relay) : Prop := {
  aw_inv : db_inv s;
  aw_clock : ∀ k, outside_window (r_now s) (e_now rng k) = false;
  aw_approver : may_sync s (vault_b64 wa.2) (ed25519_pub wa.2) = true;
  aw_epoch : epoch_current s wa.2;
  aw_names : names_device s (vault_b64 wa.2) typed (arr_bytes p) (pending_row x name);
  aw_outsider : ∀ X, t_members s !! (vault_b64 wa.2, X, arr_bytes p) = None;
  aw_sealed : ∀ e, e ∈ t_entries s → in_share (vault_b64 wa.2) NIL e → sealed_for (v_keyring wa.2) NIL e
}.

(** What others do before a poll, while the device still waits. *)
Definition patient (wa : World) (p x : PubKey) (name typed : string) (others : Relay → Relay) : Prop :=
  ∀ s, awaits wa p x name typed s → awaits wa p x name typed (others s).

(** The relay after all of it. *)
Definition after (l : list (Relay → Relay)) (s : Relay) : Relay := foldl (λ s others, others s) s l.

Lemma after_awaits wa p x name typed l : ∀ s, Forall (patient wa p x name typed) l →
  awaits wa p x name typed s → awaits wa p x name typed (after l s).
Proof. induction l as [|f l IH]; intros s Hl Hs; [done|]. apply Forall_cons in Hl as [Hf Hl]. by apply IH; [|apply Hf]. Qed.

(** The vault of the new device while it waits. *)
Record provisional (wa wb : World) (p x : PubKey) : Prop := {
  pv_inv : vault_inv wb;
  pv_vault : vault_b64 wb.2 = vault_b64 wa.2;
  pv_pub : ed25519_pub wb.2 = p;
  pv_secret : x_public (kr_x25519_secret (v_keyring wb.2)) = x;
  pv_shares : ∀ X, X ≠ NIL → share (v_keyring wb.2) X = None;
  pv_url : is_Some (relay_url (v_meta wb.2));
  pv_cursor : sync_cursor (v_meta wb.2) = 0;
  pv_empty : f_log wb.1 = Some [] ∧ f_snapshot wb.1 = None
}.

Lemma awaits_waiting wa wb p x name typed s : awaits wa p x name typed s → provisional wa wb p x →
  waiting rng s wb (pending_row x name).
Proof. intros Ha [Hi Hv <- <- _ _ _ He]. split; try done; [rewrite Hv; apply (aw_names _ _ _ _ _ _ Ha) | apply Ha]. Qed.

Lemma wait_patiently wa wb p x name typed rest l : ∀ s n,
  provisional wa wb p x → awaits wa p x name typed s → Forall (patient wa p x name typed) l →
  ∃ n', wait_for_key (RT := relay_transport burns) rng (l ++ rest) (mkClient s wb n) =
        wait_for_key (RT := relay_transport burns) rng rest (mkClient (after l s) wb n').
Proof.
  induction l as [|f l IH]; intros s n Hp Ha Hl; [by exists n|]. apply Forall_cons in Hl as [Hf Hl].
  destruct (IH (f s) (S n) Hp (Hf s Ha) Hl) as [n' Hrun]. exists n'. change (after (f :: l) s) with (after l (f s)). rewrite <- Hrun.
  cbn [app wait_for_key]. unfold sbind at 1, sput. cbn [c_net c_world c_draws].
  unfold sbind at 1, from_sync at 1. by rewrite (poll_run burns rng _ _ _ _ (awaits_waiting _ _ _ _ _ _ _ (Hf s Ha) Hp)).
Qed.

(** Only what a poll finds matters. *)
Lemma wait_ext f g rest s w n : f s = g s →
  wait_for_key (RT := relay_transport burns) rng (f :: rest) (mkClient s w n) =
  wait_for_key (RT := relay_transport burns) rng (g :: rest) (mkClient s w n).
Proof. intros E. cbn [wait_for_key]. unfold sbind at 1 3, sput. cbn [c_net c_world c_draws]. by rewrite E. Qed.

(** [sshvault device approve] on the other machine. *)
Definition approves (typed : string) (wa : World) (n : nat) (s : Relay) : Relay :=
  c_net (exec (approve (RT := relay_transport burns) rng typed) (mkClient s wa n)).

Lemma approved_in_time wa wb p x name typed l rest s n m :
  vault_inv wa → provisional wa wb p x → awaits wa p x name typed s → Forall (patient wa p x name typed) l →
  let sk := after l s in let s' := approves typed wa m sk in
  ∃ k wb', wait_for_key (RT := relay_transport burns) rng (l ++ approves typed wa m :: rest) (mkClient s wb n) =
      (mkClient s' wb' k, Ok (Some tt)) ∧
    may_sync s' (vault_b64 wb.2) p = true ∧ t_entries s' = t_entries sk ∧ db_inv s' ∧ r_now s' = r_now sk ∧
    t_vaults s' = t_vaults sk ∧ t_members s' = t_members sk ∧
    vault_inv wb' ∧ keys_of (v_keyring wb'.2) NIL = keys_of (v_keyring wa.2) NIL ∧
    v_meta wb'.2 = v_meta wb.2 ∧ v_kek wb'.2 = v_kek wb.2 ∧ ed25519_pub wb'.2 = p ∧
    (∀ X, X ≠ NIL → share (v_keyring wb'.2) X = None) ∧ f_log wb'.1 = Some [].
Proof.
  intros Hwa Hp Ha Hl sk s'. pose proof (after_awaits _ _ _ _ _ _ _ Hl Ha) as Hk. fold sk in Hk.
  pose proof (awaits_waiting _ _ _ _ _ _ _ Hk Hp) as Hw.
  destruct (wait_patiently wa wb p x name typed (approves typed wa m :: rest) l s n Hp Ha Hl) as [n' Hrun].
  destruct Hp as [Hi Hv Hpub Hx Hsh Hurl Hcur He].
  destruct (approval_delivers_keys burns rng typed sk wa wb (pending_row x name) m n' rest)
    as (wrapped & k & m' & wb' & Happ & Hwait & R1 & R2 & R3 & R4 & R5 & R6 & R7); [| done | done | done | |].
  { split; apply Hk. }
  { rewrite Hpub. apply Hk. }
  assert (Es : s' = set_devices (<[(vault_b64 wb.2, arr_bytes (ed25519_pub wb.2)) :=
    approved_row (pending_row x name) wrapped]> (t_devices sk)) sk) by (unfold s', approves, exec; by rewrite Happ).
  rewrite <- Es in Hwait. exists m', wb'. rewrite Hrun, (wait_ext _ (λ _, s')) by done. rewrite <- Hpub, Es in *.
  split_and!; try done.
  - unfold may_sync. cbn [t_devices set_devices]. by rewrite lookup_insert_eq.
  - apply db_inv_devices; [apply Hk | done].
  - intros X HX. by rewrite R6, Hsh.
Qed.

(** ** Catching up *)

(** The new device once it has the vault's keys. *)
Record admitted (wa w : World) (p : PubKey) (s : Relay) : Prop := {
  ad_db : db_inv s;
  ad_inv : vault_inv w;
  ad_vault : vault_b64 w.2 = vault_b64 wa.2;
  ad_pub : ed25519_pub w.2 = p;
  ad_keys : keys_of (v_keyring w.2) NIL = keys_of (v_keyring wa.2) NIL;
  ad_shares : ∀ X, X ≠ NIL → share (v_keyring w.2) X = None;
  ad_url : is_Some (relay_url (v_meta w.2));
  ad_cursor : sync_cursor (v_meta w.2) = 0;
  ad_log : f_log w.1 = Some [];
  ad_clock : ∀ k, outside_window (r_now s) (e_now rng k) = false;
  ad_may : may_sync s (vault_b64 wa.2) p = true;
  ad_epoch : epoch_current s wa.2;
  ad_outsider : ∀ X, t_members s !! (vault_b64 wa.2, X, arr_bytes p) = None;
  ad_sealed : ∀ e, e ∈ t_entries s → in_share (vault_b64 wa.2) NIL e → sealed_for (v_keyring wa.2) NIL e
}.

Section admitted.
Context (wa w : World) (p : PubKey) (s : Relay).
Hypothesis Hwa : vault_inv wa.
Hypothesis Had : admitted wa w p s.

Lemma admitted_frames : frames_of w = [].
Proof. unfold frames_of. by rewrite (ad_log _ _ _ _ Had). Qed.

(** It sees the personal entries, and can read them. *)
Lemma admitted_sees e : may_see s w.2 e ↔ e ∈ t_entries s ∧ in_share (vault_b64 wa.2) NIL e.
Proof.
  destruct Had as [_ _ Hv Hp _ _ _ _ _ _ _ _ Hout _]. unfold may_see, in_share, visible. rewrite Hv, Hp. split.
  - intros (He & Hve & Hvis). split_and!; try done. apply orb_true_iff in Hvis as [Hs|Hs].
    + by apply bool_decide_eq_true_1 in Hs.
    + by rewrite Hve, Hout in Hs.
  - intros (He & Hve & Hs). split_and!; try done. by rewrite bool_decide_true.
Qed.

Lemma admitted_reads e : may_see s w.2 e → reads (v_keyring w.2) e.
Proof.
  intros [He Hin]%admitted_sees. eapply sealed_reads; [apply (inv_keyring _ (ad_inv _ _ _ _ Had)) | apply Had |].
  by apply (ad_sealed _ _ _ _ Had).
Qed.

Lemma admitted_trial : trial_keys (v_keyring w.2) ⊆ trial_keys (v_keyring wa.2).
Proof.
  intros key [X HX]%trial_keys_of; [|apply (inv_keyring _ (ad_inv _ _ _ _ Had))].
  destruct (decide (X = NIL)) as [->|Hne].
  - rewrite (ad_keys _ _ _ _ Had) in HX. eapply trial_keys_in; [apply (inv_keyring _ Hwa) | exact HX].
  - unfold keys_of in HX. rewrite (ad_shares _ _ _ _ Had X Hne) in HX. by apply not_elem_of_nil in HX.
Qed.

(** The relay holds the log of [wa], all of it personal, and nothing else. *)
Record mirrors (s : Relay) (wa : World) : Prop := {
  mi_pushed : ∀ f, f ∈ frames_of wa → has_entry (vault_b64 wa.2) (arr_bytes f.1) (t_entries s);
  mi_only : ∀ e, e ∈ t_entries s → en_vault e = vault_b64 wa.2 → en_share e = arr_bytes NIL ∧
    ∃ f, f ∈ frames_of wa ∧ en_id e = arr_bytes f.1 ∧ en_blob e = f.2;
  mi_ids : ∀ f g, f ∈ frames_of wa → g ∈ frames_of wa → f.1 = g.1 → f = g;
  mi_history : ∃ W, ∀ f r, f ∈ frames_of wa → open_entry (v_keyring wa.2) f.1 f.2 = Ok (Some r) → consistent W r
}.

Lemma admitted_ready : ready burns rng s w.
Proof.
  pose proof Had as [Hdb Hi Hv Hp Hk Hsh Hurl Hcur Hlog Hclock Hmay Hep Hout _]. split; try done.
  - by rewrite Hv, Hp.
  - split.
    + intros row. rewrite Hv. intros Hrow. unfold epoch.
      rewrite (share_epoch_same _ _ _ Hk) by apply (keys_of_nil_list _ (inv_keyring _ Hwa)). by apply Hep.
    + apply Forall_forall. intros m (X & blob & Hm & _)%memberships_elem. by rewrite Hv, Hp, Hout in Hm.
  - intros e (id & rec & Hid & Ho)%admitted_reads. eauto.
  - split; [rewrite Hcur; split; [done|]; by apply (vault_head_range s)|].
    intros e [He _] Hle. apply list_elem_of_lookup in He as [i Hi']. pose proof (inv_seq _ Hdb i e Hi'). lia.
Qed.

Section exchange.
Context (s2 : Relay) (w2 : World).
Hypothesis Hex : exchanged s w s2 w2.

Lemma newcomer_pushes_nothing : t_entries s2 = t_entries s.
Proof.
  destruct (ex_stored _ _ _ _ Hex) as (new & -> & _ & Hnone). rewrite Hnone; [apply app_nil_r|].
  rewrite admitted_frames. by intros f ?%not_elem_of_nil.
Qed.

Lemma newcomer_frames f : f ∈ frames_of w2 → ∃ e, may_see s w.2 e ∧ en_id e = arr_bytes f.1 ∧ en_blob e = f.2.
Proof.
  destruct (ex_pulled _ _ _ _ Hex) as (got & Eg & Hgot). rewrite Eg, admitted_frames. intros Hf.
  destruct (Hgot f Hf) as (e & (He & Hv & Hvis) & Hid). exists e. split; [|done].
  rewrite newcomer_pushes_nothing in He. split_and!; [done..|]. rewrite <- Hvis. symmetry. apply visible_tables, Hex.
Qed.

Lemma newcomer_holds e : e ∈ t_entries s → in_share (vault_b64 wa.2) NIL e → holds_entry w2 e.
Proof.
  intros He Hin. destruct (proj2 (admitted_sees e) (conj He Hin)) as (_ & Hv & Hvis).
  apply (ex_complete _ _ _ _ Hex). split_and!; [by rewrite newcomer_pushes_nothing | done |].
  rewrite <- Hvis. apply visible_tables, Hex.
Qed.

Lemma newcomer_readable : readable w2.
Proof.
  intros f (e & Hsee & Hid & Hb)%newcomer_frames. destruct (admitted_reads e Hsee) as (id & rec & Hid' & Ho).
  exists rec. rewrite (kept_keyring _ _ (ex_kept _ _ _ _ Hex)), <- Hb.
  by assert (f.1 = id) as -> by (apply arr_eq; congruence).
Qed.

Lemma newcomer_same_frames : mirrors s wa → ∀ f, f ∈ frames_of w2 ↔ f ∈ frames_of wa.
Proof.
  intros Hm. assert (Hsub : ∀ f, f ∈ frames_of w2 → f ∈ frames_of wa).
  { intros [i b] (e & (He & Hv & _) & Hid & Hb)%newcomer_frames. rewrite (ad_vault _ _ _ _ Had) in Hv.
    destruct (mi_only _ _ Hm e He Hv) as (_ & [j c] & Hg & Hid' & Hb'). simpl in *.
    by assert ((i, b) = (j, c)) as -> by (f_equal; [apply arr_eq; congruence | congruence]). }
  intros f. split; [apply Hsub|]. intros Hf. destruct (mi_pushed _ _ Hm f Hf) as (e & He & Hv & Hid).
  destruct (newcomer_holds e He) as (g & Hg & Hid'); [split; [done | by apply (mi_only _ _ Hm)]|].
  assert (f = g) as -> by (apply (mi_ids _ _ Hm); [done | by apply Hsub | apply arr_eq; congruence]). done.
Qed.

Lemma newcomer_same_state : mirrors s wa → v_state w2.2 = v_state wa.2.
Proof.
  intros Hm. pose proof (newcomer_same_frames Hm) as Hf. destruct (mi_history _ _ Hm) as [W HW].
  pose proof (ex_kept _ _ _ _ Hex) as Hk. pose proof (kept_keyring _ _ Hk) as Ek.
  assert (Ho : ∀ f, f ∈ frames_of w2 → open_entry (v_keyring w2.2) f.1 f.2 = open_entry (v_keyring wa.2) f.1 f.2).
  { intros f Hin. destruct (newcomer_readable f Hin) as [rec Hrec]. rewrite Hrec. symmetry. rewrite Ek in Hrec.
    by eapply open_entry_more; [apply admitted_trial|]. }
  destruct (inv_log _ (kept_inv _ _ Hk)) as [r2 [[f2 L2] ->]], (inv_log _ Hwa) as [ra [[fa La] ->]].
  rewrite <- (frames_of_holds _ _ _ L2) in L2. rewrite <- (frames_of_holds _ _ _ La) in La.
  destruct L2 as (_ & _ & _ & O2), La as (_ & _ & _ & Oa). symmetry. apply (merge_all_same_set W).
  - apply Forall_forall. intros r (f & Hin & Hop)%(open_entries_records _ _ _ _ Oa). by eapply HW.
  - intros r. rewrite (open_entries_records _ _ _ _ O2), (open_entries_records _ _ _ _ Oa).
    setoid_rewrite <- Hf. split; intros (f & Hin & Hop); exists f; (split; [done|]); [rewrite Ho | rewrite <- Ho]; done.
Qed.
End exchange.
End admitted.

(** ** The whole enrollment *)

Lemma enroll_run s w n row (rp : PubKey) :
  outside_window (r_now s) (e_now rng n) = false → vault_lookup (vault_b64 w.2) (t_vaults s) = Some row →
  t_devices s !! (vault_b64 w.2, arr_bytes (ed25519_pub w.2)) = None →
  x25519_pub_b64 (v_meta w.2) = b64_encode (arr_bytes (x_public (kr_x25519_secret (v_keyring w.2)))) →
  recovery_pub_b64 (v_meta w.2) = b64_encode (arr_bytes rp) →
  enroll (RT := relay_transport burns) rng (mkClient s w n) =
  (mkClient (with_pending (vault_b64 w.2) (ed25519_pub w.2) (x_public (kr_x25519_secret (v_keyring w.2)))
     (device_name (v_meta w.2)) s) w (S n), Ok false).
Proof.
  intros Hts Hrow Hnone Hx Hrp.
  unfold enroll, post, sbind, the_vault, sget, now_unix, fresh, http, sret. cbn [c_net c_world c_draws].
  by rewrite Hx, Hrp, (enroll_send s w.2 _ row).
Qed.

(** What [create] and [set_relay_url] leave is provisional. *)
Lemma created_provisional passphrase id key (rp : PubKey) device draw relay name wa w :
  session passphrase w → id = vault_id (v_meta wa.2) →
  v_meta w.2 = mkMeta id (in_device_id draw) name (mkKdfParams (b64_encode (arr_bytes (in_salt draw))) ARGON2_M_KIB ARGON2_T ARGON2_P)
      (b64_encode (arr_bytes (x_public (x25519 device)))) (b64_encode (arr_bytes (ed_public (ed25519 device))))
      (b64_encode (arr_bytes rp)) 0 (Some relay) 0 →
  v_keyring w.2 = mkKeyring [mkShareKeys NIL [key]] [] None (x25519 device) (ed25519 device) →
  f_log w.1 = Some [] → f_snapshot w.1 = None →
  provisional wa w (ed_public (ed25519 device)) (x_public (x25519 device)).
Proof.
  intros [Hi _] -> Hm Hk Hl Hs. split; try done.
  - unfold vault_b64. by rewrite Hm.
  - unfold ed25519_pub. by rewrite Hk.
  - by rewrite Hk.
  - intros X HX. rewrite Hk. unfold share. simpl. by rewrite decide_False.
  - by rewrite Hm.
  - by rewrite Hm.
Qed.

Lemma enroll_and_wait_run name passphrase id key x e draw relay on_pending between d s d1 v w s1 n s2 w' k :
  create name passphrase id key zeros x e draw d = (d1, Ok v) → set_relay_url relay (d1, v) = (w, Ok tt) →
  enroll (RT := relay_transport burns) rng (mkClient s w 0) = (mkClient s1 w n, Ok false) →
  wait_for_key (RT := relay_transport burns) rng between
    (mkClient (on_pending (short_code (ed25519_pub_b64 (v_meta w.2))) s1) w n) = (mkClient s2 w' k, Ok (Some tt)) →
  enroll_and_wait (RT := relay_transport burns) rng name passphrase id key x e draw relay on_pending between d s =
  (s2, w'.1, Ok (Some w'.2)).
Proof.
  intros Hc Hurl Hen Hwait. unfold enroll_and_wait. rewrite Hc. unfold join. unfold sbind at 1, from_vault at 1.
  cbn [c_world c_net c_draws]. rewrite Hurl. cbn [res_map_err c_net c_draws].
  unfold sbind at 1, from_sync at 1. rewrite Hen. cbn [res_map_err].
  unfold sbind at 1, the_vault at 1, sget at 1. cbn [c_world].
  unfold sbind at 1, sput at 1. cbn [c_net c_world c_draws]. by rewrite Hwait.
Qed.

(** C14: a new device catches up.  A machine with an empty directory enrolls with
    a relay that knows the vault but not the machine, and waits; whatever others
    do meanwhile, as long as it stays the one waiting device its code names,
    the owner of an approved device types the code that was shown.  Then the
    enrollment ends with a sound vault of the new passphrase, under the vault's
    id, that holds exactly the approver's vault keys; and its first round
    succeeds, pushes nothing, and brings every personal entry of the relay,
    all of them readable.  If these are the approver's log, the two devices are
    in the same state. *)
Theorem new_device_catches_up name passphrase key x e draw relay on_pending typed idle rest d s kek row wa m :
  let device := new_device_keys x e in
  let p := ed_public (ed25519 device) in
  let xp := x_public (x25519 device) in
  let v := vault_b64 wa.2 in
  let meanwhile := on_pending (short_code (b64_encode (arr_bytes p))) :: idle in
  let s1 := with_pending v p xp name s in
  let s2 := approves typed wa m (after meanwhile s1) in
  derive_kek (as_bytes passphrase) (arr_bytes (in_salt draw)) ARGON2_M_KIB ARGON2_T ARGON2_P = Ok kek →
  f_meta d = None → f_snapshot d = None →
  vault_inv wa → vault_lookup v (t_vaults s) = Some row → t_devices s !! (v, arr_bytes p) = None →
  awaits wa p xp name typed s1 → Forall (patient wa p xp name typed) meanwhile →
  ∃ w, enroll_and_wait (RT := relay_transport burns) rng name passphrase (vault_id (v_meta wa.2)) key x e draw relay
      on_pending (idle ++ approves typed wa m :: rest) d s = (s2, w.1, Ok (Some w.2)) ∧
    session passphrase w ∧ vault_id (v_meta w.2) = vault_id (v_meta wa.2) ∧ ed25519_pub w.2 = p ∧
    keys_of (v_keyring w.2) NIL = keys_of (v_keyring wa.2) NIL ∧
    t_entries s2 = t_entries (after meanwhile s1) ∧ ready burns rng s2 w ∧
    ∀ n, ∃ s3 w' k counts, relay_sync burns rng (mkClient s2 w n) = (mkClient s3 w' k, Ok counts) ∧
      (log_small w'.1 → t_sequence s3 ≤ i64_max →
       t_entries s3 = t_entries s2 ∧ readable w' ∧
       (∀ en, en ∈ t_entries s2 → in_share v NIL en → holds_entry w' en) ∧
       (mirrors s2 wa → v_state w'.2 = v_state wa.2)).
Proof.
  intros device p xp v meanwhile s1 s2 Hkek Hfresh Hsnap Hwa Hrow Hnone Haw Hpat.
  destruct (create_fresh name passphrase (vault_id (v_meta wa.2)) key zeros device draw relay d kek)
    as (d1 & v1 & wb & Hc & Hurl & Hses & Hmeta & Hkr & _ & Hlog & Hsn); [done..|].
  pose proof (created_provisional _ _ _ _ _ _ _ _ wa _ Hses eq_refl Hmeta Hkr Hlog Hsn) as Hp.
  assert (Hen : enroll (RT := relay_transport burns) rng (mkClient s wb 0) = (mkClient s1 wb 1, Ok false)).
  { rewrite (enroll_run s wb 0 row zeros); [|apply Haw | | | by rewrite Hmeta, Hkr | by rewrite Hmeta].
    - by rewrite (pv_vault _ _ _ _ Hp), (pv_pub _ _ _ _ Hp), (pv_secret _ _ _ _ Hp), Hmeta.
    - by rewrite (pv_vault _ _ _ _ Hp).
    - by rewrite (pv_vault _ _ _ _ Hp), (pv_pub _ _ _ _ Hp). }
  apply Forall_cons in Hpat as [Hshow Hidle].
  destruct (approved_in_time wa wb p xp name typed idle rest (on_pending (short_code (b64_encode (arr_bytes p))) s1) 1 m)
    as (k & w & Hwait & Hmay & En & Hdb & Hnow & Htv & Htm & Hi & Hkeys & Hm & Hkk & Hpub & Hsh & Hl); [done.. | by apply Hshow | done |].
  change (approves typed wa m (after idle _)) with s2 in *. change (after idle _) with (after meanwhile s1) in *.
  pose proof (after_awaits _ _ _ _ _ meanwhile s1 (Forall_cons_2 _ _ _ Hshow Hidle) Haw) as Hk.
  assert (Hvw : vault_b64 w.2 = v) by (unfold vault_b64; by rewrite Hm, Hmeta).
  assert (Had : admitted wa w p s2).
  { split; try done; try (by rewrite Hm, Hmeta).
    - intros j. rewrite Hnow. apply Hk.
    - by rewrite <- (pv_vault _ _ _ _ Hp).
    - intros r. rewrite Htv. apply Hk.
    - intros X. rewrite Htm. apply Hk.
    - intros en. rewrite En. apply Hk. }
  pose proof (admitted_ready _ _ _ _ Hwa Had) as Hready. exists w. split_and!; try done.
  - apply (enroll_and_wait_run _ _ _ _ _ _ _ _ _ _ _ _ _ _ _ _ _ _ _ k Hc Hurl Hen). rewrite Hmeta. exact Hwait.
  - split; [done|]. rewrite Hm, Hkk. apply Hses.
  - by rewrite Hm, Hmeta.
  - intros n. destruct (round_ok burns rng s2 w n Hdb Hready) as (s3 & w' & k' & st & pl & Hrun & Hex).
    exists s3, w', k', (st, pl). split; [exact Hrun|]. intros Hs Hq. specialize (Hex Hs Hq).
    split_and!; [by eapply newcomer_pushes_nothing | by eapply newcomer_readable | |].
    + intros en He Hin. by eapply newcomer_holds.
    + by eapply newcomer_same_state.
Qed.
End joining.
