(* ===== verification/Recovery.v ===== *)
(** * Recovery: a vault comes back from its phrase

    [recover] of [Device.v] on an empty disk, and the first round of the machine:
    what the phrase brings back of a vault whose key was never rotated.  After a
    rotation it is less ([RecoverySamples.v]). *)

From Stdlib Require Import ZArith Lia Ascii String.
From S2P Require Import Prelude Text Record Merge Extern Crypto Log Keyring Validate Vault Crud Lifecycle VaultInv CrudFacts VaultProps KeyGrowth Proto RelayDb Relay RelayFacts RelayProps Sync SyncFacts SyncRound Device DeviceProps Shares Joining.

#[local] Open Scope string_scope.
#[local] Open Scope list_scope.
#[local] Open Scope Z_scope.

Section recovery.
Context `{AeadLaws} `{!AeadCommit} `{MsgPackLaws Keyring} `{MsgPackLaws Rec}.
Context `{MsgPackLaws Snapshot} `{JsonTextLaws Meta} `{HashOrderLaws}.
Context `{Ed25519Laws} `{Base64Laws} `{X25519Laws} `{Argon2} `{Hkdf} `{Bip39}.
Context `{JsonTextLaws EnrollReq} `{JsonTextLaws ApproveReq} `{JsonTextLaws RevokeReq} `{JsonTextLaws RotateReq}.
Context `{JsonTextLaws ShareGrantReq} `{JsonTextLaws ShareRotateReq} `{JsonTextLaws PushReq}.
Context (burns : bool) (rng : Entropy).

(** A vault on the relay whose key was never rotated: the phrase names it, its
    epoch is 0 there, the one key of its owner is that of the phrase, and what
    the relay stores of its personal share was sealed with it. *)
Record unrotated (wa : World) (keys : PhraseKeys) (s : Relay) : Prop := {
  ur_db : db_inv s;
  ur_known : (exec_stmt burns (SSelectVault (arr_bytes (ed_public (recovery_signing keys)))) s).2 = Some (vault_b64 wa.2);
  ur_epoch : ∀ row, vault_lookup (vault_b64 wa.2) (t_vaults s) = Some row → vr_epoch row = 0;
  ur_keys : keys_of (v_keyring wa.2) NIL = [vault_key keys];
  ur_sealed : ∀ e, e ∈ t_entries s → in_share (vault_b64 wa.2) NIL e → sealed_for (v_keyring wa.2) NIL e
}.

(** C34: the phrase brings a vault back.  For a vault whose key was never rotated,
    recovery on an empty disk with a device key the relay has in no share
    succeeds: the device is approved, no other row and no entry changes, and the
    machine has an empty, sound vault under the vault's id, opened by the new
    passphrase, whose one key is every epoch the vault has.  Its first round
    succeeds, pushes nothing and brings every personal entry the relay has, all
    of them readable; and if these are the log of another device, the two are in
    the same state. *)
Theorem recovery_restores_unrotated_vault name passphrase phrase device draw relay d s wa keys kek :
  let p := ed_public (ed25519 device) in
  let v := vault_b64 wa.2 in
  keys_from_phrase phrase = Ok keys →
  derive_kek (as_bytes passphrase) (arr_bytes (in_salt draw)) ARGON2_M_KIB ARGON2_T ARGON2_P = Ok kek →
  f_meta d = None → f_snapshot d = None →
  vault_inv wa → unrotated wa keys s →
  (∀ k, outside_window (r_now s) (e_now rng k) = false) → (∀ X, t_members s !! (v, X, arr_bytes p) = None) →
  ∃ s' w, recover (RT := relay_transport burns) name passphrase phrase device draw relay d s = (s', w.1, Ok w.2) ∧
    session passphrase w ∧ vault_id (v_meta w.2) = vault_id (v_meta wa.2) ∧ ed25519_pub w.2 = p ∧ v_state w.2 = ∅ ∧
    keys_of (v_keyring w.2) NIL = keys_of (v_keyring wa.2) NIL ∧
    may_sync s' v p = true ∧ t_entries s' = t_entries s ∧
    (∀ k, k ≠ (v, arr_bytes p) → t_devices s' !! k = t_devices s !! k) ∧
    ∀ n, ∃ s2 w' k counts, relay_sync burns rng (mkClient s' w n) = (mkClient s2 w' k, Ok counts) ∧
      (log_small w'.1 → t_sequence s2 ≤ i64_max →
       session passphrase w' ∧ t_entries s2 = t_entries s ∧ readable w' ∧
       (∀ e, e ∈ t_entries s → in_share v NIL e → holds_entry w' e) ∧
       (mirrors s wa → v_state w'.2 = v_state wa.2)).
Proof.
  intros p v Hkeys Hkek Hfresh Hsnap Hwa Hur Hclock Hout.
  destruct (recover_run burns name passphrase phrase device draw relay d s keys kek (vault_id (v_meta wa.2)))
    as (w & Hrun & Hses & Hid & Hurl & Hcur & Hkr & Hst & Hlog); [done..| apply Hur |].
  set (s' := set_devices _ s) in Hrun. exists s', w.
  assert (Hvb : vault_b64 w.2 = v) by (unfold vault_b64; by rewrite Hid).
  assert (Hpub : ed25519_pub w.2 = p) by (unfold ed25519_pub; by rewrite Hkr).
  assert (Hk : keys_of (v_keyring w.2) NIL = keys_of (v_keyring wa.2) NIL) by (rewrite Hkr, (ur_keys _ _ _ Hur); done).
  assert (Hmay : may_sync s' v p = true).
  { unfold may_sync, s'. simpl. rewrite lookup_insert_eq. by destruct (t_devices s !! _). }
  assert (Had : admitted rng wa w p s').
  { split; try done; [ | apply Hses | | | apply Hur].
    - apply db_inv_devices; [apply Hur|]. by destruct (t_devices s !! _).
    - intros X HX. rewrite Hkr. unfold share. simpl. by rewrite decide_False.
    - intros row Hrow. rewrite (ur_epoch _ _ _ Hur row Hrow). apply share_epoch_nonneg. }
  split_and!; try done.
  - intros k' Hne. simpl. by rewrite lookup_insert_ne.
  - intros n. pose proof (admitted_ready burns _ _ _ _ _ Hwa Had) as Hready.
    destruct (round_ok burns rng s' w n (ad_db _ _ _ _ _ Had) Hready) as (s2 & w' & k & st & pl & Hround & Hex).
    exists s2, w', k, (st, pl). split; [exact Hround|]. intros Hs Hq. specialize (Hex Hs Hq).
    split; [exact (session_kept _ _ _ Hses (ex_kept _ _ _ _ Hex))|].
    split; [exact (newcomer_pushes_nothing _ _ _ _ _ Had _ _ Hex)|]. split; [exact (newcomer_readable _ _ _ _ _ Had _ _ Hex)|]. split.
    + intros e He Hin. exact (newcomer_holds _ _ _ _ _ Had _ _ Hex e He Hin).
    + intros [M1 M2 M3 M4]. by apply (newcomer_same_state _ _ _ _ _ Hwa Had _ _ Hex).
Qed.
End recovery.
