(* ===== verification/DeviceSamples.v ===== *)
(** * DeviceSamples: the device lifecycle at the sample vault

    The laptop and the phone of [SyncSamples.v]: the laptop approves the phone,
    or revokes it and rotates; and a machine recovers a vault from its phrase. *)

From Stdlib Require Import ZArith Lia String.
From S2P Require Import Prelude Text Record Merge Extern Crypto Log Keyring Validate Vault Crud Lifecycle VaultInv CrudFacts VaultProps VaultSamples Proto RelayDb Relay RelayFacts RelayProps RelaySamples Sync SyncFacts SyncRound SyncProps SyncSamples Device DeviceProps.
Import Toy SampleVault SampleSync.

#[local] Open Scope string_scope.
#[local] Open Scope list_scope.
#[local] Open Scope Z_scope.

Module SampleDevices.
Definition pending : Relay := enrolled phone (enrolled laptop (empty_relay now0)).
Definition phone_pub : bytes := arr_bytes (ed25519_pub phone.2).
Definition phone_code : string := short_code (device_b64 phone.2).
Definition phone_row (approved : bool) (wrapped : option bytes) : DeviceRow :=
  mkDeviceRow (arr_bytes (x_public (b32 14))) "phone" approved false wrapped.
Definition laptop_row : DeviceRow :=
  mkDeviceRow (arr_bytes (x_public (b32 4))) "laptop" true false None.
Definition phrase : string := "abandon".
End SampleDevices.
Import SampleDevices.

(** The two devices are all the relay lists. *)
Definition sample_rows (r : DeviceRow) : list (bytes * DeviceRow) := [(arr_bytes (b32 5), laptop_row); (phone_pub, r)].
Lemma rows_pending : device_rows false pending (vault_b64 laptop.2) = sample_rows (phone_row false None).
Proof. vm_compute. reflexivity. Qed.
Lemma rows_approved :
  device_rows false approved (vault_b64 laptop.2) = sample_rows (phone_row true (Some (as_bytes "wrapped"))).
Proof. vm_compute. reflexivity. Qed.

Lemma sample_rows_in s r q x : device_rows false s (vault_b64 laptop.2) = sample_rows r →
  t_devices s !! (vault_b64 laptop.2, q) = Some x → (q, x) = (arr_bytes (b32 5), laptop_row) ∨ (q, x) = (phone_pub, r).
Proof.
  intros Hs Hx. apply (device_rows_elem false) in Hx. rewrite Hs in Hx. unfold sample_rows in Hx.
  apply elem_of_cons in Hx as [Hx|Hx]; [by left|]. apply list_elem_of_singleton in Hx. by right.
Qed.

Lemma codes_differ : bool_decide (short_code (b64_encode (arr_bytes (b32 5))) = to_ascii_lowercase phone_code) = false.
Proof. vm_compute. reflexivity. Qed.

Lemma sample_names s r : device_rows false s (vault_b64 laptop.2) = sample_rows r →
  names_device s (vault_b64 laptop.2) phone_code phone_pub r.
Proof.
  intros Hs. split; [|split].
  - apply (device_rows_elem false). rewrite Hs. apply list_elem_of_further, list_elem_of_here.
  - vm_compute. reflexivity.
  - intros q x Hx Hc. destruct (sample_rows_in s r q x Hs Hx) as [[= -> ->]|[= -> ->]]; [|exact eq_refl].
    destruct (bool_decide_eq_false_1 _ codes_differ Hc).
Qed.

Lemma phone_waiting : waiting rng pending phone (phone_row false None).
Proof.
  split.
  - vm_compute. reflexivity.
  - vm_compute. reflexivity.
  - reflexivity.
  - intros k. vm_compute. reflexivity.
  - exact phone_inv.
  - split; vm_compute; reflexivity.
Qed.

Lemma same_vault : vault_b64 phone.2 = vault_b64 laptop.2.
Proof. vm_compute. reflexivity. Qed.
Lemma laptop_approved s : may_sync s (vault_b64 laptop.2) (ed25519_pub laptop.2) = true → r_now s = now0 →
  approved_device rng s laptop.2.
Proof. intros Hm Hn. split; [|exact Hm]. intros k. rewrite Hn. vm_compute. reflexivity. Qed.

Lemma rotation_rekeys_the_others_witness :
  ∃ s' wa' k, revoke_and_rotate (RT := relay_transport false) rng phone_code phrase (mkClient approved laptop 0) =
      (mkClient s' wa' k, Ok "phone") ∧
    dr_wrapped_key <$> t_devices s' !! (vault_b64 laptop.2, phone_pub) = Some None.
Proof.
  destruct (rotation_rekeys_the_others false rng phone_code phrase approved laptop 0 phone_pub
    (phone_row true (Some (as_bytes "wrapped"))) (hkdf32 (arr_bytes (fit 64 (as_bytes phrase))) (as_bytes (vault_key_info 1))))
    as (s' & wa' & k & Hrun & Htarget & _).
  - apply laptop_approved; vm_compute; reflexivity.
  - apply laptop_inv.
  - intros ts body. change (t_seen approved) with (∅ : gmap bytes Z). apply lookup_empty.
  - apply sample_names. exact rows_approved.
  - intros E. assert (Hb : bool_decide (phone_pub = arr_bytes (ed25519_pub laptop.2)) = false) by (vm_compute; reflexivity).
    apply bool_decide_eq_false_1 in Hb. destruct (Hb E).
  - vm_compute. reflexivity.
  - reflexivity.
  - vm_compute. reflexivity.
  - intros q x Hx.
    destruct (sample_rows_in approved _ q x rows_approved Hx) as [E|E]; apply pair_eq in E as [-> ->]; split;
      [exists (b32 5) | exists (x_public (b32 4)) | exists (ed25519_pub phone.2) | exists (x_public (b32 14))];
      reflexivity.
  - exists s', wa', k. split; [exact Hrun|]. rewrite Htarget. reflexivity.
Defined.
