(* ===== verification/ShareRemoval.v ===== *)
(** * ShareRemoval: removing a member of a share

    [share remove] of [Device.v] against the handlers of [Relay.v], followed by
    a round of a device that stays: the removed device is handed nothing of the
    share any more, and the others receive the keys minted for them. *)

From Stdlib Require Import ZArith Lia Ascii String.
From S2P Require Import Prelude Text Record Merge Extern Crypto Log Keyring Validate Vault Crud Lifecycle VaultInv CrudFacts VaultProps KeyGrowth Proto RelayDb Relay RelayFacts RelayProps Sync SyncFacts SyncRound Device DeviceProps Shares.

#[local] Open Scope string_scope.
#[local] Open Scope list_scope.
#[local] Open Scope Z_scope.

(** ** Codes *)

(** A code is its own lower case: it finds the device it was computed of. *)
Lemma lower_app a b : to_ascii_lowercase (a +:+ b) = to_ascii_lowercase a +:+ to_ascii_lowercase b.
Proof. induction a as [|c a IH]; [done|]. exact (f_equal (String (ascii_lower c)) IH). Qed.

Lemma lower_concat l : Forall (λ s, to_ascii_lowercase s = s) l →
  to_ascii_lowercase (String.concat "" l) = String.concat "" l.
Proof.
  induction 1 as [|s l Hs Hl IH]; [done|]. destruct l as [|t l]; [exact Hs|].
  change (String.concat "" (s :: t :: l)) with (s +:+ ("" +:+ String.concat "" (t :: l))).
  rewrite lower_app, Hs. f_equal. exact IH.
Qed.

Lemma lower_hex b : to_ascii_lowercase (hex_byte b) = hex_byte b.
Proof. by destruct b. Qed.

Lemma lower_code `{Base64} k : to_ascii_lowercase (short_code k) = short_code k.
Proof.
  apply lower_concat, Forall_forall. intros s [i Hi]%list_elem_of_lookup.
  rewrite list_lookup_imap in Hi. destruct (take 4 _ !! i) as [b|]; [|done]. injection Hi as <-.
  rewrite lower_app, lower_hex. by destruct (i =? 2)%nat.
Qed.

Section removal.
Context `{AeadLaws} `{!AeadCommit} `{MsgPackLaws Keyring} `{MsgPackLaws Rec}.
Context `{MsgPackLaws Snapshot} `{JsonTextLaws Meta} `{HashOrderLaws}.
Context `{Ed25519Laws} `{Base64Laws} `{X25519Laws} `{Argon2} `{Hkdf} `{Bip39}.
Context `{JsonTextLaws EnrollReq} `{JsonTextLaws ApproveReq} `{JsonTextLaws RevokeReq} `{JsonTextLaws RotateReq}.
Context `{JsonTextLaws ShareGrantReq} `{JsonTextLaws ShareRotateReq} `{JsonTextLaws PushReq}.
Context (burns : bool) (rng : Entropy).

Abbreviation relay_send := (send (Transport := relay_transport burns)).

(** No two devices of the vault share a code. *)
Definition codes_distinct (s : Relay) (v : string) : Prop :=
  ∀ p q r x, t_devices s !! (v, p) = Some r → t_devices s !! (v, q) = Some x →
    short_code (b64_encode p) = short_code (b64_encode q) → p = q.

Lemma own_code s v p r : codes_distinct s v → t_devices s !! (v, p) = Some r →
  names_device s v (short_code (b64_encode p)) p r.
Proof.
  intros Hd Hr. unfold names_device. rewrite lower_code. split_and!; try done.
  intros q x Hx Hc. by eapply Hd.
Qed.

(** The devices a removal rewraps for: approved, not revoked, not the one removed. *)
Definition keepers (s : Relay) (v : string) (p : bytes) : list (bytes * DeviceRow) :=
  filter (λ row : bytes * DeviceRow, dr_approved row.2 = true ∧ dr_revoked row.2 = false ∧ row.1 ≠ p) (device_rows burns s v).

Lemma keepers_elem s v p q r :
  (q, r) ∈ keepers s v p ↔ t_devices s !! (v, q) = Some r ∧ dr_approved r = true ∧ dr_revoked r = false ∧ q ≠ p.
Proof. unfold keepers. rewrite list_elem_of_filter, device_rows_elem. naive_solver. Qed.

Lemma keepers_functional s v p : ∀ q r x, (q, r) ∈ keepers s v p → (q, x) ∈ keepers s v p → r = x.
Proof. intros q r x [Hr _]%keepers_elem [Hx _]%keepers_elem. congruence. Qed.

Lemma b64_eq a b : b64_encode a = b64_encode b ↔ a = b.
Proof. split; [|by intros ->]. intros E%(f_equal b64_decode). rewrite !b64_round in E. by injection E. Qed.

Lemma share_members_run s w n : approved_device rng s w.2 →
  ∃ l, share_members (RT := relay_transport burns) rng (mkClient s w n) = (mkClient s w (S n), Ok l) ∧
    ∀ p, short_code <$> filter (λ k, k ≠ b64_encode p) l =
      (λ row : bytes * DeviceRow, short_code (b64_encode row.1)) <$> keepers s (vault_b64 w.2) p.
Proof.
  intros Hap. eexists. split.
  - unfold share_members, sbind. by rewrite list_devices_run.
  - intros p. unfold keepers. induction (device_rows burns s (vault_b64 w.2)) as [|[q r] l IH]; [done|].
    rewrite fmap_cons, !filter_cons. cbn [device_info di_approved di_revoked fst snd].
    destruct (decide (dr_approved r = true ∧ dr_revoked r = false)) as [Ha|Ha];
      [|rewrite decide_False by tauto; exact IH].
    rewrite fmap_cons, filter_cons. cbn [device_info di_ed25519_b64 fst].
    destruct (decide (q = p)) as [->|Hq].
    + rewrite decide_False by tauto. rewrite decide_False by tauto. exact IH.
    + rewrite decide_True by by rewrite b64_eq. rewrite decide_True by tauto. rewrite !fmap_cons. by f_equal.
Qed.

Lemma keepers_named s v p : codes_distinct s v →
  names_devices s v ((λ row : bytes * DeviceRow, short_code (b64_encode row.1)) <$> keepers s v p) (keepers s v p).
Proof.
  intros Hd. unfold names_devices. rewrite Forall2_fmap_l. apply Forall_Forall2_diag, Forall_forall.
  intros [q r] [Hr _]%keepers_elem. by apply own_code.
Qed.

(** ** The relay *)

(** What a rotation does to the rows of members: replaced where there is one. *)
Definition rekeyed_members (v : string) (X : Uuid) (key_list : bytes) (rows : list (bytes * DeviceRow))
    (m m' : gmap (string * bytes * bytes) bytes) : Prop :=
  (∀ p r, (p, r) ∈ rows → is_Some (m !! (v, arr_bytes X, p)) → ∃ eph nonce (x : PubKey), dr_x25519_pub r = arr_bytes x ∧
     m' !! (v, arr_bytes X, p) = Some (wrap_vault_key eph nonce key_list x p)) ∧
  (∀ k, is_Some (m' !! k) ↔ is_Some (m !! k)) ∧
  ∀ k, (∀ p, k = (v, arr_bytes X, p) → p ∉ rows.*1) → m' !! k = m !! k.

Lemma rewrap_member_rows v X key_list rows ws : Forall2 (wrapped_row key_list) rows ws →
  (∀ p r r', (p, r) ∈ rows → (p, r') ∈ rows → r = r') → ∀ s,
  ∃ m, run_prog burns (rewrap_members v (arr_bytes X) ws) s = (set_members m s, Ok tt) ∧
    rekeyed_members v X key_list rows (t_members s) m.
Proof.
  induction 1 as [|[p r] w rows ws (Hd & eph & nonce & x & Hx & Hb) Hall IH]; intros Hfun s.
  { exists (t_members s). split; [by destruct s|]. split; [by intros p r ?%not_elem_of_nil | done]. }
  simpl in Hd, Hb, Hx. set (blob := wrap_vault_key eph nonce key_list x p) in *. set (kp := (v, arr_bytes X, p)).
  set (m1 := match t_members s !! kp with Some _ => <[kp := blob]> (t_members s) | None => t_members s end).
  assert (Hm1 : ∀ k, is_Some (m1 !! k) ↔ is_Some (t_members s !! k)).
  { intros k. unfold m1. destruct (t_members s !! kp) eqn:E; [|done].
    destruct (decide (kp = k)) as [<-|]; [rewrite lookup_insert_eq, E; by split; eexists | by rewrite lookup_insert_ne]. }
  destruct (IH (λ q a b Ha Hb, Hfun q a b (list_elem_of_further _ _ _ Ha) (list_elem_of_further _ _ _ Hb))
    (set_members m1 s)) as (m & Hrun & Hnew & Hdom & Hsame).
  exists m. split; [|split; [|split]].
  - cbn [rewrap_members]. rewrite b64_bytes_run, Hd, b64_round, b64_bytes_run, Hb, b64_round.
    cbn [run_prog exec_stmt]. transitivity (run_prog burns (rewrap_members v (arr_bytes X) ws) (set_members m1 s));
      [|rewrite Hrun; by destruct s].
    unfold m1, kp. destruct (t_members s !! (v, arr_bytes X, p)); [done | by destruct s].
  - intros q y Hin Hq. destruct (decide (q ∈ rows.*1)) as [([q' y'] & -> & Hq')%list_elem_of_fmap|Hq'].
    + assert (y = y') as -> by (eapply Hfun; [exact Hin | by constructor]). apply Hnew; [done | by apply Hm1].
    + apply elem_of_cons in Hin as [[= -> ->]|Hin]; [|destruct Hq'; by apply (list_elem_of_fmap_2 fst rows (q, y))].
      exists eph, nonce, x. split; [done|]. rewrite Hsame by (intros p' [= <-]; exact Hq').
      destruct Hq as [old Hq]. fold kp in Hq |- *. simpl. unfold m1. rewrite Hq. apply lookup_insert_eq.
  - intros k. rewrite Hdom. apply Hm1.
  - intros k Hk. rewrite Hsame; [|intros q Hq; by apply (not_elem_of_cons rows.*1 q p), Hk].
    simpl. unfold m1. destruct (t_members s !! kp); [|done]. apply lookup_insert_ne. intros <-. apply (Hk p eq_refl). constructor.
Qed.

(** The relay after a removal. *)
Definition removes (s : Relay) (v : string) (X : Uuid) (epoch : Z) (seen : gmap bytes Z)
    (m : gmap (string * bytes * bytes) bytes) : Relay :=
  set_members m (set_shares (<[(v, arr_bytes X) := epoch]> (t_shares s)) (set_seen seen s)).

Lemma removes_inv s v X e seen m : db_inv s → db_inv (removes s v X e seen m).
Proof. by intros []. Qed.

Lemma share_rotate_send s v ts X e p key_list rows ws :
  outside_window (r_now s) ts = false → may_sync s (vault_b64 v) (ed25519_pub v) = true → unseen s v →
  t_shares s !! (vault_b64 v, arr_bytes X) = Some (e - 1) →
  Forall2 (wrapped_row key_list) rows ws → (∀ p r r', (p, r) ∈ rows → (p, r') ∈ rows → r = r') →
  ∃ seen m h st, relay_send (ReqShareRotate (sign v ts (json_to_string
      (mkShareRotateReq (b64_encode (arr_bytes X)) e ws [b64_encode p])))) s =
      (removes s (vault_b64 v) X e seen m, Ok (RepPush (mkPushResp h st))) ∧
    rekeyed_members (vault_b64 v) X key_list rows (delete (vault_b64 v, arr_bytes X, p) (t_members s)) m.
Proof.
  intros Hts Hm Hun He Hall Hfun.
  set (req := json_to_string (mkShareRotateReq (b64_encode (arr_bytes X)) e ws [b64_encode p])).
  destruct (mark_seen_fresh burns s v ts req Hun) as [seen Hseen].
  destruct (rewrap_member_rows (vault_b64 v) X key_list rows ws Hall Hfun
    (removes s (vault_b64 v) X e seen (delete (vault_b64 v, arr_bytes X, p) (t_members s)))) as (m & Hrun & Hk).
  eexists seen, m, _, 0. split; [|exact Hk].
  unfold send, relay_transport. cbn [handler]. rewrite reply_run.
  unfold share_rotate. rewrite gated_run, authenticate_signed by done. rewrite Hm, run_hbind, Hseen.
  change (sg_body (sign _ _ ?b)) with b. unfold req. rewrite json_body_run, json_round.
  cbn [sr_share_b64 sr_epoch sr_wrapped sr_remove]. unfold decode_share, hlift. rewrite run_hbind. simpl.
  rewrite b64_round. simpl. rewrite (proj2 (Nat.eqb_eq _ _)) by apply arr_length. cbn [ok_or run_prog exec_stmt t_shares set_seen].
  rewrite He, Z.eqb_refl. change (0 <? 1) with true. cbv iota. rewrite run_hbind. cbn [run_prog hret].
  rewrite run_hbind, b64_bytes_run, b64_round. cbn [run_prog exec_stmt hret].
  rewrite run_hbind.
  match goal with |- context [run_prog burns (rewrap_members _ _ _) ?x] =>
    change x with (removes s (vault_b64 v) X e seen (delete (vault_b64 v, arr_bytes X, p) (t_members s))) end.
  rewrite Hrun. reflexivity.
Qed.

(** ** The device that removes *)

(** A device that removes a member of a share it holds: nothing of its own in
    the replay cache, its epoch the relay's, room for one key more. *)
Record removing (s : Relay) (X : Uuid) (w : World) : Prop := {
  rm_approved : approved_device rng s w.2;
  rm_inv : vault_inv w;
  rm_unseen : unseen s w.2;
  rm_held : has_share (v_keyring w.2) X = true;
  rm_epoch : t_shares s !! (vault_b64 w.2, arr_bytes X) = Some (share_epoch (v_keyring w.2) X);
  rm_room : Z.of_nat (length (keys_of (v_keyring w.2) X)) ≤ u32_max;
  rm_codes : codes_distinct s (vault_b64 w.2);
  rm_rows : ∀ q x, t_devices s !! (vault_b64 w.2, q) = Some x → row_ok (q, x)
}.

Lemma epoch_next s X w key : removing s X w →
  share_epoch (push_share_key X key (v_keyring w.2)) X = share_epoch (v_keyring w.2) X + 1.
Proof.
  intros [_ Hw _ Hh _ Hroom _ _].
  destruct (push_share_key_appends (v_keyring w.2) X key (inv_keyring _ Hw) Hroom) as (_ & _ & _ & He & _). by rewrite He, Hh.
Qed.

Lemma share_remove_run s w n X code p r : removing s X w → names_device s (vault_b64 w.2) code p r →
  let keys := keys_of (v_keyring w.2) X ++ [e_key rng (S n)] in
  ∃ seen m k, share_remove (RT := relay_transport burns) rng X code (mkClient s w n) =
      (mkClient (removes s (vault_b64 w.2) X (share_epoch (v_keyring w.2) X + 1) seen m)
         (with_share X keys (e_nonce rng (S (S n))) w) k, Ok (dr_name r)) ∧
    rekeyed_members (vault_b64 w.2) X (join_key_list keys) (keepers s (vault_b64 w.2) p)
      (delete (vault_b64 w.2, arr_bytes X, p) (t_members s)) m.
Proof.
  intros Hrm Hn keys. pose proof Hrm as [Hap Hw Hun Hh Hep Hroom Hcodes Hrows].
  set (w' := with_share X keys (e_nonce rng (S (S n))) w).
  assert (Hap' : approved_device rng s w'.2) by exact Hap.
  destruct (share_members_run s w' (3 + n) Hap') as (l & Hlist & Hl).
  destruct (wrap_for_codes_run burns rng (share_key_list (v_keyring w'.2) X) s w' _ _ Hap' (keepers_named s _ p Hcodes)) with (n := (4 + n)%nat)
    as (k & ws & Hwrap & Hall).
  { apply Forall_forall. intros [q x] [Hq _]%keepers_elem. by apply Hrows. }
  assert (Hkl : share_key_list (v_keyring w'.2) X = join_key_list keys).
  { unfold share_key_list. unfold w', with_share. cbn [v_keyring with_keyring snd]. by rewrite share_set, decide_True. }
  destruct (share_rotate_send s w'.2 (e_now rng k) X (share_epoch (v_keyring w.2) X + 1) p
    (share_key_list (v_keyring w'.2) X) (keepers s (vault_b64 w.2) p) ws
    (proj1 Hap' _) (proj2 Hap') Hun) as (seen & m & h & st & Hsend & Hk); [|exact Hall | apply keepers_functional |].
  { change (t_shares s !! (vault_b64 w.2, arr_bytes X) = Some (share_epoch (v_keyring w.2) X + 1 - 1)).
    rewrite Hep. f_equal. lia. }
  pose proof (rotate_share_with w X (e_key rng (S n)) (e_nonce rng (S (S n))) Hh) as Hrot.
  rewrite (epoch_next s X w _ Hrm) in Hrot. change (with_share X _ _ _) with w' in Hrot.
  rewrite Hkl in Hk. exists seen, m, (S k). split; [|exact Hk].
  unfold share_remove. unfold sbind at 1, the_vault at 1, sget at 1. cbn [c_world].
  unfold sbind at 1, sguard at 1. rewrite Hh. unfold sret at 1.
  unfold sbind at 1. rewrite (find_by_code_run burns rng s w n code p r Hap Hn).
  unfold sbind at 1, fresh at 1. cbn [c_net c_world c_draws]. unfold sbind at 1, fresh at 1. cbn [c_net c_world c_draws].
  unfold sbind at 1, from_vault at 1. cbn [c_net c_world c_draws]. rewrite Hrot. cbn [res_map_err].
  unfold sbind at 1, the_vault at 1, sget at 1. cbn [c_world].
  unfold sbind at 1. change (S (S (S n))) with (3 + n)%nat. rewrite Hlist. cbn [di_ed25519_b64 device_info fst]. rewrite Hl.
  unfold sbind at 1. change (S (3 + n)) with (4 + n)%nat. change (vault_b64 w'.2) with (vault_b64 w.2) in Hwrap |- *. rewrite Hwrap.
  unfold sbind at 1. by rewrite (post_ok_run burns rng ReqShareRotate _ s w' k _ _ _ Hsend).
Qed.

(** ** A device that stays *)

(** Another member of the share, current on it and in order. *)
Record staying (s : Relay) (X : Uuid) (k : Keyring) (p : bytes) (w : World) (r : DeviceRow) : Prop := {
  sy_ready : ready burns rng s w;
  sy_held : has_share (v_keyring w.2) X = true;
  sy_keys : keys_of (v_keyring w.2) X = keys_of k X;
  sy_readable : readable w;
  sy_snapshot : snapshot_current w;
  sy_reads : ∀ e, may_see s w.2 e → reads (v_keyring w.2) e;
  sy_row : t_devices s !! (vault_b64 w.2, arr_bytes (ed25519_pub w.2)) = Some r;
  sy_pub : dr_x25519_pub r = arr_bytes (x_public (kr_x25519_secret (v_keyring w.2)));
  sy_member : is_Some (t_members s !! (vault_b64 w.2, arr_bytes X, arr_bytes (ed25519_pub w.2)));
  sy_other : arr_bytes (ed25519_pub w.2) ≠ p
}.

Lemma held_epoch k X : has_share k X = true →
  share_epoch k X = u32_wrap (Z.of_nat (length (keys_of k X)) - 1).
Proof. unfold has_share, share_epoch, keys_of. by destruct (share k X). Qed.

Section stay.
Context (s : Relay) (X : Uuid) (k : Keyring) (p : bytes) (w : World) (r : DeviceRow) (key : arr 32).
Context (seen : gmap bytes Z) (m : gmap (string * bytes * bytes) bytes) (nonce : Nonce).
Let keys : list (arr 32) := keys_of k X ++ [key].
Let s' : Relay := removes s (vault_b64 w.2) X (share_epoch k X + 1) seen m.
Let w' : World := with_share X keys nonce w.
Hypothesis Hdb : db_inv s.
Hypothesis Hst : staying s X k p w r.
Hypothesis HX : X ≠ uuid_nil.
Hypothesis Hheld : has_share k X = true.
Hypothesis Hroom : Z.of_nat (length (keys_of k X)) ≤ u32_max.
Hypothesis Hk : rekeyed_members (vault_b64 w.2) X (join_key_list keys) (keepers s (vault_b64 w.2) p)
  (delete (vault_b64 w.2, arr_bytes X, p) (t_members s)) m.

Lemma stay_more : more_keys (v_keyring w.2) X keys.
Proof. unfold keys. rewrite <- (sy_keys _ _ _ _ _ _ Hst). apply more_keys_snoc. Qed.

Lemma stay_keys Y : share (v_keyring w'.2) Y = if decide (X = Y) then Some (mkShareKeys Y keys) else share (v_keyring w.2) Y.
Proof. apply share_set. Qed.

Lemma stay_nonempty : (0 < length (keys_of k X))%nat.
Proof.
  pose proof (rd_inv _ _ _ _ (sy_ready _ _ _ _ _ _ Hst)) as Hw.
  destruct (held_keys _ _ (inv_keyring _ Hw) (sy_held _ _ _ _ _ _ Hst)) as [_ Hne].
  rewrite <- (sy_keys _ _ _ _ _ _ Hst). by apply Nat.neq_0_lt_0; rewrite length_zero_iff_nil.
Qed.

(** The epochs before and after. *)
Lemma stay_epochs : share_epoch (v_keyring w.2) X = share_epoch k X ∧
  share_epoch (v_keyring w'.2) X = share_epoch k X + 1 ∧ u32_wrap (share_epoch k X + 1) = share_epoch k X + 1.
Proof.
  pose proof stay_nonempty as Hne. pose proof Hroom as Hr. unfold u32_max in Hr.
  assert (E : share_epoch k X = Z.of_nat (length (keys_of k X)) - 1).
  { rewrite held_epoch by done. unfold u32_wrap. apply Z.mod_small. lia. }
  split_and!.
  - rewrite !held_epoch by (done || apply Hst). by rewrite (sy_keys _ _ _ _ _ _ Hst).
  - unfold share_epoch at 1. rewrite stay_keys, decide_True by done. simpl. unfold keys. rewrite length_app. simpl.
    rewrite E. unfold u32_wrap. rewrite Z.mod_small by lia. lia.
  - rewrite E. unfold u32_wrap. apply Z.mod_small. lia.
Qed.

Lemma stay_members Y : is_Some (t_members s' !! (vault_b64 w.2, Y, arr_bytes (ed25519_pub w.2))) ↔
  is_Some (t_members s !! (vault_b64 w.2, Y, arr_bytes (ed25519_pub w.2))).
Proof.
  destruct Hk as (_ & Hdom & _). change (t_members s') with m. rewrite Hdom.
  rewrite lookup_delete_ne; [done|]. intros E. apply (sy_other _ _ _ _ _ _ Hst). congruence.
Qed.

Lemma stay_sees e : may_see s' w.2 e → may_see s w.2 e.
Proof.
  intros (He & Hv & Hvis). split_and!; [done..|]. unfold visible in *. rewrite Hv in *.
  apply orb_true_iff in Hvis. apply orb_true_iff. destruct Hvis as [Hvis|Hvis]; [by left | right].
  pose proof (stay_members (en_share e)) as [Hm _].
  destruct (t_members s' !! _) eqn:E; [|done]. destruct Hm as [old ->]; [by eexists | done].
Qed.

(** What the relay now hands it of the share. *)
Lemma stay_blob : ∃ eph n, t_members s' !! (vault_b64 w.2, arr_bytes X, arr_bytes (ed25519_pub w.2)) =
  Some (wrap_vault_key eph n (join_key_list keys) (x_public (kr_x25519_secret (v_keyring w.2))) (arr_bytes (ed25519_pub w.2))).
Proof.
  destruct Hk as (Hnew & _ & _). pose proof Hst as [Hr _ _ _ _ _ Hrow Hpub Hmem Hne].
  pose proof (rd_auth _ _ _ _ Hr) as Ha. unfold may_sync in Ha. rewrite Hrow in Ha. apply andb_prop in Ha as [Ha Hrev].
  apply negb_true_iff in Hrev.
  destruct (Hnew (arr_bytes (ed25519_pub w.2)) r) as (eph & n & x & Hx & Hb).
  - by apply keepers_elem.
  - rewrite lookup_delete_ne; [done|]. intros E. apply Hne. congruence.
  - exists eph, n. change (t_members s') with m. rewrite Hb. do 2 f_equal. apply arr_eq. congruence.
Qed.

Lemma stay_changed Y : Y ≠ arr_bytes X →
  t_members s' !! (vault_b64 w.2, Y, arr_bytes (ed25519_pub w.2)) = t_members s !! (vault_b64 w.2, Y, arr_bytes (ed25519_pub w.2)) ∧
  t_shares s' !! (vault_b64 w.2, Y) = t_shares s !! (vault_b64 w.2, Y).
Proof.
  intros HY. destruct Hk as (_ & _ & Hsame). split.
  - change (t_members s') with m. rewrite Hsame by (intros q E; congruence). by rewrite lookup_delete_ne by congruence.
  - simpl. by rewrite lookup_insert_ne by congruence.
Qed.

Lemma stay_healed blob : healed_membership (v_keyring w'.2) (membership s' (vault_b64 w.2) X blob).
Proof.
  destruct stay_epochs as (_ & He & Hwrap). intros b Y Hb HY. simpl in Hb. rewrite b64_round in Hb. injection Hb as <-.
  rewrite try_into_bytes in HY. injection HY as <-. right. unfold membership. cbn [sm_epoch].
  change (t_shares s') with (<[(vault_b64 w.2, arr_bytes X) := share_epoch k X + 1]> (t_shares s)).
  rewrite lookup_insert_eq. change (default 0 (Some (share_epoch k X + 1))) with (share_epoch k X + 1). rewrite Hwrap, He. split; [|lia].
  unfold has_share. by rewrite stay_keys, decide_True.
Qed.

Lemma stay_grown x : healed_membership (v_keyring w.2) x → healed_membership (v_keyring w'.2) x.
Proof.
  apply healed_more. intros _. change (set_share_keys X keys (v_keyring w.2)) with (v_keyring w'.2).
  destruct stay_epochs as (-> & -> & _). lia.
Qed.

Lemma stay_inv : vault_inv w'.
Proof. apply with_share_inv; [apply (rd_inv _ _ _ _ (sy_ready _ _ _ _ _ _ Hst)) | apply Hst | apply Hst | apply stay_more]. Qed.

Lemma stay_ready : ready burns rng s' w'.
Proof.
  pose proof (sy_ready _ _ _ _ _ _ Hst) as [Hw Hurl Hclock Hm [Hep Hks] Hent [Hcur Hcaught]].
  rewrite Forall_forall in Hks. split; try done.
  - apply stay_inv.
  - split.
    + assert (E : share (v_keyring w'.2) NIL = share (v_keyring w.2) NIL) by (rewrite stay_keys; by apply decide_False).
      intros row Hrow. unfold epoch, share_epoch. rewrite E. by apply Hep.
    + destruct stay_blob as (eph & n & Hb).
      destruct (memberships_changed burns s s' w.2 X _ stay_changed Hb) as [_ Hall].
      apply Forall_forall. intros x Hx. destruct (Hall x Hx) as [Hold| ->]; [by apply stay_grown, Hks | apply stay_healed].
  - intros e He. assert (Hr : reads (v_keyring w'.2) e).
    { eapply reads_more; [|apply (sy_reads _ _ _ _ _ _ Hst), stay_sees, He].
      apply trial_keys_more; [apply (inv_keyring _ Hw) | apply stay_more]. }
    destruct Hr as (id & rec & Hid & Ho). eauto.
  - split; [exact Hcur|]. intros e He Hle. apply (Hcaught e); [by apply stay_sees | exact Hle].
Qed.
End stay.

Lemma stay_heals s X k p w r key seen m n : staying s X k p w r → X ≠ uuid_nil → has_share k X = true →
  Z.of_nat (length (keys_of k X)) ≤ u32_max →
  rekeyed_members (vault_b64 w.2) X (join_key_list (keys_of k X ++ [key])) (keepers s (vault_b64 w.2) p)
    (delete (vault_b64 w.2, arr_bytes X, p) (t_members s)) m →
  ∃ nonce n1, let w' := with_share X (keys_of k X ++ [key]) nonce w in
    heals burns rng (removes s (vault_b64 w.2) X (share_epoch k X + 1) seen m) w n w' n1 false w'.
Proof.
  intros Hst HX Hheld Hroom Hk. set (s' := removes s (vault_b64 w.2) X (share_epoch k X + 1) seen m).
  set (keys := keys_of k X ++ [key]) in *.
  pose proof (sy_ready _ _ _ _ _ _ Hst) as [Hw Hurl Hclock Hmay [Hep Hks] _ _]. rewrite Forall_forall in Hks.
  destruct (stay_epochs s X k p w r key (e_nonce rng 0) Hst Hheld Hroom) as (E1 & E2 & Ewrap). fold keys in E2.
  destruct (stay_blob s X k p w r key seen m Hst Hk) as (eph & nonce0 & Hb).
  destruct (memberships_changed burns s s' w.2 X _ (stay_changed s X k p w key seen m Hk) Hb) as [Hin Hall].
  destruct (heal_gain rng w X keys eph nonce0 (membership s' (vault_b64 w.2) X
      (wrap_vault_key eph nonce0 (join_key_list keys) (x_public (kr_x25519_secret (v_keyring w.2)))
        (arr_bytes (ed25519_pub w.2)))) s' (memberships burns s' w.2) Hw HX (stay_more s X k p w r key Hst))
    with (n := (2 + n)%nat) as (n1 & nonce & Hrun); [| done | done | ..].
  { intros _. split; [|change (set_share_keys X keys (v_keyring w.2)) with (v_keyring (with_share X keys (e_nonce rng 0) w).2); lia].
    unfold membership. cbn [sm_epoch].
    change (t_shares s') with (<[(vault_b64 w.2, arr_bytes X) := share_epoch k X + 1]> (t_shares s)).
    rewrite lookup_insert_eq. change (default 0 (Some (share_epoch k X + 1))) with (share_epoch k X + 1). lia. }
  { by eapply (stay_healed s X k p w r key seen m (e_nonce rng 0)). }
  { intros y Hy. destruct (Hall y Hy) as [Hold| ->]; [left; by apply Hks | by right]. }
  { exact Hin. }
  exists nonce, n1. rewrite (sy_held _ _ _ _ _ _ Hst) in Hrun. split; try done.
  rewrite (heal_named burns rng s' w n); [exact Hrun | done..].
Qed.

(** C16: removing a member cuts it off and rekeys the others.  A device that holds
    a share at the relay's epoch removes from it the device a code names.  It
    succeeds: its own list of keys gains a fresh one, share and relay are one
    epoch on, the rows of the devices, the entries and the memberships of other
    shares are as they were; the removed device has no row and may see no entry
    of the share; and the next round of
    any other member that was current leaves it, in a sound vault with the log
    kept, with exactly the new list, ready for the rounds to come. *)
Theorem removal_rekeys_the_share code X s wa n p r :
  db_inv s → X ≠ uuid_nil → removing s X wa → names_device s (vault_b64 wa.2) code p r →
  ∃ s' wa' k,
    share_remove (RT := relay_transport burns) rng X code (mkClient s wa n) = (mkClient s' wa' k, Ok (dr_name r)) ∧
    keys_of (v_keyring wa'.2) X = keys_of (v_keyring wa.2) X ++ [e_key rng (S n)] ∧
    t_shares s' !! (vault_b64 wa.2, arr_bytes X) = Some (share_epoch (v_keyring wa.2) X + 1) ∧
    share_epoch (v_keyring wa'.2) X = share_epoch (v_keyring wa.2) X + 1 ∧
    t_devices s' = t_devices s ∧ t_entries s' = t_entries s ∧
    (∀ v Y q, (v, Y) ≠ (vault_b64 wa.2, arr_bytes X) → t_members s' !! (v, Y, q) = t_members s !! (v, Y, q)) ∧
    (∀ e, in_share (vault_b64 wa.2) X e → visible s' p e = false) ∧
    (∀ wb x n', vault_b64 wb.2 = vault_b64 wa.2 → staying s X (v_keyring wa.2) p wb x →
     ∃ s2 wb' k' counts, relay_sync burns rng (mkClient s' wb n') = (mkClient s2 wb' k', Ok counts) ∧
       (log_small wb'.1 → t_sequence s2 ≤ i64_max →
        vault_inv wb' ∧ keys_of (v_keyring wb'.2) X = keys_of (v_keyring wa'.2) X ∧
        (∀ Y, Y ≠ X → share (v_keyring wb'.2) Y = share (v_keyring wb.2) Y) ∧
        db_inv s2 ∧ ready burns rng s2 wb' ∧ ∃ got, frames_of wb' = frames_of wb ++ got)).
Proof.
  intros Hdb HX Hrm Hn. pose proof Hrm as [_ Hwa _ Hheld _ Hroom _ _].
  destruct (share_remove_run s wa n X code p r Hrm Hn) as (seen & m & k & Hrun & Hk). cbv zeta in Hrun, Hk.
  set (keys := keys_of (v_keyring wa.2) X ++ [e_key rng (S n)]) in *.
  assert (Hshare : ∀ nonce w, keys_of (v_keyring (with_share X keys nonce w).2) X = keys).
  { intros nonce w. unfold with_share, keys_of at 1. cbn [snd v_keyring with_keyring]. by rewrite share_set, decide_True. }
  eexists _, _, k. split; [exact Hrun|]. destruct Hk as (Hnew & Hdom & Hsame). split; [apply Hshare|]. split_and!; try done.
  - apply lookup_insert_eq.
  - rewrite <- (epoch_next s X wa (e_key rng (S n)) Hrm). by rewrite push_as_set.
  - intros v Y q HY. change (t_members (removes _ _ _ _ _ _)) with m.
    rewrite Hsame by (intros z E; destruct HY; congruence). apply lookup_delete_ne. intros E. destruct HY. congruence.
  - intros e [Hv Hs]. unfold visible. rewrite Hv, Hs. rewrite bool_decide_eq_false_2.
    + change (t_members (removes _ _ _ _ _ _)) with m. destruct (m !! _) eqn:E; [|done].
      destruct (proj1 (Hdom (vault_b64 wa.2, arr_bytes X, p))) as [b Hb]; [by eexists|]. by rewrite lookup_delete_eq in Hb.
    + intros E. apply HX, arr_eq. exact E.
  - intros wb x n' Hv Hst. rewrite <- Hv in Hnew, Hdom, Hsame |- *.
    assert (Hk : rekeyed_members (vault_b64 wb.2) X (join_key_list keys) (keepers s (vault_b64 wb.2) p)
      (delete (vault_b64 wb.2, arr_bytes X, p) (t_members s)) m) by (split; [exact Hnew | split; [exact Hdom | exact Hsame]]).
    destruct (stay_heals s X _ p wb x (e_key rng (S n)) seen m n' Hst HX Hheld Hroom Hk) as (nonce & n1 & Hheals). cbv zeta in Hheals.
    pose proof (stay_ready s X _ p wb x (e_key rng (S n)) seen m nonce Hst HX Hheld Hroom Hk) as Hready.
    destruct (round_healed burns rng _ wb n' _ n1 false _ (removes_inv s _ X _ seen m Hdb) Hheals Hready)
      as (s2 & wb' & k' & st & pl & Hsync & Hex).
    exists s2, wb', k', (st, pl). split; [exact Hsync|]. intros Hs Hq. specialize (Hex Hs Hq).
    pose proof (ex_kept _ _ _ _ Hex) as Hkept. rewrite (kept_keyring _ _ Hkept). split_and!.
    + apply Hkept.
    + rewrite !Hshare. done.
    + intros Y HY. unfold with_share. cbn [snd v_keyring with_keyring]. rewrite share_set. by apply decide_False.
    + apply Hex.
    + by eapply ready_after.
    + destruct (ex_pulled _ _ _ _ Hex) as (got & Eg & _). by exists got.
Qed.
End removal.
