(* ===== verification/SharesSamples.v ===== *)
(** * SharesSamples: the laptop grants the phone a share

    The sample devices of [SyncSamples.v].  The laptop makes a share, adds a
    host to it and syncs; the phone syncs too, past the entry it may not see;
    then the laptop grants it the share. *)

From Stdlib Require Import ZArith Lia String.
From S2P Require Import Prelude Text Record Merge Extern Crypto Log Keyring Validate Vault Crud Lifecycle VaultInv CrudFacts VaultProps KeyGrowth VaultSamples Proto RelayDb Relay RelayFacts RelayProps RelaySamples Sync SyncFacts SyncRound SyncProps SyncSamples Device DeviceProps DeviceSamples Shares.
Import Toy SampleVault SampleSync SampleDevices.

#[local] Open Scope string_scope.
#[local] Open Scope list_scope.
#[local] Open Scope Z_scope.

Module SampleShares.
Definition team_share : Uuid := b16 77.
Definition team_key : Secret32 := b32 78.
(** The laptop with the share, and a host in it. *)
Definition laptop_sharing : World := exec (Lifecycle.create_share team_share team_key (b24 79)) laptop.
Definition sharing : VM Uuid := add_in Kind.Host "alias" "db" host1 team_share (draw 4).
Definition laptop2 : World := exec sharing laptop_sharing.
(** Both devices have synced: the relay, the laptop, the phone. *)
Definition synced1 : Client Relay := (round_of approved laptop2).1.
Definition granter : World := c_world synced1.
Definition synced2 : Client Relay := (round_of (c_net synced1) phone).1.
Definition before : Relay := c_net synced2.
Definition phone2 : World := c_world synced2.
(** The grant, and the phone's next round. *)
Definition granted_c : Client Relay :=
  (share_add (RT := relay_transport false) rng team_share [phone_code] (mkClient before granter 0)).1.
Definition phone3 : World := c_world (round_of (c_net granted_c) phone2).1.
Definition team_entry : Entry := default (mkEntry "" 0 [] [] []) (t_entries before !! 1%nat).
End SampleShares.
Import SampleShares.

(** ** Checks by evaluation *)

Definition some_rec (r : res VaultError (option Rec)) : bool := match r with Ok (Some _) => true | _ => false end.
Definition frames_read (w : World) : bool :=
  forallb (λ f, some_rec (open_entry (v_keyring w.2) f.1 f.2)) (frames_of w).
Definition entry_opens (open : arr 16 → bytes → res VaultError (option Rec)) (e : Entry) : bool :=
  match try_into 16 (en_id e) with Some id => some_rec (open id (en_blob e)) | None => false end.

Definition frames_open (k : Keyring) (w : World) : bool :=
  forallb (λ f, match open_entry k f.1 f.2 with Ok _ => true | Err _ => false end) (frames_of w).

Lemma forallb_elem {A} (p : A → bool) l x : forallb p l = true → x ∈ l → p x = true.
Proof. rewrite forallb_forall. intros Hall Hx%list_elem_of_In. by apply Hall. Qed.
Lemma frames_open_spec k w f : frames_open k w = true → f ∈ frames_of w → ∃ o, open_entry k f.1 f.2 = Ok o.
Proof.
  intros Hall Hf. pose proof (forallb_elem _ _ _ Hall Hf) as Ho. simpl in Ho.
  destruct (open_entry k f.1 f.2) as [o|]; [by exists o | done].
Qed.
Lemma some_rec_spec r : some_rec r = true → ∃ rec, r = Ok (Some rec).
Proof. destruct r as [[rec|]|]; [eauto | done..]. Qed.
Lemma frames_read_spec w : frames_read w = true → readable w.
Proof. intros Hall f Hf. apply some_rec_spec. exact (forallb_elem _ _ _ Hall Hf). Qed.
Lemma entry_opens_spec f e : entry_opens f e = true →
  ∃ (id : arr 16) rec, arr_bytes id = en_id e ∧ f id (en_blob e) = Ok (Some rec).
Proof.
  unfold entry_opens. destruct (try_into 16 (en_id e)) as [id|] eqn:E; [|done]. intros [rec Hr]%some_rec_spec.
  exists id, rec. split; [|exact Hr]. by apply try_into_Some in E.
Qed.

Lemma no_snapshot w : read_snapshot w.1 w.2 = None → snapshot_current w.
Proof. intros E sn Hsn. by rewrite E in Hsn. Qed.

(** ** The states of the scenario *)

Lemma laptop_readable : readable laptop.
Proof. apply frames_read_spec. vm_compute. reflexivity. Qed.

(** A device in order that takes up the share. *)
Definition taking_up (w : World) : World := exec (Lifecycle.create_share team_share team_key (b24 79)) w.
Lemma taking_up_inv w : vault_inv w → readable w → read_snapshot w.1 w.2 = None → vault_inv (taking_up w).
Proof.
  intros Hw Hr Hs. unfold taking_up, exec. rewrite create_share_with.
  apply with_share_inv; [exact Hw | exact Hr | by apply no_snapshot | apply more_keys_snoc].
Qed.

Lemma laptop_sharing_inv : vault_inv laptop_sharing.
Proof. apply taking_up_inv; [apply laptop_inv | apply laptop_readable | vm_compute; reflexivity]. Qed.

Lemma sharing_inv : vault_inv laptop2.
Proof.
  apply (kept_inv laptop_sharing), vault_step_kept; [exact laptop_sharing_inv|].
  exists (OpAdd Host _ Kind.Host "alias" "db" host1 team_share (draw 4)), (Ok tt). split; [|log_small].
  assert (Hrun : sharing laptop_sharing = (laptop2, Ok (b16 40))).
  { refine (exec_outcome sharing laptop_sharing (Ok (b16 40)) _). vm_compute. reflexivity. }
  unfold run_op, ignore, sbind. fold sharing. rewrite Hrun. reflexivity.
Qed.

Lemma sharing_ready : ready false rng approved laptop2.
Proof.
  apply sample_ready; [apply sharing_inv | vm_compute; reflexivity.. |].
  intros row Hr. vm_compute in Hr. injection Hr as <-. reflexivity.
Qed.

Lemma sharing_round : exchanged approved laptop2 (c_net synced1) granter.
Proof.
  destruct (round_of_run false rng _ _ 0 _ _ _ _ approved_inv sharing_ready (run_client _ _)) as [_ Hex];
    [log_small | vm_compute; discriminate | exact Hex].
Qed.

(** The phone opens what the laptop stored, or passes over it. *)
Lemma phone_opens_all f : f ∈ frames_of laptop2 → ∃ o, open_entry (v_keyring phone.2) f.1 f.2 = Ok o.
Proof.
  apply frames_open_spec. vm_compute. reflexivity.
Qed.

Lemma phone_round2 : exchanged (c_net synced1) phone before phone2 ∧ ready false rng (c_net synced1) phone.
Proof.
  assert (Hr : ready false rng (c_net synced1) phone).
  { eapply ready_other; [apply phone_ready | apply sharing_round | vm_compute; reflexivity | apply phone_opens_all]. }
  split; [|exact Hr].
  destruct (round_of_run false rng _ _ 0 _ _ _ _ (ex_inv _ _ _ _ sharing_round) Hr (run_client _ _)) as [_ Hex];
    [log_small | vm_compute; discriminate | exact Hex].
Qed.

Lemma phone_invited : invited false rng before team_share (v_keyring granter.2) phone2.
Proof.
  destruct phone_round2 as [Hex Hr].
  assert (Hall : forallb (λ e, implb (visible before phone_pub e)
      (entry_opens (open_entry (v_keyring phone2.2)) e)) (t_entries before) = true) by (vm_compute; reflexivity).
  assert (Hteam : forallb (λ e, implb (bool_decide (en_share e = arr_bytes team_share))
      (entry_opens (try_keys (keys_of (v_keyring granter.2) team_share)) e)) (t_entries before) = true)
    by (vm_compute; reflexivity).
  split.
  - eapply ready_after; [exact Hr | exact Hex].
  - vm_compute. reflexivity.
  - apply frames_read_spec. vm_compute. reflexivity.
  - apply no_snapshot. vm_compute. reflexivity.
  - intros e (He & _ & Hvis). apply entry_opens_spec. apply (forallb_elem _ _ _ Hall) in He.
    assert (Hp : arr_bytes (ed25519_pub phone2.2) = phone_pub) by (vm_compute; reflexivity).
    rewrite Hp in Hvis. rewrite Hvis in He. exact He.
  - intros e He [_ Hs]. apply entry_opens_spec. apply (forallb_elem _ _ _ Hteam) in He.
    rewrite bool_decide_eq_true_2 in He by exact Hs. exact He.
Qed.

Lemma round_of_eq s w s' w' k r : relay_sync false rng (mkClient s w 0) = (mkClient s' w' k, r) →
  c_net (round_of s w).1 = s' ∧ c_world (round_of s w).1 = w'.
Proof. unfold round_of. by intros ->. Qed.

Lemma rows_before :
  device_rows false before (vault_b64 granter.2) = sample_rows (phone_row true (Some (as_bytes "wrapped"))).
Proof. vm_compute. reflexivity. Qed.

(** The entry of the share is below the cursor of the phone, which does not hold it. *)
Lemma team_entry_behind :
  en_seq team_entry <= sync_cursor (v_meta phone2.2) ∧ in_share (vault_b64 phone2.2) team_share team_entry ∧
  bool_decide (en_id team_entry ∈ (λ f, arr_bytes f.1) <$> frames_of phone2) = false.
Proof. split; [vm_compute; discriminate | split; [split; vm_compute; reflexivity | vm_compute; reflexivity]]. Qed.

Lemma share_grant_delivers_witness : holds_entry phone3 team_entry ∧ ¬ holds_entry phone2 team_entry.
Proof.
  destruct (share_grant_delivers false rng team_share [phone_code] [(phone_pub, phone_row true (Some (as_bytes "wrapped")))]
    before granter phone2 (phone_row true (Some (as_bytes "wrapped"))) 0 0)
    as (s1 & k & s2 & wb' & k' & counts & Hadd & _ & _ & Hsync & Hall).
  - apply phone_round2.
  - split; [intros k; vm_compute; reflexivity | vm_compute; reflexivity].
  - apply (kept_inv laptop2), (ex_kept _ _ _ _ sharing_round).
  - apply (bool_decide_eq_false_1 _). vm_compute. reflexivity.
  - vm_compute. reflexivity.
  - intros e He. assert (E : t_shares before !! (vault_b64 granter.2, arr_bytes team_share) = None) by (vm_compute; reflexivity).
    rewrite E in He. discriminate He.
  - constructor; [|constructor]. split; [|split].
    + vm_compute. reflexivity.
    + vm_compute. reflexivity.
    + intros q x Hx Hc. apply (device_rows_elem false) in Hx. rewrite rows_before in Hx.
      apply elem_of_cons in Hx as [E|E%list_elem_of_singleton]; injection E as -> ->; [|exact eq_refl].
      destruct (bool_decide_eq_false_1 _ codes_differ Hc).
  - constructor; [|constructor]. split; [exists (ed25519_pub phone.2) | exists (x_public (b32 14))]; reflexivity.
  - vm_compute. reflexivity.
  - apply phone_invited.
  - vm_compute. constructor.
  - vm_compute. reflexivity.
  - assert (Eg : c_net granted_c = s1) by (unfold granted_c; rewrite Hadd; reflexivity).
    rewrite <- Eg in Hsync. destruct (round_of_eq _ _ _ _ _ _ Hsync) as [<- <-]. split.
    + apply Hall; [log_small | vm_compute; discriminate | | apply team_entry_behind].
      unfold team_entry. vm_compute. right. left.
    + intros (f & Hf & Hid). destruct team_entry_behind as (_ & _ & Hn). apply bool_decide_eq_false_1 in Hn.
      apply Hn. rewrite <- Hid. by apply (list_elem_of_fmap_2 (λ f : RawEntry, arr_bytes f.1)).
Defined.
