(* ===== verification/JoiningSamples.v ===== *)
(** * JoiningSamples: a tablet joins the sample vault

    The relay of [SyncSamples.v] after the laptop has synced: a tablet enrolls,
    polls twice in vain, and somebody types its code, in capitals, on the
    laptop. *)

From Stdlib Require Import ZArith Lia String.
From S2P Require Import Prelude Text Record Merge Extern Crypto Log Keyring Validate Vault Crud Lifecycle VaultInv CrudFacts VaultProps KeyGrowth VaultSamples Proto RelayDb Relay RelayFacts RelayProps RelaySamples Sync SyncFacts SyncRound SyncProps SyncSamples Device DeviceProps DeviceSamples Shares SharesSamples Joining.
Import Toy SampleVault SampleSync SampleRounds SampleDevices.

#[local] Open Scope string_scope.
#[local] Open Scope list_scope.
#[local] Open Scope Z_scope.

Module SampleJoining.
Definition laptop1 : World := c_world c1.
Definition before : Relay := c_net c1.
Definition tablet_keys : DeviceKeys := new_device_keys (b32 44) (b32 45).
Definition tablet_pub : PubKey := ed_public (Crypto.ed25519 tablet_keys).
Definition tablet_code : string := short_code (b64_encode (arr_bytes tablet_pub)).
Definition enrolled_at : Relay := with_pending (vault_b64 laptop1.2) tablet_pub (x_public (Crypto.x25519 tablet_keys)) "tablet" before.
End SampleJoining.
Import SampleJoining.

Lemma round1 : exchanged approved laptop before laptop1.
Proof.
  destruct (round_of_run false rng _ _ 0 _ _ _ _ approved_inv laptop_ready run1) as [_ Hex];
    [log_small | vm_compute; discriminate | exact Hex].
Qed.

Definition tablet_rows : list (bytes * DeviceRow) :=
  [(arr_bytes (b32 5), laptop_row); (arr_bytes tablet_pub, pending_row (x_public (Crypto.x25519 tablet_keys)) "tablet");
   (phone_pub, phone_row true (Some (as_bytes "wrapped")))].
Lemma rows_enrolled : device_rows false enrolled_at (vault_b64 laptop1.2) = tablet_rows.
Proof. vm_compute. reflexivity. Qed.

(** The only device with the code, typed in capitals. *)
Lemma tablet_named : names_device enrolled_at (vault_b64 laptop1.2) "2D2D-2D2D" (arr_bytes tablet_pub)
  (pending_row (x_public (Crypto.x25519 tablet_keys)) "tablet").
Proof.
  split; [|split].
  - apply (device_rows_elem false). rewrite rows_enrolled. apply list_elem_of_further, list_elem_of_here.
  - vm_compute. reflexivity.
  - intros q r Hr Hc. apply (device_rows_elem false) in Hr. rewrite rows_enrolled in Hr.
    assert (Hall : forallb (λ row : bytes * DeviceRow,
      implb (bool_decide (short_code (b64_encode row.1) = to_ascii_lowercase "2D2D-2D2D"))
            (bool_decide (row.1 = arr_bytes tablet_pub))) tablet_rows = true) by (vm_compute; reflexivity).
    apply (forallb_elem _ _ _ Hall) in Hr. simpl in Hr. rewrite bool_decide_eq_true_2 in Hr by exact Hc.
    by apply bool_decide_eq_true_1 in Hr.
Qed.

Lemma outside_pending v p x name s X : t_members s = ∅ → t_members (with_pending v p x name s) !! X = None.
Proof. intros E. simpl. rewrite E. apply lookup_empty. Qed.

Lemma tablet_awaits : awaits rng laptop1 tablet_pub (x_public (Crypto.x25519 tablet_keys)) "tablet" "2D2D-2D2D" enrolled_at.
Proof.
  split.
  - apply db_inv_devices; [apply round1 | done].
  - intros k. vm_compute. reflexivity.
  - vm_compute. reflexivity.
  - intros row Hrow. vm_compute in Hrow. injection Hrow as <-. apply share_epoch_nonneg.
  - exact tablet_named.
  - intros X. apply outside_pending. vm_compute. reflexivity.
  - assert (Hall : forallb (entry_opens (try_keys (keys_of (v_keyring laptop1.2) NIL))) (t_entries enrolled_at) = true)
      by (vm_compute; reflexivity).
    intros e He _. apply entry_opens_spec. exact (forallb_elem _ _ _ Hall He).
Qed.

Lemma idle_patient wa p x name typed : patient rng wa p x name typed id.
Proof. by intros s Hs. Qed.

(** ** The relay mirrors the laptop *)

Lemma laptop1_frames : frames_of laptop1 = [laptop_frame].
Proof. vm_compute. reflexivity. Qed.
Lemma laptop1_keyring : v_keyring laptop1.2 = v_keyring laptop.2.
Proof. exact (kept_keyring _ _ (ex_kept _ _ _ _ round1)). Qed.
Lemma laptop1_vault : vault_b64 laptop1.2 = vault_b64 laptop.2.
Proof. exact (kept_vault_b64 _ _ (ex_kept _ _ _ _ round1)). Qed.
Lemma one_frame f : f ∈ frames_of laptop1 → f = laptop_frame.
Proof. rewrite laptop1_frames. apply list_elem_of_singleton. Qed.

Lemma laptop1_mirrored s : t_entries s = t_entries before → mirrors s laptop1.
Proof.
  intros E. split; rewrite ?E, ?laptop1_vault.
  - intros f ->%one_frame. apply (ex_pushed _ _ _ _ round1). rewrite laptop_frames. apply list_elem_of_here.
  - intros e He _. destruct (exchanged_entry _ _ _ _ _ round1 He) as [Hold|(_ & f & Hf & Hid & Hb & Hs)].
    { rewrite approved_entries in Hold. destruct (not_elem_of_nil _ Hold). }
    rewrite laptop_frames in Hf. apply list_elem_of_singleton in Hf as ->. split; [rewrite Hs; apply laptop_tag|].
    exists laptop_frame. split; [rewrite laptop1_frames; apply list_elem_of_here | exact (conj Hid Hb)].
  - intros f g Hf Hg _. rewrite (one_frame f Hf), (one_frame g Hg). reflexivity.
  - exists (history_of laptop_record). intros f r ->%one_frame Hr. rewrite laptop1_keyring in Hr.
    rewrite <- (laptop_opens_only r Hr). apply history_of_consistent.
Qed.

Definition tablet_code_shown (code : string) (s : Relay) : Relay := s.

Lemma idle_entries code v p x name s :
  t_entries (after (tablet_code_shown code :: [id; id]) (with_pending v p x name s)) = t_entries s.
Proof. reflexivity. Qed.

Lemma new_device_catches_up_witness :
  ∃ s2 d2 v2, enroll_and_wait (RT := relay_transport false) rng "tablet" "tap" (vault_id (v_meta laptop1.2)) (b32 46)
      (b32 44) (b32 45) (mkInitDraw (b16 47) (b16 48) (b24 49)) url tablet_code_shown
      ([id; id] ++ approves false rng "2D2D-2D2D" laptop1 0 :: []) empty_disk before = (s2, d2, Ok (Some v2)) ∧
    ∃ s3 w' k counts, relay_sync false rng (mkClient s2 (d2, v2) 0) = (mkClient s3 w' k, Ok counts) ∧
      (log_small w'.1 → t_sequence s3 ≤ i64_max → v_state w'.2 = v_state laptop1.2).
Proof.
  destruct (new_device_catches_up false rng "tablet" "tap" (b32 46) (b32 44) (b32 45)
    (mkInitDraw (b16 47) (b16 48) (b24 49)) url tablet_code_shown "2D2D-2D2D" [id; id] [] empty_disk before
    (fit 32 (as_bytes "tap" ++ arr_bytes (b16 47)))
    (mkVaultRow (arr_bytes (b32 3)) 0) laptop1 0) as (w & Hrun & _ & _ & _ & _ & Hent & _ & Hsync).
  - reflexivity.
  - reflexivity.
  - reflexivity.
  - exact (kept_inv _ _ (ex_kept _ _ _ _ round1)).
  - vm_compute. reflexivity.
  - vm_compute. reflexivity.
  - exact tablet_awaits.
  - do 3 (apply Forall_cons_2; [exact (idle_patient _ _ _ _ _)|]). apply Forall_nil_2.
  - eexists _, w.1, w.2. split; [exact Hrun|].
    destruct (Hsync 0%nat) as (s3 & w' & k & counts & Hround & Hall). exists s3, w', k, counts.
    split; [rewrite <- surjective_pairing; exact Hround|]. intros Hs Hq.
    destruct (Hall Hs Hq) as (_ & _ & _ & Hst). apply Hst, laptop1_mirrored. rewrite Hent. exact (idle_entries _ _ _ _ _ _).
Defined.
