(* ===== verification/RecoverySamples.v ===== *)
(** * RecoverySamples: a vault comes back, and one that does not

    A vault made from a phrase, with one host, pushed to a relay by its only
    device; the device is lost, and the phrase is typed on a new machine.  Then
    the same with a rotation before the host is added. *)

From Stdlib Require Import ZArith Lia String.
From S2P Require Import Prelude Text Record Merge Extern Crypto Log Keyring Validate Vault Crud Lifecycle VaultInv CrudFacts VaultProps KeyGrowth VaultSamples Proto RelayDb Relay RelayFacts RelayProps RelaySamples Sync SyncFacts SyncRound SyncProps SyncSamples Device DeviceProps DeviceSamples Shares SharesSamples Joining Recovery.
Import Toy SampleVault SampleSync SampleDevices.

#[local] Open Scope string_scope.
#[local] Open Scope list_scope.
#[local] Open Scope Z_scope.

Module SampleRecovery.
Definition keys : PhraseKeys :=
  match keys_from_phrase phrase with Ok k => k | Err _ => mkPhraseKeys (b32 0) (b32 0) end.
Definition made : Disk * res VaultError Vault :=
  create_with_keys "laptop" "pw" (b16 1) (vault_key keys) (ed_public (recovery_signing keys)) (mkDeviceKeys (b32 4) (b32 5))
    (mkInitDraw (b16 6) (b16 7) (b24 1)) empty_disk.
Definition made_world : World := (made.1, match made.2 with Ok v => v | Err _ => nobody end).
Definition url_op : op := OpRelayUrl url.
Definition owner0 : World := exec (run_op url_op) made_world.
Definition adding_op : op := OpAdd Host _ Kind.Host "alias" "web" host0 uuid_nil (draw 1).
Definition owner : World := exec (run_op adding_op) owner0.
Definition bootstrapped : Relay := enrolled owner (empty_relay now0).
Definition first_round : Client Relay := (round_of bootstrapped owner).1.
Definition lost : World := c_world first_round.
Definition kept_by_relay : Relay := c_net first_round.
Definition new_device : DeviceKeys := mkDeviceKeys (b32 21) (b32 22).
Definition new_draw : InitDraw := mkInitDraw (b16 23) (b16 24) (b24 25).

(** Recovery from a relay, and the first round after it. *)
Definition recovered_from (s : Relay) : Relay * Disk * res EnrollError Vault :=
  recover (RT := relay_transport false) "new" "fresh pw" phrase new_device new_draw url empty_disk s.
Definition recovered_world (s : Relay) : World :=
  ((recovered_from s).1.2, match (recovered_from s).2 with Ok v => v | Err _ => nobody end).
Definition after_recovery (s : Relay) : Client Relay * res SyncError (Z * nat) :=
  round_of (recovered_from s).1.1 (recovered_world s).

(** The vault rotated before the host is added, the relay told of it. *)
Definition rotated : World := exec (run_key_op (KeyRotate phrase (b24 26))) owner0.
Definition rotated_owner : World := exec (run_op adding_op) rotated.
Definition rotated_relay : Relay :=
  c_net (round_of (set_vaults (vault_update (vault_b64 owner.2) (λ r, mkVaultRow (vr_recovery_pub r) 1) (t_vaults bootstrapped))
    bootstrapped) rotated_owner).1.
End SampleRecovery.
Import SampleRecovery.

(** The whole run: the host is back. *)
Example recovery_brings_the_host_back :
  (after_recovery kept_by_relay).2 = Ok (0, 1%nat) ∧
  bool_decide (v_state (c_world (after_recovery kept_by_relay).1).2 = v_state lost.2) = true ∧
  size (v_state lost.2) = 1%nat.
Proof. split_and!; vm_compute; reflexivity. Qed.

(** After a rotation the entry is brought back and cannot be read: the key of
    epoch 1, which the phrase derives, is not in the vault. *)
Example recovery_misses_later_epochs :
  (after_recovery rotated_relay).2 = Ok (0, 1%nat) ∧
  size (v_state rotated_owner.2) = 1%nat ∧ size (v_state (c_world (after_recovery rotated_relay).1).2) = 0%nat ∧
  match vault_key_at_epoch phrase 1 with
  | Ok key => bool_decide (key ∈ trial_keys (v_keyring rotated_owner.2)) && negb (bool_decide (key ∈ trial_keys (v_keyring (recovered_world rotated_relay).2)))
  | Err _ => false
  end = true.
Proof. split_and!; vm_compute; reflexivity. Qed.

(** ** The vault and the relay are as the theorem needs them *)

Lemma made_session : session "pw" made_world.
Proof.
  destruct (create_session "laptop" "pw" (b16 1) (vault_key keys) (ed_public (recovery_signing keys)) (mkDeviceKeys (b32 4) (b32 5))
    (mkInitDraw (b16 6) (b16 7) (b24 1)) empty_disk made_world.1 made_world.2) as [Hs _]; [reflexivity | vm_compute; reflexivity | exact Hs].
Qed.
Lemma owner_inv : vault_inv owner.
Proof.
  apply (kept_inv owner0), vault_step_kept; [|exists adding_op, (outcome (run_op adding_op) owner0); split; [apply exec_outcome; reflexivity | log_small]].
  apply (kept_inv made_world), vault_step_kept; [apply made_session|].
  exists url_op, (outcome (run_op url_op) made_world). split; [apply exec_outcome; reflexivity | log_small].
Qed.

Lemma bootstrapped_inv : db_inv bootstrapped.
Proof. apply enrolled_inv, sample_invariant. Qed.

Lemma owner_ready : ready false rng bootstrapped owner.
Proof.
  apply fresh_ready; [vm_compute; reflexivity | intros k; vm_compute; reflexivity | exact owner_inv | vm_compute; reflexivity.. |].
  intros row Hr. vm_compute in Hr. injection Hr as <-. reflexivity.
Qed.

Lemma first_exchange : exchanged bootstrapped owner kept_by_relay lost.
Proof.
  destruct (round_of_run false rng _ _ 0 _ _ _ _ bootstrapped_inv owner_ready (run_client bootstrapped owner)) as [_ Hex];
    [log_small | vm_compute; discriminate | exact Hex].
Qed.

Lemma owner_unrotated : unrotated false lost keys kept_by_relay.
Proof.
  split.
  - apply first_exchange.
  - vm_compute. reflexivity.
  - intros row Hr. vm_compute in Hr. injection Hr as <-. reflexivity.
  - rewrite (kept_keyring _ _ (ex_kept _ _ _ _ first_exchange)). reflexivity.
  - assert (Hall : forallb (entry_opens (try_keys (keys_of (v_keyring lost.2) NIL))) (t_entries kept_by_relay) = true)
      by (vm_compute; reflexivity).
    intros e He _. apply entry_opens_spec. exact (forallb_elem _ _ _ Hall He).
Qed.

Lemma recovery_restores_unrotated_vault_witness :
  ∃ s' w, recover (RT := relay_transport false) "new" "fresh pw" phrase new_device new_draw url empty_disk kept_by_relay =
      (s', w.1, Ok w.2) ∧ session "fresh pw" w ∧
    ∃ s2 w' k counts, relay_sync false rng (mkClient s' w 0) = (mkClient s2 w' k, Ok counts) ∧
      (log_small w'.1 → t_sequence s2 ≤ i64_max → readable w').
Proof.
  destruct (recovery_restores_unrotated_vault false rng "new" "fresh pw" phrase new_device new_draw url empty_disk kept_by_relay
    lost keys (fit 32 (as_bytes "fresh pw" ++ arr_bytes (b16 23)))) as (s' & w & Hrun & Hses & _ & _ & _ & _ & _ & _ & _ & Hsync).
  - vm_compute. reflexivity.
  - reflexivity.
  - reflexivity.
  - reflexivity.
  - exact (kept_inv _ _ (ex_kept _ _ _ _ first_exchange)).
  - exact owner_unrotated.
  - intros k. vm_compute. reflexivity.
  - intros X. assert (E : t_members kept_by_relay = ∅) by (vm_compute; reflexivity). rewrite E. apply lookup_empty.
  - exists s', w. split; [exact Hrun|]. split; [exact Hses|]. destruct (Hsync 0%nat) as (s2 & w' & k & counts & Hround & Hall).
    exists s2, w', k, counts. split; [exact Hround|]. intros Hs Hq. apply (Hall Hs Hq).
Defined.
