(* ===== verification/RemovalSamples.v ===== *)
(** * RemovalSamples: the laptop leaves a share, the phone stays

    The sample devices of [SyncSamples.v], both holding the share of
    [SharesSamples.v] and listed as its members; the laptop, about to be given
    away, removes itself. *)

From Stdlib Require Import ZArith Lia String.
From S2P Require Import Prelude Text Record Merge Extern Crypto Log Keyring Validate Vault Crud Lifecycle VaultInv CrudFacts VaultProps KeyGrowth VaultSamples Proto RelayDb Relay RelayFacts RelayProps RelaySamples Sync SyncFacts SyncRound SyncProps SyncSamples Device DeviceProps DeviceSamples Shares ShareRemoval SharesSamples.
Import Toy SampleVault SampleSync SampleDevices SampleShares.

#[local] Open Scope string_scope.
#[local] Open Scope list_scope.
#[local] Open Scope Z_scope.

Module SampleRemoval.
Definition laptop_pub : bytes := arr_bytes (b32 5).
Definition laptop_code : string := short_code (b64_encode laptop_pub).
Definition phone_sharing : World := taking_up phone.
Definition member_rows : gmap (string * bytes * bytes) bytes :=
  <[(vault_b64 laptop.2, arr_bytes team_share, laptop_pub) := as_bytes "wrapped"]>
    (<[(vault_b64 laptop.2, arr_bytes team_share, phone_pub) := as_bytes "wrapped"]> ∅).
Definition shared : Relay := grants approved (vault_b64 laptop.2) team_share 0 member_rows.
Definition phone_entry : DeviceRow := phone_row true (Some (as_bytes "wrapped")).
(** The removal, and the round of the phone. *)
Definition removed_c : Client Relay :=
  (share_remove (RT := relay_transport false) rng team_share laptop_code (mkClient shared laptop_sharing 0)).1.
Definition phone_rekeyed : World := c_world (round_of (c_net removed_c) phone_sharing).1.
End SampleRemoval.
Import SampleRemoval.

(** A membership with nothing to absorb, by evaluation. *)
Definition healed_b (k : Keyring) (m : ShareMembership) : bool :=
  match b ← b64_decode (sm_share_b64 m); try_into 16 b with
  | Some share => bool_decide (share = uuid_nil) || (has_share k share && (sm_epoch m <=? share_epoch k share))
  | None => true
  end.
Lemma healed_b_spec k m : healed_b k m = true → healed_membership k m.
Proof.
  unfold healed_b. intros Hm b share Hb Hs. rewrite Hb in Hm. simpl in Hm. rewrite Hs in Hm.
  apply orb_true_iff in Hm as [Hm|Hm]; [left; by apply bool_decide_eq_true_1 in Hm | right].
  apply andb_prop in Hm as [Hh He]. split; [exact Hh | by apply Z.leb_le].
Qed.

(** A device that is ready at a relay without entries is so after a grant, when
    it holds what it is granted. *)
Lemma ready_granted s w v X e m : ready false rng s w → t_entries s = [] →
  forallb (healed_b (v_keyring w.2)) (memberships false (grants s v X e m) w.2) = true →
  ready false rng (grants s v X e m) w.
Proof.
  intros [Hw Hurl Hclock Hm [Hep _] Hent [Hcur Hcaught]] He Hheal.
  assert (Hnone : ∀ x, x ∉ t_entries (grants s v X e m)) by (intros x; cbn; rewrite He; apply not_elem_of_nil).
  split; try done.
  - split; [exact Hep|]. apply Forall_forall. intros x Hin. exact (healed_b_spec _ _ (forallb_elem _ _ _ Hheal Hin)).
  - intros x [Hx _]. destruct (Hnone x Hx).
  - split; [exact Hcur|]. intros x [Hx _]. destruct (Hnone x Hx).
Qed.

Lemma phone_sharing_ready : ready false rng shared phone_sharing.
Proof.
  apply ready_granted; [|exact approved_entries | vm_compute; reflexivity].
  apply sample_ready; [|vm_compute; reflexivity..|].
  - apply taking_up_inv; [apply phone_inv | | vm_compute; reflexivity]. apply frames_read_spec. vm_compute. reflexivity.
  - intros row Hr. vm_compute in Hr. injection Hr as <-. reflexivity.
Qed.

Lemma phone_staying : staying false rng shared team_share (v_keyring laptop_sharing.2) laptop_pub phone_sharing phone_entry.
Proof.
  split.
  - exact phone_sharing_ready.
  - vm_compute. reflexivity.
  - vm_compute. reflexivity.
  - apply frames_read_spec. vm_compute. reflexivity.
  - apply no_snapshot. vm_compute. reflexivity.
  - intros e [He _]. assert (E : t_entries shared = []) by exact approved_entries. rewrite E in He.
    destruct (not_elem_of_nil _ He).
  - vm_compute. reflexivity.
  - vm_compute. reflexivity.
  - apply (bool_decide_unpack _). vm_compute. exact I.
  - apply (bool_decide_eq_false_1 _). vm_compute. reflexivity.
Qed.

Lemma rows_shared : device_rows false shared (vault_b64 laptop_sharing.2) = sample_rows phone_entry.
Proof. vm_compute. reflexivity. Qed.
Lemma codes_apart : bool_decide (laptop_code = short_code (b64_encode phone_pub)) = false.
Proof. vm_compute. reflexivity. Qed.

Lemma shared_codes : codes_distinct shared (vault_b64 laptop_sharing.2).
Proof.
  intros p q r x Hp Hq E. apply (device_rows_elem false) in Hp, Hq. rewrite rows_shared in Hp, Hq.
  apply elem_of_cons in Hp as [Ep|Ep%list_elem_of_singleton], Hq as [Eq|Eq%list_elem_of_singleton];
    injection Ep as -> ->; injection Eq as -> ->; [reflexivity | | | reflexivity].
  - destruct (bool_decide_eq_false_1 _ codes_apart E).
  - destruct (bool_decide_eq_false_1 _ codes_apart (eq_sym E)).
Qed.

Lemma laptop_removing : ShareRemoval.removing rng shared team_share laptop_sharing.
Proof.
  split.
  - split; [intros k; vm_compute; reflexivity | vm_compute; reflexivity].
  - exact laptop_sharing_inv.
  - intros ts body. change (t_seen shared) with (∅ : gmap bytes Z). apply lookup_empty.
  - vm_compute. reflexivity.
  - vm_compute. reflexivity.
  - vm_compute. discriminate.
  - exact shared_codes.
  - intros q x Hx. apply (device_rows_elem false) in Hx. rewrite rows_shared in Hx.
    apply elem_of_cons in Hx as [E|E%list_elem_of_singleton]; injection E as -> ->; split;
      [exists (b32 5) | exists (x_public (b32 4)) | exists (ed25519_pub phone.2) | exists (x_public (b32 14))]; reflexivity.
Qed.

Lemma removal_rekeys_the_share_witness :
  keys_of (v_keyring phone_rekeyed.2) team_share = [team_key; e_key rng 1] ∧
  (∀ e, in_share (vault_b64 laptop_sharing.2) team_share e → visible (c_net removed_c) laptop_pub e = false).
Proof.
  destruct (removal_rekeys_the_share false rng laptop_code team_share shared laptop_sharing 0 laptop_pub laptop_row)
    as (s' & wa' & k & Hrun & Hkeys & _ & _ & _ & _ & _ & Hcut & Hstay).
  - apply grants_inv, approved_inv.
  - apply (bool_decide_eq_false_1 _). vm_compute. reflexivity.
  - exact laptop_removing.
  - apply own_code; [exact shared_codes|]. vm_compute. reflexivity.
  - assert (Es : c_net removed_c = s') by (unfold removed_c; rewrite Hrun; reflexivity).
    destruct (Hstay phone_sharing phone_entry 0%nat) as (s2 & wb' & k' & counts & Hsync & Hall);
      [vm_compute; reflexivity | exact phone_staying |].
    rewrite <- Es in Hsync, Hcut. destruct (round_of_eq _ _ _ _ _ _ Hsync) as [<- <-]. split; [|exact Hcut].
    destruct Hall as (_ & Hk & _); [log_small | vm_compute; discriminate |].
    etransitivity; [exact Hk|]. rewrite Hkeys. vm_compute. reflexivity.
Defined.

(** Another device, still waiting for approval, whose key begins with the four
    bytes of the laptop's: the code of a member is ambiguous, and removing the
    phone fails after the new key was stored, with the relay at the old epoch. *)
Definition crowded : Relay :=
  set_devices (<[(vault_b64 laptop.2, take 4 laptop_pub ++ replicate 28 Byte.x00) := phone_row false None]>
    (t_devices shared)) shared.
Example ambiguous_code_strands_removal :
  let '(c, r) := share_remove (RT := relay_transport false) rng team_share phone_code (mkClient crowded laptop_sharing 0) in
  (r, length (keys_of (v_keyring (c_world c).2) team_share), t_shares (c_net c) !! (vault_b64 laptop.2, arr_bytes team_share)) =
  (Err (EnrollError.AmbiguousCode laptop_code), 2%nat, Some 0).
Proof. vm_compute. reflexivity. Qed.
