(* ===== verification/Files.v ===== *)
(** * Files: the file system the program writes to

    Paths, nodes and the calls of [std::fs] that [sshconfig.rs] and [main.rs]
    make, each one step of a tree; the trees passed through are kept, so that
    theorems can speak of a crash between two calls and of what another process
    sees.  Paths are absolute, their directories are not links, and links point
    at files: a link as the last component is followed as the kernel does.
    Errors that do not come from the shape of the tree (permissions, a full
    disk) are left out. *)

From Stdlib Require Import ZArith Lia Ascii String.
From S2P Require Import Prelude Text.

#[local] Open Scope string_scope.
#[local] Open Scope list_scope.
#[local] Open Scope Z_scope.

Abbreviation Path := (list string).

Inductive Node :=
  | File (mode : Z) (contents : string)
  | Dir (mode : Z)
  | Link (to : Path).
#[export] Instance Node_eq_dec : EqDecision Node.
Proof. solve_decision. Defined.

Abbreviation Tree := (gmap Path Node).

(** The tree, and the trees after each call so far, latest first. *)
Record Fs := mkFs { now : Tree; seen : list Tree }.

Module IoError.
Inductive t := NotFound | AlreadyExists | IsADirectory | NotADirectory | InvalidData | Loop.
End IoError.
Abbreviation IoError := IoError.t.
#[export] Instance IoError_eq_dec : EqDecision IoError.
Proof. solve_decision. Defined.

Abbreviation FM := (M Fs IoError).

(* ------------------------------------------------------------------ *)
(** ** Paths *)

Definition parent (p : Path) : option Path :=
  match p with [] => None | _ => Some (take (length p - 1) p) end.
Definition file_name (p : Path) : option string := last p.

(** [Display] of an absolute path. *)
Definition show_path (p : Path) : string := "/" +:+ join_with "/" p.

(** [Path::file_stem]: the name up to its last dot, a leading one apart. *)
Definition file_stem (name : string) : string :=
  match reverse (split_char "."%char name) with
  | _ :: ((_ :: _) as stem) =>
      let before := join_with "." (reverse stem) in
      if String.eqb before "" then name else before
  | _ => name
  end.
(** [Path::with_extension]. *)
Definition with_extension (p : Path) (ext : string) : Path :=
  match file_name p with
  | Some name => take (length p - 1) p ++ [file_stem name +:+ "." +:+ ext]
  | None => p
  end.

(** [Path::join] of a relative or absolute text: empty and [.] components
    disappear, an absolute text replaces the base. *)
Definition components (s : string) : list string :=
  filter (λ c, c ≠ "" ∧ c ≠ ".") (split_char "/"%char s).
Definition path_join (base : Path) (s : string) : Path :=
  if String.prefix "/" s then components s else base ++ components s.

(** [Path::new(s).file_name()]: the last component unless it is [..]. *)
Definition name_of (s : string) : option string :=
  c ← last (components s); if bool_decide (c = "..") then None else Some c.

(* ------------------------------------------------------------------ *)
(** ** UTF-8 *)

Definition byte_in (lo hi : nat) (c : ascii) : bool :=
  let n := nat_of_ascii c in ((lo <=? n) && (n <=? hi))%nat.

(** [str::from_utf8] accepts. *)
Fixpoint utf8_ok (s : string) : bool :=
  match s with
  | EmptyString => true
  | String a s1 =>
      if byte_in 0 127 a then utf8_ok s1 else
      match s1 with
      | EmptyString => false
      | String b s2 =>
          if byte_in 194 223 a then byte_in 128 191 b && utf8_ok s2 else
          match s2 with
          | EmptyString => false
          | String c s3 =>
              if byte_in 224 239 a then
                byte_in (if byte_in 224 224 a then 160 else 128) (if byte_in 237 237 a then 159 else 191) b &&
                byte_in 128 191 c && utf8_ok s3
              else
              match s3 with
              | EmptyString => false
              | String d s4 =>
                  byte_in 240 244 a &&
                  byte_in (if byte_in 240 240 a then 144 else 128) (if byte_in 244 244 a then 143 else 191) b &&
                  byte_in 128 191 c && byte_in 128 191 d && utf8_ok s4
              end
          end
      end
  end.

(* ------------------------------------------------------------------ *)
(** ** Calls *)

(** Links are followed up to the kernel's limit. *)
Fixpoint follow (fuel : nat) (t : Tree) (p : Path) : option Path :=
  match t !! p with
  | Some (Link to) => match fuel with O => None | S fuel => follow fuel t to end
  | _ => Some p
  end.
Definition resolve (t : Tree) (p : Path) : option Path := follow 40 t p.

(** [Path::exists] and [Path::is_dir]. *)
Definition exists_at (t : Tree) (p : Path) : bool :=
  match resolve t p with
  | Some q => match t !! q with Some _ => true | None => bool_decide (q = []) end
  | None => false
  end.
Definition is_dir (t : Tree) (p : Path) : bool :=
  match resolve t p with
  | Some q => match t !! q with Some (Dir _) => true | Some _ => false | None => bool_decide (q = []) end
  | None => false
  end.

(** Where a new node can go. *)
Definition parent_ok (t : Tree) (p : Path) : res IoError unit :=
  match parent p with
  | None => Err IoError.AlreadyExists
  | Some d => if is_dir t d then Ok tt
              else if exists_at t d then Err IoError.NotADirectory else Err IoError.NotFound
  end.

Section calls.
Context (umask : Z).

(** The mode a new node gets. *)
Definition masked (mode : Z) : Z := Z.land mode (Z.lnot umask).

(** One call that changes the tree. *)
Definition syscall (f : Tree → res IoError Tree) : FM unit := λ s,
  match f (now s) with
  | Ok t => (mkFs t (t :: seen s), Ok tt)
  | Err e => (s, Err e)
  end.

Definition query {A} (f : Tree → res IoError A) : FM A := λ s, (s, f (now s)).

Definition mkdir (p : Path) : FM unit := syscall (λ t,
  res_bind (parent_ok t p) (λ _,
  match t !! p with
  | Some _ => Err IoError.AlreadyExists
  | None => Ok (<[p := Dir (masked 511)]> t)
  end)).

(** [set_permissions]. *)
Definition chmod (p : Path) (mode : Z) : FM unit := syscall (λ t,
  match resolve t p with
  | None => Err IoError.Loop
  | Some q =>
      match t !! q with
      | Some (File _ c) => Ok (<[q := File mode c]> t)
      | Some (Dir _) => Ok (<[q := Dir mode]> t)
      | _ => Err IoError.NotFound
      end
  end).

(** A link is removed itself. *)
Definition remove_file (p : Path) : FM unit := syscall (λ t,
  match t !! p with
  | Some (Dir _) => Err IoError.IsADirectory
  | Some _ => Ok (delete p t)
  | None => Err IoError.NotFound
  end).

(** [O_CREAT | O_EXCL]: refuses any node, links included. *)
Definition open_new (p : Path) (mode : Z) : FM Path :=
  sbind (syscall (λ t,
    res_bind (parent_ok t p) (λ _,
    match t !! p with
    | Some _ => Err IoError.AlreadyExists
    | None => Ok (<[p := File (masked mode) ""]> t)
    end))) (λ _, sret p).

(** [File::create]: truncate, or create at the default mode; the handle is the
    file behind the links. *)
Definition create (p : Path) : FM Path := λ s,
  match resolve (now s) p with
  | None => (s, Err IoError.Loop)
  | Some q =>
      sbind (syscall (λ t,
        match t !! q with
        | Some (File m _) => Ok (<[q := File m ""]> t)
        | Some _ => Err IoError.IsADirectory
        | None => res_bind (parent_ok t q) (λ _, Ok (<[q := File (masked 438) ""]> t))
        end)) (λ _, sret q) s
  end.

(** [OpenOptions::append]: the file must be there. *)
Definition open_append (p : Path) : FM Path := query (λ t,
  match resolve t p with
  | None => Err IoError.Loop
  | Some q =>
      match t !! q with
      | Some (File _ _) => Ok q
      | Some _ => Err IoError.IsADirectory
      | None => Err IoError.NotFound
      end
  end).

(** [OpenOptions::create(true).truncate(false)]: the contents stay. *)
Definition open_or_create (p : Path) : FM Path := λ s,
  match resolve (now s) p with
  | None => (s, Err IoError.Loop)
  | Some q =>
      match now s !! q with
      | Some (File _ _) => (s, Ok q)
      | Some _ => (s, Err IoError.IsADirectory)
      | None => sbind (syscall (λ t, res_bind (parent_ok t q) (λ _, Ok (<[q := File (masked 438) ""]> t)))) (λ _, sret q) s
      end
  end.

(** One [write] on a handle. *)
Definition append_to (q : Path) (s : string) : FM unit := syscall (λ t,
  match t !! q with
  | Some (File m c) => Ok (<[q := File m (c +:+ s)]> t)
  | _ => Err IoError.NotFound
  end).
(** [write_all] may reach the file a byte at a time. *)
Fixpoint write_all (q : Path) (s : string) : FM unit :=
  match s with
  | EmptyString => sret tt
  | String c s => sbind (append_to q (String c "")) (λ _, write_all q s)
  end.

Definition rename (p q : Path) : FM unit := syscall (λ t,
  match t !! p, t !! q with
  | None, _ => Err IoError.NotFound
  | Some (Dir _), _ => Err IoError.NotADirectory
  | _, Some (Dir _) => Err IoError.IsADirectory
  | Some n, _ => if bool_decide (p = q) then Ok t else Ok (<[q := n]> (delete p t))
  end).

Definition stat_mode (p : Path) : FM Z := query (λ t,
  match resolve t p with
  | None => Err IoError.Loop
  | Some q =>
      match t !! q with
      | Some (File m _) | Some (Dir m) => Ok m
      | _ => Err IoError.NotFound
      end
  end).

(** [fs::read], and [fs::read_to_string]. *)
Definition contents_at (t : Tree) (p : Path) : res IoError string :=
  match resolve t p with
  | None => Err IoError.Loop
  | Some q =>
      match t !! q with
      | Some (File _ c) => Ok c
      | Some _ => Err IoError.IsADirectory
      | None => Err IoError.NotFound
      end
  end.
Definition read (p : Path) : FM string := query (λ t, contents_at t p).
Definition read_to_string (p : Path) : FM string :=
  sbind (read p) (λ c, if utf8_ok c then sret c else sfail IoError.InvalidData).

(** [create_dir_all]: the missing ancestors, outermost first. *)
Fixpoint create_dir_fuel (fuel : nat) (p : Path) : FM unit := λ s,
  match mkdir p s with
  | (s, Ok _) => (s, Ok tt)
  | (s, Err e) =>
      if bool_decide (e ≠ IoError.NotFound) then
        if is_dir (now s) p then (s, Ok tt) else (s, Err e)
      else
        match parent p, fuel with
        | Some d, S fuel =>
            sbind (create_dir_fuel fuel d) (λ _ s,
              match mkdir p s with
              | (s, Ok _) => (s, Ok tt)
              | (s, Err e) => if is_dir (now s) p then (s, Ok tt) else (s, Err e)
              end) s
        | _, _ => (s, Err e)
        end
  end.
Definition create_dir_all (p : Path) : FM unit := create_dir_fuel (length p) p.
End calls.
