(* ===== verification/FilesFacts.v ===== *)
(** * FilesFacts: reasoning about file-system calls

    A triple over the trees a program passes through: from a tree of [P],
    every later tree satisfies [I], the last one is among them or the first,
    and a result satisfies [Q]. *)

From Stdlib Require Import ZArith Lia Ascii String.
From S2P Require Import Prelude Text Files.

#[local] Open Scope string_scope.
#[local] Open Scope list_scope.
#[local] Open Scope Z_scope.

(** What a run from [s] to [s'] passed through: the trees after each call. *)
Definition passed (s s' : Fs) (new : list Tree) : Prop :=
  seen s' = new ++ seen s ∧ now s' = hd (now s) new.

Lemma passed_refl s : passed s s [].
Proof. by destruct s. Qed.
Lemma passed_trans s1 s2 s3 l k : passed s1 s2 l → passed s2 s3 k → passed s1 s3 (k ++ l).
Proof.
  intros [Hs Hn] [Hs' Hn']. split; [by rewrite Hs', Hs, (assoc_L (++)) | rewrite Hn', Hn; by destruct k].
Qed.

Definition triple {E A : Type} (P I : Tree → Prop) (m : M Fs E A) (Q : A → Tree → Prop) : Prop :=
  ∀ s s' r, P (now s) → m s = (s', r) →
    ∃ new, passed s s' new ∧ Forall I new ∧ ∀ a, r = Ok a → Q a (now s').

Section triples.
Context {E : Type}.

Lemma triple_ret {A : Type} (P I : Tree → Prop) (a : A) (Q : A → Tree → Prop) :
  (∀ t, P t → Q a t) → triple (E := E) P I (sret a) Q.
Proof.
  intros HQ s s' r Hp [= <- <-]. exists []. split; [apply passed_refl|]. split; [done|].
  intros x [= <-]. by apply HQ.
Qed.

Lemma triple_bind {A B : Type} (P I : Tree → Prop) (m : M Fs E A) (k : A → M Fs E B) R Q :
  triple P I m R → (∀ a, triple (R a) I (k a) Q) → triple P I (sbind m k) Q.
Proof.
  intros Hm Hk s s' r Hp. unfold sbind. destruct (m s) as [s1 [a|e]] eqn:Em.
  - destruct (Hm s s1 _ Hp Em) as (l & Hl & Hi & Hr). intros Ek.
    destruct (Hk a s1 s' r (Hr a eq_refl) Ek) as (l' & Hl' & Hi' & Hr').
    exists (l' ++ l). split; [by eapply passed_trans|]. split; [by apply Forall_app | done].
  - destruct (Hm s s1 _ Hp Em) as (l & Hl & Hi & _). intros [= <- <-]. by exists l.
Qed.

Lemma triple_weaken {A : Type} (P P' I I' : Tree → Prop) (m : M Fs E A) Q Q' :
  (∀ t, P t → P' t) → (∀ t, I' t → I t) → (∀ a t, Q' a t → Q a t) →
  triple P' I' m Q' → triple P I m Q.
Proof.
  intros Hp Hi Hq Hm s s' r Hs E'. destruct (Hm s s' r (Hp _ Hs) E') as (l & Hl & Hf & Hr).
  exists l. split; [done|]. split; [by eapply Forall_impl|]. eauto.
Qed.

Lemma triple_query {A : Type} (P I : Tree → Prop) (f : Tree → res IoError A) Q :
  (∀ t a, P t → f t = Ok a → Q a t) → triple P I (query f) Q.
Proof.
  intros HQ s s' r Hp [= <- <-]. exists []. split; [apply passed_refl|]. split; [done|]. eauto.
Qed.

Lemma triple_syscall (P I : Tree → Prop) (f : Tree → res IoError Tree) (Q : Tree → Prop) :
  (∀ t t', P t → f t = Ok t' → I t' ∧ Q t') → triple P I (syscall f) (λ _, Q).
Proof.
  intros HQ s s' r Hp. unfold syscall. destruct (f (now s)) as [t|e] eqn:E'; intros [= <- <-].
  - destruct (HQ _ _ Hp E') as [Hi Hq]. exists [t]. by split_and!; [|auto|].
  - exists []. by split_and!; [apply passed_refl | |].
Qed.

Lemma triple_lift {A : Type} (P I : Tree → Prop) (r : res E A) (Q : A → Tree → Prop) :
  (∀ a t, r = Ok a → P t → Q a t) → triple P I (slift r) Q.
Proof.
  intros HQ s s' r' Hp [= <- <-]. exists []. split; [apply passed_refl|]. split; [done|]. eauto.
Qed.
End triples.

Lemma triple_ext {E A : Type} (P I : Tree → Prop) (m m' : M Fs E A) Q :
  (∀ s, m s = m' s) → triple P I m' Q → triple P I m Q.
Proof. intros Hm Ht s s' r Hp E'. rewrite Hm in E'. by apply (Ht s s' r). Qed.

Lemma triple_at {E A : Type} (P I : Tree → Prop) (m : M Fs E A) Q :
  (∀ t, P t → triple (λ t', t' = t) I m Q) → triple P I m Q.
Proof. intros Hm s s' r Hp. by apply (Hm _ Hp). Qed.

(** A failed or finished run ends in a tree it started from or passed. *)
Lemma triple_end {E A : Type} (P I : Tree → Prop) (m : M Fs E A) Q s s' r :
  triple P I m Q → (∀ t, P t → I t) → P (now s) → m s = (s', r) → I (now s').
Proof.
  intros Hm Hpi Hp Er. destruct (Hm s s' r Hp Er) as (l & [_ Hn] & Hf & _). rewrite Hn.
  destruct l as [|t l]; [by apply Hpi|]. by apply Forall_cons in Hf as [Ht _].
Qed.

(** A program that finishes: it returns a result, and the trees it passes
    through satisfy [I]. *)
Definition total {E A : Type} (P I : Tree → Prop) (m : M Fs E A) (Q : A → Tree → Prop) : Prop :=
  ∀ s, P (now s) → ∃ s' a new, m s = (s', Ok a) ∧ passed s s' new ∧ Forall I new ∧ Q a (now s').

Section totals.
Context {E : Type}.

Lemma total_ret {A : Type} (P I : Tree → Prop) (a : A) (Q : A → Tree → Prop) :
  (∀ t, P t → Q a t) → total (E := E) P I (sret a) Q.
Proof. intros HQ s Hp. exists s, a, []. split_and!; [done | apply passed_refl | done | auto]. Qed.

Lemma total_bind {A B : Type} (P I : Tree → Prop) (m : M Fs E A) (k : A → M Fs E B) R Q :
  total P I m R → (∀ a, total (R a) I (k a) Q) → total P I (sbind m k) Q.
Proof.
  intros Hm Hk s Hp. destruct (Hm s Hp) as (s1 & a & l & Em & Hl & Hi & Hr).
  destruct (Hk a s1 Hr) as (s2 & b & l' & Ek & Hl' & Hi' & Hq). exists s2, b, (l' ++ l).
  split_and!; [by unfold sbind; rewrite Em | by eapply passed_trans | by apply Forall_app | done].
Qed.

Lemma total_weaken {A : Type} (P P' I I' : Tree → Prop) (m : M Fs E A) Q Q' :
  (∀ t, P t → P' t) → (∀ t, I' t → I t) → (∀ a t, Q' a t → Q a t) →
  total P' I' m Q' → total P I m Q.
Proof.
  intros Hp Hi Hq Hm s Hs. destruct (Hm s (Hp _ Hs)) as (s' & a & l & Em & Hl & Hf & Hr).
  exists s', a, l. split_and!; auto. by eapply Forall_impl.
Qed.

Lemma total_ext {A : Type} (P I : Tree → Prop) (m m' : M Fs E A) Q :
  (∀ s, m s = m' s) → total P I m' Q → total P I m Q.
Proof. intros Hm Ht s Hp. rewrite Hm. by apply Ht. Qed.

Lemma total_at {A : Type} (P I : Tree → Prop) (m : M Fs E A) Q :
  (∀ t, P t → total (λ t', t' = t) I m Q) → total P I m Q.
Proof. intros Hm s Hp. by apply (Hm _ Hp). Qed.

Lemma total_assume {A : Type} (φ : Prop) (P I : Tree → Prop) (m : M Fs E A) Q :
  (φ → total P I m Q) → total (λ t, φ ∧ P t) I m Q.
Proof. intros Hm s [Hφ Hp]. by apply Hm. Qed.

Lemma total_query {A : Type} (P I : Tree → Prop) (f : Tree → res IoError A) Q :
  (∀ t, P t → ∃ a, f t = Ok a ∧ Q a t) → total P I (query f) Q.
Proof.
  intros HQ s Hp. destruct (HQ _ Hp) as (a & Ea & Hq). exists s, a, [].
  split_and!; [unfold query; by rewrite Ea | apply passed_refl | done | done].
Qed.

Lemma total_syscall (P I : Tree → Prop) (f : Tree → res IoError Tree) (Q : Tree → Prop) :
  (∀ t, P t → ∃ t', f t = Ok t' ∧ I t' ∧ Q t') → total P I (syscall f) (λ _, Q).
Proof.
  intros HQ s Hp. destruct (HQ _ Hp) as (t & Et & Hi & Hq). exists (mkFs t (t :: seen s)), tt, [t].
  unfold syscall. rewrite Et. by split_and!; [| |auto|].
Qed.
End totals.

Lemma total_triple {E A : Type} (P I : Tree → Prop) (m : M Fs E A) Q : total P I m Q → triple P I m Q.
Proof.
  intros Hm s s' r Hp E'. destruct (Hm s Hp) as (s1 & a & l & Em & Hl & Hi & Hq). rewrite E' in Em.
  injection Em as -> ->. exists l. split_and!; auto. by intros b [= <-].
Qed.

(* ------------------------------------------------------------------ *)
(** ** Nodes *)

(** Absent or a plain file: nothing a write would follow or refuse. *)
Definition plain (t : Tree) (p : Path) : Prop :=
  match t !! p with None | Some (File _ _) => True | _ => False end.
(** The text a plain file holds. *)
Definition text (t : Tree) (p : Path) : option string :=
  match t !! p with Some (File _ c) => Some c | _ => None end.

Definition same_but (X : list Path) (t t' : Tree) : Prop := ∀ q, q ∉ X → t' !! q = t !! q.

Lemma same_but_refl X t : same_but X t t.
Proof. done. Qed.
Lemma same_but_trans X t1 t2 t3 : same_but X t1 t2 → same_but X t2 t3 → same_but X t1 t3.
Proof. intros H1 H2 q Hq. by rewrite H2, H1. Qed.
Lemma same_but_mono X Y t t' : (∀ q, q ∈ X → q ∈ Y) → same_but X t t' → same_but Y t t'.
Proof. intros HXY Hs q Hq. apply Hs. auto. Qed.
Lemma same_but_insert X t p n : p ∈ X → same_but X t (<[p := n]> t).
Proof. intros Hp q Hq. rewrite lookup_insert_ne; [done|]. by intros ->. Qed.
Lemma same_but_delete X t p : p ∈ X → same_but X t (delete p t).
Proof. intros Hp q Hq. rewrite lookup_delete_ne; [done|]. by intros ->. Qed.

Lemma resolve_plain t p : plain t p → resolve t p = Some p.
Proof. unfold plain, resolve. simpl. by destruct (t !! p) as [[]|]. Qed.

Lemma contents_plain t p : plain t p → contents_at t p = ok_or IoError.NotFound (text t p).
Proof. intros Hp. unfold contents_at. rewrite (resolve_plain _ _ Hp). unfold plain, text in *. by destruct (t !! p) as [[]|]. Qed.

Lemma is_dir_same X t t' p : same_but X t t' → (∀ q, q ∈ X → plain t q ∧ plain t' q) → p ∉ X →
  (∀ to, t !! p ≠ Some (Link to)) → is_dir t' p = is_dir t p.
Proof.
  intros Hs _ Hp Hl. unfold is_dir, resolve. cbn [follow]. rewrite (Hs p Hp).
  destruct (t !! p) as [[| |to]|] eqn:E'; rewrite ?(Hs p Hp), ?E'; try done. by destruct (Hl to).
Qed.

(* ------------------------------------------------------------------ *)
(** ** Whole programs *)

(** The bytes arrive one by one; the rest of the tree stays. *)
Definition writing (f : Path) (m : Z) (pre c : string) (t0 t : Tree) : Prop :=
  ∃ part rest, c = part +:+ rest ∧ t = <[f := File m (pre +:+ part)]> t0.

Lemma writing_same_but f m pre c t0 t : writing f m pre c t0 t → same_but [f] t0 t.
Proof. intros (part & rest & _ & ->). apply same_but_insert, list_elem_of_here. Qed.

Lemma total_write_all f c : ∀ t0 m pre, t0 !! f = Some (File m pre) →
  total (λ t, t = t0) (writing f m pre c t0) (write_all f c) (λ _ t, t = <[f := File m (pre +:+ c)]> t0).
Proof.
  induction c as [|x c IH]; intros t0 m pre Hf; cbn [write_all].
  - apply total_ret. intros t ->. symmetry. apply insert_id. by rewrite str_app_nil_r.
  - eapply total_bind with (R := λ _ t, t = <[f := File m (pre +:+ String x "")]> t0).
    + apply total_syscall. intros t ->. eexists. rewrite Hf. split; [done|]. split; [|done].
      by exists (String x ""), c.
    + intros []. eapply total_weaken; [intros t Ht; exact Ht | | | apply (IH _ m (pre +:+ String x ""))].
      * intros t (part & rest & -> & ->). exists (String x part), rest. split; [done|].
        rewrite insert_insert_eq. by rewrite str_app_assoc.
      * intros _ t ->. rewrite insert_insert_eq. by rewrite str_app_assoc.
      * by rewrite lookup_insert_eq.
Qed.

(** Only missing directories on the way to [p] appear. *)
Definition adds_dirs (umask : Z) (p : Path) (t t' : Tree) : Prop :=
  ∀ q, t' !! q = t !! q ∨ (q `prefix_of` p ∧ t !! q = None ∧ t' !! q = Some (Dir (masked umask 511))).

Lemma adds_dirs_refl umask p t : adds_dirs umask p t t.
Proof. by left. Qed.
Lemma adds_dirs_insert umask p q t t' : adds_dirs umask p t t' → q `prefix_of` p → t' !! q = None →
  adds_dirs umask p t (<[q := Dir (masked umask 511)]> t').
Proof.
  intros Ha Hp Hq r. destruct (decide (r = q)) as [->|Hn].
  - right. rewrite lookup_insert_eq. destruct (Ha q) as [E|(_ & E & E')]; [|congruence].
    by rewrite <- E.
  - rewrite lookup_insert_ne by done. apply Ha.
Qed.
Lemma adds_dirs_plain umask p t t' q : adds_dirs umask p t t' → ¬ q `prefix_of` p → t' !! q = t !! q.
Proof. intros Ha Hn. destruct (Ha q) as [E|[Hp _]]; done. Qed.

Lemma parent_prefix p d : parent p = Some d → d `prefix_of` p.
Proof.
  destruct p as [|c p]; [done|]. unfold parent. intros [= <-].
  exists (drop (length (c :: p) - 1) (c :: p)). by rewrite take_drop.
Qed.

Lemma mkdir_cases umask p s s' r : mkdir umask p s = (s', r) →
  (∃ e, r = Err e ∧ s' = s) ∨
  (r = Ok tt ∧ now s !! p = None ∧
   s' = mkFs (<[p := Dir (masked umask 511)]> (now s)) (<[p := Dir (masked umask 511)]> (now s) :: seen s)).
Proof.
  unfold mkdir, syscall. destruct (parent_ok (now s) p) as [[]|e]; simpl; [|intros [= <- <-]; eauto].
  destruct (now s !! p); intros [= <- <-]; eauto.
Qed.

(** [create_dir_all] adds the missing directories, whether it succeeds or not. *)
Lemma create_dir_passed umask t0 p0 fuel : ∀ p s s' r, p `prefix_of` p0 → adds_dirs umask p0 t0 (now s) →
  create_dir_fuel umask fuel p s = (s', r) →
  ∃ new, passed s s' new ∧ Forall (adds_dirs umask p0 t0) new ∧ adds_dirs umask p0 t0 (now s').
Proof.
  assert (Hmk : ∀ p s s' r, p `prefix_of` p0 → adds_dirs umask p0 t0 (now s) → mkdir umask p s = (s', r) →
    ∃ new, passed s s' new ∧ Forall (adds_dirs umask p0 t0) new ∧ adds_dirs umask p0 t0 (now s')).
  { intros p s s' r Hp Ha [(e & -> & ->)|(-> & Hn & ->)]%mkdir_cases.
    - exists []. by split_and!; [apply passed_refl | |].
    - eexists [_]. split; [done|]. split; [apply Forall_singleton|]; by apply adds_dirs_insert. }
  induction fuel as [|fuel IH]; intros p s s' r Hp Ha; cbn [create_dir_fuel];
    destruct (mkdir umask p s) as [s1 [u|e]] eqn:E1; pose proof (Hmk _ _ _ _ Hp Ha E1) as Hm1;
    try (intros [= <- <-]; exact Hm1);
    apply mkdir_cases in E1 as [(? & [= <-] & ->)|[? _]]; try done;
    destruct (bool_decide _); try (destruct (is_dir _ _); intros [= <- <-]; exact Hm1);
    destruct (parent p) as [d|] eqn:Ed; try (intros [= <- <-]; exact Hm1).
  apply parent_prefix in Ed. unfold sbind.
  assert (Hd : d `prefix_of` p0) by (by transitivity p).
  destruct (create_dir_fuel umask fuel d s) as [s2 [u2|e2]] eqn:E2; destruct (IH _ _ _ _ Hd Ha E2) as (l & Hl & Hf & H2);
    [|by intros [= <- <-]; exists l].
  destruct (mkdir umask p s2) as [s3 r3] eqn:E3. destruct (Hmk _ _ _ _ Hp H2 E3) as (l' & Hl' & Hf' & H3).
  assert (∃ new, passed s s3 new ∧ Forall (adds_dirs umask p0 t0) new ∧ adds_dirs umask p0 t0 (now s3)).
  { exists (l' ++ l). split_and!; [by eapply passed_trans | by apply Forall_app | done]. }
  destruct r3 as [u3|e3]; [by intros [= <- <-]|]. by destruct (is_dir (now s3) p); intros [= <- <-].
Qed.

Lemma create_dir_all_adds umask p t0 :
  triple (λ t, t = t0) (adds_dirs umask p t0) (create_dir_all umask p) (λ _, adds_dirs umask p t0).
Proof.
  intros s s' r Hs E. destruct (create_dir_passed umask t0 p (length p) p s s' r) as (l & Hl & Hf & Ha); try done.
  - rewrite Hs. apply adds_dirs_refl.
  - exists l. by split_and!.
Qed.

(** Nothing happens to a directory that is there. *)
Lemma create_dir_all_there umask p s m : parent_ok (now s) p = Ok tt → now s !! p = Some (Dir m) →
  create_dir_all umask p s = (s, Ok tt).
Proof.
  intros Hp Hd. unfold create_dir_all.
  assert (Hi : is_dir (now s) p = true).
  { unfold is_dir, resolve. cbn [follow]. by rewrite Hd, Hd. }
  assert (Hm : mkdir umask p s = (s, Err IoError.AlreadyExists)).
  { unfold mkdir, syscall. by rewrite Hp, Hd. }
  destruct p as [|c p]; [done|]. cbn [length create_dir_fuel]. rewrite Hm. rewrite bool_decide_true by done.
  by rewrite Hi.
Qed.

Lemma components_plain name : has_char "/"%char name = false → name ≠ "" → name ≠ "." → components name = [name].
Proof.
  intros Hs He Hd. unfold components. rewrite split_char_none by done. by rewrite filter_cons_True.
Qed.
Lemma join_plain dir name : has_char "/"%char name = false → name ≠ "" → name ≠ "." →
  path_join dir name = dir ++ [name].
Proof.
  intros Hs He Hd. unfold path_join. rewrite components_plain by done.
  destruct (String.prefix "/" name) eqn:Hp; [|done].
  apply prefix_spec in Hp as [b ->]. discriminate Hs.
Qed.

Lemma with_extension_snoc d name ext : with_extension (d ++ [name]) ext = d ++ [file_stem name +:+ "." +:+ ext].
Proof.
  unfold with_extension, file_name. rewrite last_snoc. f_equal. rewrite length_app. simpl.
  replace (length d + 1 - 1)%nat with (length d) by lia. by rewrite take_app_length.
Qed.

Lemma parent_snoc d name : parent (d ++ [name]) = Some d.
Proof.
  unfold parent. rewrite length_app. simpl. replace (length d + 1 - 1)%nat with (length d) by lia.
  rewrite take_app_length. by destruct d.
Qed.

Lemma snoc_not_prefix (d : Path) name : ¬ (d ++ [name]) `prefix_of` d.
Proof. intros H%prefix_length. rewrite length_app in H. simpl in H. lia. Qed.

(* ------------------------------------------------------------------ *)
(** ** Replacing a file

    The contents go to a temporary file that is made private and renamed over
    the file. *)

Lemma text_same X t t' q : same_but X t t' → q ∉ X → text t' q = text t q.
Proof. intros Hs Hq. unfold text. by rewrite (Hs q Hq). Qed.
Lemma plain_same X t t' q : same_but X t t' → q ∉ X → plain t q → plain t' q.
Proof. intros Hs Hq. unfold plain. by rewrite (Hs q Hq). Qed.

(** A replaced file: private, and without the temporary one. *)
Definition written (p tmp : Path) (c : string) (t : Tree) : Tree := <[p := File 384 c]> (delete tmp t).

Lemma written_same_but p tmp c t : same_but [tmp; p] t (written p tmp c t).
Proof.
  unfold written. eapply same_but_trans; [apply same_but_delete, list_elem_of_here|].
  apply same_but_insert, list_elem_of_further, list_elem_of_here.
Qed.
Lemma text_written p tmp c t q : q ≠ tmp → text (written p tmp c t) q = if decide (q = p) then Some c else text t q.
Proof.
  intros Hq. unfold written, text. destruct (decide (q = p)) as [->|Hn]; [by rewrite lookup_insert_eq|].
  by rewrite lookup_insert_ne, lookup_delete_ne.
Qed.

Section replacing.
Context (umask : Z) (p tmp : Path) (c : string) (t0 : Tree).
Hypothesis Htmp : plain t0 tmp.
Hypothesis Hp : plain t0 p.
Hypothesis Hne : tmp ≠ p.

(** The temporary file is on its way, or the file is replaced. *)
Definition before_or_written (t : Tree) : Prop :=
  (∃ m part, t = <[tmp := File m part]> t0) ∨ t = written p tmp c t0.

Lemma before_or_written_same t : before_or_written t → same_but [tmp] t0 t ∨ t = written p tmp c t0.
Proof. intros [(m & part & ->)|Hw]; [left; apply same_but_insert, list_elem_of_here | by right]. Qed.

Lemma total_create : (t0 !! tmp = None → parent_ok t0 tmp = Ok tt) →
  total (λ t, t = t0) before_or_written (create umask tmp)
    (λ f t, f = tmp ∧ ∃ m, t = <[tmp := File m ""]> t0).
Proof.
  intros Hpar s Hs. unfold create, sbind, syscall. rewrite Hs, (resolve_plain _ _ Htmp).
  assert (∃ m, match t0 !! tmp with
               | Some (File m _) => Ok (<[tmp := File m ""]> t0)
               | Some _ => Err IoError.IsADirectory
               | None => res_bind (parent_ok t0 tmp) (λ _, Ok (<[tmp := File (masked umask 438) ""]> t0))
               end = Ok (<[tmp := File m ""]> t0)) as [m ->].
  { unfold plain in Htmp. destruct (t0 !! tmp) as [[m ? | |]|]; try done; eauto.
    rewrite (Hpar eq_refl). by eexists. }
  eexists _, _, [_]. split_and!; [reflexivity | done | | done | by eexists].
  apply Forall_singleton. left. by eexists _, _.
Qed.

(** [perm] is what makes the temporary file private. *)
Context (perm : FM unit).
Hypothesis Hperm : ∀ s m, now s = <[tmp := File m c]> t0 →
  perm s = syscall (λ t, Ok (<[tmp := File 384 c]> t)) s.

Lemma total_rest m :
  total (λ t, t = <[tmp := File m ""]> t0) before_or_written
    (sbind (write_all tmp c) (λ _, sbind perm (λ _, rename tmp p)))
    (λ _ t, t = written p tmp c t0).
Proof.
  eapply total_bind with (R := λ _ t, t = <[tmp := File m c]> t0).
  - eapply total_weaken; [intros t Ht; exact Ht | | | apply (total_write_all _ _ _ m "")].
    + intros t (part & rest & _ & ->). left. rewrite insert_insert_eq. by eexists _, _.
    + intros _ t ->. by rewrite insert_insert_eq.
    + by rewrite lookup_insert_eq.
  - intros []. eapply total_bind with (R := λ _ t, t = <[tmp := File 384 c]> t0).
    + intros s Hs. rewrite (Hperm s m Hs). unfold syscall. rewrite Hs, insert_insert_eq.
      eexists _, _, [_]. split_and!; [reflexivity | done | | done].
      apply Forall_singleton. left. by eexists _, _.
    + intros []. apply total_syscall. intros t ->. rewrite lookup_insert_eq, lookup_insert_ne by done.
      rewrite bool_decide_false by done. exists (written p tmp c t0). unfold written.
      rewrite delete_insert_eq. split; [|by split; [right|]].
      unfold plain in Hp. by destruct (t0 !! p) as [[]|].
Qed.

#[local] Abbreviation replace_file :=
  (sbind (create umask tmp) (λ f, sbind (write_all f c) (λ _, sbind perm (λ _, rename tmp p)))).

Lemma total_replace : (t0 !! tmp = None → parent_ok t0 tmp = Ok tt) →
  total (λ t, t = t0) before_or_written replace_file (λ _ t, t = written p tmp c t0).
Proof.
  intros Hpar. eapply total_bind; [by apply total_create|].
  intros f s [-> [m Hs]]. exact (total_rest m s Hs).
Qed.

Lemma triple_replace :
  triple (λ t, t = t0) before_or_written replace_file (λ _ t, t = written p tmp c t0).
Proof.
  destruct (decide (t0 !! tmp = None → parent_ok t0 tmp = Ok tt)) as [Hpar|Hpar];
    [by apply total_triple, total_replace|].
  intros s s' r Hs. unfold sbind at 1, create. rewrite Hs, (resolve_plain _ _ Htmp).
  unfold sbind, syscall. rewrite Hs.
  destruct (t0 !! tmp) eqn:E; [by destruct Hpar|].
  destruct (parent_ok t0 tmp) as [[]|e]; [by destruct Hpar|]. cbn [res_bind].
  intros [= <- <-]. exists []. split; [apply passed_refl|]. by split.
Qed.
End replacing.

(** [chmod] of the temporary file. *)
Lemma chmod_file tmp m c t0 s : now s = <[tmp := File m c]> t0 →
  chmod tmp 384 s = syscall (λ t, Ok (<[tmp := File 384 c]> t)) s.
Proof.
  intros Hs. unfold chmod, syscall. rewrite Hs, resolve_plain by (unfold plain; by rewrite lookup_insert_eq).
  by rewrite lookup_insert_eq.
Qed.
