(* ===== verification/SshFiles.v ===== *)
(** * SshFiles: writing the ssh configuration ([src/src/sshconfig.rs])

    [apply] as the program makes it, call by call on a file tree: both files
    are written to a temporary one that is renamed over them.  [SshConfig.v] has
    what the result must be; here the calls are proved to reach it, and to
    leave each file old or new wherever they stop. *)

From Stdlib Require Import ZArith Lia Ascii String.
From S2P Require Import Prelude Text Record Validate SshConfig Files FilesFacts.

#[local] Open Scope string_scope.
#[local] Open Scope list_scope.
#[local] Open Scope Z_scope.

(** What ends an [apply] early: an I/O error, or the panic of [render]. *)
Inductive ApplyFailure := FromIo (e : IoError) | Panicked.

Record Applied := mkApplied { managed_path : Path; include_added : bool }.

Section calls.
Context (umask : Z).
#[local] Open Scope mon_scope.

Definition atomic_write (path : Path) (contents : string) : FM unit :=
  let tmp := with_extension path "sshvault-tmp" in
  do f <- create umask tmp;
  run write_all f contents;
  run chmod tmp 384;
  rename tmp path.

(** [fs::read], a missing file being empty. *)
Definition read_or_empty (path : Path) : FM string := λ s,
  match read path s with
  | (s, Err IoError.NotFound) => (s, Ok "")
  | r => r
  end.

(** The lossy decoding changes neither line breaks nor ASCII text nor white
    space, which is all the search looks at. *)
Definition include_file (config_path : Path) (include_target : string) : FM bool :=
  do existing <- read_or_empty config_path;
  if existsb is_include (lines existing) then sret false
  else
    run atomic_write config_path ("Include " +:+ include_target +:+ nl +:+ nl +:+ existing);
    sret true.

Definition include_target (home : option Path) (ssh_dir : Path) : string :=
  if bool_decide (Some ssh_dir = (λ h, path_join h ".ssh") <$> home)
  then "~/.ssh/" +:+ MANAGED_FILE
  else show_path (path_join ssh_dir MANAGED_FILE).

Definition io {A} (m : FM A) : M Fs ApplyFailure A := λ s,
  let '(s, r) := m s in (s, res_map_err FromIo r).

Definition apply_files (home : option Path) (hosts : list Host) (forwards : list PortForward)
    (ssh_dir : Path) : M Fs ApplyFailure Applied :=
  run io (create_dir_all umask ssh_dir);
  let managed_path := path_join ssh_dir MANAGED_FILE in
  do content <- slift (ok_or Panicked (render hosts forwards));
  run io (atomic_write managed_path content);
  do added <- io (include_file (path_join ssh_dir "config") (include_target home ssh_dir));
  sret (mkApplied managed_path added).
End calls.

(* ------------------------------------------------------------------ *)
(** ** One file *)

Section facts.
Context (umask : Z).

Lemma total_atomic_write p tmp c t0 : with_extension p "sshvault-tmp" = tmp → plain t0 tmp → plain t0 p → tmp ≠ p →
  (t0 !! tmp = None → parent_ok t0 tmp = Ok tt) →
  total (λ t, t = t0) (before_or_written p tmp c t0) (atomic_write umask p c) (λ _ t, t = written p tmp c t0).
Proof. intros <- Ht Hp Hn. exact (total_replace umask p _ c t0 Ht Hp Hn _ (λ s m, chmod_file _ m c t0 s)). Qed.

Lemma triple_atomic_write p tmp c t0 : with_extension p "sshvault-tmp" = tmp → plain t0 tmp → plain t0 p → tmp ≠ p →
  triple (λ t, t = t0) (before_or_written p tmp c t0) (atomic_write umask p c) (λ _ t, t = written p tmp c t0).
Proof. intros <- Ht Hp Hn. exact (triple_replace umask p _ c t0 Ht Hp Hn _ (λ s m, chmod_file _ m c t0 s)). Qed.

(* ------------------------------------------------------------------ *)
(** ** The two files *)

Section apply.
Context (home : option Path) (hosts : list Host) (forwards : list PortForward) (dir : Path).
#[local] Abbreviation managed_file := (dir ++ [MANAGED_FILE]).
#[local] Abbreviation managed_tmp := (dir ++ ["sshvault.sshvault-tmp"]).
#[local] Abbreviation config_file := (dir ++ ["config"]).
#[local] Abbreviation config_tmp := (dir ++ ["config.sshvault-tmp"]).

(** The paths an apply writes. *)
Definition four : list Path := [managed_file; managed_tmp; config_file; config_tmp].
(** The directory as [SshConfig.v] sees it. *)
Definition view (t : Tree) : SshDir := mkSshDir (text t managed_file) (text t config_file).
Definition ordinary (t : Tree) : Prop := ∀ p, p ∈ four → plain t p.

Lemma managed_ext : with_extension managed_file "sshvault-tmp" = managed_tmp.
Proof. exact (with_extension_snoc dir MANAGED_FILE "sshvault-tmp"). Qed.
Lemma config_ext : with_extension config_file "sshvault-tmp" = config_tmp.
Proof. exact (with_extension_snoc dir "config" "sshvault-tmp"). Qed.

Lemma snoc_ne (a b : string) : a ≠ b → dir ++ [a] ≠ dir ++ [b].
Proof. intros Hab E. apply (app_inj_2 dir dir) in E as [_ E]; [by injection E | done]. Qed.


(** What an interrupted apply may have done to [t0]: each file is old or new,
    and besides its temporary files only missing directories appeared. *)
Record halfway (t0 : Tree) (content new_config : string) (t : Tree) : Prop := {
  half_managed : text t managed_file = text t0 managed_file ∨ text t managed_file = Some content;
  half_config : text t config_file = text t0 config_file ∨ text t config_file = Some new_config;
  half_rest : ∀ q, q ∉ four → t !! q = t0 !! q ∨ (q `prefix_of` dir ∧ t0 !! q = None ∧ t !! q = Some (Dir (masked umask 511)))
}.

Definition config_text (t : Tree) : string := default "" (text t config_file).
Definition with_include (t : Tree) : string :=
  "Include " +:+ include_target home dir +:+ nl +:+ nl +:+ config_text t.

Lemma four_managed : managed_file ∈ four.
Proof. apply list_elem_of_here. Qed.
Lemma four_config : config_file ∈ four.
Proof. apply list_elem_of_further, list_elem_of_further, list_elem_of_here. Qed.
Lemma four_managed_tmp : managed_tmp ∈ four.
Proof. apply list_elem_of_further, list_elem_of_here. Qed.
Lemma four_config_tmp : config_tmp ∈ four.
Proof. do 3 apply list_elem_of_further. apply list_elem_of_here. Qed.

Lemma not_in_pair (a b c : string) : c ≠ a → c ≠ b → dir ++ [c] ∉ [dir ++ [a]; dir ++ [b]].
Proof.
  intros Ha Hb [E|[E|E]%elem_of_cons]%elem_of_cons; [by eapply snoc_ne in E | by eapply snoc_ne in E |].
  by apply not_elem_of_nil in E.
Qed.
Lemma not_in_one (a c : string) : c ≠ a → dir ++ [c] ∉ [dir ++ [a]].
Proof. intros Ha E%list_elem_of_singleton. by eapply snoc_ne in E. Qed.

(** Reading the configuration. *)
Lemma read_config t0 s : plain t0 config_file → now s = t0 →
  read_or_empty config_file s = (s, Ok (config_text t0)).
Proof.
  intros Hp Hs. unfold read_or_empty, read, query. rewrite Hs, (contents_plain _ _ Hp). unfold config_text.
  by destruct (text t0 config_file).
Qed.

(** What the Include edit does, as [SshConfig.v] has it. *)
Lemma ensure_include_text t :
  ensure_include (text t config_file) (include_target home dir) =
  if existsb is_include (lines (config_text t)) then (text t config_file, false)
  else (Some (with_include t), true).
Proof. unfold ensure_include, with_include, config_text. by destruct (text t config_file). Qed.

Definition included (t0 t : Tree) (added : bool) : Prop :=
  (text t config_file, added) = ensure_include (text t0 config_file) (include_target home dir) ∧
  same_but [config_tmp; config_file] t0 t.

Lemma include_steps t0 (Ht : plain t0 config_tmp) (Hp : plain t0 config_file) :
  let I := before_or_written config_file config_tmp (with_include t0) t0 in
  triple (λ t, t = t0) I (include_file umask config_file (include_target home dir)) (λ added t, included t0 t added) ∧
  ((t0 !! config_tmp = None → parent_ok t0 config_tmp = Ok tt) →
   total (λ t, t = t0) I (include_file umask config_file (include_target home dir)) (λ added t, included t0 t added)).
Proof.
  cbv zeta. assert (Hne : config_tmp ≠ config_file) by (by apply snoc_ne).
  assert (Hw : included t0 (written config_file config_tmp (with_include t0) t0) true ∨
               existsb is_include (lines (config_text t0)) = true).
  { destruct (existsb _ _) eqn:E; [by right | left]. split; [|apply written_same_but].
    rewrite ensure_include_text, E, text_written, decide_True by done. done. }
  assert (Hq : existsb is_include (lines (config_text t0)) = true → included t0 t0 false).
  { intros E. split; [by rewrite ensure_include_text, E | done]. }
  split; [|intros Hpar].
  - intros s s' r Hs. unfold include_file, sbind at 1. rewrite (read_config t0 s Hp Hs).
    destruct (existsb is_include (lines (config_text t0))) eqn:E.
    + intros [= <- <-]. exists []. split_and!; [apply passed_refl | done |]. intros b [= <-]. rewrite Hs. by apply Hq.
    + destruct Hw as [Hw|]; [|done]. intros Er.
      refine (triple_bind (λ t, t = t0) _ _ _ _ (λ added t, included t0 t added) (triple_atomic_write _ _ _ t0 config_ext Ht Hp Hne) _ s s' r Hs Er).
      intros []. apply triple_ret. by intros t ->.
  - intros s Hs. unfold include_file, sbind at 1. rewrite (read_config t0 s Hp Hs).
    destruct (existsb is_include (lines (config_text t0))) eqn:E.
    + eexists s, _, []. split_and!; [done | apply passed_refl | done |]. rewrite Hs. by apply Hq.
    + destruct Hw as [Hw|]; [|done].
      refine (total_bind (λ t, t = t0) _ _ _ _ (λ added t, included t0 t added) (total_atomic_write _ _ _ t0 config_ext Ht Hp Hne Hpar) _ s Hs).
      intros []. apply total_ret. by intros t ->.
Qed.

Lemma triple_io {A : Type} (P I : Tree → Prop) (m : FM A) Q : triple P I m Q → triple P I (io m) Q.
Proof.
  intros Hm s s' r Hp. unfold io. destruct (m s) as [s1 r1] eqn:E. intros [= <- <-].
  destruct (Hm s s1 r1 Hp E) as (l & Hl & Hi & Hq). exists l. split_and!; auto.
  intros a Ha. apply Hq. destruct r1; [by injection Ha as -> | done].
Qed.
Lemma total_io {A : Type} (P I : Tree → Prop) (m : FM A) Q : total P I m Q → total P I (io m) Q.
Proof.
  intros Hm s Hp. destruct (Hm s Hp) as (s1 & a & l & E & H'). exists s1, a, l. unfold io. by rewrite E.
Qed.

Section whole.
Context (t0 : Tree) (content : string).
Hypothesis Hcontent : render hosts forwards = Some content.
Hypothesis Hord : ordinary t0.

(** A tree where at most directories were added is as good as the first. *)
Lemma four_not_prefix q : q ∈ four → ¬ q `prefix_of` dir.
Proof.
  intros Hq. unfold four in Hq. rewrite !elem_of_cons, elem_of_nil in Hq.
  destruct Hq as [->|[->|[->|[->|[]]]]]; apply snoc_not_prefix.
Qed.
Lemma added_four t q : adds_dirs umask dir t0 t → q ∈ four → t !! q = t0 !! q.
Proof. intros Ha Hq. by apply (adds_dirs_plain _ _ _ _ _ Ha), four_not_prefix. Qed.
Lemma added_ordinary t : adds_dirs umask dir t0 t → ordinary t.
Proof. intros Ha q Hq. unfold plain. rewrite (added_four t q Ha Hq). by apply Hord. Qed.
Lemma added_text t q : adds_dirs umask dir t0 t → q ∈ four → text t q = text t0 q.
Proof. intros Ha Hq. unfold text. by rewrite (added_four t q Ha Hq). Qed.

#[local] Abbreviation managed_written t := (written managed_file managed_tmp content t).

Lemma halfway_added t : adds_dirs umask dir t0 t → halfway t0 content (with_include t0) t.
Proof.
  intros Ha. split; [left; by apply added_text, four_managed | left; by apply added_text, four_config |].
  intros q _. apply Ha.
Qed.

Lemma halfway_rest t t' : adds_dirs umask dir t0 t → same_but four t t' →
  ∀ q, q ∉ four → t' !! q = t0 !! q ∨ (q `prefix_of` dir ∧ t0 !! q = None ∧ t' !! q = Some (Dir (masked umask 511))).
Proof. intros Ha Hs q Hq. rewrite (Hs q Hq). apply Ha. Qed.

Lemma halfway_managed t t' : adds_dirs umask dir t0 t →
  before_or_written managed_file managed_tmp content t t' → halfway t0 content (with_include t0) t'.
Proof.
  intros Ha Hw%before_or_written_same.
  assert (Hs : same_but [managed_tmp; managed_file] t t').
  { destruct Hw as [Hs|Hs]; [|subst t'; apply written_same_but]. eapply same_but_mono; [|exact Hs].
    intros q Hq%list_elem_of_singleton. subst q. apply list_elem_of_here. }
  split.
  - destruct Hw as [Hs'|Hw].
    + left. rewrite (text_same _ _ _ _ Hs') by (by apply not_in_one). by apply added_text, four_managed.
    + right. subst t'. by rewrite text_written, decide_True by (done || by apply snoc_ne).
  - left. rewrite (text_same _ _ _ _ Hs) by (by apply not_in_pair). by apply added_text, four_config.
  - eapply halfway_rest; [exact Ha|]. eapply same_but_mono; [|exact Hs].
    intros q [Hq|[Hq|Hq]%elem_of_cons]%elem_of_cons; subst; [apply four_managed_tmp | apply four_managed |].
    by apply not_elem_of_nil in Hq.
Qed.

Lemma written_config t : adds_dirs umask dir t0 t →
  text (managed_written t) config_file = text t0 config_file ∧
  text (managed_written t) managed_file = Some content ∧
  plain (managed_written t) config_tmp ∧ plain (managed_written t) config_file.
Proof.
  intros Ha. assert (Hs : same_but [managed_tmp; managed_file] t (managed_written t)) by apply written_same_but.
  split_and!.
  - rewrite (text_same _ _ _ _ Hs) by (by apply not_in_pair). by apply added_text, four_config.
  - by rewrite text_written, decide_True by (done || by apply snoc_ne).
  - eapply plain_same; [exact Hs | by apply not_in_pair | by apply added_ordinary, four_config_tmp].
  - eapply plain_same; [exact Hs | by apply not_in_pair | by apply added_ordinary, four_config].
Qed.

Lemma with_include_written t : adds_dirs umask dir t0 t → with_include (managed_written t) = with_include t0.
Proof. intros Ha. unfold with_include, config_text. by rewrite (proj1 (written_config t Ha)). Qed.

Lemma halfway_config t t' : adds_dirs umask dir t0 t →
  before_or_written config_file config_tmp (with_include (managed_written t)) (managed_written t) t' →
  halfway t0 content (with_include t0) t'.
Proof.
  intros Ha Hw%before_or_written_same. rewrite (with_include_written t Ha) in Hw.
  destruct (written_config t Ha) as (Hc & Hm & _).
  assert (Hs : same_but [config_tmp; config_file] (managed_written t) t').
  { destruct Hw as [Hs|Hs]; [|subst t'; apply written_same_but]. eapply same_but_mono; [|exact Hs].
    intros q Hq%list_elem_of_singleton. subst q. apply list_elem_of_here. }
  split.
  - right. by rewrite (text_same _ _ _ _ Hs) by (by apply not_in_pair).
  - destruct Hw as [Hs'|Hw].
    + left. by rewrite (text_same _ _ _ _ Hs') by (by apply not_in_one).
    + right. subst t'. by rewrite text_written, decide_True by (done || by apply snoc_ne).
  - eapply halfway_rest; [exact Ha|]. intros q Hq. rewrite (Hs q), (written_same_but managed_file managed_tmp content t q).
    + done.
    + intros [E|[E|E]%elem_of_cons]%elem_of_cons; subst; [by apply Hq, four_managed_tmp | by apply Hq, four_managed |].
      by apply not_elem_of_nil in E.
    + intros [E|[E|E]%elem_of_cons]%elem_of_cons; subst; [by apply Hq, four_config_tmp | by apply Hq, four_config |].
      by apply not_elem_of_nil in E.
Qed.

Lemma apply_triple :
  triple (λ t, t = t0) (halfway t0 content (with_include t0)) (apply_files umask home hosts forwards dir) (λ _ _, True).
Proof.
  unfold apply_files. apply triple_bind with (R := λ _, adds_dirs umask dir t0).
  { apply triple_io. eapply triple_weaken; [| | |apply (create_dir_all_adds umask dir t0)]; [done | apply halfway_added | done]. }
  intros []. rewrite Hcontent.
  apply triple_bind with (R := λ c t, c = content ∧ adds_dirs umask dir t0 t).
  { apply triple_lift. by intros c t [= <-]. }
  intros c. apply triple_at. intros t [-> Ha].
  apply triple_bind with (R := λ _ t', t' = managed_written t).
  { apply triple_io. eapply triple_weaken; [| | |apply (triple_atomic_write managed_file managed_tmp content t managed_ext)].
    - done.
    - exact (λ t', halfway_managed t t' Ha).
    - done.
    - by apply added_ordinary, four_managed_tmp.
    - by apply added_ordinary, four_managed.
    - by apply snoc_ne. }
  intros []. destruct (written_config t Ha) as (_ & _ & Ht & Hp).
  apply triple_bind with (R := λ _ _, True).
  { apply triple_io. eapply triple_weaken; [| | |exact (proj1 (include_steps _ Ht Hp))].
    - done.
    - exact (λ t', halfway_config t t' Ha).
    - done. }
  intros added. by apply triple_ret.
Qed.

Lemma apply_total m : t0 !! dir = Some (Dir m) → parent_ok t0 dir = Ok tt →
  total (λ t, t = t0) (halfway t0 content (with_include t0)) (apply_files umask home hosts forwards dir)
    (λ a t, managed_path a = managed_file ∧ same_but four t0 t ∧
       view t = mkSshDir (Some content) (text t config_file) ∧
       (text t config_file, include_added a) = ensure_include (text t0 config_file) (include_target home dir)).
Proof.
  intros Hd Hpar. unfold apply_files.
  assert (Ha : adds_dirs umask dir t0 t0) by apply adds_dirs_refl.
  apply total_bind with (R := λ _ t, t = t0).
  { apply total_io. intros s Hs. exists s, tt, []. split; [|split; [apply passed_refl | done]].
    apply (create_dir_all_there umask dir s m); by rewrite Hs. }
  intros []. rewrite Hcontent. apply total_bind with (R := λ c t, c = content ∧ t = t0).
  { intros s Hs. exists s, content, []. by split; [|split; [apply passed_refl|]]. }
  intros c. apply total_assume. intros ->.
  assert (Hdir : is_dir t0 dir = true) by (unfold is_dir, resolve; cbn [follow]; by rewrite Hd, Hd).
  assert (Hdir' : is_dir (managed_written t0) dir = true).
  { assert (Hq : dir ∉ [managed_tmp; managed_file]).
    { intros Hq. assert (dir ∈ four) as Hf; [|by apply four_not_prefix in Hf].
      apply elem_of_cons in Hq as [E|Hq]; [rewrite E at 1; apply four_managed_tmp|].
      apply list_elem_of_singleton in Hq. rewrite Hq at 1. apply four_managed. }
    pose proof (written_same_but managed_file managed_tmp content t0 dir Hq) as E.
    unfold is_dir, resolve. cbn [follow]. rewrite !E, Hd, E, Hd. done. }
  apply total_bind with (R := λ _ t, t = managed_written t0).
  { apply total_io. eapply total_weaken; [| | |apply (total_atomic_write managed_file managed_tmp content t0 managed_ext)].
    - done.
    - exact (λ t', halfway_managed t0 t' Ha).
    - done.
    - by apply Hord, four_managed_tmp.
    - by apply Hord, four_managed.
    - by apply snoc_ne.
    - intros _. unfold parent_ok. by rewrite parent_snoc, Hdir. }
  intros []. destruct (written_config t0 Ha) as (Hc & Hm & Ht & Hp).
  apply total_bind with (R := λ added t, included (managed_written t0) t added).
  { apply total_io. eapply total_weaken; [| | |apply (proj2 (include_steps _ Ht Hp))].
    - done.
    - exact (λ t', halfway_config t0 t' Ha).
    - done.
    - intros _. unfold parent_ok. by rewrite parent_snoc, Hdir'. }
  intros added. apply total_ret. intros t [Hi Hs]. rewrite Hc in Hi. split_and!; [done | | | done].
  - intros q Hq. rewrite (Hs q), (written_same_but managed_file managed_tmp content t0 q); [done | |];
      intros [E|[E|E]%elem_of_cons]%elem_of_cons; subst; (by apply not_elem_of_nil in E) ||
      (apply Hq; auto using four_managed, four_managed_tmp, four_config, four_config_tmp).
  - unfold view. by rewrite (text_same _ _ _ _ Hs), Hm by (by apply not_in_pair).
Qed.
End whole.
End apply.
End facts.

(** C20: an apply does what it should, call by call.  In an ordinary ssh
    directory it succeeds unless rendering panics, and leaves the two files as
    the specification of [SshConfig.v] has them and everything else alone. *)
Theorem apply_files_refines umask home hosts forwards dir s m :
  now s !! dir = Some (Dir m) → parent_ok (now s) dir = Ok tt → ordinary dir (now s) →
  match apply hosts forwards (include_target home dir) (view dir (now s)) with
  | None => apply_files umask home hosts forwards dir s = (s, Err Panicked)
  | Some (d, added) => ∃ s',
      apply_files umask home hosts forwards dir s = (s', Ok (mkApplied (path_join dir MANAGED_FILE) added)) ∧
      view dir (now s') = d ∧ same_but (four dir) (now s) (now s')
  end.
Proof.
  intros Hd Hpar Hord. unfold apply. destruct (render hosts forwards) as [content|] eqn:Hr; cbn [mbind option_bind].
  - destruct (apply_total umask home hosts forwards dir (now s) content Hr Hord m Hd Hpar s eq_refl)
      as (s' & [p added] & l & Hrun & _ & _ & Hp & Hsame & Hv & Hi).
    cbn [config view]. cbn [include_added] in Hi. rewrite <- Hi. exists s'. rewrite Hrun, <- Hv. simpl in Hp. by rewrite Hp.
  - unfold apply_files, sbind, io. rewrite (create_dir_all_there umask dir s m) by done. cbn [res_map_err].
    by rewrite Hr.
Qed.

(** C21: an interrupted apply loses nothing.  At every point of a run, however
    it ends and whether or not the directory was there, the user's
    configuration is the old one or the old one under the Include line, the
    managed file is the old or the new one, and besides its two temporary files
    at most missing directories appeared. *)
Theorem apply_interrupted umask home hosts forwards dir s s' r :
  ordinary dir (now s) → apply_files umask home hosts forwards dir s = (s', r) →
  ∃ new, passed s s' new ∧ Forall (λ t,
    let config := text (now s) (path_join dir "config") in
    (text t (path_join dir "config") = config ∨
     text t (path_join dir "config") =
       Some ("Include " +:+ include_target home dir +:+ nl +:+ nl +:+ default "" config)) ∧
    (text t (path_join dir MANAGED_FILE) = text (now s) (path_join dir MANAGED_FILE) ∨
     is_Some (render hosts forwards) ∧ text t (path_join dir MANAGED_FILE) = render hosts forwards) ∧
    ∀ q, q ∉ four dir → t !! q = now s !! q ∨
      (q `prefix_of` dir ∧ now s !! q = None ∧ t !! q = Some (Dir (masked umask 511)))) new.
Proof.
  intros Hord Hrun. destruct (render hosts forwards) as [content|] eqn:Hr.
  - destruct (apply_triple umask home hosts forwards dir (now s) content Hr Hord s s' r eq_refl Hrun) as (l & Hl & Hf & _).
    exists l. split; [exact Hl|]. eapply Forall_impl; [exact Hf|]. intros t [Hm Hc Hrest]. split; [exact Hc|].
    split; [|exact Hrest]. destruct Hm as [Hm|Hm]; [by left | by right].
  - assert (Ht : triple (λ t, t = now s) (adds_dirs umask dir (now s)) (apply_files umask home hosts forwards dir) (λ _ _, True)).
    { unfold apply_files. eapply triple_bind; [apply triple_io, create_dir_all_adds|]. intros []. rewrite Hr.
      eapply triple_bind with (R := λ _ _, False); [by apply triple_lift|]. by intros c s1 s2 r2 []. }
    destruct (Ht s s' r eq_refl Hrun) as (l & Hl & Hf & _). exists l. split; [exact Hl|].
    eapply Forall_impl; [exact Hf|]. intros t Ha. split_and!.
    + left. by apply (added_text umask dir (now s)); [|apply four_config].
    + left. by apply (added_text umask dir (now s)); [|apply four_managed].
    + intros q _. apply Ha.
Qed.

Module SampleTree.
Definition home : Path := ["home"; "u"].
Definition dir : Path := home ++ [".ssh"].
Definition tree : Tree :=
  <[["home"] := Dir 493]> (<[home := Dir 448]> (<[dir := Dir 448]>
  (<[dir ++ ["config"] := File 420 ("Host *" +:+ nl)]> ∅))).
Definition fs : Fs := mkFs tree [].
(** The same with the configuration kept elsewhere. *)
Definition linked : Fs :=
  mkFs (<[dir ++ ["config"] := Link (home ++ ["dotfiles"])]>
       (<[home ++ ["dotfiles"] := File 420 ("Host *" +:+ nl)]> tree)) [].
Lemma fs_ordinary : ordinary dir (now fs).
Proof. intros q Hq. unfold four in Hq. rewrite !elem_of_cons, elem_of_nil in Hq. destruct Hq as [->|[->|[->|[->|[]]]]]; exact I. Qed.
End SampleTree.
Import SampleTree.

Lemma apply_files_refines_witness :
  ∃ s', apply_files 18 (Some home) [SampleSsh.host] [SampleSsh.fwd] dir fs =
      (s', Ok (mkApplied (path_join dir MANAGED_FILE) true)) ∧
    text (now s') (dir ++ ["config"]) = Some ("Include ~/.ssh/sshvault.conf" +:+ nl +:+ nl +:+ "Host *" +:+ nl).
Proof.
  pose proof (apply_files_refines 18 (Some home) [SampleSsh.host] [SampleSsh.fwd] dir fs 448 eq_refl eq_refl fs_ordinary) as Hr.
  destruct (apply _ _ _ _) as [[d added]|] eqn:E; [|vm_compute in E; discriminate E].
  destruct Hr as (s' & Hrun & Hv & _).
  assert (Hd : config d = Some ("Include ~/.ssh/sshvault.conf" +:+ nl +:+ nl +:+ "Host *" +:+ nl) ∧ added = true).
  { vm_compute in E. injection E as <- <-. split; reflexivity. }
  destruct Hd as [Hc Ha]. exists s'. rewrite Hrun, Ha. split; [reflexivity|]. rewrite <- Hv in Hc. exact Hc.
Defined.

Lemma apply_interrupted_witness :
  ∃ new, passed fs (exec (apply_files 18 (Some home) [] [] dir) fs) new ∧
    Forall (λ t, text t (dir ++ ["config"]) = Some ("Host *" +:+ nl) ∨
                 text t (dir ++ ["config"]) = Some ("Include ~/.ssh/sshvault.conf" +:+ nl +:+ nl +:+ "Host *" +:+ nl)) new.
Proof.
  destruct (apply_interrupted 18 (Some home) [] [] dir fs (exec (apply_files 18 (Some home) [] [] dir) fs)
    (outcome (apply_files 18 (Some home) [] [] dir) fs) fs_ordinary (surjective_pairing _)) as (l & Hl & Hf).
  exists l. split; [exact Hl|]. eapply Forall_impl; [exact Hf|]. intros t [Hc _]. exact Hc.
Defined.

(** A configuration that is a link is replaced by a file, and the file it led
    to is no longer the configuration. *)
Example apply_replaces_link :
  let t := now (exec (apply_files 18 (Some home) [] [] dir) linked) in
  now linked !! (dir ++ ["config"]) = Some (Link (home ++ ["dotfiles"])) ∧
  text t (dir ++ ["config"]) = Some ("Include ~/.ssh/sshvault.conf" +:+ nl +:+ nl +:+ "Host *" +:+ nl) ∧
  text t (home ++ ["dotfiles"]) = Some ("Host *" +:+ nl).
Proof. vm_compute. by split_and!. Qed.
