(* ===== verification/VaultFiles.v ===== *)
(** * VaultFiles: the vault directory on the file system ([src/src/vault.rs])

    [Vault.v] takes the vault directory as four files that are written in one
    step.  Here are the calls that write them, on the trees of [Files.v]:
    metadata, keyring and snapshot go to a temporary file that is renamed into
    place, log frames are appended in place, and a new vault is three files
    written one after the other.  [disk_of] is the [Disk] a tree stands for; the
    theorems say what a crash at any point leaves of it. *)

From Stdlib Require Import ZArith Lia Ascii String.
From S2P Require Import Prelude Text Record Merge Extern Crypto Log Keyring Validate Vault Crud Lifecycle VaultInv CrudFacts VaultProps Files FilesFacts.

#[local] Open Scope string_scope.
#[local] Open Scope list_scope.
#[local] Open Scope Z_scope.

Definition META : string := "meta.json".
Definition KEYRING : string := "keyring.enc".
Definition LOG : string := "log.bin".
Definition LOCK : string := ".lock".
Definition SNAPSHOT : string := "snapshot.bin".

Section calls.
Context (umask : Z).
#[local] Open Scope mon_scope.

(** 700 for a directory, 600 for a file. *)
Definition restrict_permissions (path : Path) : FM unit := λ s,
  let mode := if is_dir (now s) path then 448 else 384 in chmod path mode s.

Definition atomic_write (path : Path) (contents : string) : FM unit :=
  let tmp := with_extension path "tmp" in
  do f <- create umask tmp;
  run write_all f contents;
  run restrict_permissions tmp;
  rename tmp path.

Context (dir : Path).

(** The file the lock is taken on; taking it changes nothing. *)
Definition lock : FM Path := open_or_create umask (path_join dir LOCK).

Definition put_meta (text : string) : FM unit := atomic_write (path_join dir META) text.
Definition put_keyring (sealed : bytes) : FM unit :=
  atomic_write (path_join dir KEYRING) (String.string_of_list_byte sealed).
Definition put_snapshot (sealed : bytes) : FM unit :=
  atomic_write (path_join dir SNAPSHOT) (String.string_of_list_byte sealed).
Definition write_frame_inner (entry_id : arr 16) (blob : bytes) : FM unit :=
  do f <- open_append (path_join dir LOG);
  write_all f (String.string_of_list_byte (frame entry_id blob)).

(** The files of a new vault, in the order they appear. *)
Definition create_files (keyring : bytes) (meta : string) : FM unit :=
  run create_dir_all umask dir;
  run restrict_permissions dir;
  run put_keyring keyring;
  run put_meta meta;
  run (do f <- create umask (path_join dir LOG); sret tt);
  restrict_permissions (path_join dir LOG).

(** What the two locked regions of a record operation do to the files: the new
    clock is stored, then the frame appended. *)
Definition store_clock (meta : string) : FM unit := run lock; put_meta meta.
Definition write_frame (entry_id : arr 16) (blob : bytes) : FM unit := run lock; write_frame_inner entry_id blob.
Definition save_record (meta : string) (entry_id : arr 16) (blob : bytes) : FM unit :=
  run store_clock meta;
  write_frame entry_id blob.
End calls.

(* ------------------------------------------------------------------ *)
(** ** The directory a tree stands for *)

Definition bytes_at (t : Tree) (p : Path) : option bytes := String.list_byte_of_string <$> text t p.
Definition disk_of (dir : Path) (t : Tree) : Disk :=
  mkDisk (text t (dir ++ [META])) (bytes_at t (dir ++ [KEYRING])) (bytes_at t (dir ++ [LOG])) (bytes_at t (dir ++ [SNAPSHOT])).

(** The names the vault uses, and the temporary ones. *)
Definition vault_names : list string :=
  [META; "meta.tmp"; KEYRING; "keyring.tmp"; SNAPSHOT; "snapshot.tmp"; LOG; LOCK].
Definition vault_paths (dir : Path) : list Path := (λ n, dir ++ [n]) <$> vault_names.

(** A directory with nothing odd under those names. *)
Record vault_tree (dir : Path) (t : Tree) : Prop := {
  vt_dir : ∃ m, t !! dir = Some (Dir m);
  vt_plain : ∀ n, n ∈ vault_names → plain t (dir ++ [n])
}.

(** The files that are replaced as a whole. *)
Inductive Store := PutMeta (text : string) | PutKeyring (sealed : bytes) | PutSnapshot (sealed : bytes).
Definition put (umask : Z) (dir : Path) (x : Store) : FM unit :=
  match x with
  | PutMeta text => put_meta umask dir text
  | PutKeyring sealed => put_keyring umask dir sealed
  | PutSnapshot sealed => put_snapshot umask dir sealed
  end.
Definition stored (x : Store) (d : Disk) : Disk :=
  match x with
  | PutMeta text => set_f_meta text d
  | PutKeyring sealed => set_f_keyring sealed d
  | PutSnapshot sealed => set_f_snapshot sealed d
  end.
Definition store_name (x : Store) : string :=
  match x with PutMeta _ => META | PutKeyring _ => KEYRING | PutSnapshot _ => SNAPSHOT end.
Definition store_tmp (x : Store) : string :=
  match x with PutMeta _ => "meta.tmp" | PutKeyring _ => "keyring.tmp" | PutSnapshot _ => "snapshot.tmp" end.
Definition store_text (x : Store) : string :=
  match x with PutMeta text => text | PutKeyring b | PutSnapshot b => String.string_of_list_byte b end.

Section facts.
Context (umask : Z) (dir : Path).
#[local] Abbreviation at_ n := (dir ++ [n]).

Lemma at_inj a b : at_ a = at_ b → a = b.
Proof. intros E. apply (app_inj_2 dir dir) in E as [_ E]; [by injection E | done]. Qed.

Lemma in_vault_paths n : n ∈ vault_names → at_ n ∈ vault_paths dir.
Proof. intros Hn. unfold vault_paths. apply list_elem_of_fmap. by exists n. Qed.

Lemma dir_not_vault_path : dir ∉ vault_paths dir.
Proof.
  intros (n & E & _)%list_elem_of_fmap. apply (f_equal length) in E. rewrite length_app in E. simpl in E. lia.
Qed.

Lemma vault_tree_same X t t' : same_but X t t' → (∀ p, p ∈ X → p ∈ vault_paths dir) → (∀ p, p ∈ X → plain t' p) →
  vault_tree dir t → vault_tree dir t'.
Proof.
  intros Hs HX Hp [[m Hd] Ht]. split.
  - exists m. rewrite (Hs dir); [done|]. intros Hin%HX. by apply dir_not_vault_path.
  - intros n Hn. destruct (decide (at_ n ∈ X)) as [Hin|Hin]; [by apply Hp|].
    eapply plain_same; [exact Hs | exact Hin | by apply Ht].
Qed.

Lemma vault_tree_parent t n : vault_tree dir t → parent_ok t (at_ n) = Ok tt.
Proof.
  intros [[m Hd] _]. unfold parent_ok. rewrite parent_snoc. unfold is_dir, resolve. cbn [follow]. by rewrite Hd, Hd.
Qed.

Lemma restrict_file p m c t0 s : now s = <[p := File m c]> t0 →
  restrict_permissions p s = syscall (λ t, Ok (<[p := File 384 c]> t)) s.
Proof.
  intros Hs. unfold restrict_permissions. unfold is_dir. rewrite Hs, resolve_plain by (unfold plain; by rewrite lookup_insert_eq).
  rewrite lookup_insert_eq. by apply (chmod_file p m c t0).
Qed.

Lemma names_of_store x : store_name x ∈ vault_names ∧ store_tmp x ∈ vault_names ∧ store_tmp x ≠ store_name x ∧
  store_tmp x ∉ [META; KEYRING; LOG; SNAPSHOT].
Proof. destruct x; split_and!; try done; apply (bool_decide_unpack _); vm_compute; done. Qed.

Lemma put_eq x : put umask dir x = atomic_write umask (at_ (store_name x)) (store_text x).
Proof. destruct x; cbn [put store_name store_text]; unfold put_meta, put_keyring, put_snapshot; by rewrite join_plain. Qed.

Lemma store_ext x : with_extension (at_ (store_name x)) "tmp" = at_ (store_tmp x).
Proof. rewrite with_extension_snoc. by destruct x. Qed.

(** What a tree says of the directory, by name. *)
Lemma disk_of_same t t' : (∀ n, n ∈ [META; KEYRING; LOG; SNAPSHOT] → text t' (at_ n) = text t (at_ n)) →
  disk_of dir t' = disk_of dir t.
Proof. intros Ht. unfold disk_of, bytes_at. by rewrite !Ht by (apply (bool_decide_unpack _); vm_compute; done). Qed.

Lemma disk_of_stored x t t' : (∀ n, n ∈ [META; KEYRING; LOG; SNAPSHOT] →
    text t' (at_ n) = if decide (n = store_name x) then Some (store_text x) else text t (at_ n)) →
  disk_of dir t' = stored x (disk_of dir t).
Proof.
  intros Ht. unfold disk_of, bytes_at. rewrite !Ht by (apply (bool_decide_unpack _); vm_compute; done).
  destruct x; cbn -[META KEYRING LOG SNAPSHOT]; unfold set_f_meta, set_f_keyring, set_f_snapshot; simpl;
    by rewrite ?list_byte_of_string_of_list_byte.
Qed.
(** Elsewhere nothing changes. *)
#[local] Abbreviation others t0 t := (same_but (vault_paths dir) t0 t).

Lemma others_pair t t' a b : a ∈ vault_names → b ∈ vault_names → same_but [at_ a; at_ b] t t' → others t t'.
Proof.
  intros Ha Hb. apply same_but_mono. intros q [->|[->|Hq]%elem_of_cons]%elem_of_cons;
    [by apply in_vault_paths | by apply in_vault_paths |]. by apply not_elem_of_nil in Hq.
Qed.

(** A tree on the way of a replacement. *)
Definition put_at (x : Store) (t0 t : Tree) : Prop :=
  vault_tree dir t ∧ others t0 t ∧ (disk_of dir t = disk_of dir t0 ∨ disk_of dir t = stored x (disk_of dir t0)).

Lemma written_tree x t0 : vault_tree dir t0 →
  let t := written (at_ (store_name x)) (at_ (store_tmp x)) (store_text x) t0 in
  vault_tree dir t ∧ others t0 t ∧ disk_of dir t = stored x (disk_of dir t0).
Proof.
  intros Ht t. destruct (names_of_store x) as (Hn & Htmp & Hne & Hfour).
  assert (Hs : same_but [at_ (store_tmp x); at_ (store_name x)] t0 t) by apply written_same_but.
  split_and!.
  - eapply vault_tree_same; [exact Hs | | | exact Ht].
    + intros q [->|[->|Hq]%elem_of_cons]%elem_of_cons; [by apply in_vault_paths | by apply in_vault_paths |].
      by apply not_elem_of_nil in Hq.
    + intros q [->|[->|Hq]%elem_of_cons]%elem_of_cons; [| |by apply not_elem_of_nil in Hq]; unfold plain, t, written.
      * rewrite lookup_insert_ne by (intros E%at_inj; by apply Hne). by rewrite lookup_delete_eq.
      * by rewrite lookup_insert_eq.
  - exact (others_pair _ _ _ _ Htmp Hn Hs).
  - apply disk_of_stored. intros n Hin. unfold t. rewrite text_written.
    + destruct (decide (n = store_name x)) as [->|Hd]; [by rewrite decide_True|].
      by rewrite decide_False by (intros E%at_inj; by apply Hd).
    + intros E%at_inj. by subst n.
Qed.

Lemma half_written_tree x t0 m part : vault_tree dir t0 → let t := <[at_ (store_tmp x) := File m part]> t0 in
  vault_tree dir t ∧ others t0 t ∧ disk_of dir t = disk_of dir t0.
Proof.
  intros Ht t. assert (Hs : same_but [at_ (store_tmp x)] t0 t) by apply same_but_insert, list_elem_of_here.
  assert (Hp : plain t (at_ (store_tmp x))) by (unfold plain, t; by rewrite lookup_insert_eq). destruct (names_of_store x) as (Hn & Htmp & Hne & Hfour). split_and!.
  - eapply vault_tree_same; [exact Hs | | | exact Ht]; intros q ->%list_elem_of_singleton; [by apply in_vault_paths | done].
  - eapply same_but_mono; [|exact Hs]. intros q ->%list_elem_of_singleton. by apply in_vault_paths.
  - apply disk_of_same. intros n Hin. eapply text_same; [exact Hs|]. intros E%list_elem_of_singleton%at_inj. by subst n.
Qed.
Lemma total_put x t0 : vault_tree dir t0 →
  total (λ t, t = t0) (put_at x t0) (put umask dir x)
    (λ _ t, vault_tree dir t ∧ others t0 t ∧ disk_of dir t = stored x (disk_of dir t0) ∧
            t !! at_ (store_name x) = Some (File 384 (store_text x)) ∧
            same_but [at_ (store_tmp x); at_ (store_name x)] t0 t).
Proof.
  intros Ht. destruct (names_of_store x) as (Hn & Htmp & Hne & _).
  assert (Hne' : at_ (store_tmp x) ≠ at_ (store_name x)) by (intros E%at_inj; by apply Hne).
  pose proof (total_replace umask (at_ (store_name x)) (at_ (store_tmp x)) (store_text x) t0 (vt_plain _ _ Ht _ Htmp)
    (vt_plain _ _ Ht _ Hn) Hne' (restrict_permissions (at_ (store_tmp x)))
    (λ s m, restrict_file _ m _ t0 s) (λ _, vault_tree_parent _ _ Ht)) as Hrun.
  rewrite put_eq. unfold atomic_write. rewrite store_ext.
  eapply total_weaken; [intros t E; exact E | | | exact Hrun].
  - intros t [(m & part & ->)| ->].
    + destruct (half_written_tree x t0 m part Ht) as (H1 & H2 & H3). split_and!; [done..|by left].
    + destruct (written_tree x t0 Ht) as (H1 & H2 & H3). split_and!; [done..|by right].
  - intros _ t ->. destruct (written_tree x t0 Ht) as (H1 & H2 & H3).
    split; [done|]. split; [done|]. split; [done|].
    split; [unfold written; by rewrite lookup_insert_eq | apply written_same_but].
Qed.

(** Taking the lock. *)
Lemma total_lock t0 : vault_tree dir t0 →
  let I t := vault_tree dir t ∧ others t0 t ∧ disk_of dir t = disk_of dir t0 in
  total (λ t, t = t0) I (lock umask dir) (λ _, I).
Proof.
  intros Ht I s Hs. assert (Hl : LOCK ∈ vault_names) by (apply (bool_decide_unpack _); vm_compute; done).
  pose proof (vt_plain _ _ Ht _ Hl) as Hp. unfold lock. rewrite join_plain by done.
  unfold open_or_create. rewrite Hs, (resolve_plain _ _ Hp). unfold plain in Hp.
  destruct (t0 !! at_ LOCK) as [[m c| |]|] eqn:E; try done.
  - eexists s, _, []. rewrite Hs. by split_and!; [|apply passed_refl|..].
  - unfold sbind, syscall. rewrite Hs, (vault_tree_parent _ _ Ht). cbn [res_bind].
    assert (HI : I (<[at_ LOCK := File (masked umask 438) ""]> t0)).
    { assert (Hsame : same_but [at_ LOCK] t0 (<[at_ LOCK := File (masked umask 438) ""]> t0)) by apply same_but_insert, list_elem_of_here.
      split_and!.
      - eapply vault_tree_same; [exact Hsame | | | exact Ht]; intros q ->%list_elem_of_singleton; [by apply in_vault_paths|].
        unfold plain. by rewrite lookup_insert_eq.
      - eapply same_but_mono; [|exact Hsame]. intros q ->%list_elem_of_singleton. by apply in_vault_paths.
      - apply disk_of_same. intros n Hin. eapply text_same; [exact Hsame|].
        intros ->%list_elem_of_singleton%at_inj. revert Hin. apply (bool_decide_unpack _). vm_compute. done. }
    eexists _, _, [_]. split_and!; [reflexivity | done | by apply Forall_singleton | exact HI].
Qed.

(** Appending a frame: at every point a first part of it is there. *)
Definition appended (old data : bytes) (t0 t : Tree) : Prop :=
  vault_tree dir t ∧ others t0 t ∧ disk_of dir t = set_f_log (old ++ data) (disk_of dir t0).

Lemma as_bytes_app a b : as_bytes (a +:+ b) = as_bytes a ++ as_bytes b.
Proof. induction a as [|x a IH]; [done|]. change (as_bytes (String x a +:+ b)) with (byte_of_ascii x :: as_bytes (a +:+ b)). by rewrite IH. Qed.

Lemma appended_insert t0 m pre part : vault_tree dir t0 → t0 !! at_ LOG = Some (File m pre) →
  appended (as_bytes pre) (as_bytes part) t0 (<[at_ LOG := File m (pre +:+ part)]> t0).
Proof.
  intros Ht Hf. set (t := <[_ := _]> t0). assert (Hs : same_but [at_ LOG] t0 t) by apply same_but_insert, list_elem_of_here.
  assert (Hl : LOG ∈ vault_names) by (apply (bool_decide_unpack _); vm_compute; done).
  split_and!.
  - eapply vault_tree_same; [exact Hs | | | exact Ht]; intros q ->%list_elem_of_singleton; [by apply in_vault_paths|].
    unfold plain, t. by rewrite lookup_insert_eq.
  - eapply same_but_mono; [|exact Hs]. intros q ->%list_elem_of_singleton. by apply in_vault_paths.
  - assert (Ho : ∀ n, n ≠ LOG → text t (at_ n) = text t0 (at_ n)).
    { intros n Hn. eapply text_same; [exact Hs|]. by intros E%list_elem_of_singleton%at_inj. }
    unfold disk_of, bytes_at, set_f_log. rewrite (Ho META), (Ho KEYRING), (Ho SNAPSHOT) by done. simpl. f_equal.
    unfold text, t. rewrite lookup_insert_eq. simpl. by rewrite as_bytes_app.
Qed.

Lemma total_frame eid blob t0 old : vault_tree dir t0 → f_log (disk_of dir t0) = Some old →
  total (λ t, t = t0) (λ t, ∃ n, appended old (take n (frame eid blob)) t0 t) (write_frame_inner dir eid blob)
    (λ _, appended old (frame eid blob) t0).
Proof.
  intros Ht Hold. unfold disk_of, bytes_at, text in Hold. simpl in Hold.
  destruct (t0 !! at_ LOG) as [[m pre| |]|] eqn:E; try done. simpl in Hold. injection Hold as <-.
  unfold write_frame_inner. rewrite join_plain by done.
  eapply total_bind with (R := λ f t, f = at_ LOG ∧ t = t0).
  { apply total_query. intros t ->. exists (at_ LOG). by rewrite resolve_plain, E by (unfold plain; by rewrite E). }
  intros f. apply total_assume. intros ->.
  eapply total_weaken; [intros t E'; exact E' | | | exact (total_write_all (at_ LOG) (String.string_of_list_byte (frame eid blob)) t0 m pre E)].
  - intros t (part & rest & Ep & ->). exists (length (as_bytes part)).
    apply (f_equal as_bytes) in Ep. rewrite list_byte_of_string_of_list_byte, as_bytes_app in Ep.
    rewrite Ep, take_app_length. by apply appended_insert.
  - intros _ t ->. rewrite <- (list_byte_of_string_of_list_byte (frame eid blob)) at 1. by apply appended_insert.
Qed.
(** A saved record: nothing yet, or the new metadata and a part of the frame. *)
Definition saving (meta : string) (old data : bytes) (t0 t : Tree) : Prop :=
  vault_tree dir t ∧ others t0 t ∧
  (disk_of dir t = disk_of dir t0 ∨ ∃ n, disk_of dir t = set_f_log (old ++ take n data) (set_f_meta meta (disk_of dir t0))).

Lemma total_save (meta : string) (eid : arr 16) (blob : bytes) (t0 : Tree) (old : bytes) : vault_tree dir t0 → f_log (disk_of dir t0) = Some old →
  total (λ t, t = t0) (saving meta old (frame eid blob) t0) (save_record umask dir meta eid blob)
    (λ _ t, vault_tree dir t ∧ others t0 t ∧
            disk_of dir t = set_f_log (old ++ frame eid blob) (set_f_meta meta (disk_of dir t0))).
Proof.
  intros Ht Hold. set (d0 := disk_of dir t0) in *. set (d1 := set_f_meta meta d0).
  assert (Hd1 : set_f_log (old ++ take 0 (frame eid blob)) d1 = d1).
  { rewrite take_0, app_nil_r. unfold set_f_log, d1. simpl. by rewrite <- Hold. }
  assert (Htrans : ∀ t t', others t0 t → others t t' → others t0 t') by (intros t t'; apply same_but_trans).
  apply (total_ext _ _ _ (sbind (lock umask dir) (λ _, sbind (put_meta umask dir meta) (λ _,
    sbind (lock umask dir) (λ _, write_frame_inner dir eid blob))))).
  { intros s. unfold save_record, store_clock, write_frame, sbind.
    destruct (lock umask dir s) as [s1 [u|e]]; [|done]. by destruct (put_meta umask dir meta s1). }
  apply total_bind with (R := λ _ t, vault_tree dir t ∧ others t0 t ∧ disk_of dir t = d0).
  { eapply total_weaken; [intros t E; exact E | | | exact (total_lock t0 Ht)].
    - intros t (H1 & H2 & H3). split_and!; [done..|by left].
    - intros u t Ht1. exact Ht1. }
  intros u. apply total_at. clear u. intros t1 (V1 & O1 & D1).
  apply total_bind with (R := λ _ t, vault_tree dir t ∧ others t0 t ∧ disk_of dir t = d1).
  { eapply total_weaken; [intros t E; exact E | | | exact (total_put (PutMeta meta) t1 V1)].
    - intros t (H1 & H2 & H3). rewrite D1 in H3. split_and!; [done | by eapply Htrans |].
      destruct H3 as [H3|H3]; [by left | right; exists 0%nat]. by transitivity d1.
    - intros u t (H1 & H2 & H3 & _). rewrite D1 in H3. split_and!; [done | by eapply Htrans | done]. }
  intros u. apply total_at. clear u. intros t2 (V2 & O2 & D2).
  apply total_bind with (R := λ _ t, vault_tree dir t ∧ others t0 t ∧ disk_of dir t = d1).
  { eapply total_weaken; [intros t E; exact E | | | exact (total_lock t2 V2)].
    - intros t (H1 & H2 & H3). split_and!; [done | by eapply Htrans |]. right. exists 0%nat. rewrite H3. by transitivity d1.
    - intros u t (H1 & H2 & H3). split_and!; [done | by eapply Htrans | by rewrite H3]. }
  intros u. apply total_at. clear u. intros t3 (V3 & O3 & D3).
  eapply total_weaken; [intros t E; exact E | | | apply (total_frame eid blob t3 old V3); by rewrite D3].
  - intros t (n & H1 & H2 & H3). rewrite D3 in H3. split_and!; [done | by eapply Htrans |]. right. by exists n.
  - intros u t (H1 & H2 & H3). rewrite D3 in H3. split_and!; [done | by eapply Htrans | done].
Qed.
(** A new vault appears file by file. *)
Inductive stage (keyring : bytes) (meta : string) : Disk → Prop :=
  | StageNone : stage keyring meta (mkDisk None None None None)
  | StageKeyring : stage keyring meta (mkDisk None (Some keyring) None None)
  | StageMeta : stage keyring meta (mkDisk (Some meta) (Some keyring) None None)
  | StageLog : stage keyring meta (mkDisk (Some meta) (Some keyring) (Some []) None).

Definition creating (keyring : bytes) (meta : string) (t0 t : Tree) : Prop :=
  same_but (dir :: vault_paths dir) t0 t ∧ stage keyring meta (disk_of dir t).

(** The directory before: absent or empty of vault files, where it can be made. *)
Record fresh_dir (t : Tree) : Prop := {
  fd_dir : t !! dir = None ∨ ∃ m, t !! dir = Some (Dir m);
  fd_parent : parent_ok t dir = Ok tt;
  fd_plain : ∀ n, n ∈ vault_names → plain t (at_ n);
  fd_empty : disk_of dir t = mkDisk None None None None
}.

Lemma dir_insert (m : Z) (t : Tree) (n : string) : <[dir := Dir m]> t !! at_ n = t !! at_ n.
Proof. apply lookup_insert_ne. intros E. apply (f_equal length) in E. rewrite length_app in E. simpl in E. lia. Qed.

Lemma fresh_tree (m : Z) (t0 : Tree) : fresh_dir t0 →
  let t := <[dir := Dir m]> t0 in
  vault_tree dir t ∧ same_but (dir :: vault_paths dir) t0 t ∧ disk_of dir t = mkDisk None None None None.
Proof.
  intros [_ _ Hp He] t. split_and!.
  - split; [exists m; by apply lookup_insert_eq|]. intros n Hn. unfold plain, t. rewrite dir_insert. by apply Hp.
  - apply same_but_insert, list_elem_of_here.
  - rewrite <- He. apply disk_of_same. intros n _. unfold text, t. by rewrite dir_insert.
Qed.

Lemma total_make_dir (keyring : bytes) (meta : string) (t0 : Tree) : fresh_dir t0 →
  total (λ t, t = t0) (creating keyring meta t0) (create_dir_all umask dir) (λ _ t, ∃ m, t = <[dir := Dir m]> t0).
Proof.
  intros Hf s Hs. destruct (fd_dir _ Hf) as [Hd|[m Hd]].
  - destruct (fresh_tree (masked umask 511) t0 Hf) as (_ & H2 & H3).
    set (t := <[dir := Dir (masked umask 511)]> t0) in *.
    assert (Hmk : mkdir umask dir s = (mkFs t (t :: seen s), Ok tt)).
    { unfold mkdir, syscall. by rewrite Hs, (fd_parent _ Hf), Hd. }
    exists (mkFs t (t :: seen s)), tt, [t]. split_and!; [|done| |by eexists].
    + unfold create_dir_all. destruct (length dir); cbn [create_dir_fuel]; by rewrite Hmk.
    + apply Forall_singleton. split; [done|]. rewrite H3. constructor.
  - exists s, tt, []. split_and!; [|apply passed_refl|done|].
    + by apply (create_dir_all_there umask dir s m); rewrite Hs; [apply fd_parent|].
    + exists m. by rewrite insert_id.
Qed.

Lemma total_restrict_dir (keyring : bytes) (meta : string) (m : Z) (t0 : Tree) : fresh_dir t0 →
  total (λ t, t = <[dir := Dir m]> t0) (creating keyring meta t0) (restrict_permissions dir) (λ _ t, t = <[dir := Dir 448]> t0).
Proof.
  intros Hf s Hs. destruct (fresh_tree 448 t0 Hf) as (_ & H2 & H3).
  assert (Hr : resolve (now s) dir = Some dir) by (unfold resolve; cbn [follow]; by rewrite Hs, lookup_insert_eq).
  unfold restrict_permissions, is_dir, chmod, syscall. rewrite Hr, Hs, lookup_insert_eq, insert_insert_eq.
  eexists _, tt, [_]. split_and!; [reflexivity | done | | done].
  apply Forall_singleton. split; [done|]. rewrite H3. constructor.
Qed.

Lemma others_mono t t' : same_but (vault_paths dir) t t' → same_but (dir :: vault_paths dir) t t'.
Proof. apply same_but_mono. intros q Hq. by apply list_elem_of_further. Qed.

Lemma total_new_log (keyring : bytes) (meta : string) (t0 t1 : Tree) : vault_tree dir t1 → same_but (dir :: vault_paths dir) t0 t1 →
  disk_of dir t1 = mkDisk (Some meta) (Some keyring) None None →
  total (λ t, t = t1) (creating keyring meta t0)
    (sbind (sbind (create umask (at_ LOG)) (λ _, sret tt)) (λ _, restrict_permissions (at_ LOG)))
    (λ _ t, t = <[at_ LOG := File 384 ""]> t1).
Proof.
  intros Ht Hoth Hd.
  assert (Hl : LOG ∈ vault_names) by (apply (bool_decide_unpack _); vm_compute; done).
  assert (Habs : t1 !! at_ LOG = None).
  { pose proof (vt_plain _ _ Ht _ Hl) as Hp. unfold disk_of, bytes_at, text in Hd. unfold plain in Hp.
    destruct (t1 !! at_ LOG) as [[]|]; done. }
  assert (Hlog : ∀ m, creating keyring meta t0 (<[at_ LOG := File m ""]> t1)).
  { intros m. split.
    - eapply same_but_trans; [exact Hoth|]. apply others_mono, same_but_insert. by apply in_vault_paths.
    - assert (Ho : ∀ n, n ≠ LOG → text (<[at_ LOG := File m ""]> t1) (at_ n) = text t1 (at_ n)).
      { intros n Hn. unfold text. rewrite lookup_insert_ne; [done|]. by intros E%at_inj. }
      assert (disk_of dir (<[at_ LOG := File m ""]> t1) = set_f_log [] (disk_of dir t1)) as ->.
      { unfold disk_of, bytes_at, set_f_log. rewrite (Ho META), (Ho KEYRING), (Ho SNAPSHOT) by done. simpl. f_equal.
        unfold text. by rewrite lookup_insert_eq. }
      rewrite Hd. constructor. }
  intros s Hs. unfold sbind, sret, create. rewrite Hs, resolve_plain by (by apply (vt_plain _ _ Ht)).
  unfold sbind, syscall. rewrite Hs, Habs, (vault_tree_parent _ _ Ht). cbn [res_bind].
  unfold sret. cbv beta iota. set (m := masked umask 438). rewrite (restrict_file _ m "" t1) by done. unfold syscall. cbn [now].
  rewrite insert_insert_eq. eexists _, tt, [_; _]. split_and!; [reflexivity | done | | done].
  apply Forall_cons. split; [apply Hlog|]. apply Forall_singleton, Hlog.
Qed.

Lemma total_create_files (keyring : bytes) (meta : string) (t0 : Tree) : fresh_dir t0 →
  total (λ t, t = t0) (creating keyring meta t0) (create_files umask dir keyring meta)
    (λ _ t, disk_of dir t = mkDisk (Some meta) (Some keyring) (Some []) None ∧
      t !! dir = Some (Dir 448) ∧
      ∀ n, n ∈ [META; KEYRING; LOG] → ∃ c, t !! at_ n = Some (File 384 c)).
Proof.
  intros Hf. unfold create_files.
  eapply total_bind; [exact (total_make_dir keyring meta t0 Hf)|]. intros u. apply total_at. clear u. intros t [m ->].
  eapply total_bind; [exact (total_restrict_dir keyring meta m t0 Hf)|]. intros u. apply total_at. clear u. intros t ->.
  destruct (fresh_tree 448 t0 Hf) as (V1 & O1 & D1). set (t1 := <[dir := Dir 448]> t0) in *.
  assert (Hdir1 : t1 !! dir = Some (Dir 448)) by apply lookup_insert_eq.
  apply total_bind with (R := λ _ t, vault_tree dir t ∧ same_but (vault_paths dir) t1 t ∧
    disk_of dir t = mkDisk None (Some keyring) None None ∧ t !! at_ KEYRING = Some (File 384 (String.string_of_list_byte keyring))).
  { eapply total_weaken; [intros t E; exact E | | | exact (total_put (PutKeyring keyring) t1 V1)].
    - intros t (_ & H2 & H3). rewrite D1 in H3. split.
      + eapply same_but_trans; [exact O1 | by apply others_mono].
      + destruct H3 as [-> | ->]; constructor.
    - intros u t (H1 & H2 & H3 & H4 & _). rewrite D1 in H3. by split_and!. }
  intros u. apply total_at. clear u. intros t2 (V2 & O2 & D2 & K2).
  apply total_bind with (R := λ _ t, vault_tree dir t ∧ same_but (vault_paths dir) t1 t ∧
    disk_of dir t = mkDisk (Some meta) (Some keyring) None None ∧ t !! at_ META = Some (File 384 meta) ∧
    t !! at_ KEYRING = t2 !! at_ KEYRING).
  { eapply total_weaken; [intros t E; exact E | | | exact (total_put (PutMeta meta) t2 V2)].
    - intros t (_ & H2 & H3). rewrite D2 in H3. split.
      + eapply same_but_trans; [exact O1|]. apply others_mono. by eapply same_but_trans.
      + destruct H3 as [-> | ->]; constructor.
    - intros u t (H1 & H2 & H3 & H4 & H5). rewrite D2 in H3. split_and!; try done; [by eapply same_but_trans|].
      apply H5. intros [E%at_inj|[E%at_inj|Hin]%elem_of_cons]%elem_of_cons; [done | done | by apply not_elem_of_nil in Hin]. }
  intros u. apply total_at. clear u. intros t3 (V3 & O3 & D3 & M3 & K3).
  rewrite join_plain by done.
  assert (O3' : same_but (dir :: vault_paths dir) t0 t3) by (eapply same_but_trans; [exact O1 | by apply others_mono]).
  eapply total_weaken; [intros t E; exact E | intros t E; exact E | | exact (total_new_log keyring meta t0 t3 V3 O3' D3)].
  intros u t ->. clear u. assert (Hne : ∀ n, n ≠ LOG → <[at_ LOG := File 384 ""]> t3 !! at_ n = t3 !! at_ n).
  { intros n Hn. apply lookup_insert_ne. by intros E%at_inj. }
  split_and!.
  - unfold disk_of, bytes_at, text in *. rewrite (Hne META), (Hne KEYRING), (Hne SNAPSHOT), lookup_insert_eq by done.
    injection D3 as E1 E2 E3 E4. by rewrite E1, E2, E4.
  - rewrite lookup_insert_ne by (intros E; apply (f_equal length) in E; rewrite length_app in E; simpl in E; lia).
    rewrite (O3 dir); [done | apply dir_not_vault_path].
  - intros n [->|[->|[->|Hin]%elem_of_cons]%elem_of_cons]%elem_of_cons; [| | |by apply not_elem_of_nil in Hin].
    + rewrite Hne by done. rewrite M3. by eexists.
    + rewrite Hne by done. rewrite K3, K2. by eexists.
    + rewrite lookup_insert_eq. by eexists.
Qed.
End facts.

(* ------------------------------------------------------------------ *)
(** ** Crashes *)

Section crashes.
Context `{AeadLaws} `{!AeadCommit} `{MsgPackLaws Keyring} `{MsgPackLaws Rec}.
Context `{MsgPackLaws Snapshot} `{JsonTextLaws Meta} `{HashOrderLaws}.
Context `{Base64Laws} `{Argon2} `{X25519} `{Ed25519}.

(** What a record operation writes: the ticked metadata and one frame. *)
Definition record_op (o : op) : Prop :=
  match o with OpAdd _ _ _ _ _ _ _ _ | OpEdit _ _ _ _ _ _ _ | OpRemove _ _ _ _ => True | _ => False end.

Lemma append_writes rec eid n w w' : append rec eid n w = (w', Ok tt) →
  v_meta w'.2 = v_meta w.2 ∧ ∃ old blob, f_log w.1 = Some old ∧ w'.1 = set_f_log (old ++ frame eid blob) w.1.
Proof.
  rewrite append_eq. destruct (current_for _ _); [|done]. destruct (f_log w.1) as [old|] eqn:E; [|done].
  intros [= <-]. split; [done|]. by eexists _, _.
Qed.

Lemma record_op_writes o w w' : vault_inv w → record_op o → run_op o w = (w', Ok tt) →
  ∃ old eid blob, f_log w.1 = Some old ∧ v_meta w'.2 = tick (v_meta w.2) ∧
    w'.1 = set_f_log (old ++ frame eid blob) (set_f_meta (json_to_string (v_meta w'.2)) w.1).
Proof.
  intros Hw Ho Hrun. pose proof (inv_meta _ Hw) as Hm.
  assert (Happ : ∀ rec eid n, append rec eid n (ticked w) = (w', Ok tt) →
    ∃ old eid blob, f_log w.1 = Some old ∧ v_meta w'.2 = tick (v_meta w.2) ∧
      w'.1 = set_f_log (old ++ frame eid blob) (set_f_meta (json_to_string (v_meta w'.2)) w.1)).
  { intros rec eid n Ha. destruct (append_writes _ _ _ _ _ Ha) as (Em & old & blob & Hl & Hd).
    exists old, eid, blob. split; [done|]. rewrite Em. split; [done | exact Hd]. }
  destruct o; try done; simpl in Hrun.
  - unfold ignore, sbind in Hrun. rewrite add_in_eq in Hrun by done.
    destruct (validate_payload kind p); [|done]. destruct (has_share _ _); [|done].
    destruct (find_record _ _ _ _); [done|]. cbv zeta in Hrun.
    destruct (append _ _ _ _) as [w1 [[]|e]] eqn:Ha; simpl in Hrun; [|done]. injection Hrun as ->. by eapply Happ.
  - rewrite edit_eq in Hrun by done. destruct (validate_payload kind p); [|done].
    destruct (find_record _ _ _ _); [by eapply Happ | done].
  - rewrite remove_eq in Hrun by done. destruct (find_record _ _ _ _); [by eapply Happ | done].
Qed.
(** A log that cannot be read stops an open. *)
Lemma open_unreadable pass n w d e : session pass w → f_meta d = f_meta w.1 → f_keyring d = f_keyring w.1 →
  match f_log d with None => e = VaultError.Io | Some data => parse_frames data = Err e end →
  (open_vault pass n d).2 = Err e.
Proof.
  intros [Hw Hk] Em Ek Hp. destruct w as [dw v]. pose proof (inv_meta _ Hw) as Hm. simpl in Hm, Hk, Em, Ek.
  unfold open_vault. rewrite Em, Hm. simpl. rewrite json_round. simpl. rewrite Hk. simpl.
  destruct (inv_keyfile _ Hw) as [n' Hf]. simpl in Hf. rewrite Ek, Hf. simpl.
  rewrite open_seal. simpl. rewrite mp_round. simpl.
  unfold replay_log, raw_entries, read_file, sbind, slift, sget. simpl.
  destruct (f_log d) as [data|]; simpl; [by rewrite Hp | by rewrite Hp].
Qed.

Lemma session_ticked pass w : session pass w → session pass (ticked w).
Proof. intros [Hw Hk]. split; [by apply inv_ticked | exact Hk]. Qed.

(** The frames of a vault's log and one more. *)
Lemma torn_log w old eid blob n : vault_inv w → f_log w.1 = Some old → frame_fits (eid, blob) →
  (0 < n < length (frame eid blob))%nat → ∃ what, parse_frames (old ++ take n (frame eid blob)) = Err (VaultError.Corrupt what).
Proof.
  intros Hw Hl Hfit Hn. destruct (inv_log _ Hw) as [recs [[frames (data & Hd & Hp & _)] _]].
  rewrite Hl in Hd. injection Hd as <-. apply parse_frames_iff in Hp as [-> Hf]. by apply parse_frames_torn.
Qed.

(** C6: a crash during a record operation loses at most that operation or is
    reported.  Take the file calls of an add, an edit or a removal that succeeds:
    they run through and leave the directory the operation leaves.  At every
    point of them the directory is in order, nothing outside the vault's own
    names has changed, and opening it with the passphrase gives the state before
    or after the operation, unless the frame is there in part: then the open
    fails and says the log is corrupt. *)
Theorem crash_leaves_old_or_new pass umask dir o w w' s :
  session pass w → record_op o → run_op o w = (w', Ok tt) → log_small w'.1 →
  vault_tree dir (now s) → disk_of dir (now s) = w.1 →
  ∃ eid blob s' new, save_record umask dir (json_to_string (v_meta w'.2)) eid blob s = (s', Ok tt) ∧
    disk_of dir (now s') = w'.1 ∧ passed s s' new ∧
    Forall (λ t, vault_tree dir t ∧ same_but (vault_paths dir) (now s) t ∧ ∀ nonce,
      match (open_vault pass nonce (disk_of dir t)).2 with
      | Ok v => v_state v = v_state w.2 ∨ v_state v = v_state w'.2
      | Err e => (∃ what, e = VaultError.Corrupt what) ∧ ∃ old n,
          f_log w.1 = Some old ∧ f_log (disk_of dir t) = Some (old ++ take n (frame eid blob)) ∧
          (0 < n < length (frame eid blob))%nat
      end) new.
Proof.
  intros Hs Ho Hrun Hsm Ht Hd. pose proof (proj1 Hs) as Hw.
  destruct (record_op_writes o w w' Hw Ho Hrun) as (old & eid & blob & Hl & Hm & Hd').
  assert (Hs' : session pass w') by (eapply session_kept; [exact Hs | apply vault_step_kept; [done|]; by exists o, (Ok tt)]).
  destruct (total_save umask dir (json_to_string (v_meta w'.2)) eid blob (now s) old Ht) with (s := s)
    as (s' & [] & new & Hsave & Hnew & Hall & _ & _ & Hend); [by rewrite Hd | done |].
  exists eid, blob, s', new. rewrite Hd in *. split_and!; [done | by rewrite Hend, Hd' | done |].
  eapply Forall_impl; [exact Hall|]. intros t (Hvt & Hoth & Hdisk). split_and!; [done..|]. intros nonce.
  assert (Hopen : ∀ x, session pass x → disk_of dir t = x.1 →
    match (open_vault pass nonce (disk_of dir t)).2 with Ok v => v_state v = v_state x.2 | Err _ => False end).
  { intros x Hx ->. destruct (inv_log _ (proj1 Hx)) as [recs Hr].
    destruct (open_session pass nonce x recs Hx Hr) as (x' & -> & _ & _ & _ & _ & Hst & _). done. }
  destruct Hdisk as [Hold|[n Hpart]].
  - rewrite Hd in Hold. specialize (Hopen w Hs Hold). destruct (open_vault _ _ _) as [d [v|e]]; simpl in *; [by left | done].
  - rewrite Hd in Hpart. set (data := frame eid blob) in *. destruct (decide (n = 0%nat)) as [->|Hn0].
    + assert (E : disk_of dir t = (ticked w).1).
      { rewrite Hpart, take_0, app_nil_r, Hm. unfold ticked, set_meta, set_f_log. simpl. by rewrite <- Hl. }
      specialize (Hopen (ticked w) (session_ticked _ _ Hs) E). destruct (open_vault _ _ _) as [d [v|e]]; simpl in *; [by left | done].
    + destruct (decide (n < length data)%nat) as [Hlt|Hge].
      * destruct (torn_log w old eid blob n Hw Hl) as [what Htorn].
        { eapply log_small_fits; [exact Hsm | by rewrite Hd']. } { unfold data in Hlt. lia. }
        assert (E : disk_of dir t = set_f_log (old ++ take n data) (ticked w).1) by (rewrite Hpart, Hm; done).
        assert (Hout : (open_vault pass nonce (disk_of dir t)).2 = Err (VaultError.Corrupt what)).
        { apply (open_unreadable pass nonce (ticked w)); rewrite ?E; [by apply session_ticked | done..]. }
        rewrite Hout, E.
        split; [by exists what|]. exists old, n. split_and!; [done | done | lia | done].
      * rewrite take_ge in Hpart by lia. rewrite <- Hd' in Hpart.
        specialize (Hopen w' Hs' Hpart). destruct (open_vault _ _ _) as [d [v|e]]; simpl in *; [by right | done].
Qed.
Lemma create_writes name pass id key rpub dev draw d v :
  create_with_keys name pass id key rpub dev draw (mkDisk None None None None) = (d, Ok v) →
  ∃ keyring meta, d = mkDisk (Some meta) (Some keyring) (Some []) None.
Proof.
  unfold create_with_keys. cbn [f_meta]. destruct (vault_kek _ _) as [kek|e]; [|done]. intros [= <- _]. by eexists _, _.
Qed.

(** C12: creating a vault is private and all but atomic.  In a directory without
    vault files the calls run through and leave the files of the new vault, in
    a directory and with files only the owner can use.  A crash before leaves
    either nothing to open, or the whole vault, or, between the metadata and the
    log, a directory that can neither be opened nor initialised again. *)
Theorem creation_interrupted umask dir name pass id key rpub dev draw d v s :
  fresh_dir dir (now s) →
  create_with_keys name pass id key rpub dev draw (mkDisk None None None None) = (d, Ok v) →
  ∃ keyring meta s' new, create_files umask dir keyring meta s = (s', Ok tt) ∧
    disk_of dir (now s') = d ∧ now s' !! dir = Some (Dir 448) ∧
    (∀ n, n ∈ [META; KEYRING; LOG] → ∃ c, now s' !! (dir ++ [n]) = Some (File 384 c)) ∧ passed s s' new ∧
    Forall (λ t, same_but (dir :: vault_paths dir) (now s) t ∧
      ((∀ nonce, (open_vault pass nonce (disk_of dir t)).2 = Err VaultError.NotFound) ∨
       disk_of dir t = d ∨
       (∀ nonce, (open_vault pass nonce (disk_of dir t)).2 = Err VaultError.Io) ∧
       (∀ name pass id key rpub dev draw,
          (create_with_keys name pass id key rpub dev draw (disk_of dir t)).2 = Err VaultError.AlreadyExists))) new.
Proof.
  intros Hf Hc. destruct (create_writes _ _ _ _ _ _ _ _ _ Hc) as (keyring & meta & ->).
  destruct (create_session name pass id key rpub dev draw (mkDisk None None None None) _ v eq_refl Hc) as [Hs _].
  destruct (total_create_files umask dir keyring meta (now s) Hf s eq_refl) as (s' & [] & new & Hrun & Hnew & Hall & Hd & Hdir & Hfiles).
  exists keyring, meta, s', new. split_and!; try done.
  eapply Forall_impl; [exact Hall|]. intros t [Hsame Hst]. split; [done|].
  destruct Hst.
  - by left.
  - by left.
  - right. right. split; [|done]. intros nonce. by apply (open_unreadable pass nonce _ _ _ Hs).
  - right. by left.
Qed.
End crashes.
