(* ===== verification/VaultFilesSamples.v ===== *)
(** * VaultFilesSamples: a vault directory on a concrete tree

    The sample vault of [VaultSamples.v], created in and written to a directory
    of the tree of [SshFiles.v], with the codecs and ciphers of [Toy]. *)

From Stdlib Require Import ZArith Lia Ascii String.
From S2P Require Import Prelude Text Record Merge Extern Crypto Log Keyring Validate Vault Crud Lifecycle VaultInv CrudFacts VaultProps VaultSamples Files FilesFacts SshFiles VaultFiles.
Import Toy SampleVault SampleTree.

#[local] Open Scope string_scope.
#[local] Open Scope list_scope.
#[local] Open Scope Z_scope.

Module SampleDir.
Definition dir : Path := home ++ ["vault"].
Definition file_of (n : string) (c : option string) (t : Tree) : Tree :=
  match c with Some c => <[dir ++ [n] := File 384 c]> t | None => t end.
(** The tree with the files of a disk. *)
Definition holding (d : Disk) : Fs := mkFs
  (file_of META (f_meta d) (file_of KEYRING (String.string_of_list_byte <$> f_keyring d)
  (file_of LOG (String.string_of_list_byte <$> f_log d)
  (file_of SNAPSHOT (String.string_of_list_byte <$> f_snapshot d) (<[dir := Dir 448]> tree))))) [].
End SampleDir.
Import SampleDir.

(** Every name of the vault, one by one. *)
Ltac every_name :=
  let n := fresh in let Hn := fresh in intros n Hn; unfold vault_names in Hn;
  repeat (apply elem_of_cons in Hn as [->|Hn]; [vm_compute; exact I|]); by apply not_elem_of_nil in Hn.

Lemma sample_fresh : fresh_dir dir (now fs).
Proof.
  split; [left; vm_compute; reflexivity | vm_compute; reflexivity | every_name | vm_compute; reflexivity].
Qed.

Lemma creation_interrupted_witness :
  ∃ keyring meta s', create_files 18 dir keyring meta fs = (s', Ok tt) ∧ disk_of dir (now s') = world0.1 ∧
    now s' !! dir = Some (Dir 448).
Proof.
  destruct (creation_interrupted 18 dir _ _ _ _ _ _ _ _ _ fs sample_fresh created_ok)
    as (keyring & meta & s' & new & Hrun & Hd & Hdir & _).
  exists keyring, meta, s'. split; [exact Hrun|]. split; [exact Hd | exact Hdir].
Defined.

(** The window of the theorem is real: a crash right after the metadata. *)
Example creation_can_get_stuck :
  existsb (λ t, match f_meta (disk_of dir t), f_log (disk_of dir t) with Some _, None => true | _, _ => false end)
    (seen (exec (create_files 18 dir [] "{}") fs)) = true.
Proof. vm_compute. reflexivity. Qed.

Lemma sample_holding : vault_tree dir (now (holding world1.1)).
Proof. split; [exists 448; vm_compute; reflexivity | every_name]. Qed.

Lemma sample_disk : disk_of dir (now (holding world1.1)) = world1.1.
Proof. vm_compute. reflexivity. Qed.

Lemma crash_leaves_old_or_new_witness :
  ∃ eid blob s', save_record 18 dir (json_to_string (v_meta world2.2)) eid blob (holding world1.1) = (s', Ok tt) ∧
    disk_of dir (now s') = world2.1.
Proof.
  destruct (crash_leaves_old_or_new "pw" 18 dir (OpEdit Host _ Kind.Host "alias" "web" host1 (draw 2)) world1 world2
    (holding world1.1) session1 I step2 small2 sample_holding sample_disk) as (eid & blob & s' & new & Hrun & Hd & _).
  exists eid, blob, s'. split; [exact Hrun | exact Hd].
Defined.
