(* ===== verification/Cli.v ===== *)
(** * Cli: the command line ([src/src/main.rs])

    The commands after argument parsing, as programs over the whole machine:
    the vault directory, the relay, the file system, the terminal.  Options are
    records with the fields of the clap structures.  Paths given on the command
    line are absolute ([Files.v]); the text of error messages is kept, their
    final formatting is not. *)

From Stdlib Require Import ZArith Lia Ascii String.
From S2P Require Import Prelude Text Record Merge Extern Crypto Log Keyring Validate Vault Crud Lifecycle SshConfig Files SshFiles KeyFiles Proto RelayDb Relay Sync Device.

#[local] Open Scope string_scope.
#[local] Open Scope list_scope.
#[local] Open Scope Z_scope.

(* ------------------------------------------------------------------ *)
(** ** Arguments *)

Record HostOpts := mkHostOpts {
  opt_hostname : option string;
  opt_port : option Z;
  opt_user : option string;
  opt_jump : option string;
  opt_identity : option string;
  opt_tags : list string;
  opt_share : option string
}.

Module HostCmd.
Inductive t :=
  | Add (alias : string) (opts : HostOpts)
  | Edit (alias : string) (opts : HostOpts)
  | Rm (alias : string)
  | List.
End HostCmd.

Module SnippetCmd.
Inductive t :=
  | Add (name command : string) (description : option string) (tags : list string)
  | Edit (name : string) (command description : option string) (tags : list string)
  | Rm (name : string)
  | List
  | Run (name : string).
End SnippetCmd.

Module KeyCmd.
Inductive t :=
  | Add (name : string) (pubkey : Path) (hosts : list string)
  | Edit (name : string) (pubkey : option Path) (hosts : list string)
  | Rm (name : string)
  | List
  | AddPrivate (name : string) (private : Path) (public : option Path)
  | Install (name : string) (out : option Path) (force : bool).
End KeyCmd.

Module FwdType.
Inductive t := Local | Remote | Dynamic.
End FwdType.

(** [From<FwdType> for ForwardKind]. *)
Definition forward_kind (t : FwdType.t) : ForwardKind :=
  match t with
  | FwdType.Local => ForwardKind.Local
  | FwdType.Remote => ForwardKind.Remote
  | FwdType.Dynamic => ForwardKind.Dynamic
  end.

Module FwdCmd.
Inductive t :=
  | Add (name spec host : string) (kind : FwdType.t)
  | Edit (name : string) (spec host : option string) (kind : option FwdType.t)
  | Rm (name : string)
  | List.
End FwdCmd.

Module DeviceCmd.
Inductive t :=
  | Enroll (vault relay device_name : string)
  | Approve (code : string)
  | List
  | Revoke (code : string) (rotate : bool).
End DeviceCmd.

Module ShareCmd.
Inductive t :=
  | Create (name : string) (members : list string)
  | Add (name : string) (members : list string)
  | Remove (name code : string)
  | List.
End ShareCmd.

Module Cmd.
Inductive t :=
  | Init (device_name : string)
  | Host (cmd : HostCmd.t)
  | Snippet (cmd : SnippetCmd.t)
  | Key (cmd : KeyCmd.t)
  | Fwd (cmd : FwdCmd.t)
  | Apply (ssh_dir : option Path)
  | Export
  | Import (file : option Path)
  | Sync (relay : option string)
  | Syncd (apply : bool)
  | Serve (addr db : string) (tls_cert tls_key : option Path)
  | Device (cmd : DeviceCmd.t)
  | Share (cmd : ShareCmd.t)
  | Recover (relay device_name : string).
End Cmd.

(* ------------------------------------------------------------------ *)
(** ** The machine *)

(** The environment of the process. *)
Record Env := mkEnv {
  env_passphrase : option string;   (* $SSHVAULT_PASSPHRASE *)
  env_shell : option string;        (* $SHELL *)
  home_dir : option Path;
  env_umask : Z
}.

(** What a command acts on beside the vault: the relay, the file system, the
    lines printed so far (errors apart), what is typed at prompts, and standard
    input. *)
Record Machine (N : Type) := mkMachine {
  m_net : N;
  m_fs : Fs;
  m_out : list string;
  m_warnings : list CliError;
  m_typed : list string;
  m_stdin : string
}.
Arguments mkMachine {N} _ _ _ _ _ _.
Arguments m_net {N} _.
Arguments m_fs {N} _.
Arguments m_out {N} _.
Arguments m_warnings {N} _.
Arguments m_typed {N} _.
Arguments m_stdin {N} _.

(** Before a vault is open: the machine, the vault directory, the draws. *)
Record Shell (N : Type) := mkShell { s_machine : Machine N; s_disk : Disk; s_draws : nat }.
Arguments mkShell {N} _ _ _.
Arguments s_machine {N} _.
Arguments s_disk {N} _.
Arguments s_draws {N} _.

(** A child process: what it does to the machine, and how it ends. *)
Record ExitStatus := mkExitStatus { success : bool; status_text : string }.
Class Spawn (N : Type) := spawn : string → list string → Machine N → Machine N * res IoError ExitStatus.

(** The uuid crate's text form, and the pretty printer of serde_json. *)
Class UuidText := { uuid_show : Uuid → string; uuid_parse : string → option Uuid }.
Class JsonPretty := json_pretty : Value → string.

(** The relay server behind [sshvault serve]. *)
Class Server (N : Type) := serve_relay : string → string → option (Path * Path) → Machine N → Machine N * res IoError unit.

(** [hostname().. .filter(..).unwrap_or_else(..)]: the default device name from
    the output of the command. *)
Definition hostname_or_default (output : option string) : string :=
  match (o ← output; if utf8_ok o then Some (trim o) else None) with
  | Some s => if String.eqb s "" then "unnamed-device" else s
  | None => "unnamed-device"
  end.

(** [{:<10}]. *)
Fixpoint pad_right (width : nat) (s : string) : string :=
  match s, width with
  | String c s, S width => String c (pad_right width s)
  | String c s, O => String c s
  | EmptyString, S width => String " "%char (pad_right width EmptyString)
  | EmptyString, O => EmptyString
  end.

Section cli.
Context `{Aead} `{Hkdf} `{X25519} `{Ed25519} `{Argon2} `{Bip39} `{Sha256} `{Base64} `{HashOrder}.
Context `{MsgPack Keyring} `{MsgPack Rec} `{MsgPack Snapshot} `{JsonText Meta} `{JsonText Value}.
Context `{JsonText EnrollReq} `{JsonText PushReq} `{JsonText ApproveReq} `{JsonText RevokeReq}.
Context `{JsonText RotateReq} `{JsonText ShareGrantReq} `{JsonText ShareRotateReq}.
Context `{UuidText} `{JsonPretty}.
Context {N : Type} `{RT : Transport N} `{Spawn N} `{Server N} (env : Env) (rng : Entropy).
#[local] Open Scope mon_scope.

(** Requests go to the relay of the machine. *)
#[local] Instance machine_transport : Transport (Machine N) := λ r m,
  let '(n, rep) := send r (m_net m) in
  (mkMachine n (m_fs m) (m_out m) (m_warnings m) (m_typed m) (m_stdin m), rep).

Abbreviation MM := (M (Machine N) CliError).
Abbreviation CM := (M (Client (Machine N)) CliError).
Abbreviation ShM := (M (Shell N) CliError).

(** The actions on each part. *)
Definition say (line : string) : MM unit :=
  sput (λ m, mkMachine (m_net m) (m_fs m) (m_out m ++ [line]) (m_warnings m) (m_typed m) (m_stdin m)).
Definition warn (e : CliError) : MM unit :=
  sput (λ m, mkMachine (m_net m) (m_fs m) (m_out m) (m_warnings m ++ [e]) (m_typed m) (m_stdin m)).
Definition on_fs {A : Type} (f : M Fs CliError A) : MM A := λ m,
  let '(fs, r) := f (m_fs m) in
  (mkMachine (m_net m) fs (m_out m) (m_warnings m) (m_typed m) (m_stdin m), r).
Definition on_machine {A : Type} (f : MM A) : CM A := λ c,
  let '(m, r) := f (c_net c) in (mkClient m (c_world c) (c_draws c), r).
Definition on_vault {A : Type} (f : VM A) : CM A := λ c,
  let '(w, r) := f (c_world c) in (mkClient (c_net c) w (c_draws c), res_map_err CliError.Vault r).
Definition on_sync {A : Type} (f : M (Client (Machine N)) SyncError A) : CM A := λ c,
  let '(c, r) := f c in (c, res_map_err CliError.Sync r).
Definition on_device {A : Type} (f : M (Client (Machine N)) EnrollError A) : CM A := λ c,
  let '(c, r) := f c in (c, res_map_err CliError.Enroll r).

(** Printing lines. *)
Definition println (line : string) : CM unit := on_machine (say line).
Fixpoint say_all (ls : list string) : MM unit :=
  match ls with [] => sret tt | l :: ls => run say l; say_all ls end.
Definition print_all (ls : list string) : CM unit := on_machine (say_all ls).

(** [find(..).with_context(..)?] and the payload of the record found. *)
Definition found {T : Type} `{Payload T} (kind : Kind) (name_field name what : string) : CM T :=
  do v <- the_vault;
  do r <- slift (ok_or (CliError.Bail (what +:+ " '" +:+ name +:+ "' not found")) (find_record v kind name_field name));
  slift (ok_or CliError.Json (payload r)).

Definition add_record {T : Type} `{Payload T} (kind : Kind) (name_field name : string) (p : T) (share : Uuid) : CM Uuid :=
  do draw <- fresh_draw rng; on_vault (add_in kind name_field name p share draw).
Definition edit_record {T : Type} `{Payload T} (kind : Kind) (name_field name : string) (p : T) : CM unit :=
  do draw <- fresh_draw rng; on_vault (edit kind name_field name p draw).
Definition remove_record (kind : Kind) (name_field name : string) : CM unit :=
  do draw <- fresh_draw rng; on_vault (remove kind name_field name draw).

(** The payloads of a kind, sorted by a name. *)
Definition sorted (T : Type) `{Payload T} (v : Vault) (kind : Kind) (name : T → string) : list T :=
  sort_by_key name (snd <$> list_of T v kind).

(** [if let Some(x) = opt { field = Some(x) }], and for a required field. *)
Definition override {A : Type} (new old : option A) : option A := match new with Some x => Some x | None => old end.
Definition replace_all (new old : list string) : list string := match new with [] => old | _ => new end.

(* ---------------------------------------------------------------- *)
(** ** Hosts *)

Definition reminder : string := " — run `sshvault apply` to update ssh config".

Definition host_of (alias : string) (opts : HostOpts) : Host :=
  mkHost alias (opt_hostname opts) (opt_port opts) (opt_user opts) (opt_jump opts) (opt_identity opts) (opt_tags opts).
Definition edited_host (opts : HostOpts) (h : Host) : Host :=
  mkHost (alias h) (override (opt_hostname opts) (hostname h)) (override (opt_port opts) (port h))
    (override (opt_user opts) (user h)) (override (opt_jump opts) (jump_host h))
    (override (opt_identity opts) (identity_file h)) (replace_all (opt_tags opts) (host_tags h)).

Definition host_line (h : Host) : string :=
  alias h +:+
  match hostname h with
  | Some hn =>
      "  →  " +:+ match user h with Some u => u +:+ "@" | None => "" end +:+ hn +:+
      match port h with Some p => ":" +:+ show_int p | None => "" end
  | None => ""
  end +:+
  match host_tags h with [] => "" | tags => "  [" +:+ join_with ", " tags +:+ "]" end.

Definition host_cmd (cmd : HostCmd.t) : CM unit :=
  match cmd with
  | HostCmd.Add alias opts =>
      do v <- the_vault;
      do share <- match opt_share opts with
                  | None => sret uuid_nil
                  | Some name =>
                      slift (ok_or (CliError.Bail ("no share named '" +:+ name +:+
                        "' — create it with `sshvault share create " +:+ name +:+ "`")) (resolve_share v name))
                  end;
      run add_record Kind.Host "alias" alias (host_of alias opts) share;
      println ("added host '" +:+ alias +:+ "'" +:+ reminder)
  | HostCmd.Edit alias opts =>
      do host <- found (T := Host) Kind.Host "alias" alias "host";
      run edit_record Kind.Host "alias" alias (edited_host opts host);
      println ("updated host '" +:+ alias +:+ "'" +:+ reminder)
  | HostCmd.Rm alias =>
      run remove_record Kind.Host "alias" alias;
      println ("removed host '" +:+ alias +:+ "'" +:+ reminder)
  | HostCmd.List =>
      do v <- the_vault;
      print_all (host_line <$> sorted Host v Kind.Host alias)
  end.

(* ---------------------------------------------------------------- *)
(** ** Snippets *)

Definition edited_snippet (new_command new_description : option string) (tags : list string) (s : Snippet) : Snippet :=
  mkSnippet (snippet_name s) (default (command s) new_command) (override new_description (description s))
    (replace_all tags (snippet_tags s)).

Definition snippet_line (s : Snippet) : string :=
  snippet_name s +:+ "  →  " +:+ command s +:+
  match description s with Some d => "  # " +:+ d | None => "" end.

Definition snippet_cmd (cmd : SnippetCmd.t) : CM unit :=
  match cmd with
  | SnippetCmd.Add name command description tags =>
      run add_record Kind.Snippet "name" name (mkSnippet name command description tags) uuid_nil;
      println ("added snippet '" +:+ name +:+ "'")
  | SnippetCmd.Edit name command description tags =>
      do s <- found (T := Snippet) Kind.Snippet "name" name "snippet";
      run edit_record Kind.Snippet "name" name (edited_snippet command description tags s);
      println ("updated snippet '" +:+ name +:+ "'")
  | SnippetCmd.Rm name =>
      run remove_record Kind.Snippet "name" name;
      println ("removed snippet '" +:+ name +:+ "'")
  | SnippetCmd.List =>
      do v <- the_vault;
      print_all (snippet_line <$> sorted Snippet v Kind.Snippet snippet_name)
  | SnippetCmd.Run name =>
      do s <- found (T := Snippet) Kind.Snippet "name" name "snippet";
      let shell := default "/bin/sh" (env_shell env) in
      do status <- on_machine (λ m,
        let '(m, r) := spawn shell ["-c"; command s] m in
        (m, res_map_err (λ e, CliError.Context ("failed to run snippet '" +:+ name +:+ "'") (CliError.Io e)) r));
      if success status then sret tt
      else sfail (CliError.Bail ("snippet '" +:+ name +:+ "' exited with " +:+ status_text status))
  end.

(* ---------------------------------------------------------------- *)
(** ** Keys *)

Definition edited_key (public : option string) (hosts : list string) (k : KeyMeta) : KeyMeta :=
  let k := match public with
           | Some pk => mkKeyMeta (key_name k) pk (ssh_fingerprint pk) (key_hosts k)
           | None => k
           end in
  mkKeyMeta (key_name k) (public_key k) (fingerprint k) (replace_all hosts (key_hosts k)).

Definition key_line (k : KeyMeta) : string :=
  key_name k +:+ "  " +:+ default "(no fingerprint)" (fingerprint k) +:+
  match key_hosts k with [] => "" | hosts => "  (hosts: " +:+ join_with ", " hosts +:+ ")" end.
(** Never any key bytes. *)
Definition private_line (k : PrivateKey) : string :=
  priv_name k +:+ "  [private]" +:+
  match priv_public_key k with Some _ => "  (public key stored)" | None => "" end.

(** [match public { Some(p) => Some(read_public_key(&p)?), None => None }]. *)
Definition read_optional (public : option Path) : CM (option string) :=
  match public with
  | Some p => do pk <- on_machine (on_fs (read_public_key p)); sret (Some pk)
  | None => sret None
  end.

(** Where a key is installed: the path asked for, or its own name under
    [~/.ssh] when that is a plain file name. *)
Definition install_path (out : option Path) (name : string) : res CliError Path :=
  match out with
  | Some p => Ok p
  | None =>
      res_bind (res_map_err (CliError.Context ("refusing to install private key with unsafe name")) (safe_key_name name)) (λ safe,
      res_bind (ok_or (CliError.Bail "cannot determine home directory") (home_dir env)) (λ home,
      Ok (path_join (path_join home ".ssh") safe)))
  end.

Definition key_cmd (cmd : KeyCmd.t) : CM unit :=
  match cmd with
  | KeyCmd.Add name pubkey hosts =>
      do public_key <- on_machine (on_fs (read_public_key pubkey));
      run add_record Kind.KeyMeta "name" name (mkKeyMeta name public_key (ssh_fingerprint public_key) hosts) uuid_nil;
      println ("added key '" +:+ name +:+ "'")
  | KeyCmd.Edit name pubkey hosts =>
      do key <- found (T := KeyMeta) Kind.KeyMeta "name" name "key";
      do public <- read_optional pubkey;
      run edit_record Kind.KeyMeta "name" name (edited_key public hosts key);
      println ("updated key '" +:+ name +:+ "'")
  | KeyCmd.Rm name =>
      run remove_record Kind.KeyMeta "name" name;
      println ("removed key '" +:+ name +:+ "'")
  | KeyCmd.List =>
      do v <- the_vault;
      run print_all (key_line <$> sorted KeyMeta v Kind.KeyMeta key_name);
      print_all (private_line <$> sorted PrivateKey v Kind.PrivateKey priv_name)
  | KeyCmd.AddPrivate name private public =>
      run slift (safe_key_name name);
      do key_pem <- on_machine (on_fs (ctx ("cannot read " +:+ show_path private) (fs_io (read_to_string private))));
      run (if str_contains "PRIVATE KEY" key_pem then sret tt
           else sfail (CliError.Bail (show_path private +:+
                  " does not look like a PEM private key (no 'PRIVATE KEY' marker)")));
      do public_key <- read_optional public;
      run add_record Kind.PrivateKey "name" name (mkPrivateKey name key_pem public_key) uuid_nil;
      println ("stored private key '" +:+ name +:+ "' (sealed, end-to-end encrypted)")
  | KeyCmd.Install name out force =>
      do payload <- found (T := PrivateKey) Kind.PrivateKey "name" name "private key";
      do out <- slift (install_path out (priv_name payload));
      run on_machine (on_fs (write_private_key (env_umask env) out (key_pem payload) force));
      println ("installed private key '" +:+ name +:+ "' to " +:+ show_path out +:+ " (mode 0600)")
  end.

(* ---------------------------------------------------------------- *)
(** ** Forwards *)

Definition no_host (host : string) : CliError :=
  CliError.Bail ("host '" +:+ host +:+ "' not found — add it first with `sshvault host add " +:+ host +:+ "`").
Definition require_host (host : string) : CM unit :=
  do v <- the_vault;
  match find_record v Kind.Host "alias" host with Some _ => sret tt | None => sfail (no_host host) end.
Definition check_spec (kind : ForwardKind) (spec : string) : CM unit :=
  slift (res_map_err CliError.Spec (validate_forward_spec kind spec)).

Definition edited_forward (new_spec new_host : option string) (kind : option FwdType.t) (f : PortForward) : PortForward :=
  mkPortForward (fwd_name f) (default (fwd_kind f) (forward_kind <$> kind)) (default (spec f) new_spec)
    (default (fwd_host f) new_host).

Definition kind_word (k : ForwardKind) : string :=
  match k with ForwardKind.Local => "local" | ForwardKind.Remote => "remote" | ForwardKind.Dynamic => "dynamic" end.
Definition forward_entry (f : PortForward) : string :=
  fwd_name f +:+ "  " +:+ kind_word (fwd_kind f) +:+ "  " +:+ spec f +:+ "  (host: " +:+ fwd_host f +:+ ")".

Definition fwd_cmd (cmd : FwdCmd.t) : CM unit :=
  match cmd with
  | FwdCmd.Add name spec host kind =>
      run check_spec (forward_kind kind) spec;
      run require_host host;
      run add_record Kind.PortForward "name" name (mkPortForward name (forward_kind kind) spec host) uuid_nil;
      println ("added forward '" +:+ name +:+ "'" +:+ reminder)
  | FwdCmd.Edit name new_spec new_host kind =>
      do old <- found (T := PortForward) Kind.PortForward "name" name "forward";
      let f := edited_forward new_spec new_host kind old in
      run check_spec (fwd_kind f) (spec f);
      run require_host (fwd_host f);
      run edit_record Kind.PortForward "name" name f;
      println ("updated forward '" +:+ name +:+ "'" +:+ reminder)
  | FwdCmd.Rm name =>
      run remove_record Kind.PortForward "name" name;
      println ("removed forward '" +:+ name +:+ "'" +:+ reminder)
  | FwdCmd.List =>
      do v <- the_vault;
      print_all (forward_entry <$> sorted PortForward v Kind.PortForward fwd_name)
  end.

(* ---------------------------------------------------------------- *)
(** ** The ssh configuration, export and import *)

Definition ssh_dir_or_default (ssh_dir : option Path) : MM Path :=
  match ssh_dir with
  | Some d => sret d
  | None => slift (ok_or (CliError.Bail "cannot determine home directory") ((λ h, path_join h ".ssh") <$> home_dir env))
  end.

Definition apply_vault (v : Vault) (ssh_dir : option Path) : MM unit :=
  do ssh_dir <- ssh_dir_or_default ssh_dir;
  let hosts := snd <$> list_of Host v Kind.Host in
  let fwds := snd <$> list_of PortForward v Kind.PortForward in
  do applied <- on_fs (λ s, let '(s, r) := apply_files (env_umask env) (home_dir env) hosts fwds ssh_dir s in
                            (s, res_map_err CliError.Apply r));
  run say ("wrote " +:+ show_path (managed_path applied) +:+ " (" +:+ show_int (Z.of_nat (length hosts)) +:+ " hosts)");
  if include_added applied
  then say ("added `Include` directive to " +:+ show_path (path_join ssh_dir "config"))
  else sret tt.

(** The JSON text given, a file or standard input. *)
Definition read_import (file : option Path) : MM Value :=
  match file with
  | None => λ m, (m, ok_or (CliError.Context "stdin is not valid JSON" CliError.Json) (json_from_str (m_stdin m)))
  | Some p =>
      do text <- on_fs (ctx ("cannot read " +:+ show_path p) (fs_io (read_to_string p)));
      slift (ok_or (CliError.Context (show_path p +:+ " is not valid JSON") CliError.Json) (json_from_str text))
  end.

(** The draws of an import, four for each item it may add. *)
Definition import_draws (base i : nat) : Draw :=
  let k := (base + 4 * i)%nat in mkDraw (e_uuid rng k) (e_uuid rng (S k)) (e_nonce rng (S (S k))) (e_now rng (S (S (S k)))).
Definition import_count (json : Value) : nat :=
  sum_list ((λ key, length (json_items json key)) <$> ["hosts"; "snippets"; "forwards"; "keys"]).

Definition import_value (json : Value) : CM unit :=
  do counts <- (λ c, let base := c_draws c in
                on_vault (import_json json (import_draws base))
                  (mkClient (c_net c) (c_world c) (base + 4 * import_count json)%nat));
  println ("imported " +:+ show_int counts.1 +:+ " records (" +:+ show_int counts.2 +:+ " skipped as duplicates)").

(* ---------------------------------------------------------------- *)
(** ** Syncing *)

Definition relay_arg (url : string) : string := trim_end_char "/"%char url.

Definition sync_cmd (relay : option string) : CM unit :=
  run match relay with
      | None => sret tt
      | Some url =>
          let url := relay_arg url in
          run on_vault (set_relay_url url);
          run on_sync (enroll rng);
          println ("enrolled this device with " +:+ url)
      end;
  do counts <- on_sync (sync_once rng);
  println ("synced: " +:+ show_int counts.1 +:+ " pushed, " +:+ show_int (Z.of_nat counts.2) +:+ " pulled").

(** The callback of the daemon: report a round that moved something, and write
    the configuration after one that pulled. *)
Definition on_round (apply : bool) (v : Vault) (pushed : Z) (pulled : nat) (m : Machine N) : Machine N :=
  exec
    (run (if 0 <? pushed + Z.of_nat pulled
          then say ("synced: " +:+ show_int pushed +:+ " pushed, " +:+ show_int (Z.of_nat pulled) +:+ " pulled")
          else sret tt);
     if apply && (0 <? Z.of_nat pulled) then
       (λ m, match apply_vault v None m with
             | (m, Ok _) => (m, Ok tt)
             | (m, Err e) => warn (CliError.Context "apply failed" e) m
             end)
     else sret tt) m.

(** The events end when the user interrupts. *)
Definition syncd_cmd (apply : bool) (events : list Event) : CM unit :=
  do v <- the_vault;
  run slift (ok_or (CliError.Bail
    "no relay configured — run `sshvault sync --relay <url>` once to set it") (relay_url (v_meta v)));
  run println "syncd: watching relay for changes (Ctrl-C to stop)";
  run on_sync (syncd rng (on_round apply) events);
  print_all [""; "syncd: stopped"].

(* ---------------------------------------------------------------- *)
(** ** Devices and shares *)

Definition require_relay : CM string :=
  do v <- the_vault;
  slift (ok_or (CliError.Bail "no relay configured — run `sshvault sync --relay <url>` first") (relay_url (v_meta v))).

Definition device_status (d : DeviceInfo) : string :=
  if di_revoked d then "revoked" else if di_approved d then "approved" else "pending".
Definition device_line (d : DeviceInfo) : string :=
  "  " +:+ short_code (di_ed25519_b64 d) +:+ "  " +:+ pad_right 10 (device_status d) +:+ "  " +:+ di_name d.

Definition approve_cmd (code : string) : CM unit :=
  run require_relay;
  do name <- on_device (approve rng code);
  println ("approved '" +:+ name +:+ "' (" +:+ code +:+ ") — it can now sync.").

Definition device_list_cmd : CM unit :=
  run require_relay;
  do devices <- on_device (list_devices rng);
  do v <- the_vault;
  print_all (("vault: " +:+ uuid_show (vault_id (v_meta v))) :: (device_line <$> devices)).

(** [prompt_password]: the next line typed. *)
Definition prompt : MM string := λ m,
  match m_typed m with
  | [] => (m, Err CliError.NoInput)
  | line :: rest => (mkMachine (m_net m) (m_fs m) (m_out m) (m_warnings m) rest (m_stdin m), Ok line)
  end.

Definition revoke_cmd (code : string) (rotate : bool) : CM unit :=
  run require_relay;
  if rotate then
    do phrase <- on_machine (ctx "failed to read recovery phrase" prompt);
    do name <- on_device (revoke_and_rotate rng code (trim phrase));
    print_all ["revoked '" +:+ name +:+ "' (" +:+ code +:+ ") and rotated the vault key — it can no longer sync, " +:+
                 "and cannot read data written from now on.";
               "Run `sshvault sync` on your other devices to pick up the new key."]
  else
    do name <- on_device (revoke rng code);
    print_all ["revoked '" +:+ name +:+ "' (" +:+ code +:+ ") — it can no longer sync or re-enroll.";
               "note: it still holds the current vault key. Use `--rotate` for forward secrecy."].

Definition named_share (name : string) : CM Uuid :=
  do v <- the_vault;
  slift (ok_or (CliError.Bail ("no share named '" +:+ name +:+ "'")) (resolve_share v name)).

Definition share_line (v : Vault) (s : string * Uuid) : string :=
  "  " +:+ s.1 +:+ "  (" +:+ uuid_show s.2 +:+ ")  " +:+ if has_share (v_keyring v) s.2 then "member" else "not a member".

Definition share_cmd (cmd : ShareCmd.t) : CM unit :=
  match cmd with
  | ShareCmd.Create name members =>
      run require_relay;
      do id <- on_device (create_share rng name members);
      print_all ["created share '" +:+ name +:+ "' (" +:+ uuid_show id +:+ ") with " +:+
                   show_int (Z.of_nat (length members)) +:+ " member(s).";
                 "Add hosts to it with `sshvault host add <alias> --share " +:+ name +:+ "`."]
  | ShareCmd.Add name members =>
      run require_relay;
      do id <- named_share name;
      run on_device (share_add rng id members);
      println ("granted '" +:+ name +:+ "' to " +:+ show_int (Z.of_nat (length members)) +:+ " member(s).")
  | ShareCmd.Remove name code =>
      run require_relay;
      do id <- named_share name;
      do who <- on_device (share_remove rng id code);
      println ("removed '" +:+ who +:+ "' (" +:+ code +:+ ") from share '" +:+ name +:+ "' and rotated its key — " +:+
        "it can no longer read data written to '" +:+ name +:+ "' from now on.")
  | ShareCmd.List =>
      do v <- the_vault;
      let shares := share_names v in
      run (match shares with
           | [] => println "no named shares — everything is in the default (shared-with-all) share."
           | _ => sret tt
           end);
      print_all (share_line v <$> shares)
  end.

(* ---------------------------------------------------------------- *)
(** ** Opening and creating vaults *)

Definition machine_first {A : Type} (f : MM A) : ShM A := λ s,
  let '(m, r) := f (s_machine s) in (mkShell m (s_disk s) (s_draws s), r).
Definition shell_fresh {A : Type} (f : nat → A) : ShM A := λ s,
  (mkShell (s_machine s) (s_disk s) (S (s_draws s)), Ok (f (s_draws s))).

Definition passphrase : ShM string :=
  match env_passphrase env with
  | Some p => sret p
  | None => machine_first (ctx "failed to read passphrase" prompt)
  end.

Definition prompt_new_passphrase : MM string :=
  match env_passphrase env with
  | Some p => sret p
  | None =>
      do first <- prompt;
      run sguard (negb (Nat.ltb (String.length first) 8)) (CliError.Bail "passphrase must be at least 8 characters");
      do second <- prompt;
      run sguard (String.eqb first second) (CliError.Bail "passphrases do not match");
      sret first
  end.

(** [open_vault()?], then the rest of the command on the vault. *)
Definition with_vault {A : Type} (body : CM A) : ShM A :=
  do pass <- passphrase;
  do nonce <- shell_fresh (e_nonce rng);
  λ s, match open_vault pass nonce (s_disk s) with
       | (d, Err e) => (mkShell (s_machine s) d (s_draws s), Err (CliError.Vault e))
       | (d, Ok v) =>
           let '(c, r) := body (mkClient (s_machine s) (d, v) (s_draws s)) in
           (mkShell (c_net c) (c_world c).1 (c_draws c), r)
       end.

(** What a new vault draws. *)
Definition init_draw : ShM InitDraw :=
  do salt <- shell_fresh (e_uuid rng);
  do device_id <- shell_fresh (e_uuid rng);
  do nonce <- shell_fresh (e_nonce rng);
  sret (mkInitDraw salt device_id nonce).

(** [None] is the panic of the phrase generator. *)
Definition init_cmd (dir : Path) (device_name : string) : ShM unit :=
  do pass <- machine_first prompt_new_passphrase;
  do entropy <- shell_fresh (e_key rng);
  do id <- shell_fresh (e_uuid rng);
  do x <- shell_fresh (e_key rng);
  do e <- shell_fresh (e_key rng);
  do draw <- init_draw;
  do phrase <- (λ s,
    match init device_name pass entropy id x e draw (s_disk s) with
    | None => (s, Err (CliError.Apply Panicked))
    | Some (d, r) =>
        (mkShell (s_machine s) d (s_draws s), res_map_err CliError.Vault (res_bind r (λ v, Ok v.2)))
    end);
  machine_first (say_all
    ["Vault created at " +:+ show_path dir; "";
     "Your recovery phrase (24 words). Write it down and store it OFFLINE —";
     "it is the ONLY way to recover your vault if you lose this device:"; "";
     "    " +:+ phrase; ""; "Next steps:";
     "    sshvault host add <alias> --hostname <host>   # add your first host";
     "    sshvault apply                                # wire it into ~/.ssh/config"]).

Definition pending_lines (code : string) : list string :=
  [""; "On an already-enrolled device, run:"; "    sshvault device approve " +:+ code; "";
   "(code for THIS device: " +:+ code +:+ ")"].

(** [None] while still waiting after every poll of [between]. *)
Definition enroll_cmd (vault_text relay device_name : string) (between : list (Machine N → Machine N)) : ShM (option unit) :=
  do vault_id <- slift (ok_or (CliError.Bail "invalid vault id — copy it from `sshvault device list`")
                         (uuid_parse (trim vault_text)));
  let relay := relay_arg relay in
  do pass <- machine_first prompt_new_passphrase;
  do provisional <- shell_fresh (e_key rng);
  do x <- shell_fresh (e_key rng);
  do e <- shell_fresh (e_key rng);
  do draw <- init_draw;
  run machine_first (say "enrolling this device — waiting for approval...");
  do joined <- (λ s,
    let '(m, d, r) := enroll_and_wait rng device_name pass vault_id provisional x e draw relay
      (λ code m, exec (say_all (pending_lines code)) m) between (s_disk s) (s_machine s) in
    (mkShell m d (s_draws s), res_map_err CliError.Enroll r));
  match joined with
  | None => sret None
  | Some _ =>
      run machine_first (say "approved — vault key installed. Run `sshvault sync` to pull your data.");
      sret (Some tt)
  end.

Definition recover_cmd (relay device_name : string) : ShM unit :=
  let relay := relay_arg relay in
  do phrase <- machine_first (ctx "failed to read recovery phrase" prompt);
  do pass <- machine_first prompt_new_passphrase;
  do x <- shell_fresh (e_key rng);
  do e <- shell_fresh (e_key rng);
  do draw <- init_draw;
  λ s,
    let '(m, d, r) := recover device_name pass (trim phrase) (new_device_keys x e) draw relay (s_disk s) (s_machine s) in
    match r with
    | Err e => (mkShell m d (s_draws s), Err (CliError.Enroll e))
    | Ok v =>
        let '(c, r) :=
          (do counts <- on_sync (sync_once rng);
           do v <- the_vault;
           print_all ["recovered vault " +:+ uuid_show (vault_id (v_meta v)) +:+ " — pulled " +:+
                        show_int (Z.of_nat counts.2) +:+ " records.";
                      "run `sshvault apply` to write your ssh config."]) (mkClient m (d, v) (s_draws s)) in
        (mkShell (c_net c) (c_world c).1 (c_draws c), r)
    end.

Definition device_cmd (cmd : DeviceCmd.t) (between : list (Machine N → Machine N)) : ShM (option unit) :=
  match cmd with
  | DeviceCmd.Enroll vault relay device_name => enroll_cmd vault relay device_name between
  | DeviceCmd.Approve code => run with_vault (approve_cmd code); sret (Some tt)
  | DeviceCmd.List => run with_vault device_list_cmd; sret (Some tt)
  | DeviceCmd.Revoke code rotate => run with_vault (revoke_cmd code rotate); sret (Some tt)
  end.

(** [serve]: TLS when both files are given. *)
Definition serve_cmd (addr db : string) (tls_cert tls_key : option Path) : MM unit :=
  let tls := match tls_cert, tls_key with Some cert, Some key => Some (cert, key) | _, _ => None end in
  λ m, let '(m, r) := serve_relay addr db tls m in (m, res_map_err CliError.Io r).

(** The command given; [events] and [between] are what happens meanwhile. *)
Definition run_cmd (dir : Path) (cmd : Cmd.t) (events : list Event) (between : list (Machine N → Machine N)) : ShM (option unit) :=
  match cmd with
  | Cmd.Device cmd => device_cmd cmd between
  | _ =>
      run match cmd with
          | Cmd.Init device_name => init_cmd dir device_name
          | Cmd.Host cmd => with_vault (host_cmd cmd)
          | Cmd.Snippet cmd => with_vault (snippet_cmd cmd)
          | Cmd.Key cmd => with_vault (key_cmd cmd)
          | Cmd.Fwd cmd => with_vault (fwd_cmd cmd)
          | Cmd.Apply ssh_dir => with_vault (do v <- the_vault; on_machine (apply_vault v ssh_dir))
          | Cmd.Export => with_vault (do v <- the_vault; println (json_pretty (export_json v)))
          | Cmd.Import file => do json <- machine_first (read_import file); with_vault (import_value json)
          | Cmd.Sync relay => with_vault (sync_cmd relay)
          | Cmd.Syncd apply => with_vault (syncd_cmd apply events)
          | Cmd.Serve addr db tls_cert tls_key => machine_first (serve_cmd addr db tls_cert tls_key)
          | Cmd.Share cmd => with_vault (share_cmd cmd)
          | Cmd.Recover relay device_name => recover_cmd relay device_name
          | Cmd.Device _ => sret tt
          end;
      sret (Some tt)
  end.

(** The exit code: success, or the error printed and failure; none while the
    command waits. *)
Definition main (dir : Path) (cmd : Cmd.t) (events : list Event) (between : list (Machine N → Machine N))
    (s : Shell N) : Shell N * option bool :=
  match run_cmd dir cmd events between s with
  | (s, Ok (Some _)) => (s, Some true)
  | (s, Ok None) => (s, None)
  | (s, Err e) =>
      (mkShell (exec (warn e) (s_machine s)) (s_disk s) (s_draws s), Some false)
  end.
End cli.
