(* ===== verification/CliFacts.v ===== *)
(** * CliFacts: what the record commands do to the vault

    Each host, snippet, key and forward command makes at most one change to the
    vault, an add, an edit or a removal, after checks that change nothing. *)

From Stdlib Require Import ZArith Lia Ascii String.
From S2P Require Import Prelude Text Record Merge Extern Crypto Log Keyring Validate Vault Crud Lifecycle VaultInv CrudFacts VaultProps Typing SshConfig Files SshFiles KeyFiles Proto RelayDb Relay Sync Device Cli.

#[local] Open Scope string_scope.
#[local] Open Scope list_scope.
#[local] Open Scope Z_scope.

(* ------------------------------------------------------------------ *)
(** ** Edits that drop no field *)

(** [keeps old new]: no optional field of [old] is absent from [new]; writing
    [new] over the fields of [old] then reads back as [new]. *)
Class Editable (T : Type) `{Payload T} := {
  keeps : T → T → Prop;
  overlay (old new : T) (g : string → option Value) : payload_wf new → keeps old new →
    de_fields g = Some old →
    de_fields (λ k, match ser_get k (zip field_names (ser_fields new)) with Some v => Some v | None => g k end) = Some new
}.

Definition kept_opt {A : Type} (old new : option A) : Prop := new = None → old = None.
Definition kept_list {A : Type} (old new : list A) : Prop := new = [] → old = [].

Lemma overlay_opt_str (old new : option string) v : kept_opt old new → de_opt_str v = Some old →
  de_opt_str (match ser_opt_str new with Some v => Some v | None => v end) = Some new.
Proof. destruct new; [done|]. intros Hk. simpl. by rewrite (Hk eq_refl). Qed.
Lemma overlay_opt_u16 (old new : option Z) v : kept_opt old new →
  match new with Some p => 0 ≤ p ≤ u16_max | None => True end → de_opt_u16 v = Some old →
  de_opt_u16 (match ser_opt_int new with Some v => Some v | None => v end) = Some new.
Proof. destruct new as [p|]; [intros _ Hp _; by apply (de_ser_opt_u16 (Some p)) | intros Hk _; simpl; by rewrite (Hk eq_refl)]. Qed.
Lemma overlay_strs (old new : list string) v : kept_list old new → de_strs v = Some old →
  de_strs (match ser_strs new with Some v => Some v | None => v end) = Some new.
Proof. destruct new as [|x l]; [intros Hk; simpl; by rewrite (Hk eq_refl) | intros _ _; apply (de_ser_strs (x :: l))]. Qed.

(** Reads [de_fields g = Some old] field by field. *)
Ltac read_fields :=
  repeat match goal with
  | Hg : _ ≫= _ = Some _ |- _ => apply bind_Some in Hg as (? & ? & Hg)
  end; simplify_eq.

#[export] Program Instance Host_editable : Editable Host := {|
  keeps a b := kept_opt (hostname a) (hostname b) ∧ kept_opt (port a) (port b) ∧ kept_opt (user a) (user b) ∧
    kept_opt (jump_host a) (jump_host b) ∧ kept_opt (identity_file a) (identity_file b) ∧
    kept_list (host_tags a) (host_tags b)
|}.
Next Obligation.
  intros old new g Hwf (K1 & K2 & K3 & K4 & K5 & K6) Hg. unfold de_fields in *. simpl in *. read_fields.
  simpl in *. erewrite overlay_opt_str by eassumption. simpl. erewrite overlay_opt_u16 by eassumption. simpl.
  do 3 (erewrite overlay_opt_str by eassumption; simpl). erewrite overlay_strs by eassumption. by destruct new.
Qed.
#[export] Program Instance Snippet_editable : Editable Snippet := {|
  keeps a b := kept_opt (description a) (description b) ∧ kept_list (snippet_tags a) (snippet_tags b)
|}.
Next Obligation.
  intros old new g Hwf (K1 & K2) Hg. unfold de_fields in *. simpl in *. read_fields. simpl in *.
  erewrite overlay_opt_str by eassumption. simpl. erewrite overlay_strs by eassumption. by destruct new.
Qed.
#[export] Program Instance PortForward_editable : Editable PortForward := {| keeps a b := True |}.
Next Obligation.
  intros old new g Hwf _ Hg. unfold de_fields. simpl. by destruct new as [? [] ? ?].
Qed.
#[export] Program Instance KeyMeta_editable : Editable KeyMeta := {|
  keeps a b := kept_opt (fingerprint a) (fingerprint b) ∧ kept_list (key_hosts a) (key_hosts b)
|}.
Next Obligation.
  intros old new g Hwf (K1 & K2) Hg. unfold de_fields in *. simpl in *. read_fields. simpl in *.
  erewrite overlay_opt_str by eassumption. simpl. erewrite overlay_strs by eassumption. by destruct new.
Qed.

(** The fields an edit leaves, as [edit_effect] has them. *)
Definition edited_fields {T : Type} `{Payload T} (p : T) (old r : Rec) (c : Clock) : Prop := ∀ k,
  rec_fields r !! k =
  match obj_get k (to_object p) with
  | None => rec_fields old !! k
  | Some v => match rec_fields old !! k with
              | Some f => Some (if decide (value f = v) then f else mkField v c)
              | None => Some (mkField v c)
              end
  end.

Lemma edited_overlay {T : Type} `{PayloadLaws T} (p : T) (old r : Rec) c : edited_fields p old r c →
  payload (T := T) r = de_fields (λ k, match ser_get k (zip field_names (ser_fields p)) with
                                      | Some v => Some v | None => value <$> rec_fields old !! k end).
Proof.
  intros Hf. rewrite payload_get. apply de_fields_ext. intros k. rewrite (Hf k), obj_get_to_object.
  destruct (ser_get k _) as [v|]; [|done]. destruct (rec_fields old !! k); [|done]. by case_decide; subst.
Qed.

(** The record after an edit holds exactly the new payload. *)
Lemma edited_payload {T : Type} `{PayloadLaws T} `{!Editable T} (old r : Rec) (p0 p : T) c :
  payload old = Some p0 → payload_wf p → keeps p0 p → edited_fields p old r c → payload r = Some p.
Proof.
  rewrite payload_get. intros Hold Hwf Hk Hf. rewrite (edited_overlay p old r c Hf).
  exact (overlay p0 p _ Hwf Hk Hold).
Qed.

(** Every field of a forward is written, so what was there does not matter. *)
Lemma edited_forward_payload (f : PortForward) (old r : Rec) c : edited_fields f old r c → payload r = Some f.
Proof. intros Hf. rewrite (edited_overlay f old r c Hf). unfold de_fields. simpl. by destruct f as [? [] ? ?]. Qed.

Lemma override_kept {A : Type} (new old : option A) : kept_opt old (override new old).
Proof. destruct new; intros E; [done || exact E | exact E || done]. Qed.
Lemma replace_kept (new old : list string) : kept_list old (replace_all new old).
Proof. destruct new; intros E; [done || exact E | exact E || done]. Qed.

(* ------------------------------------------------------------------ *)
(** ** One change at most *)

Section commands.
Context `{AeadLaws} `{!AeadCommit} `{MsgPackLaws Keyring} `{MsgPackLaws Rec}.
Context `{MsgPackLaws Snapshot} `{JsonTextLaws Meta} `{HashOrderLaws}.
Context `{Base64Laws} `{Argon2} `{X25519} `{Ed25519} `{Hkdf} `{Bip39} `{Sha256}.
Context `{UuidText} `{JsonPretty} {N : Type} `{Spawn N} (env : Env) (rng : Entropy).

Abbreviation CM := (M (Client (Machine N)) CliError).

(** Leaves the vault and the draws alone; a result satisfies [Q]. *)
Definition quiet {A : Type} (m : CM A) (Q : A → Prop) : Prop := ∀ c c' r, m c = (c', r) →
  c_world c' = c_world c ∧ c_draws c' = c_draws c ∧ ∀ a, r = Ok a → Q a.

(** Record ids come from the draws of the run. *)
Definition draws_between (lo hi : nat) (o : op) : Prop :=
  match o with
  | OpAdd _ _ _ _ _ _ _ d => ∃ k, (lo ≤ k < hi)%nat ∧ dr_record_id d = e_uuid rng k
  | _ => True
  end.

(** At most one operation, and one of [P]. *)
Definition changes (P : op → Prop) {A : Type} (m : CM A) : Prop := ∀ c c' r, m c = (c', r) →
  (c_draws c ≤ c_draws c')%nat ∧
  (c_world c' = c_world c ∨
   ∃ o r', P o ∧ draws_between (c_draws c) (c_draws c') o ∧ run_op o (c_world c) = (c_world c', r')).

Lemma quiet_changes {A : Type} (P : op → Prop) (m : CM A) Q : quiet m Q → changes P m.
Proof. intros Hm c c' r E. destruct (Hm c c' r E) as (Hw & Hd & _). rewrite Hd. auto. Qed.

Lemma quiet_changes_bind {A B : Type} (P : op → Prop) (m : CM A) (k : A → CM B) Q :
  quiet m Q → (∀ a, Q a → changes P (k a)) → changes P (sbind m k).
Proof.
  intros Hm Hk c c' r. unfold sbind. destruct (m c) as [c1 [a|e]] eqn:E; destruct (Hm _ _ _ E) as (Hw & Hd & Hq).
  - intros Ek. specialize (Hk a (Hq a eq_refl) _ _ _ Ek). by rewrite Hw, Hd in Hk.
  - intros [= <- <-]. rewrite Hd. auto.
Qed.

Lemma changes_quiet_bind {A B : Type} (P : op → Prop) (m : CM A) (k : A → CM B) Q :
  changes P m → (∀ a, quiet (k a) Q) → changes P (sbind m k).
Proof.
  intros Hm Hk c c' r. unfold sbind. destruct (m c) as [c1 [a|e]] eqn:E; [|intros [= <- <-]; by apply Hm in E].
  intros Ek. destruct (Hk a _ _ _ Ek) as (Hw & Hd & _). rewrite Hw, Hd. by apply Hm in E.
Qed.

Lemma quiet_bind {A B : Type} (m : CM A) (k : A → CM B) Q R :
  quiet m Q → (∀ a, Q a → quiet (k a) R) → quiet (sbind m k) R.
Proof.
  intros Hm Hk c c' r. unfold sbind. destruct (m c) as [c1 [a|e]] eqn:E; destruct (Hm _ _ _ E) as (Hw & Hd & Hq).
  - intros Ek. destruct (Hk a (Hq a eq_refl) _ _ _ Ek) as (Hw' & Hd' & Hr). by rewrite Hw', Hd', Hw, Hd.
  - intros [= <- <-]. by split_and!.
Qed.

Lemma quiet_ret {A : Type} (a : A) : quiet (sret a) (λ _, True).
Proof. intros c c' r [= <- <-]. by split_and!. Qed.
Lemma quiet_fail {A : Type} e (Q : A → Prop) : quiet (sfail e) Q.
Proof. intros c c' r [= <- <-]. by split_and!. Qed.
Lemma quiet_lift {A : Type} (x : res CliError A) : quiet (slift x) (λ a, x = Ok a).
Proof. intros c c' r [= <- <-]. by split_and!. Qed.
Lemma quiet_vault : quiet the_vault (λ _, True).
Proof. intros c c' r [= <- <-]. by split_and!. Qed.
Lemma quiet_machine {A : Type} (f : M (Machine N) CliError A) : quiet (on_machine f) (λ _, True).
Proof. intros c c' r. unfold on_machine. destruct (f (c_net c)). intros [= <- <-]. by split_and!. Qed.
Lemma quiet_print l : quiet (print_all l) (λ _, True).
Proof. apply quiet_machine. Qed.
Lemma quiet_println l : quiet (println l) (λ _, True).
Proof. apply quiet_machine. Qed.

Lemma quiet_found {T : Type} `{Payload T} kind nf name what : quiet (found (T := T) kind nf name what) (λ _, True).
Proof.
  unfold found. eapply quiet_bind; [apply quiet_vault|]. intros v _. eapply quiet_bind; [apply quiet_lift|].
  intros x _ c c' r [= <- <-]. by split_and!.
Qed.

Lemma quiet_read_optional p : quiet (read_optional p) (λ _, True).
Proof.
  unfold read_optional. destruct p; [|apply quiet_ret]. eapply quiet_bind; [apply quiet_machine|].
  intros a _. apply quiet_ret.
Qed.

Lemma quiet_spec kind spec : quiet (check_spec kind spec) (λ _, validate_forward_spec kind spec = Ok tt).
Proof.
  intros c c' r [= <- <-]. split_and!; [done..|]. intros [] Hr.
  by destruct (validate_forward_spec kind spec) as [[]|].
Qed.

Lemma quiet_require_host h : quiet (require_host h) (λ _, True).
Proof.
  unfold require_host. eapply quiet_bind; [apply quiet_vault|]. intros v _.
  destruct (find_record _ _ _ _); [apply quiet_ret | apply quiet_fail].
Qed.

Lemma fresh_draw_eq (c : Client (Machine N)) : ∃ d, fresh_draw (E := CliError) rng c =
    (mkClient (c_net c) (c_world c) (4 + c_draws c), Ok d) ∧ dr_record_id d = e_uuid rng (c_draws c).
Proof. eexists. split; reflexivity. Qed.

Lemma changes_add {T : Type} `{Payload T} (P : op → Prop) kind nf name (p : T) share :
  (∀ draw, P (OpAdd T _ kind nf name p share draw)) → changes P (add_record rng kind nf name p share).
Proof.
  intros HP c c' r. unfold add_record, sbind. destruct (fresh_draw_eq c) as (d & -> & Hd).
  unfold on_vault. cbn [c_world c_net c_draws]. destruct (add_in _ _ _ _ _ _ _) as [w r1] eqn:E. intros [= <- <-].
  cbn [c_world c_draws]. split; [lia|]. right. exists (OpAdd T _ kind nf name p share d), (res_bind r1 (λ _, Ok tt)). split_and!; [done| |].
  - exists (c_draws c). split; [lia | done].
  - simpl. unfold ignore, sbind. rewrite E. by destruct r1.
Qed.

Lemma changes_edit {T : Type} `{Payload T} (P : op → Prop) kind nf name (p : T) :
  (∀ draw, P (OpEdit T _ kind nf name p draw)) → changes P (edit_record rng kind nf name p).
Proof.
  intros HP c c' r. unfold edit_record, sbind. destruct (fresh_draw_eq c) as (d & -> & Hd).
  unfold on_vault. cbn [c_world c_net c_draws]. destruct (edit _ _ _ _ _ _) as [w r1] eqn:E. intros [= <- <-].
  cbn [c_world c_draws]. split; [lia|]. right. by eexists (OpEdit T _ kind nf name p d), _.
Qed.

Lemma changes_remove (P : op → Prop) kind nf name :
  (∀ draw, P (OpRemove kind nf name draw)) → changes P (remove_record rng kind nf name).
Proof.
  intros HP c c' r. unfold remove_record, sbind. destruct (fresh_draw_eq c) as (d & -> & Hd).
  unfold on_vault. cbn [c_world c_net c_draws]. destruct (remove _ _ _ _ _) as [w r1] eqn:E. intros [= <- <-].
  cbn [c_world c_draws]. split; [lia|]. right. by eexists (OpRemove kind nf name d), _.
Qed.

(** What the record commands do: any removal, adds and edits of other kinds
    than forwards, and of forwards with a spec that passed the check. *)
Inductive local_op : op → Prop :=
  | LocalAdd T (P : Payload T) kind nf name p share draw :
      kind ≠ Kind.PortForward → kind ≠ Kind.Tombstone → local_op (OpAdd T P kind nf name p share draw)
  | LocalAddForward nf name f share draw : fwd_valid f →
      local_op (OpAdd PortForward _ Kind.PortForward nf name f share draw)
  | LocalEdit T (P : Payload T) kind nf name p draw :
      kind ≠ Kind.PortForward → local_op (OpEdit T P kind nf name p draw)
  | LocalEditForward nf name f draw : fwd_valid f → local_op (OpEdit PortForward _ Kind.PortForward nf name f draw)
  | LocalRemove kind nf name draw : local_op (OpRemove kind nf name draw).

Lemma host_changes cmd : changes local_op (host_cmd rng cmd).
Proof.
  destruct cmd as [alias opts|alias opts|alias|]; cbn [host_cmd].
  - eapply quiet_changes_bind; [apply quiet_vault|]. intros v _.
    apply quiet_changes_bind with (Q := λ _, True).
    { destruct (opt_share opts); [|apply quiet_ret]. intros c c' r [= <- <-]. by split_and!. }
    intros share _. eapply changes_quiet_bind; [|intros; apply quiet_println].
    apply changes_add. intros draw. by apply LocalAdd.
  - eapply quiet_changes_bind; [apply quiet_found|]. intros h _.
    eapply changes_quiet_bind; [|intros; apply quiet_println]. apply changes_edit. intros draw. by apply LocalEdit.
  - eapply changes_quiet_bind; [|intros; apply quiet_println]. apply changes_remove. intros draw. apply LocalRemove.
  - eapply quiet_changes_bind; [apply quiet_vault|]. intros v _. eapply quiet_changes, quiet_print.
Qed.

Lemma snippet_changes cmd : changes local_op (snippet_cmd env rng cmd).
Proof.
  destruct cmd as [name cm d tags|name cm d tags|name| |name]; cbn [snippet_cmd].
  - eapply changes_quiet_bind; [|intros; apply quiet_println]. apply changes_add. intros draw. by apply LocalAdd.
  - eapply quiet_changes_bind; [apply quiet_found|]. intros h _.
    eapply changes_quiet_bind; [|intros; apply quiet_println]. apply changes_edit. intros draw. by apply LocalEdit.
  - eapply changes_quiet_bind; [|intros; apply quiet_println]. apply changes_remove. intros draw. apply LocalRemove.
  - eapply quiet_changes_bind; [apply quiet_vault|]. intros v _. eapply quiet_changes, quiet_print.
  - eapply quiet_changes_bind; [apply quiet_found|]. intros sn _. cbv zeta.
    eapply quiet_changes_bind; [apply quiet_machine|]. intros status _.
    destruct (success status); [eapply quiet_changes, quiet_ret | eapply quiet_changes, (quiet_fail _ (λ _, True))].
Qed.

Lemma key_changes cmd : changes local_op (key_cmd env rng cmd).
Proof.
  destruct cmd as [name pk hosts|name pk hosts|name| |name priv pub|name out force]; cbn [key_cmd].
  - eapply quiet_changes_bind; [apply quiet_machine|]. intros k _.
    eapply changes_quiet_bind; [|intros; apply quiet_println]. apply changes_add. intros draw. by apply LocalAdd.
  - eapply quiet_changes_bind; [apply quiet_found|]. intros h _.
    eapply quiet_changes_bind; [apply quiet_read_optional|]. intros public _.
    eapply changes_quiet_bind; [|intros; apply quiet_println]. apply changes_edit. intros draw. by apply LocalEdit.
  - eapply changes_quiet_bind; [|intros; apply quiet_println]. apply changes_remove. intros draw. apply LocalRemove.
  - eapply quiet_changes_bind; [apply quiet_vault|]. intros v _.
    eapply quiet_changes_bind; [apply quiet_print|]. intros _ _. eapply quiet_changes, quiet_print.
  - eapply quiet_changes_bind; [apply quiet_lift|]. intros n _.
    eapply quiet_changes_bind; [apply quiet_machine|]. intros pem _.
    apply quiet_changes_bind with (Q := λ _, True).
    { destruct (str_contains _ pem); [apply quiet_ret | apply quiet_fail]. }
    intros _ _. eapply quiet_changes_bind; [apply quiet_read_optional|]. intros public _.
    eapply changes_quiet_bind; [|intros; apply quiet_println]. apply changes_add. intros draw. by apply LocalAdd.
  - eapply quiet_changes_bind; [apply quiet_found|]. intros p _.
    eapply quiet_changes_bind; [apply quiet_lift|]. intros path _.
    eapply quiet_changes_bind; [apply quiet_machine|]. intros _ _. eapply quiet_changes, quiet_println.
Qed.

Lemma fwd_changes cmd : changes local_op (fwd_cmd rng cmd).
Proof.
  destruct cmd as [name spec host kind|name spec host kind|name|]; cbn [fwd_cmd].
  - eapply quiet_changes_bind; [apply quiet_spec|]. intros u Hv.
    eapply quiet_changes_bind; [apply quiet_require_host|]. intros _ _.
    eapply changes_quiet_bind; [|intros; apply quiet_println]. apply changes_add. intros draw. by apply LocalAddForward.
  - eapply quiet_changes_bind; [apply quiet_found|]. intros old _. cbv zeta.
    eapply quiet_changes_bind; [apply quiet_spec|]. intros u Hv.
    eapply quiet_changes_bind; [apply quiet_require_host|]. intros _ _.
    eapply changes_quiet_bind; [|intros; apply quiet_println]. apply changes_edit. intros draw. by apply LocalEditForward.
  - eapply changes_quiet_bind; [|intros; apply quiet_println]. apply changes_remove. intros draw. apply LocalRemove.
  - eapply quiet_changes_bind; [apply quiet_vault|]. intros v _. eapply quiet_changes, quiet_print.
Qed.

(* ---------------------------------------------------------------- *)
(** ** Forwards stay renderable *)

Definition forwards_valid (v : Vault) : Prop := ∀ id r f,
  v_state v !! id = Some r → live r = true → rec_kind r = Kind.PortForward → payload r = Some f → fwd_valid f.

(** The first [limit] ids drawn are distinct, and none drawn from now on and
    before the limit is in use. *)
Definition ids_distinct (limit : nat) : Prop := ∀ i j,
  (i < limit)%nat → (j < limit)%nat → e_uuid rng i = e_uuid rng j → i = j.
Definition ids_unused (limit : nat) (w : World) (from : nat) : Prop := ∀ k,
  (from ≤ k < limit)%nat → v_state w.2 !! e_uuid rng k = None.

Lemma forwards_insert v v' id r : v_state v' = <[id := r]> (v_state v) → forwards_valid v →
  (live r = true → rec_kind r = Kind.PortForward → ∀ f, payload r = Some f → fwd_valid f) → forwards_valid v'.
Proof.
  intros Hs Hv Hr id' x f. rewrite Hs. destruct (decide (id = id')) as [<-|Hn].
  - rewrite lookup_insert_eq. intros [= <-] Hl Hk. by apply Hr.
  - rewrite lookup_insert_ne by done. apply Hv.
Qed.

(** A refused operation leaves the state alone. *)
Lemma refused_state o w w' e : vault_inv w →
  match o with OpAdd _ _ _ _ _ _ _ _ | OpEdit _ _ _ _ _ _ _ | OpRemove _ _ _ _ => True | _ => False end →
  run_op o w = (w', Err e) → v_state w'.2 = v_state w.2.
Proof.
  intros Hw Ho Hrun. pose proof (inv_meta _ Hw) as Hm.
  assert (Happ : ∀ rec eid n w1 e', append rec eid n (ticked w) = (w1, Err e') → v_state w1.2 = v_state w.2).
  { intros rec eid n w1 e' Ha. rewrite append_eq in Ha.
    destruct (current_for _ _); [destruct (f_log _)|]; injection Ha as E1 E2; (discriminate E2 || by rewrite <- E1). }
  destruct o; try done; simpl in Hrun.
  - unfold ignore, sbind in Hrun. rewrite add_in_eq in Hrun by done.
    destruct (validate_payload kind p) as [u|e1]; [|by injection Hrun as <- _].
    destruct (has_share _ _); [|by injection Hrun as <- _].
    destruct (find_record _ _ _ _); [by injection Hrun as <- _|].
    cbv zeta in Hrun. destruct (append _ _ _ _) as [w1 [u1|e1]] eqn:Ha; simpl in Hrun; [done|].
    injection Hrun as <- _. by eapply Happ.
  - rewrite edit_eq in Hrun by done.
    destruct (validate_payload kind p) as [u|e1]; [|by injection Hrun as <- _].
    destruct (find_record _ _ _ _); [by eapply Happ | by injection Hrun as <- _].
  - rewrite remove_eq in Hrun by done.
    destruct (find_record _ _ _ _); [by eapply Happ | by injection Hrun as <- _].
Qed.

Lemma found_kind w kind nf name old : vault_inv w → find_record w.2 kind nf name = Some old →
  v_state w.2 !! rec_id old = Some old ∧ rec_kind old = kind.
Proof.
  intros Hw Hfr. apply find_record_some in Hfr as [[id Hid] Hn].
  pose proof (state_id _ _ _ Hw Hid) as <-. by apply is_named_spec in Hn as (_ & Hk & _).
Qed.

Lemma added_state {T : Type} {P : Payload T} kind nf name (p : T) share draw w w' : vault_inv w → log_small w'.1 →
  run_op (OpAdd T P kind nf name p share draw) w = (w', Ok tt) → v_state w.2 !! dr_record_id draw = None →
  v_state w'.2 = <[dr_record_id draw := new_record kind p share draw (v_meta w.2)]> (v_state w.2).
Proof.
  intros Hw Hsm Hrun Hfresh. simpl in Hrun. unfold ignore, sbind in Hrun.
  destruct (add_in _ _ _ _ _ _ w) as [w1 [id|e]] eqn:Ha; simpl in Hrun; [|done]. injection Hrun as ->.
  rewrite add_in_eq in Ha by apply Hw. destruct (validate_payload _ _); [|done].
  destruct (has_share _ _); [|done]. destruct (find_record _ _ _ _); [done|]. cbv zeta in Ha.
  destruct (append _ _ _ _) as [w2 [u|e]] eqn:E; simpl in Ha; [|done]. injection Ha as -> _.
  destruct (append_ticked _ _ _ _ _ _ Hw E Hsm) as (_ & Hst & _). rewrite Hst.
  unfold merge_step, upsert. simpl. by rewrite Hfresh.
Qed.

(** Both invariants after an operation that put [x] at [id]. *)
Lemma kept_insert limit w w' lo hi id x : ids_distinct limit → (lo ≤ hi ≤ limit)%nat →
  ids_unused limit w lo → forwards_valid w.2 → v_state w'.2 = <[id := x]> (v_state w.2) →
  (is_Some (v_state w.2 !! id) ∨ ∃ k, (lo ≤ k < hi)%nat ∧ id = e_uuid rng k) →
  (live x = true → rec_kind x = Kind.PortForward → ∀ f, payload x = Some f → fwd_valid f) →
  forwards_valid w'.2 ∧ ids_unused limit w' hi.
Proof.
  intros Hinj Hle Hids Hf Hst Hid Hx. split; [by eapply forwards_insert|].
  intros k Hk. rewrite Hst, lookup_insert_ne; [apply Hids; lia|]. intros ->.
  destruct Hid as [Hid|(j & Hj & E)]; [|apply Hinj in E; lia].
  rewrite Hids in Hid by lia. by destruct Hid.
Qed.

Lemma local_op_kept limit o w w' r lo hi : ids_distinct limit →
  vault_inv w → clocks_bounded w → meta_lamport (v_meta w.2) < u64_max → log_small w'.1 →
  (lo ≤ hi ≤ limit)%nat → local_op o → draws_between lo hi o → ids_unused limit w lo → forwards_valid w.2 →
  run_op o w = (w', r) → forwards_valid w'.2 ∧ ids_unused limit w' hi.
Proof.
  intros Hinj Hw Hb Hmax Hsm Hle Ho Hd Hids Hf Hrun.
  destruct r as [[]|e].
  2: { assert (E : v_state w'.2 = v_state w.2) by (eapply refused_state; [done | | exact Hrun]; by destruct Ho).
       split; [intros id x f; rewrite E; apply Hf | intros k Hk; rewrite E; apply Hids; lia]. }
  destruct Ho as [T P kind nf name p share draw Hk1 Hk2|nf name f share draw Hv|T P kind nf name p draw Hk|
                  nf name f draw Hv|kind nf name draw].
  - destruct Hd as (k & Hk & Ek). assert (Hfresh : v_state w.2 !! dr_record_id draw = None) by (rewrite Ek; apply Hids; lia).
    pose proof (added_state _ _ _ _ _ _ _ _ Hw Hsm Hrun Hfresh) as Hst.
    apply (kept_insert limit w w' lo hi _ _ Hinj Hle Hids Hf Hst); [right; by exists k|]. intros _ E. by destruct Hk1.
  - destruct Hd as (k & Hk & Ek). assert (Hfresh : v_state w.2 !! dr_record_id draw = None) by (rewrite Ek; apply Hids; lia).
    pose proof (added_state _ _ _ _ _ _ _ _ Hw Hsm Hrun Hfresh) as Hst.
    apply (kept_insert limit w w' lo hi _ _ Hinj Hle Hids Hf Hst); [right; by exists k|]. intros _ _ f' Hf'.
    rewrite (new_payload _ f) in Hf' by exact I. by injection Hf' as <-.
  - destruct (edit_effect kind nf name p draw w w' Hw Hb Hmax Hrun Hsm) as (old & x & Hfr & Hst & _ & Hxk & _).
    destruct (found_kind _ _ _ _ _ Hw Hfr) as [Hid _].
    apply (kept_insert limit w w' lo hi _ _ Hinj Hle Hids Hf Hst); [left; by exists old|]. intros _ E. congruence.
  - destruct (edit_effect _ nf name f draw w w' Hw Hb Hmax Hrun Hsm) as (old & x & Hfr & Hst & _ & Hxk & Hfields).
    destruct (found_kind _ _ _ _ _ Hw Hfr) as [Hid _].
    apply (kept_insert limit w w' lo hi _ _ Hinj Hle Hids Hf Hst); [left; by exists old|]. intros _ _ f' Hf'.
    rewrite (edited_forward_payload f old x _ Hfields) in Hf'. by injection Hf' as <-.
  - destruct (remove_effect kind nf name draw w w' Hw Hb Hmax Hrun Hsm) as (old & x & Hfr & Hst & _ & _ & Hl).
    destruct (found_kind _ _ _ _ _ Hw Hfr) as [Hid _].
    apply (kept_insert limit w w' lo hi _ _ Hinj Hle Hids Hf Hst); [left; by exists old|]. congruence.
Qed.

Lemma local_op_session o w w' r : vault_inv w → clocks_bounded w → meta_lamport (v_meta w.2) < u64_max →
  log_small w'.1 → local_op o → run_op o w = (w', r) → kept w w' ∧ clocks_bounded w'.
Proof.
  intros Hw Hb Hmax Hsm Ho Hrun. split; [apply vault_step_kept; [done|]; by exists o, r|].
  eapply step_bounded; try done. by destruct Ho.
Qed.
End commands.
