(* ===== verification/CliProps.v ===== *)
(** * CliProps: properties of the command line *)

From Stdlib Require Import ZArith Lia Ascii String.
From S2P Require Import Prelude Text Record Merge Extern Crypto Log Keyring Validate Vault Crud Lifecycle VaultInv CrudFacts VaultProps Typing SshConfig Files FilesFacts SshFiles KeyFiles Proto RelayDb Relay Sync Device Cli CliFacts.

#[local] Open Scope string_scope.
#[local] Open Scope list_scope.
#[local] Open Scope Z_scope.

(** An apply panics only when rendering does. *)
Lemma apply_no_panic umask home hosts forwards dir s s' e content :
  render hosts forwards = Some content → apply_files umask home hosts forwards dir s = (s', Err e) → e ≠ Panicked.
Proof.
  intros Hr. unfold apply_files, sbind, io. destruct (create_dir_all umask dir s) as [s1 [u|e1]]; simpl; [|by intros [= _ <-]].
  rewrite Hr. simpl. destruct (atomic_write _ _ _ s1) as [s2 [u2|e2]]; simpl; [|by intros [= _ <-]].
  destruct (include_file _ _ _ s2) as [s3 [u3|e3]]; simpl; by intros [= _ <-].
Qed.

Section cli_props.
Context `{AeadLaws} `{!AeadCommit} `{MsgPackLaws Keyring} `{MsgPackLaws Rec}.
Context `{MsgPackLaws Snapshot} `{JsonTextLaws Meta} `{HashOrderLaws}.
Context `{Base64Laws} `{Argon2} `{X25519} `{Ed25519} `{Hkdf} `{Bip39} `{Sha256}.
Context `{UuidText} `{JsonPretty} {N : Type} `{Spawn N} (env : Env) (rng : Entropy) (limit : nat).
#[local] Abbreviation client := (Client (Machine N)).

(** The commands that keep records, on an open vault. *)
Definition local_body (cmd : Cmd.t) : option (M client CliError unit) :=
  match cmd with
  | Cmd.Host cmd => Some (host_cmd rng cmd)
  | Cmd.Snippet cmd => Some (snippet_cmd env rng cmd)
  | Cmd.Key cmd => Some (key_cmd env rng cmd)
  | Cmd.Fwd cmd => Some (fwd_cmd rng cmd)
  | _ => None
  end.

(** One such command, successful or not, within the bounds of the counters
    and the first [limit] draws. *)
Definition local_step (c c' : client) : Prop := ∃ cmd body r,
  local_body cmd = Some body ∧ body c = (c', r) ∧ log_small (c_world c').1 ∧
  meta_lamport (v_meta (c_world c).2) < u64_max ∧ (c_draws c' ≤ limit)%nat.

Record ready (c : client) : Prop := {
  ready_inv : vault_inv (c_world c);
  ready_clocks : clocks_bounded (c_world c);
  ready_forwards : forwards_valid (c_world c).2;
  ready_ids : ids_unused rng limit (c_world c) (c_draws c)
}.

Lemma local_changes cmd body : local_body cmd = Some body → changes rng local_op body.
Proof.
  destruct cmd; try done; intros [= <-];
    [apply host_changes | apply snippet_changes | apply key_changes | apply fwd_changes].
Qed.

Lemma ready_step c c' : ids_distinct rng limit → local_step c c' → ready c → ready c'.
Proof.
  intros Hinj (cmd & body & r & Hcmd & Hrun & Hsm & Hmax & Hlim) [Hw Hb Hf Hids].
  destruct (local_changes cmd body Hcmd c c' r Hrun) as [Hle [E|(o & r' & Ho & Hd & Hop)]].
  - split; rewrite E; try done. intros k Hk. apply Hids. lia.
  - destruct (local_op_session o _ _ r' Hw Hb Hmax Hsm Ho Hop) as [Hk Hb'].
    destruct (local_op_kept rng limit o _ _ r' _ _ Hinj Hw Hb Hmax Hsm (conj Hle Hlim) Ho Hd Hids Hf Hop) as [Hf' Hids'].
    split; try done. apply Hk.
Qed.

Lemma forwards_listed v : (∀ i r, v_state v !! i = Some r → rec_id r = i) → forwards_valid v →
  Forall fwd_valid (snd <$> list_of PortForward v Kind.PortForward).
Proof.
  intros Hid Hf. apply Forall_fmap, Forall_forall. intros [id f] Hin.
  apply list_of_elem in Hin as (r & Hr & Hl & Hk & Hp); [|done]. simpl. by eapply Hf.
Qed.

Lemma apply_vault_no_panic v ssh_dir (m m' : Machine N) e :
  (∀ i r, v_state v !! i = Some r → rec_id r = i) → forwards_valid v →
  apply_vault env v ssh_dir m = (m', Err e) → e ≠ CliError.Apply Panicked.
Proof.
  intros Hid Hf. pose proof (forwards_listed v Hid Hf) as Hl. unfold apply_vault, sbind at 1.
  destruct (ssh_dir_or_default env ssh_dir m) as [m1 [d|e1]] eqn:Ed.
  - unfold sbind at 1, on_fs at 1. destruct (apply_files _ _ _ _ _ (m_fs m1)) as [s [a|x]] eqn:E.
    + simpl. unfold sbind. simpl. destruct (include_added a); done.
    + intros [= _ <-] [= ->]. eapply apply_no_panic; [by apply render_config_lines | exact E | done].
  - intros [= _ <-]. revert Ed. unfold ssh_dir_or_default. destruct ssh_dir; [done|].
    destruct (home_dir env); simpl; [done|]. by intros [= _ <-].
Qed.

(** C22: commands keep the configuration renderable.  Starting from a vault
    whose forwards all pass the spec check, while the ids drawn are fresh, no
    sequence of host, snippet, key
    and forward commands, successful or not, leads to a vault on which writing
    the ssh configuration panics; the vault stays sound and its forwards valid. *)
Theorem local_commands_keep_config_renderable c c' :
  ids_distinct rng limit → ready c → rtc local_step c c' →
  ready c' ∧
  ∀ ssh_dir (m m' : Machine N) e, apply_vault env (c_world c').2 ssh_dir m = (m', Err e) → e ≠ CliError.Apply Panicked.
Proof.
  intros Hinj Hr Hrun. assert (Hr' : ready c') by (induction Hrun; [done|]; eauto using ready_step).
  split; [done|]. intros ssh_dir m m' e. eapply apply_vault_no_panic.
  - intros i r. apply state_id, ready_inv, Hr'.
  - apply Hr'.
Qed.

(** The port of a payload that was read is a port. *)
Lemma read_port r h : payload (T := Host) r = Some h → payload_wf h.
Proof.
  rewrite payload_get. unfold de_fields, payload_wf. simpl. intros Hg. read_fields. simpl.
  eapply de_opt_u16_range. eassumption.
Qed.

Definition printed (line : string) (m : Machine N) : Machine N :=
  mkMachine (m_net m) (m_fs m) (m_out m ++ [line]) (m_warnings m) (m_typed m) (m_stdin m).

(** The pieces of a command that edits what it found. *)
Lemma found_same {T : Type} `{Payload T} kind nf name what (c c' : client) (r : res CliError T) :
  found kind nf name what c = (c', r) → c' = c.
Proof.
  unfold found, sbind, the_vault, sget, slift. cbv beta.
  destruct (find_record _ _ _ _); cbn [ok_or]; [|by intros [= <- _]]. destruct (payload _); by intros [= <- _].
Qed.

Lemma found_ok {T : Type} `{Payload T} kind nf name what (c c' : client) (p : T) :
  found kind nf name what c = (c', Ok p) →
  c' = c ∧ ∃ old, find_record (c_world c).2 kind nf name = Some old ∧ payload old = Some p.
Proof.
  unfold found, sbind, the_vault, sget, slift. cbv beta.
  destruct (find_record _ _ _ _) as [old|] eqn:Ef; cbn [ok_or]; [|done].
  destruct (payload old) eqn:Ep; cbn [ok_or]; [|done].
  intros [= <- <-]. split; [done|]. exists old. by split.
Qed.

Lemma edit_record_ok {T : Type} `{Payload T} kind nf name (p : T) (c c' : client) :
  edit_record rng kind nf name p c = (c', Ok tt) →
  c_net c' = c_net c ∧ ∃ draw, edit kind nf name p draw (c_world c) = (c_world c', Ok tt).
Proof.
  unfold edit_record, sbind. destruct (fresh_draw_eq rng c) as (d & -> & _). unfold on_vault. cbn [c_world c_net].
  destruct (edit _ _ _ _ _ _) as [w r] eqn:E. intros Hc. injection Hc as <- Hr. destruct r as [[]|]; [|done].
  split; [done|]. by exists d.
Qed.

Lemma found_edited {T : Type} `{PayloadLaws T} `{!Editable T} kind nf name what (f : T → T) line (c c' : client) :
  vault_inv (c_world c) → clocks_bounded (c_world c) → meta_lamport (v_meta (c_world c).2) < u64_max →
  sbind (found kind nf name what) (λ p, sbind (edit_record rng kind nf name (f p)) (λ _, println line)) c = (c', Ok tt) →
  log_small (c_world c').1 → (∀ old p, payload old = Some p → payload_wf (f p) ∧ keeps p (f p)) →
  ∃ old p r, find_record (c_world c).2 kind nf name = Some old ∧ payload old = Some p ∧
    v_state (c_world c').2 = <[rec_id old := r]> (v_state (c_world c).2) ∧
    live r = true ∧ rec_kind r = kind ∧ payload r = Some (f p) ∧ c_net c' = printed line (c_net c).
Proof.
  intros Hw Hb Hmax Hrun Hsm Hf. unfold sbind in Hrun.
  destruct (found _ _ _ _ c) as [c1 [p|e]] eqn:E1; [|done].
  destruct (found_ok _ _ _ _ _ _ _ E1) as [-> (old & Hfr & Hp)].
  destruct (edit_record _ _ _ _ _ c) as [c2 [[]|e]] eqn:E2; [|done].
  destruct (edit_record_ok _ _ _ _ _ _ E2) as (Hnet & draw & Hed).
  injection Hrun as Hc'. subst c'. cbn [c_world] in *.
  destruct (edit_effect _ _ _ _ _ _ _ Hw Hb Hmax Hed Hsm) as (old' & r & Hfr' & Hst & Hl & Hk & Hfields).
  rewrite Hfr in Hfr'. injection Hfr' as <-. destruct (Hf old p Hp) as [Hwf Hkeep].
  exists old, p, r. split_and!; try done.
  - exact (edited_payload old r p (f p) _ Hp Hwf Hkeep Hfields).
  - cbn [c_net]. by rewrite Hnet.
Qed.

(** C32: editing a host changes only the flags passed.  A successful edit
    rewrites exactly the record the alias finds; read back, it is the host as it
    was with the options given replaced, tags only when some are given; nothing
    else in the vault changes and one line is printed. *)
Theorem host_edit_changes_only_flags alias opts c c' :
  vault_inv (c_world c) → clocks_bounded (c_world c) → meta_lamport (v_meta (c_world c).2) < u64_max →
  match opt_port opts with Some p => 0 ≤ p ≤ u16_max | None => True end →
  host_cmd rng (HostCmd.Edit alias opts) c = (c', Ok tt) → log_small (c_world c').1 →
  ∃ old h r, find_record (c_world c).2 Kind.Host "alias" alias = Some old ∧ payload old = Some h ∧
    v_state (c_world c').2 = <[rec_id old := r]> (v_state (c_world c).2) ∧
    live r = true ∧ rec_kind r = Kind.Host ∧ payload r = Some (edited_host opts h) ∧
    c_net c' = printed ("updated host '" +:+ alias +:+ "'" +:+ reminder) (c_net c).
Proof.
  intros Hw Hb Hmax Hport Hrun Hsm. cbn [host_cmd] in Hrun.
  refine (found_edited _ _ _ _ (edited_host opts) _ c c' Hw Hb Hmax Hrun Hsm _).
  intros old h Hh. split.
  - apply read_port in Hh. unfold payload_wf in *. simpl in *. by destruct (opt_port opts).
  - simpl. split_and!; apply override_kept || apply replace_kept.
Qed.

(** C23: installing a key is confined.  Whatever private key record arrived, and
    however the installation ends, without an explicit path the vault is
    untouched and the file system too unless the record's name is a plain file
    name; then at every point the only file affected is the one of that name
    under [~/.ssh], where nobody but the owner can read any of the key, and
    on success it holds the key and existed before only if forced. *)
Theorem default_install_confined name force home (c c' : client) r :
  home_dir env = Some home → (∀ to, now (m_fs (c_net c)) !! path_join home ".ssh" ≠ Some (Link to)) →
  key_cmd env rng (KeyCmd.Install name None force) c = (c', r) →
  let before := m_fs (c_net c) in let after := m_fs (c_net c') in
  c_world c' = c_world c ∧
  (after = before ∧ r ≠ Ok tt ∨
   ∃ old k, find_record (c_world c).2 Kind.PrivateKey "name" name = Some old ∧ payload old = Some k ∧
     safe_key_name (priv_name k) = Ok (priv_name k) ∧
     let out := home ++ [".ssh"; priv_name k] in
     (∃ new, passed before after new ∧ Forall (guarded out (key_pem k) (now before)) new) ∧
     (r = Ok tt → now after !! out = Some (File 384 (key_pem k)) ∧ (force = false → now before !! out = None))).
Proof.
  intros Hhome Hlink Hrun before after. cbn [key_cmd] in Hrun. unfold sbind at 1 in Hrun.
  destruct (found _ _ _ _ c) as [c1 [k|e]] eqn:E1; pose proof (found_same _ _ _ _ _ _ _ E1) as ->.
  2: { injection Hrun as <- <-. split; [done | by left]. }
  destruct (found_ok _ _ _ _ _ _ _ E1) as [_ (old & Hfr & Hp)].
  unfold sbind at 1, slift, install_path in Hrun. rewrite Hhome in Hrun.
  destruct (safe_key_name (priv_name k)) as [n|e] eqn:Es; cbn [res_map_err res_bind ok_or] in Hrun.
  2: { injection Hrun as <- <-. split; [done | by left]. }
  pose proof (proj1 (safe_key_name_ok _ _) Es) as (-> & He & Hd & Hs & _).
  assert (Hdot : priv_name k ≠ ".") by (intros E; by rewrite E in Hd).
  assert (Hout : path_join (path_join home ".ssh") (priv_name k) = home ++ [".ssh"; priv_name k]).
  { rewrite join_plain by done. change (path_join home ".ssh") with (home ++ [".ssh"]). by rewrite <- (assoc_L (++)). }
  rewrite Hout in Hrun. unfold sbind, on_machine, on_fs in Hrun. cbn [c_net] in Hrun.
  destruct (write_private_key _ _ _ _ (m_fs (c_net c))) as [fs r1] eqn:Ew.
  assert (Hpar : ∀ d to, parent (home ++ [".ssh"; priv_name k]) = Some d → now (m_fs (c_net c)) !! d ≠ Some (Link to)).
  { intros d to. change [".ssh"; priv_name k] with ([".ssh"] ++ [priv_name k]). rewrite (assoc_L (++)), parent_snoc.
    intros [= <-]. apply Hlink. }
  destruct (triple_write (env_umask env) _ (key_pem k) force _ Hpar _ _ _ eq_refl Ew) as (l & Hl & Hf & Hq).
  assert (Hc' : c_world c' = c_world c ∧ m_fs (c_net c') = fs ∧ (r = Ok tt → r1 = Ok tt)).
  { destruct r1 as [[]|e]; [|injection Hrun as <- <-; by split_and!].
    unfold println, on_machine, say in Hrun. injection Hrun as <- <-. by split_and!. }
  destruct Hc' as (Hworld & Hfs & Hres). split; [done|]. right. exists old, k. cbv zeta. split_and!; try done.
  - exists l. unfold before, after. by rewrite Hfs.
  - intros Hr. unfold after. rewrite Hfs. exact (Hq tt (Hres Hr)).
Qed.
End cli_props.
